(** * CatFlap: a shallow embedding of [src/main.cpp]

    The firmware drives a two-way pet door: two Wiegand card readers
    (entry, exit), two solenoid locks and one door sensor.  This file
    embeds the control loop [loop], the frame decoder [weigandDecode],
    the access decision [checkCard], the lock procedures, the interrupt
    handlers and the configuration loader [configInit], and proves
    properties of them.

    Conventions.
    - C integers are [Z]; every store into a [uintN_t] variable is
      truncated with [u8], [u16], [u32] or [u64].  [time_t] values are
      kept as unbounded [Z] (64-bit signed on the target, no overflow
      in the arithmetic the loop performs on realistic clocks).
    - The global variables and the [static] locals of [loop] are the
      fields of [world]; calls that leave the program (ntfy, debug,
      digitalWrite, analogWrite, delay) are appended to the [trace].
    - Values the program reads from its environment (millis(),
      time(NULL), digitalRead(PIN_DOOR_SENSOR)) come from an [env],
      indexed by the source line of the call, so that two calls in one
      iteration may return different values.
    - Interrupt handlers and callbacks run between iterations of
      [loop]; preemption inside an iteration is not modelled. *)

From Stdlib Require Import ZArith List Bool String Ascii Lia DecimalString.
Import ListNotations.
Local Open Scope Z_scope.

(** ** Machine integers *)

Definition u8  (z : Z) : Z := z mod 2^8.
Definition u16 (z : Z) : Z := z mod 2^16.
Definition u32 (z : Z) : Z := z mod 2^32.
Definition u64 (z : Z) : Z := z mod 2^64.

(** [x & m] used as a C truth value. *)
Definition test (x m : Z) : bool := negb (Z.land x m =? 0).
(** [~x & m] used as a C truth value. *)
Definition ntest (x m : Z) : bool := negb (Z.land (Z.lnot x) m =? 0).

(** ** Constants of main.cpp *)

Definition MAGIC : Z := 0xd41d8cd5.
Definition CFG_NCATS : nat := 7.

Definition CFG_NTFY_ENABLE : Z := 0x01.
Definition CFG_CAT_EXIT  : Z := 0x01.
Definition CFG_CAT_ENTRY : Z := 0x02.

Definition PIN_ENTRY_SOLENOID : Z := 2.
Definition PIN_EXIT_SOLENOID  : Z := 16.

Definition WEIGAND_TIMEOUT : Z := 20.
Definition DOOR_TIMEOUT_DEFAULT : Z := 60.
Definition DOOR_SWING_TIMEOUT_DEFAULT : Z := 3.

Definition LOCK : Z := 0.
Definition OPEN : Z := 1.

Inductive direction := EXIT | ENTRY.

Definition STATE_ENTRY_WEIGAND_DONE : Z := 0x0001.
Definition STATE_EXIT_WEIGAND_DONE  : Z := 0x0002.
Definition STATE_OTA_FLASH          : Z := 0x0004.
Definition STATE_NTP_GOT_TIME       : Z := 0x0008.
Definition STATE_DOOR_TRIGGER       : Z := 0x0010.
Definition STATE_GOT_IP_ADDRESS     : Z := 0x0020.
Definition STATE_BOOTUP_NTFY        : Z := 0x0040.
Definition STATE_ENTRY_OPEN         : Z := 0x0080.
Definition STATE_EXIT_OPEN          : Z := 0x0100.
Definition STATE_ENTRY_LOCKED_OPEN  : Z := 0x0200.
Definition STATE_EXIT_LOCKED_OPEN   : Z := 0x0400.

(** ** Bit fields *)

(** The bit field [hi:lo] of [x], bits counted from 0 at the
    least-significant end. *)
Definition bits0 (x hi lo : Z) : Z := Z.shiftr x lo mod 2 ^ (hi - lo + 1).
(** The same field with bits counted from 1 at the least-significant
    end, as the specification words it. *)
Definition bits1 (x hi lo : Z) : Z := bits0 x (hi - 1) (lo - 1).

(** ** The configuration record [struct cfg]

    The program reads and writes the struct as raw bytes (EEPROM image,
    checksum), so [conf] is its byte image, one [Z] in [0, 256) per
    byte, and the members are accessors at their offsets.  The packed
    attribute is on the outer struct only: its members follow one
    another without padding, but the nested credential struct keeps its
    own layout, in which the 16-bit [id] is aligned to 2.  A slot thus
    has an unused byte after [facility] (offset 85) and one after
    [flags] (offset 89), and takes 90 bytes.  Multi-byte members are
    little-endian, as on the ESP8266. *)

Definition conf_t := list Z.

Definition SIZEOF_CFG : nat := 1054.
Definition OFF_MAGIC     : nat := 0.     (* uint32_t magic          *)
Definition OFF_HOSTNAME  : nat := 4.     (* char hostname[33]       *)
Definition OFF_SSID      : nat := 37.    (* char ssid[64]           *)
Definition OFF_WPAKEY    : nat := 101.   (* char wpakey[64]         *)
Definition OFF_NTPSERVER : nat := 165.   (* char ntpserver[64]      *)
Definition OFF_TIMEZONE  : nat := 229.   (* char timezone[32]       *)
Definition OFF_FLAGS     : nat := 261.   (* uint8_t flags           *)
Definition OFF_CAT       : nat := 262.   (* cat[CFG_NCATS]          *)
Definition SIZEOF_CAT    : nat := 90.
Definition CAT_NAME      : nat := 0.     (*   char name[20]         *)
Definition CAT_TOPIC     : nat := 20.    (*   char topic[64]        *)
Definition CAT_FACILITY  : nat := 84.    (*   uint8_t facility      *)
Definition CAT_ID        : nat := 86.    (*   uint16_t id           *)
Definition CAT_FLAGS     : nat := 88.    (*   uint8_t flags         *)
Definition OFF_NTFY      : nat := 892.   (* ntfy                    *)
Definition NTFY_URL      : nat := 0.     (*   char url[64]          *)
Definition NTFY_TOPIC    : nat := 64.    (*   char topic[64]        *)
Definition NTFY_USERNAME : nat := 128.   (*   char username[16]     *)
Definition NTFY_PASSWORD : nat := 144.   (*   char password[16]     *)
Definition OFF_CRC       : nat := 1052.  (* uint16_t crc            *)

Definition rd8 (m : list Z) (off : nat) : Z := nth off m 0.
Definition rd16 (m : list Z) (off : nat) : Z :=
  rd8 m off + 2^8 * rd8 m (off + 1).
Definition rd32 (m : list Z) (off : nat) : Z :=
  rd8 m off + 2^8 * rd8 m (off + 1) + 2^16 * rd8 m (off + 2)
  + 2^24 * rd8 m (off + 3).

(** Overwrite [m] from offset [off] on with the bytes [bs]; bytes that
    would fall past the end of [m] are dropped. *)
Fixpoint wr (m : list Z) (off : nat) (bs : list Z) : list Z :=
  match m, off with
  | [], _ => []
  | x :: m', S off' => x :: wr m' off' bs
  | x :: m', O =>
      match bs with
      | [] => m
      | b :: bs' => b :: wr m' O bs'
      end
  end.

Definition le16 (z : Z) : list Z := [z mod 2^8; (z / 2^8) mod 2^8].
Definition le32 (z : Z) : list Z :=
  [z mod 2^8; (z / 2^8) mod 2^8; (z / 2^16) mod 2^8; (z / 2^24) mod 2^8].

(** The C string that starts at the head of [m]. *)
Fixpoint cstr (m : list Z) : string :=
  match m with
  | [] => EmptyString
  | b :: m' =>
      if b =? 0 then EmptyString
      else String (ascii_of_N (Z.to_N b)) (cstr m')
  end.

Definition bytes_of_string (s : string) : list Z :=
  map (fun a => Z.of_N (N_of_ascii a)) (list_ascii_of_string s).

(** [strcpy(dst, s)]: the characters and the terminating NUL. *)
Definition strcpy (m : list Z) (off : nat) (s : string) : list Z :=
  wr m off (bytes_of_string s ++ [0]).

Definition cfg_magic (conf : conf_t) : Z := rd32 conf OFF_MAGIC.
Definition cfg_flags (conf : conf_t) : Z := rd8 conf OFF_FLAGS.
Definition cfg_crc (conf : conf_t) : Z := rd16 conf OFF_CRC.
Definition cfg_ntfy_topic (conf : conf_t) : string :=
  cstr (skipn (OFF_NTFY + NTFY_TOPIC) conf).

Definition cat_off (i : nat) : nat := OFF_CAT + i * SIZEOF_CAT.
Definition cat_name (conf : conf_t) (i : nat) : string :=
  cstr (skipn (cat_off i + CAT_NAME) conf).
Definition cat_topic (conf : conf_t) (i : nat) : string :=
  cstr (skipn (cat_off i + CAT_TOPIC) conf).
Definition cat_facility (conf : conf_t) (i : nat) : Z :=
  rd8 conf (cat_off i + CAT_FACILITY).
Definition cat_id (conf : conf_t) (i : nat) : Z :=
  rd16 conf (cat_off i + CAT_ID).
Definition cat_flags (conf : conf_t) (i : nat) : Z :=
  rd8 conf (cat_off i + CAT_FLAGS).

(** The C layout rules, to check the offsets above against the
    declaration of the struct: a member goes to the next multiple of
    its alignment, and the size of a struct is rounded up to its own
    alignment, the largest of its members'.  Members are given as
    (size, alignment). *)
Definition alignUp (off a : nat) : nat := (off + a - 1) / a * a.

Fixpoint layout (off : nat) (ms : list (nat * nat)) : list nat * nat :=
  match ms with
  | [] => ([], off)
  | (size, a) :: ms' =>
      (alignUp off a :: fst (layout (alignUp off a + size) ms'),
       snd (layout (alignUp off a + size) ms'))
  end.

Definition structSize (ms : list (nat * nat)) : nat :=
  alignUp (snd (layout 0 ms)) (fold_right Nat.max 1%nat (map snd ms)).

(** A credential slot, which is not packed: name, topic, facility, id,
    flags. *)
Definition catMembers : list (nat * nat) :=
  [(20, 1); (64, 1); (1, 1); (2, 2); (1, 1)]%nat.

(** The record, whose members all have alignment 1 under the packed
    attribute: magic, hostname, ssid, wpakey, ntpserver, timezone,
    flags, cat, the four strings of ntfy, crc. *)
Definition cfgMembers : list (nat * nat) :=
  [(4, 1); (33, 1); (64, 1); (64, 1); (64, 1); (32, 1); (1, 1);
   (CFG_NCATS * structSize catMembers, 1);
   (64, 1); (64, 1); (16, 1); (16, 1); (2, 1)]%nat.

(** ** Observable events *)

Inductive message :=
| MsgBootUp
| MsgEntryDenied (name : string)          (* "Entry denied for %s" *)
| MsgExitDenied (name : string)           (* "Exit denied for %s"  *)
| MsgEntry (name : string)                (* "%s Entry"            *)
| MsgExit (name : string)                 (* "%s Exit"             *)
| MsgUnknownCard (facility card : Z)      (* "Unknown Card: ..."   *)
| MsgUnknownFormat (bitCount : Z)         (* "Unknown card format %d" *)
| MsgSwingEntry
| MsgSwingExit
| MsgLockedOpenEntry
| MsgLockedOpenExit
| MsgLockEntry
| MsgLockExit
| MsgSettingsCorrupted
| MsgWebNoMemory.                         (* "WEB / failed to allocate memory" *)

(** [Ntfy] is the HTTP POST that [ntfy] sends (its title is always
    [WiFi.getHostname()] and is left out); [Debug] is a line on the
    serial log; the other three are the pin and timing calls of the
    lock procedures and of the loop. *)
Inductive event :=
| Ntfy (topic : string) (tags : string) (priority : Z) (msg : message)
| Debug (msg : message)
| DigitalWrite (pin level : Z)
| AnalogWrite (pin duty : Z)
| Delay (ms : Z).

(** ** Program state *)

#[projections(primitive)]
Record world := mkWorld {
  state : Z;                 (* volatile uint16_t *)
  entryDataBits : Z;         (* volatile uint64_t *)
  entryBitCount : Z;         (* volatile uint8_t  *)
  entryLastBit : Z;          (* volatile u_long   *)
  exitDataBits : Z;
  exitBitCount : Z;
  exitLastBit : Z;
  doorTrigger : Z;           (* volatile u_long   *)
  catInOut : Z;              (* uint8_t           *)
  catTime : list Z;          (* time_t [CFG_NCATS] *)
  entryCloseAt : Z;          (* static time_t of loop *)
  exitCloseAt : Z;
  entryCloseTime : Z;
  exitCloseTime : Z;
  lastFacilityCode : Z;      (* static uint8_t of loop  *)
  lastCardCode : Z;          (* static uint16_t of loop *)
  facilityCode : Z;          (* uint8_t local of loop   *)
  cardCode : Z;              (* uint16_t local of loop  *)
  trace : list event
}.

Definition set_state (v : Z) (w : world) : world :=
  mkWorld v (entryDataBits w) (entryBitCount w) (entryLastBit w)
    (exitDataBits w) (exitBitCount w) (exitLastBit w) (doorTrigger w)
    (catInOut w) (catTime w) (entryCloseAt w) (exitCloseAt w)
    (entryCloseTime w) (exitCloseTime w) (lastFacilityCode w)
    (lastCardCode w) (facilityCode w) (cardCode w) (trace w).

(** The three capture variables of the entry channel at once. *)
Definition set_entryCapture (bits count last : Z) (w : world) : world :=
  mkWorld (state w) bits count last
    (exitDataBits w) (exitBitCount w) (exitLastBit w) (doorTrigger w)
    (catInOut w) (catTime w) (entryCloseAt w) (exitCloseAt w)
    (entryCloseTime w) (exitCloseTime w) (lastFacilityCode w)
    (lastCardCode w) (facilityCode w) (cardCode w) (trace w).

Definition set_exitCapture (bits count last : Z) (w : world) : world :=
  mkWorld (state w) (entryDataBits w) (entryBitCount w) (entryLastBit w)
    bits count last (doorTrigger w)
    (catInOut w) (catTime w) (entryCloseAt w) (exitCloseAt w)
    (entryCloseTime w) (exitCloseTime w) (lastFacilityCode w)
    (lastCardCode w) (facilityCode w) (cardCode w) (trace w).

Definition set_doorTrigger (v : Z) (w : world) : world :=
  mkWorld (state w) (entryDataBits w) (entryBitCount w) (entryLastBit w)
    (exitDataBits w) (exitBitCount w) (exitLastBit w) v
    (catInOut w) (catTime w) (entryCloseAt w) (exitCloseAt w)
    (entryCloseTime w) (exitCloseTime w) (lastFacilityCode w)
    (lastCardCode w) (facilityCode w) (cardCode w) (trace w).

(** The presence ledger: [catInOut] and [catTime]. *)
Definition set_ledger (inout : Z) (times : list Z) (w : world) : world :=
  mkWorld (state w) (entryDataBits w) (entryBitCount w) (entryLastBit w)
    (exitDataBits w) (exitBitCount w) (exitLastBit w) (doorTrigger w)
    inout times (entryCloseAt w) (exitCloseAt w)
    (entryCloseTime w) (exitCloseTime w) (lastFacilityCode w)
    (lastCardCode w) (facilityCode w) (cardCode w) (trace w).

Definition set_entryCloseAt (v : Z) (w : world) : world :=
  mkWorld (state w) (entryDataBits w) (entryBitCount w) (entryLastBit w)
    (exitDataBits w) (exitBitCount w) (exitLastBit w) (doorTrigger w)
    (catInOut w) (catTime w) v (exitCloseAt w)
    (entryCloseTime w) (exitCloseTime w) (lastFacilityCode w)
    (lastCardCode w) (facilityCode w) (cardCode w) (trace w).

Definition set_exitCloseAt (v : Z) (w : world) : world :=
  mkWorld (state w) (entryDataBits w) (entryBitCount w) (entryLastBit w)
    (exitDataBits w) (exitBitCount w) (exitLastBit w) (doorTrigger w)
    (catInOut w) (catTime w) (entryCloseAt w) v
    (entryCloseTime w) (exitCloseTime w) (lastFacilityCode w)
    (lastCardCode w) (facilityCode w) (cardCode w) (trace w).

Definition set_entryCloseTime (v : Z) (w : world) : world :=
  mkWorld (state w) (entryDataBits w) (entryBitCount w) (entryLastBit w)
    (exitDataBits w) (exitBitCount w) (exitLastBit w) (doorTrigger w)
    (catInOut w) (catTime w) (entryCloseAt w) (exitCloseAt w)
    v (exitCloseTime w) (lastFacilityCode w)
    (lastCardCode w) (facilityCode w) (cardCode w) (trace w).

Definition set_exitCloseTime (v : Z) (w : world) : world :=
  mkWorld (state w) (entryDataBits w) (entryBitCount w) (entryLastBit w)
    (exitDataBits w) (exitBitCount w) (exitLastBit w) (doorTrigger w)
    (catInOut w) (catTime w) (entryCloseAt w) (exitCloseAt w)
    (entryCloseTime w) v (lastFacilityCode w)
    (lastCardCode w) (facilityCode w) (cardCode w) (trace w).

(** The Last-Credential Memo: [lastFacilityCode] and [lastCardCode]. *)
Definition set_last (fc cc : Z) (w : world) : world :=
  mkWorld (state w) (entryDataBits w) (entryBitCount w) (entryLastBit w)
    (exitDataBits w) (exitBitCount w) (exitLastBit w) (doorTrigger w)
    (catInOut w) (catTime w) (entryCloseAt w) (exitCloseAt w)
    (entryCloseTime w) (exitCloseTime w) fc cc
    (facilityCode w) (cardCode w) (trace w).

(** The locals [facilityCode] and [cardCode] of [loop]. *)
Definition set_locals (fc cc : Z) (w : world) : world :=
  mkWorld (state w) (entryDataBits w) (entryBitCount w) (entryLastBit w)
    (exitDataBits w) (exitBitCount w) (exitLastBit w) (doorTrigger w)
    (catInOut w) (catTime w) (entryCloseAt w) (exitCloseAt w)
    (entryCloseTime w) (exitCloseTime w) (lastFacilityCode w)
    (lastCardCode w) fc cc (trace w).

Definition emit (e : event) (w : world) : world :=
  mkWorld (state w) (entryDataBits w) (entryBitCount w) (entryLastBit w)
    (exitDataBits w) (exitBitCount w) (exitLastBit w) (doorTrigger w)
    (catInOut w) (catTime w) (entryCloseAt w) (exitCloseAt w)
    (entryCloseTime w) (exitCloseTime w) (lastFacilityCode w)
    (lastCardCode w) (facilityCode w) (cardCode w) (trace w ++ [e]).

(** [w] with another trace: what a procedure that only logs or
    notifies may change. *)
Definition set_trace (t : list event) (w : world) : world :=
  mkWorld (state w) (entryDataBits w) (entryBitCount w) (entryLastBit w)
    (exitDataBits w) (exitBitCount w) (exitLastBit w) (doorTrigger w)
    (catInOut w) (catTime w) (entryCloseAt w) (exitCloseAt w)
    (entryCloseTime w) (exitCloseTime w) (lastFacilityCode w)
    (lastCardCode w) (facilityCode w) (cardCode w) t.

(** What one iteration of [loop] reads from outside, by source line of
    the call.  [stack_facilityCode] and [stack_cardCode] are the
    indeterminate initial contents of the two uninitialised locals. *)
Record env := mkEnv {
  millis : nat -> Z;
  time_NULL : nat -> Z;
  digitalRead : nat -> Z;
  stack_facilityCode : Z;
  stack_cardCode : Z
}.

(** ** Sinks and lock procedures *)

Definition debug (msg : message) (w : world) : world := emit (Debug msg) w.

(** [ntfy]: returns at once unless notifications are enabled in the
    configuration, otherwise posts.  (The two [malloc] calls are taken
    to succeed.) *)
Definition ntfy (conf : conf_t) (topic tags : string) (priority : Z)
    (msg : message) (w : world) : world :=
  if ntest (cfg_flags conf) CFG_NTFY_ENABLE then w
  else emit (Ntfy topic tags priority msg) w.

Definition entryLock (w : world) : world :=
  let w := emit (DigitalWrite PIN_ENTRY_SOLENOID LOCK) w in
  let w := emit (Delay 8) w in
  let w := emit (AnalogWrite PIN_ENTRY_SOLENOID 180) w in
  let w := emit (Delay 11) w in
  let w := emit (DigitalWrite PIN_ENTRY_SOLENOID LOCK) w in
  set_state (u16 (Z.land (state w) (Z.lnot STATE_ENTRY_OPEN))) w.

Definition entryUnlock (w : world) : world :=
  let w := emit (DigitalWrite PIN_ENTRY_SOLENOID OPEN) w in
  let w := emit (Delay 30) w in
  let w := emit (AnalogWrite PIN_ENTRY_SOLENOID 180) w in
  set_state (u16 (Z.lor (state w) STATE_ENTRY_OPEN)) w.

Definition exitLock (w : world) : world :=
  let w := emit (DigitalWrite PIN_EXIT_SOLENOID LOCK) w in
  let w := emit (Delay 8) w in
  let w := emit (AnalogWrite PIN_EXIT_SOLENOID 180) w in
  let w := emit (Delay 11) w in
  let w := emit (DigitalWrite PIN_EXIT_SOLENOID LOCK) w in
  set_state (u16 (Z.land (state w) (Z.lnot STATE_EXIT_OPEN))) w.

Definition exitUnlock (w : world) : world :=
  let w := emit (DigitalWrite PIN_EXIT_SOLENOID OPEN) w in
  let w := emit (Delay 20) w in
  let w := emit (AnalogWrite PIN_EXIT_SOLENOID 50) w in
  set_state (u16 (Z.lor (state w) STATE_EXIT_OPEN)) w.

(** ** Credential lookup *)

Definition cat_matches (conf : conf_t) (fc cc : Z) (i : nat) : bool :=
  (cat_facility conf i =? fc) && (cat_id conf i =? cc).

(** The [for] loop shared by [catNumber] and [checkCard]: from index
    [i], with [n] iterations left before [i] reaches [CFG_NCATS]. *)
Fixpoint catScan (conf : conf_t) (fc cc : Z) (i n : nat) : nat :=
  match n with
  | O => i
  | S n' => if cat_matches conf fc cc i then i
            else catScan conf fc cc (S i) n'
  end.

Definition catNumber (conf : conf_t) (fc cc : Z) : nat :=
  catScan conf fc cc 0 CFG_NCATS.

Definition catName (conf : conf_t) (fc cc : Z) : string :=
  let i := catNumber conf fc cc in
  if (i =? CFG_NCATS)%nat then "Unnamed"%string else cat_name conf i.

Definition catTopic (conf : conf_t) (fc cc : Z) : string :=
  let i := catNumber conf fc cc in
  if (i =? CFG_NCATS)%nat || (String.length (cat_topic conf i) =? 0)%nat
  then cfg_ntfy_topic conf
  else cat_topic conf i.

Definition direction_eqb (a b : direction) : bool :=
  match a, b with
  | EXIT, EXIT | ENTRY, ENTRY => true
  | _, _ => false
  end.

(** [checkCard]: the C return value (-1, 0 or 1) and the world after
    the call. *)
Definition checkCard (conf : conf_t) (dir : direction) (fc cc : Z)
    (w : world) : Z * world :=
  let i := catScan conf fc cc 0 CFG_NCATS in
  if (i =? CFG_NCATS)%nat then
    let w := debug (MsgUnknownCard fc cc) w in
    let w := ntfy conf (cfg_ntfy_topic conf) "interrobang" 3
               (MsgUnknownCard fc cc) w in
    (-1, w)
  else
    (if (direction_eqb dir EXIT && test (cat_flags conf i) CFG_CAT_EXIT)
        || (direction_eqb dir ENTRY && test (cat_flags conf i) CFG_CAT_ENTRY)
     then 1 else 0, w).

(** ** Interrupt handlers *)

Definition ISR_ENTRY_D0 (now : Z) (w : world) : world :=
  if ntest (state w) STATE_ENTRY_WEIGAND_DONE then
    set_entryCapture (u64 (Z.shiftl (entryDataBits w) 1))
      (u8 (entryBitCount w + 1)) (u32 (now + WEIGAND_TIMEOUT)) w
  else w.

Definition ISR_ENTRY_D1 (now : Z) (w : world) : world :=
  if ntest (state w) STATE_ENTRY_WEIGAND_DONE then
    set_entryCapture (Z.lor (u64 (Z.shiftl (entryDataBits w) 1)) 1)
      (u8 (entryBitCount w + 1)) (u32 (now + WEIGAND_TIMEOUT)) w
  else w.

Definition ISR_EXIT_D0 (now : Z) (w : world) : world :=
  if ntest (state w) STATE_EXIT_WEIGAND_DONE then
    set_exitCapture (u64 (Z.shiftl (exitDataBits w) 1))
      (u8 (exitBitCount w + 1)) (u32 (now + WEIGAND_TIMEOUT)) w
  else w.

Definition ISR_EXIT_D1 (now : Z) (w : world) : world :=
  if ntest (state w) STATE_EXIT_WEIGAND_DONE then
    set_exitCapture (Z.lor (u64 (Z.shiftl (exitDataBits w) 1)) 1)
      (u8 (exitBitCount w + 1)) (u32 (now + WEIGAND_TIMEOUT)) w
  else w.

Definition ISR_DOOR (now : Z) (w : world) : world :=
  let w := set_doorTrigger (u32 now) w in
  set_state (u16 (Z.lor (state w) STATE_DOOR_TRIGGER)) w.

(** ** Frame decoder *)

(** [weigandDecode(&facilityCode, &cardCode, bitCount, dataBits)].  The
    two output parameters are passed in with their current contents and
    returned with their contents after the call; the first component is
    the C return value.  [*facilityCode] is a [uint8_t] and [*cardCode]
    a [uint16_t], so the stores truncate. *)
Definition weigandDecode (facilityCode cardCode bitCount dataBits : Z)
    (w : world) : bool * Z * Z * world :=
  if bitCount =? 26 then
    (true,
     u8  (Z.shiftr (Z.land dataBits 0x1FE0000) 17),
     u16 (Z.shiftr (Z.land dataBits 0x1FFFE) 1),
     w)
  else
    (false, facilityCode, cardCode, debug (MsgUnknownFormat bitCount) w).

(** ** The control loop *)

(** [l[i] = v]; the loop only stores at [i < CFG_NCATS]. *)
Fixpoint upd (l : list Z) (i : nat) (v : Z) : list Z :=
  match l, i with
  | [], _ => []
  | _ :: l', O => v :: l'
  | x :: l', S i' => x :: upd l' i' v
  end.

(** Lines 281-285. *)
Definition bootNotify (conf : conf_t) (w : world) : world :=
  if ntest (state w) STATE_BOOTUP_NTFY && test (state w) STATE_GOT_IP_ADDRESS
  then
    let w := ntfy conf (cfg_ntfy_topic conf) "facepalm" 3 MsgBootUp w in
    set_state (u16 (Z.lor (state w) STATE_BOOTUP_NTFY)) w
  else w.

(** Lines 287-290. *)
Definition pollDeadlines (e : env) (w : world) : world :=
  let w :=
    if negb (entryLastBit w =? 0) && (entryLastBit w <=? millis e 287)
    then set_state (u16 (Z.lor (state w) STATE_ENTRY_WEIGAND_DONE)) w
    else w in
  if negb (exitLastBit w =? 0) && (exitLastBit w <=? millis e 289)
  then set_state (u16 (Z.lor (state w) STATE_EXIT_WEIGAND_DONE)) w
  else w.

(** Lines 316-318 and 346-348: the capture state back to empty. *)
Definition entryCaptureReset (w : world) : world := set_entryCapture 0 0 0 w.
Definition exitCaptureReset (w : world) : world := set_exitCapture 0 0 0 w.

(** Lines 302-309: notification and ledger update of a permitted
    entry. *)
Definition entryAnnounce (conf : conf_t) (e : env) (fc cc : Z) (w : world)
  : world :=
  if negb (lastFacilityCode w =? fc) && negb (lastCardCode w =? cc) then
    let w := ntfy conf (catTopic conf fc cc) "unlock,arrow_left" 3
               (MsgEntry (catName conf fc cc)) w in
    let catNum := catNumber conf fc cc in
    if (catNum <? CFG_NCATS)%nat then
      set_ledger (u8 (Z.lor (catInOut w) (Z.shiftl 1 (Z.of_nat catNum))))
                 (upd (catTime w) catNum (time_NULL e 306)) w
    else w
  else w.

(** Lines 332-339. *)
Definition exitAnnounce (conf : conf_t) (e : env) (fc cc : Z) (w : world)
  : world :=
  if negb (lastFacilityCode w =? fc) && negb (lastCardCode w =? cc) then
    let w := ntfy conf (catTopic conf fc cc) "arrow_right,unlock" 3
               (MsgExit (catName conf fc cc)) w in
    let catNum := catNumber conf fc cc in
    if (catNum <? CFG_NCATS)%nat then
      set_ledger
        (u8 (Z.land (catInOut w) (Z.lnot (Z.shiftl 1 (Z.of_nat catNum)))))
        (upd (catTime w) catNum (time_NULL e 336)) w
    else w
  else w.

(** Lines 294-314: the [switch] on [checkCard(ENTRY, ...)]. *)
Definition entryDecide (conf : conf_t) (e : env) (fc cc : Z) (w : world)
  : world :=
  let r := checkCard conf ENTRY fc cc w in
  let w := snd r in
  if fst r =? 0 then
    let w := ntfy conf (catTopic conf fc cc) "stop_sign" 3
               (MsgEntryDenied (catName conf fc cc)) w in
    debug (MsgEntryDenied (catName conf fc cc)) w
  else if fst r =? 1 then
    let w := entryUnlock w in
    let w := set_entryCloseAt (time_NULL e 301 + DOOR_TIMEOUT_DEFAULT) w in
    let w := entryAnnounce conf e fc cc w in
    let w := set_last fc cc w in
    debug (MsgEntry (catName conf fc cc)) w
  else w.

(** Lines 324-344.  The log line of the denied case says "Entry", as
    the source does. *)
Definition exitDecide (conf : conf_t) (e : env) (fc cc : Z) (w : world)
  : world :=
  let r := checkCard conf EXIT fc cc w in
  let w := snd r in
  if fst r =? 0 then
    let w := ntfy conf (catTopic conf fc cc) "stop_sign" 3
               (MsgExitDenied (catName conf fc cc)) w in
    debug (MsgEntryDenied (catName conf fc cc)) w
  else if fst r =? 1 then
    let w := exitUnlock w in
    let w := set_exitCloseAt (time_NULL e 331 + DOOR_TIMEOUT_DEFAULT) w in
    let w := exitAnnounce conf e fc cc w in
    let w := set_last fc cc w in
    debug (MsgExit (catName conf fc cc)) w
  else w.

(** Lines 292-320. *)
Definition entryFrame (conf : conf_t) (e : env) (w : world) : world :=
  if test (state w) STATE_ENTRY_WEIGAND_DONE then
    let d := weigandDecode (facilityCode w) (cardCode w)
               (entryBitCount w) (entryDataBits w) w in
    let ok := fst (fst (fst d)) in
    let fc := snd (fst (fst d)) in
    let cc := snd (fst d) in
    let w := set_locals fc cc (snd d) in
    let w :=
      if ok && ntest (state w) STATE_EXIT_OPEN
      then entryDecide conf e fc cc w
      else w in
    let w := entryCaptureReset w in
    set_state (u16 (Z.land (state w) (Z.lnot STATE_ENTRY_WEIGAND_DONE))) w
  else w.

(** Lines 322-350. *)
Definition exitFrame (conf : conf_t) (e : env) (w : world) : world :=
  if test (state w) STATE_EXIT_WEIGAND_DONE then
    let d := weigandDecode (facilityCode w) (cardCode w)
               (exitBitCount w) (exitDataBits w) w in
    let ok := fst (fst (fst d)) in
    let fc := snd (fst (fst d)) in
    let cc := snd (fst d) in
    let w := set_locals fc cc (snd d) in
    let w :=
      if ok && ntest (state w) STATE_ENTRY_OPEN
      then exitDecide conf e fc cc w
      else w in
    let w := exitCaptureReset w in
    set_state (u16 (Z.land (state w) (Z.lnot STATE_EXIT_WEIGAND_DONE))) w
  else w.

(** Lines 351-361. *)
Definition doorSwing (e : env) (w : world) : world :=
  if test (state w) STATE_DOOR_TRIGGER then
    let w :=
      if test (state w) STATE_ENTRY_OPEN then
        let w := debug MsgSwingEntry w in
        set_entryCloseAt (time_NULL e 354 + DOOR_SWING_TIMEOUT_DEFAULT) w
      else w in
    let w :=
      if test (state w) STATE_EXIT_OPEN then
        let w := debug MsgSwingExit w in
        set_exitCloseAt (time_NULL e 358 + DOOR_SWING_TIMEOUT_DEFAULT) w
      else w in
    set_state (u16 (Z.land (state w) (Z.lnot STATE_DOOR_TRIGGER))) w
  else w.

(** Line 362, the condition of the entry locked-open detection. *)
Definition entryLockedOpenCond (e : env) (w : world) : bool :=
  ntest (state w) STATE_ENTRY_OPEN
  && ntest (state w) STATE_ENTRY_LOCKED_OPEN
  && (time_NULL e 362 - entryCloseTime w <? 2)
  && negb (digitalRead e 362 =? 0).

(** Lines 362-367. *)
Definition entryLockedOpen (conf : conf_t) (e : env) (w : world) : world :=
  if entryLockedOpenCond e w then
    let w := entryUnlock w in
    let w := ntfy conf (cfg_ntfy_topic conf) "lock,unlock" 3
               MsgLockedOpenEntry w in
    let w := debug MsgLockedOpenEntry w in
    set_state (u16 (Z.lor (state w) STATE_ENTRY_LOCKED_OPEN)) w
  else w.

(** Line 368. *)
Definition exitLockedOpenCond (e : env) (w : world) : bool :=
  ntest (state w) STATE_EXIT_OPEN
  && ntest (state w) STATE_EXIT_LOCKED_OPEN
  && (time_NULL e 368 - exitCloseTime w <? 2)
  && negb (digitalRead e 368 =? 0).

(** Lines 368-373. *)
Definition exitLockedOpen (conf : conf_t) (e : env) (w : world) : world :=
  if exitLockedOpenCond e w then
    let w := exitUnlock w in
    let w := ntfy conf (cfg_ntfy_topic conf) "lock,unlock" 3
               MsgLockedOpenExit w in
    let w := debug MsgLockedOpenExit w in
    set_state (u16 (Z.lor (state w) STATE_EXIT_LOCKED_OPEN)) w
  else w.

(** Lines 374-375. *)
Definition lockedOpenDelay (w : world) : world :=
  if test (state w) (Z.lor STATE_ENTRY_LOCKED_OPEN STATE_EXIT_LOCKED_OPEN)
  then emit (Delay 500) w
  else w.

(** Line 376, the condition of the entry re-lock. *)
Definition entryRelockCond (e : env) (w : world) : bool :=
  test (state w) STATE_ENTRY_OPEN
  && (digitalRead e 376 =? 0)
  && (entryCloseAt w <? time_NULL e 376).

(** Lines 376-385. *)
Definition entryRelock (e : env) (w : world) : world :=
  if entryRelockCond e w then
    let w := entryLock w in
    let w := set_last 0 0 w in
    let w :=
      if ntest (state w) STATE_ENTRY_LOCKED_OPEN
      then set_entryCloseTime (time_NULL e 381) w
      else w in
    let w := set_entryCloseAt 0 w in
    let w :=
      set_state
        (u16 (Z.land (state w)
                (Z.land (Z.lnot STATE_ENTRY_OPEN)
                        (Z.lnot STATE_ENTRY_LOCKED_OPEN)))) w in
    debug MsgLockEntry w
  else w.

(** Line 386. *)
Definition exitRelockCond (e : env) (w : world) : bool :=
  test (state w) STATE_EXIT_OPEN
  && (digitalRead e 386 =? 0)
  && (exitCloseAt w <? time_NULL e 386).

(** Lines 386-395. *)
Definition exitRelock (e : env) (w : world) : world :=
  if exitRelockCond e w then
    let w := exitLock w in
    let w := set_last 0 0 w in
    let w :=
      if ntest (state w) STATE_EXIT_LOCKED_OPEN
      then set_exitCloseTime (time_NULL e 391) w
      else w in
    let w := set_exitCloseAt 0 w in
    let w :=
      set_state
        (u16 (Z.land (state w)
                (Z.land (Z.lnot STATE_EXIT_OPEN)
                        (Z.lnot STATE_EXIT_LOCKED_OPEN)))) w in
    debug MsgLockExit w
  else w.

(** The part of an iteration that runs before the locked-open
    detection: lines 270-361.  [conf] is the configuration in force
    during the iteration ([webserver.handleClient()] at its start may
    have replaced it). *)
Definition beforeDetection (conf : conf_t) (e : env) (w : world) : world :=
  let w := set_locals (stack_facilityCode e) (stack_cardCode e) w in
  let w := bootNotify conf w in
  let w := pollDeadlines e w in
  let w := entryFrame conf e w in
  let w := exitFrame conf e w in
  doorSwing e w.

(** The rest of the iteration: lines 362-395. *)
Definition fromDetection (conf : conf_t) (e : env) (w : world) : world :=
  let w := entryLockedOpen conf e w in
  let w := exitLockedOpen conf e w in
  let w := lockedOpenDelay w in
  let w := entryRelock e w in
  exitRelock e w.

(** One iteration of [loop()]. *)
Definition loop (conf : conf_t) (e : env) (w : world) : world :=
  fromDetection conf e (beforeDetection conf e w).

(** ** Reachable states *)

(** The state when [loop] first runs: zero-initialised globals and
    statics. *)
Definition init : world :=
  mkWorld 0 0 0 0 0 0 0 0 0 (repeat 0 CFG_NCATS) 0 0 0 0 0 0 0 0 [].

(** The callbacks other than the pin interrupts, by their effect on
    [state]: WiFi got-IP and disconnect, OTA end and error (and
    [handleReboot]), NTP sync. *)
Inductive callback :=
| GotIP | Disconnected | OtaEnd | OtaError | NtpSync.

Definition runCallback (c : callback) (w : world) : world :=
  match c with
  | GotIP        => set_state (u16 (Z.lor (state w) STATE_GOT_IP_ADDRESS)) w
  | Disconnected =>
      set_state (u16 (Z.land (state w) (Z.lnot STATE_GOT_IP_ADDRESS))) w
  | OtaEnd       => set_state (u16 (Z.lor (state w) STATE_OTA_FLASH)) w
  | OtaError     =>
      set_state (u16 (Z.land (state w) (Z.lnot STATE_OTA_FLASH))) w
  | NtpSync      => set_state (u16 (Z.lor (state w) STATE_NTP_GOT_TIME)) w
  end.

Inductive isr := EntryD0 | EntryD1 | ExitD0 | ExitD1 | Door.

Definition runIsr (i : isr) (now : Z) (w : world) : world :=
  match i with
  | EntryD0 => ISR_ENTRY_D0 now w
  | EntryD1 => ISR_ENTRY_D1 now w
  | ExitD0 => ISR_EXIT_D0 now w
  | ExitD1 => ISR_EXIT_D1 now w
  | Door => ISR_DOOR now w
  end.

(** States between iterations of [loop]: any number of iterations,
    interrupts and callbacks in any order, with any readings. *)
Inductive reachable : world -> Prop :=
| reach_init : reachable init
| reach_loop conf e w : reachable w -> reachable (loop conf e w)
| reach_isr i now w : reachable w -> reachable (runIsr i now w)
| reach_callback c w : reachable w -> reachable (runCallback c w).

(** A direction is open when its [STATE_*_OPEN] flag is set (the lock
    was last driven to its open position: states Unlocked and
    LockedOpen), and locked-open when its [STATE_*_LOCKED_OPEN] flag is
    set. *)
Definition entryOpen (w : world) : bool := test (state w) STATE_ENTRY_OPEN.
Definition exitOpen (w : world) : bool := test (state w) STATE_EXIT_OPEN.
Definition entryLockedOpenFlag (w : world) : bool :=
  test (state w) STATE_ENTRY_LOCKED_OPEN.
Definition exitLockedOpenFlag (w : world) : bool :=
  test (state w) STATE_EXIT_LOCKED_OPEN.

(** The three lock states of the specification, read off the two flags
    of a direction. *)
Inductive lockState := Locked | Unlocked | LockedOpen.

Definition lockStateOf (open lockedOpen : bool) : lockState :=
  if lockedOpen then LockedOpen else if open then Unlocked else Locked.

Definition entryLockState (w : world) : lockState :=
  lockStateOf (entryOpen w) (entryLockedOpenFlag w).
Definition exitLockState (w : world) : lockState :=
  lockStateOf (exitOpen w) (exitLockedOpenFlag w).

(** At most one direction has its lock driven open. *)
Definition exclusive (w : world) : bool := negb (entryOpen w && exitOpen w).

(** ** Configuration storage *)

(** What the configuration code works on: the global [conf], the
    EEPROM cells and the serial log. *)
Record storage := mkStorage {
  st_conf : conf_t;
  st_eeprom : list Z;
  st_log : list event
}.

Section Config.

(** [FastCRC16::ccitt] of the FastCRC library, on a byte sequence;
    its [uint16_t] result is truncated where it is used. *)
Variable ccitt : list Z -> Z.
(** The characters of [WiFi.macAddress()]. *)
Variable macAddress : list Z.

Definition CRC_LEN : nat := SIZEOF_CFG - 2.

Definition crcOf (conf : conf_t) : Z := u16 (ccitt (firstn CRC_LEN conf)).

(** [String::toCharArray(buf, bufsize)]: at most [bufsize - 1]
    characters, each stored in a [char], then a NUL. *)
Definition toCharArray (m : list Z) (off bufsize : nat) (s : list Z)
  : list Z :=
  wr m off (map u8 (firstn (bufsize - 1) s) ++ [0]).

Definition configDefault : conf_t :=
  let conf := repeat 0 SIZEOF_CFG in
  let conf := toCharArray conf OFF_HOSTNAME 32 macAddress in
  let conf := wr conf OFF_MAGIC (le32 MAGIC) in
  let conf := strcpy conf OFF_TIMEZONE "EST5EDT,M3.2.0,M11.1.0" in
  let conf := strcpy conf OFF_SSID EmptyString in
  let conf := strcpy conf OFF_WPAKEY EmptyString in
  strcpy conf OFF_NTPSERVER "pool.ntp.org".

(** [conf] with its [crc] member set to the checksum of the bytes
    before it. *)
Definition configSealed (conf : conf_t) : conf_t :=
  wr conf OFF_CRC (le16 (crcOf conf)).

(** The copy loop of [configSave]: [EEPROM.write(i, *p++)] for every
    byte of the record (and [EEPROM.commit()]). *)
Definition eepromStore (conf : conf_t) (eeprom : list Z) : list Z :=
  fold_left (fun ee i => upd ee i (rd8 conf i)) (seq 0 SIZEOF_CFG) eeprom.

(** [configSave]: set [conf.crc], then copy the record to the EEPROM
    byte by byte. *)
Definition configSave (s : storage) : storage :=
  let conf := configSealed (st_conf s) in
  mkStorage conf (eepromStore conf (st_eeprom s)) (st_log s).

(** The copy loop of [configInit]. *)
Definition configLoad (eeprom : list Z) : conf_t :=
  map (fun i => u8 (rd8 eeprom i)) (seq 0 SIZEOF_CFG).

Definition configCorrupt (conf : conf_t) : bool :=
  negb (cfg_magic conf =? MAGIC) || negb (cfg_crc conf =? crcOf conf).

Definition configInit (s : storage) : storage :=
  let conf := configLoad (st_eeprom s) in
  let s := mkStorage conf (st_eeprom s) (st_log s) in
  if configCorrupt conf then
    let s := mkStorage (st_conf s) (st_eeprom s)
               (st_log s ++ [Debug MsgSettingsCorrupted]) in
    let s := mkStorage configDefault (st_eeprom s) (st_log s) in
    configSave s
  else s.

(** The default record has blank credentials and blank WiFi settings:
    every credential slot has facility 0, card 0, no permission flag
    and empty name and topic, and the SSID and the WPA key are empty
    strings. *)
Definition blankSlot (conf : conf_t) (i : nat) : Prop :=
  cat_facility conf i = 0 /\ cat_id conf i = 0 /\ cat_flags conf i = 0
  /\ cat_name conf i = EmptyString /\ cat_topic conf i = EmptyString.

Definition blankSettings (conf : conf_t) : Prop :=
  (forall i, (i < CFG_NCATS)%nat -> blankSlot conf i)
  /\ cstr (skipn OFF_SSID conf) = EmptyString
  /\ cstr (skipn OFF_WPAKEY conf) = EmptyString.

(** The other members of the default record: notifications disabled
    and unconfigured, and the two hard-coded strings. *)
Definition defaultSettings (conf : conf_t) : Prop :=
  cfg_flags conf = 0
  /\ cstr (skipn (OFF_NTFY + NTFY_URL) conf) = EmptyString
  /\ cfg_ntfy_topic conf = EmptyString
  /\ cstr (skipn (OFF_NTFY + NTFY_USERNAME) conf) = EmptyString
  /\ cstr (skipn (OFF_NTFY + NTFY_PASSWORD) conf) = EmptyString
  /\ cstr (skipn OFF_NTPSERVER conf) = "pool.ntp.org"%string
  /\ cstr (skipn OFF_TIMEZONE conf) = "EST5EDT,M3.2.0,M11.1.0"%string.

End Config.

(** CRC-16/CCITT-FALSE (polynomial 0x1021, initial value 0xFFFF, no
    reflection), the algorithm FastCRC documents for [ccitt]; used to
    run the configuration code on concrete EEPROM contents. *)
Fixpoint crc16_bits (n : nat) (crc : Z) : Z :=
  match n with
  | O => crc
  | S n' =>
      crc16_bits n'
        (if Z.testbit crc 15
         then Z.lxor (u16 (Z.shiftl crc 1)) 0x1021
         else u16 (Z.shiftl crc 1))
  end.

Definition crc16_ccitt (bs : list Z) : Z :=
  fold_left (fun crc b => crc16_bits 8 (Z.lxor crc (Z.shiftl b 8)))
            bs 0xFFFF.

(** An erased EEPROM of the size [setup] asks for, and a MAC address
    string. *)
Definition erasedEeprom : list Z := repeat 0xFF 1536.
Definition exampleMac : list Z := bytes_of_string "5C:CF:7F:12:34:56".

(** ** The decoder as the specification words it

    "facilityCode = bits[23:16], cardCode = bits[16:1]", bit positions
    counted from 1 at the least-significant bit. *)
Definition spec_facilityCode (dataBits : Z) : Z := bits1 dataBits 23 16.
Definition spec_cardCode (dataBits : Z) : Z := bits1 dataBits 16 1.

(** ** The permission flag of a slot for a direction *)

Definition permitted (conf : conf_t) (dir : direction) (i : nat) : bool :=
  match dir with
  | EXIT => test (cat_flags conf i) CFG_CAT_EXIT
  | ENTRY => test (cat_flags conf i) CFG_CAT_ENTRY
  end.

(** ** A configuration and signals for worked examples *)

Definition setCat (conf : conf_t) (i : nat) (name : string)
    (facility id flags : Z) : conf_t :=
  let conf := strcpy conf (cat_off i + CAT_NAME) name in
  let conf := wr conf (cat_off i + CAT_FACILITY) [u8 facility] in
  let conf := wr conf (cat_off i + CAT_ID) (le16 (u16 id)) in
  wr conf (cat_off i + CAT_FLAGS) [u8 flags].

(** Notifications enabled; slot 1 is (10, 500) with entry permission
    only, slot 2 is (10, 400) with both permissions, slot 3 repeats
    (10, 500) with exit permission only; the other slots are blank. *)
Definition exampleConf : conf_t :=
  let conf := repeat 0 SIZEOF_CFG in
  let conf := wr conf OFF_FLAGS [CFG_NTFY_ENABLE] in
  let conf := strcpy conf (OFF_NTFY + NTFY_TOPIC) "catflap" in
  let conf := setCat conf 1 "Tom" 10 500 CFG_CAT_ENTRY in
  let conf := setCat conf 2 "Kit" 10 400 (Z.lor CFG_CAT_ENTRY CFG_CAT_EXIT) in
  setCat conf 3 "Tom" 10 500 CFG_CAT_EXIT.

(** Readings that are the same at every call site. *)
Definition constEnv (ms t sensor : Z) : env :=
  mkEnv (fun _ => ms) (fun _ => t) (fun _ => sensor) 0 0.

(** A 26-bit Wiegand frame for a credential, parity bits zero. *)
Definition frame26 (fc cc : Z) : Z :=
  Z.lor (Z.shiftl fc 17) (Z.shiftl cc 1).

(** The reader pulses of the low [n] bits of [bits], most significant
    first, each handled by the D0 or D1 interrupt of the channel at
    time [now]. *)
Fixpoint pulses (d0 d1 : isr) (n : nat) (bits now : Z) (w : world) : world :=
  match n with
  | O => w
  | S n' =>
      let w := runIsr (if Z.testbit bits (Z.of_nat n') then d1 else d0)
                 now w in
      pulses d0 d1 n' bits now w
  end.

(** The four lock flags of a world: entry open, exit open, entry
    locked-open, exit locked-open. *)
Definition lockFlags (w : world) : bool * bool * bool * bool :=
  (entryOpen w, exitOpen w, entryLockedOpenFlag w, exitLockedOpenFlag w).

(** The flag-level invariants: a locked-open flag comes with the open
    flag of its direction. *)
Definition consistent (w : world) : bool :=
  implb (entryLockedOpenFlag w) (entryOpen w)
  && implb (exitLockedOpenFlag w) (exitOpen w).

(** In the iteration from [w], the locked-open detection does not fire
    for a direction while the opposite direction is open. *)
Definition detectionRespectsExclusion (conf : conf_t) (e : env) (w : world)
  : bool :=
  negb (entryLockedOpenCond e (beforeDetection conf e w)
        && exitOpen (beforeDetection conf e w))
  && negb (exitLockedOpenCond e
             (entryLockedOpen conf e (beforeDetection conf e w))
           && entryOpen (entryLockedOpen conf e (beforeDetection conf e w))).

(** States reachable through iterations of that kind. *)
Inductive reachableGuarded : world -> Prop :=
| guarded_init : reachableGuarded init
| guarded_loop conf e w :
    reachableGuarded w ->
    detectionRespectsExclusion conf e w = true ->
    reachableGuarded (loop conf e w)
| guarded_isr i now w :
    reachableGuarded w -> reachableGuarded (runIsr i now w)
| guarded_callback c w :
    reachableGuarded w -> reachableGuarded (runCallback c w).

(** ** A worked run

    Kit (10, 400) presents its card at the entry reader at 1000 ms; the
    next iteration (clock 100 s, door shut) unlocks the entry until
    160 s. *)
Definition kitAtEntry : world :=
  pulses EntryD0 EntryD1 26 (frame26 10 400) 1000 init.
Definition entryUnlocked : world :=
  loop exampleConf (constEnv 1020 100 0) kitAtEntry.
(** At 161 s, door shut, the entry is locked again. *)
Definition entryRelocked : world :=
  loop exampleConf (constEnv 62000 161 0) entryUnlocked.
(** Kit presents its card at the exit reader; in the next iteration, at
    162 s, the door sensor reads open. *)
Definition kitAtExit : world :=
  pulses ExitD0 ExitD1 26 (frame26 10 400) 62500 entryRelocked.
Definition bothOpen : world :=
  loop exampleConf (constEnv 62520 162 1) kitAtExit.

(** Tom (10, 500) presents its card at the entry reader while the
    entry is still unlocked after Kit's read; next iteration at 105 s. *)
Definition tomAtEntry : world :=
  pulses EntryD0 EntryD1 26 (frame26 10 500) 6000 entryUnlocked.
Definition tomProcessed : world :=
  loop exampleConf (constEnv 6020 105 0) tomAtEntry.

(** The door moves (sensor interrupt) one second after Kit's unlock. *)
Definition doorMoved : world := runIsr Door 2000 entryUnlocked.
Definition afterSwing : world :=
  loop exampleConf (constEnv 2001 101 1) doorMoved.

(** ** Capture state *)

Definition entryCapture (w : world) : Z * Z * Z :=
  (entryDataBits w, entryBitCount w, entryLastBit w).
Definition exitCapture (w : world) : Z * Z * Z :=
  (exitDataBits w, exitBitCount w, exitLastBit w).

(** A channel has a completed frame for the iteration that starts in
    [w]: its done flag is set, or its deadline is set and has passed
    (lines 287-290). *)
Definition entryFrameReady (e : env) (w : world) : bool :=
  test (state w) STATE_ENTRY_WEIGAND_DONE
  || (negb (entryLastBit w =? 0) && (entryLastBit w <=? millis e 287)).
Definition exitFrameReady (e : env) (w : world) : bool :=
  test (state w) STATE_EXIT_WEIGAND_DONE
  || (negb (exitLastBit w =? 0) && (exitLastBit w <=? millis e 289)).

(** ** Actuation events *)

(** The events that drive a solenoid pin. *)
Definition onPin (pin : Z) (ev : event) : bool :=
  match ev with
  | DigitalWrite p _ | AnalogWrite p _ => p =? pin
  | _ => false
  end.

Definition pinEvents (pin : Z) (t : list event) : list event :=
  filter (onPin pin) t.

(** What the locked-open detection of a direction appends to the trace
    when it fires: the unlock pulse, the notification (if notifications
    are enabled) and the log line. *)
Definition entryLockedOpenEvents (conf : conf_t) : list event :=
  [DigitalWrite PIN_ENTRY_SOLENOID OPEN; Delay 30;
   AnalogWrite PIN_ENTRY_SOLENOID 180]
  ++ (if ntest (cfg_flags conf) CFG_NTFY_ENABLE then []
      else [Ntfy (cfg_ntfy_topic conf) "lock,unlock" 3 MsgLockedOpenEntry])
  ++ [Debug MsgLockedOpenEntry].

Definition exitLockedOpenEvents (conf : conf_t) : list event :=
  [DigitalWrite PIN_EXIT_SOLENOID OPEN; Delay 20;
   AnalogWrite PIN_EXIT_SOLENOID 50]
  ++ (if ntest (cfg_flags conf) CFG_NTFY_ENABLE then []
      else [Ntfy (cfg_ntfy_topic conf) "lock,unlock" 3 MsgLockedOpenExit])
  ++ [Debug MsgLockedOpenExit].

(** What a re-lock appends to the trace: the lock pulse and the log
    line. *)
Definition entryRelockEvents : list event :=
  [DigitalWrite PIN_ENTRY_SOLENOID LOCK; Delay 8;
   AnalogWrite PIN_ENTRY_SOLENOID 180; Delay 11;
   DigitalWrite PIN_ENTRY_SOLENOID LOCK; Debug MsgLockEntry].

Definition exitRelockEvents : list event :=
  [DigitalWrite PIN_EXIT_SOLENOID LOCK; Delay 8;
   AnalogWrite PIN_EXIT_SOLENOID 180; Delay 11;
   DigitalWrite PIN_EXIT_SOLENOID LOCK; Debug MsgLockExit].

(** Every cell holds a byte. *)
Definition bytes (m : list Z) : Prop := Forall (fun b => 0 <= b < 2^8) m.

(** First boot on an erased EEPROM, and the storage it leaves. *)
Definition firstBoot : storage := mkStorage [] erasedEeprom [].
Definition healed : storage := configInit crc16_ccitt exampleMac firstBoot.

(** ** Wiegand frames

    The 26-bit frame a reader sends for a credential: leading parity
    bit, 8-bit facility code, 16-bit card code, trailing parity bit,
    most significant bit first. *)
Definition wiegand26 (p25 fc cc p0 : Z) : Z :=
  p25 * 2^25 + fc * 2^17 + cc * 2 + p0.

(** Lines 316-319 and 346-349: the end of frame processing. *)
Definition entryFrameEnd (w : world) : world :=
  set_state (u16 (Z.land (state w) (Z.lnot STATE_ENTRY_WEIGAND_DONE)))
    (entryCaptureReset w).
Definition exitFrameEnd (w : world) : world :=
  set_state (u16 (Z.land (state w) (Z.lnot STATE_EXIT_WEIGAND_DONE)))
    (exitCaptureReset w).

(** The credential a 26-bit buffer decodes to. *)
Definition decoded (dataBits : Z) : Z * Z :=
  (bits0 dataBits 24 17, bits0 dataBits 16 1).

(** What belongs to one direction: its two lock flags, its close
    deadline, its re-lock time and the events on its solenoid pin. *)
Definition entrySide (w : world) : bool * bool * Z * Z * list event :=
  (entryOpen w, entryLockedOpenFlag w, entryCloseAt w, entryCloseTime w,
   pinEvents PIN_ENTRY_SOLENOID (trace w)).
Definition exitSide (w : world) : bool * bool * Z * Z * list event :=
  (exitOpen w, exitLockedOpenFlag w, exitCloseAt w, exitCloseTime w,
   pinEvents PIN_EXIT_SOLENOID (trace w)).

(** The Last-Credential Memo and the presence ledger. *)
Definition memo (w : world) : Z * Z := (lastFacilityCode w, lastCardCode w).
Definition ledger (w : world) : Z * list Z := (catInOut w, catTime w).

(** The three request flags the loop consumes: frame complete (entry,
    exit) and door moved. *)
Definition requests (w : world) : bool * bool * bool :=
  (test (state w) STATE_ENTRY_WEIGAND_DONE,
   test (state w) STATE_EXIT_WEIGAND_DONE,
   test (state w) STATE_DOOR_TRIGGER).

(** The solenoid events of an unlock and of a lock. *)
Definition entryUnlockPins : list event :=
  [DigitalWrite PIN_ENTRY_SOLENOID OPEN; AnalogWrite PIN_ENTRY_SOLENOID 180].
Definition exitUnlockPins : list event :=
  [DigitalWrite PIN_EXIT_SOLENOID OPEN; AnalogWrite PIN_EXIT_SOLENOID 50].

(** Everything about the door that outlives an iteration, apart from
    the capture states and the log: both directions, the memo and the
    ledger. *)
Definition door (w : world) :=
  (entrySide w, exitSide w, memo w, ledger w).

(** The frame in the entry (exit) capture state is one the loop unlocks
    for: 26 bits, opposite direction not open, and a credential whose
    first matching slot has the permission. *)
Definition entryAdmits (conf : conf_t) (w : world) : bool :=
  (entryBitCount w =? 26)
  && negb (exitOpen w)
  && (catNumber conf (fst (decoded (entryDataBits w)))
        (snd (decoded (entryDataBits w))) <? CFG_NCATS)%nat
  && permitted conf ENTRY
       (catNumber conf (fst (decoded (entryDataBits w)))
          (snd (decoded (entryDataBits w)))).

Definition exitAdmits (conf : conf_t) (w : world) : bool :=
  (exitBitCount w =? 26)
  && negb (entryOpen w)
  && (catNumber conf (fst (decoded (exitDataBits w)))
        (snd (decoded (exitDataBits w))) <? CFG_NCATS)%nat
  && permitted conf EXIT
       (catNumber conf (fst (decoded (exitDataBits w)))
          (snd (decoded (exitDataBits w)))).

Definition entryLockPins : list event :=
  [DigitalWrite PIN_ENTRY_SOLENOID LOCK; AnalogWrite PIN_ENTRY_SOLENOID 180;
   DigitalWrite PIN_ENTRY_SOLENOID LOCK].
Definition exitLockPins : list event :=
  [DigitalWrite PIN_EXIT_SOLENOID LOCK; AnalogWrite PIN_EXIT_SOLENOID 180;
   DigitalWrite PIN_EXIT_SOLENOID LOCK].

(** The event that drives a solenoid to its locked position. *)
Definition lockWrite (pin : Z) (ev : event) : bool :=
  match ev with
  | DigitalWrite p level => (p =? pin) && (level =? LOCK)
  | _ => false
  end.

Definition lockWrites (pin : Z) (t : list event) : list event :=
  filter (lockWrite pin) t.

(** [iterated w w']: [w'] is [w] after some number of iterations of
    [loop], each with its own configuration and readings, and no
    interrupt in between. *)
Inductive iterated (w : world) : world -> Prop :=
| iterated_none : iterated w w
| iterated_loop conf e w' : iterated w w' -> iterated w (loop conf e w').

(** Both directions are locked. *)
Definition bothLocked (w : world) : bool :=
  negb (entryOpen w) && negb (exitOpen w).

(** [bytes] as a check. *)
Definition bytesb (m : list Z) : bool :=
  forallb (fun b => (0 <=? b) && (b <? 2^8)) m.

(** The sealed default record with Kit (10, 400) registered in slot 0
    for both directions. *)
Definition kitConf : conf_t :=
  setCat (st_conf healed) 0 "Kit" 10 400 (Z.lor CFG_CAT_ENTRY CFG_CAT_EXIT).

(** ** The settings form: [handleSave]

    The arguments of the request being handled, in the order the web
    server holds them.  [hasArg] and [arg] are those of
    ESP8266WebServer: the first argument of that name, and the empty
    String if there is none. *)
Definition request := list (string * string).

Fixpoint hasArg (r : request) (name : string) : bool :=
  match r with
  | [] => false
  | (n, _) :: r' => String.eqb n name || hasArg r' name
  end.

Fixpoint arg (r : request) (name : string) : string :=
  match r with
  | [] => EmptyString
  | (n, v) :: r' => if String.eqb n name then v else arg r' name
  end.

(** [snprintf(temp, 399, "<prefix>%d", i)]. *)
Definition key (prefix : string) (i : nat) : string :=
  (prefix ++ NilEmpty.string_of_uint (Nat.to_uint i))%string.

(** The bytes of a C string: up to its first NUL. *)
Fixpoint until0 (bs : list Z) : list Z :=
  match bs with
  | [] => []
  | b :: bs' => if b =? 0 then [] else b :: until0 bs'
  end.

(** [strncpy(dst, src, n)]: the characters of [src], at most [n] of
    them, then NULs up to [n] bytes in all; no NUL is written when
    [src] has [n] characters or more. *)
Definition strncpy (m : list Z) (off : nat) (src : list Z) (n : nat)
  : list Z :=
  wr m off (firstn n (until0 src ++ repeat 0 n)).

Section WebForm.

(** [FastCRC16::ccitt], [ESP8266WebServer::urlDecode] and
    [String::toInt] of the libraries. *)
Variable ccitt : list Z -> Z.
Variable urlDecode : string -> string.
Variable toInt : string -> Z.

(** [if (hasArg(name)) strncpy(field, urlDecode(arg(name)).c_str(), n)]. *)
Definition saveField (r : request) (name : string) (off n : nat)
    (conf : conf_t) : conf_t :=
  if hasArg r name
  then strncpy conf off (bytes_of_string (urlDecode (arg r name))) n
  else conf.

(** [if (hasArg(name)) flags |= mask; else flags &= ~mask;] on a
    [uint8_t] member. *)
Definition saveFlag (r : request) (name : string) (off : nat) (mask : Z)
    (conf : conf_t) : conf_t :=
  if hasArg r name
  then wr conf off [u8 (Z.lor (rd8 conf off) mask)]
  else wr conf off [u8 (Z.land (rd8 conf off) (Z.lnot mask))].

(** [value = arg(name); if (value.length() && value.toInt() >= 0 &&
    value.toInt() <= max) member = value.toInt();] *)
Definition numberOk (r : request) (name : string) (max : Z) : bool :=
  negb (String.length (arg r name) =? 0)%nat
  && (0 <=? toInt (arg r name)) && (toInt (arg r name) <=? max).

Definition saveFacility (r : request) (i : nat) (conf : conf_t) : conf_t :=
  if numberOk r (key "facility" i) 255
  then wr conf (cat_off i + CAT_FACILITY)
          [u8 (toInt (arg r (key "facility" i)))]
  else conf.

Definition saveId (r : request) (i : nat) (conf : conf_t) : conf_t :=
  if numberOk r (key "id" i) 8191
  then wr conf (cat_off i + CAT_ID) (le16 (u16 (toInt (arg r (key "id" i)))))
  else conf.

(** Lines 832-864: one turn of the loop over the credential slots. *)
Definition saveCat (r : request) (i : nat) (conf : conf_t) : conf_t :=
  saveFlag r (key "exit" i) (cat_off i + CAT_FLAGS) CFG_CAT_EXIT
    (saveFlag r (key "entry" i) (cat_off i + CAT_FLAGS) CFG_CAT_ENTRY
       (saveId r i
          (saveFacility r i
             (saveField r (key "topic" i) (cat_off i + CAT_TOPIC) 64
                (saveField r (key "catname" i) (cat_off i + CAT_NAME) 20
                   conf))))).

(** Lines 781-829: the settings outside the credential slots. *)
Definition saveGlobals (r : request) (conf : conf_t) : conf_t :=
  saveField r "passwd" (OFF_NTFY + NTFY_PASSWORD) 16
    (saveField r "user" (OFF_NTFY + NTFY_USERNAME) 16
       (saveField r "topic" (OFF_NTFY + NTFY_TOPIC) 64
          (saveField r "url" (OFF_NTFY + NTFY_URL) 64
             (saveFlag r "ntfy" OFF_FLAGS CFG_NTFY_ENABLE
                (saveField r "tz" OFF_TIMEZONE 32
                   (saveField r "ntp" OFF_NTPSERVER 32
                      (saveField r "key" OFF_WPAKEY 64
                         (saveField r "ssid" OFF_SSID 64
                            (saveField r "name" OFF_HOSTNAME 32
                               conf))))))))).

(** Lines 831-865: the slots [i], ..., [i + n - 1] in turn. *)
Fixpoint saveCats (r : request) (i n : nat) (conf : conf_t) : conf_t :=
  match n with
  | O => conf
  | S n' => saveCats r (S i) n' (saveCat r i conf)
  end.

(** The record [handleSave] builds from the request. *)
Definition formConf (r : request) (conf : conf_t) : conf_t :=
  saveCats r 0 CFG_NCATS (saveGlobals r conf).

(** [handleSave].  [allocated] tells whether [malloc(400)] returned a
    buffer.  If not (lines 776-779), the handler logs it and returns:
    nothing is changed and nothing is saved.  Otherwise it updates
    [conf] from the request and calls [configSave].  (The host name
    handed to the WiFi and mDNS libraries and the page sent back are
    left out.) *)
Definition handleSave (allocated : bool) (r : request) (s : storage)
  : storage :=
  if allocated then
    configSave ccitt
      (mkStorage (formConf r (st_conf s)) (st_eeprom s) (st_log s))
  else
    mkStorage (st_conf s) (st_eeprom s)
      (st_log s ++ [Debug MsgWebNoMemory]).

End WebForm.

Section FromDefaults.

Variable ccitt : list Z -> Z.
Variable urlDecode : string -> string.
Variable toInt : string -> Z.
Variable macAddress : list Z.

(** The configurations a device gets to from the default record by
    saving the settings form any number of times, each time with or
    without a buffer from [malloc]. *)
Inductive fromDefaults : conf_t -> Prop :=
| fromDefaults_default :
    fromDefaults (configSealed ccitt (configDefault macAddress))
| fromDefaults_save allocated r conf eeprom log :
    fromDefaults conf ->
    fromDefaults
      (st_conf (handleSave ccitt urlDecode toInt allocated r
                  (mkStorage conf eeprom log))).

End FromDefaults.

(** [f] rewrites bytes [lo], ..., [hi - 1] of a record at most, and
    keeps its length. *)
Definition within (lo hi : nat) (f : conf_t -> conf_t) : Prop :=
  forall conf,
    List.length (f conf) = List.length conf
    /\ forall k d, (k < lo \/ hi <= k)%nat -> nth k (f conf) d = nth k conf d.

(** The form of a request that registers the credential (10, 400) in
    slot 2 with the entry box ticked, and a decimal reader for the
    numbers of that request. *)
Definition kitRequest : request :=
  [("catname2", "Kit"); ("facility2", "10"); ("id2", "400");
   ("entry2", "true")]%string.

Definition exampleToInt (s : string) : Z :=
  if String.eqb s "10" then 10
  else if String.eqb s "400" then 400
  else if String.eqb s "9000" then 9000
  else 0.

(** A String without NUL characters: its C string is all of it. *)
Definition noNul (v : string) : bool :=
  forallb (fun b => negb (b =? 0)) (bytes_of_string v).

(** A request whose name for slot 0 has 21 characters. *)
Definition longNameRequest : request :=
  [("catname0", "Bartholomew-the-Great"); ("topic0", "alerts")]%string.

(** ** The status page: [handleRoot]

    A conversion to [int] (32 bits, two's complement). *)
Definition s32 (z : Z) : Z := (z + 2^31) mod 2^32 - 2^31.

(** Lines 624-626 and 668: the four numbers of the uptime line, days,
    hours, minutes and seconds, from the clock [t] and [bootTime].  The
    divisions and remainders are those of C, on [int]. *)
Definition uptime (t bootTime : Z) : Z * Z * Z * Z :=
  (Z.quot (s32 (t - bootTime)) 86400,
   Z.rem (Z.quot (Z.quot (s32 (t - bootTime)) 60) 60) 24,
   Z.rem (Z.quot (s32 (t - bootTime)) 60) 60,
   Z.rem (s32 (t - bootTime)) 60).

(** Lines 651-658: the row of the presence table for slot [i] - name,
    "In" ([true]) or "Out", time of the last announced passage - or no
    row when that time is 0. *)
Definition statusRow (conf : conf_t) (w : world) (i : nat)
  : option (string * bool * Z) :=
  if nth i (catTime w) 0 =? 0 then None
  else Some (cat_name conf i,
             test (catInOut w) (Z.shiftl 1 (Z.of_nat i)),
             nth i (catTime w) 0).

(** The announcement is made when both fields of the credential differ
    from the memo. *)
Definition announced (w : world) (fc cc : Z) : bool :=
  negb (lastFacilityCode w =? fc) && negb (lastCardCode w =? cc).

(** The notifications in a trace, and among them the boot
    notifications. *)
Definition isNtfy (ev : event) : bool :=
  match ev with
  | Ntfy _ _ _ _ => true
  | _ => false
  end.

Definition isBootNtfy (ev : event) : bool :=
  match ev with
  | Ntfy _ _ _ MsgBootUp => true
  | _ => false
  end.

Definition posts (t : list event) : list event := filter isNtfy t.
Definition bootPosts (t : list event) : list event := filter isBootNtfy t.

(** The boot notification of an iteration: sent when the boot flag is
    clear, the device has an IP address and notifications are on. *)
Definition bootPost (conf : conf_t) (w : world) : list event :=
  if negb (test (state w) STATE_BOOTUP_NTFY)
     && test (state w) STATE_GOT_IP_ADDRESS
     && test (cfg_flags conf) CFG_NTFY_ENABLE
  then [Ntfy (cfg_ntfy_topic conf) "facepalm" 3 MsgBootUp]
  else [].

(** The sensor reads open at line 362 only; 62.01 s after boot, clock
    162 s. *)
Definition flickerEnv : env :=
  mkEnv (fun _ => 62010) (fun _ => 162)
        (fun line => if (line =? 362)%nat then 1 else 0) 0 0.

(** * Properties *)

(** ** Flag arithmetic *)

Lemma u16_land_low x m : 0 <= m < 2^16 -> Z.land (u16 x) m = Z.land x m.
Proof.
  intros Hm. unfold u16. rewrite <- Z.land_ones by lia.
  rewrite <- Z.land_assoc. f_equal.
  rewrite Z.land_comm, Z.land_ones by lia. apply Z.mod_small. exact Hm.
Qed.

Lemma test_u16 x m : 0 <= m < 2^16 -> test (u16 x) m = test x m.
Proof. intros Hm. unfold test. now rewrite u16_land_low. Qed.

Lemma test_lor x a m :
  test (Z.lor x a) m = test x m || negb (Z.land a m =? 0).
Proof.
  unfold test. rewrite Z.land_lor_distr_l.
  destruct (Z.eqb_spec (Z.land x m) 0) as [E|E];
    destruct (Z.eqb_spec (Z.land a m) 0) as [F|F]; cbn.
  - rewrite E, F. reflexivity.
  - destruct (Z.eqb_spec (Z.lor (Z.land x m) (Z.land a m)) 0) as [G|G];
      [apply Z.lor_eq_0_iff in G; tauto | reflexivity].
  - destruct (Z.eqb_spec (Z.lor (Z.land x m) (Z.land a m)) 0) as [G|G];
      [apply Z.lor_eq_0_iff in G; tauto | reflexivity].
  - destruct (Z.eqb_spec (Z.lor (Z.land x m) (Z.land a m)) 0) as [G|G];
      [apply Z.lor_eq_0_iff in G; tauto | reflexivity].
Qed.

Lemma land_lnot_same m : Z.land (Z.lnot m) m = 0.
Proof.
  apply Z.bits_inj'. intros n Hn.
  rewrite Z.land_spec, Z.lnot_spec, Z.bits_0 by lia.
  now destruct (Z.testbit m n).
Qed.

Lemma land_lnot_disjoint a m : Z.land a m = 0 -> Z.land (Z.lnot a) m = m.
Proof.
  intros H. apply Z.bits_inj'. intros n Hn.
  rewrite Z.land_spec, Z.lnot_spec by lia.
  assert (T : Z.testbit (Z.land a m) n = false) by (rewrite H; apply Z.bits_0).
  rewrite Z.land_spec in T.
  destruct (Z.testbit a n), (Z.testbit m n); cbn in *; congruence.
Qed.

(** Clearing [a] leaves a mask disjoint from [a] as it was. *)
Lemma test_clear_other x a m :
  Z.land a m = 0 -> test (Z.land x (Z.lnot a)) m = test x m.
Proof.
  intros H. unfold test.
  now rewrite <- Z.land_assoc, (land_lnot_disjoint a m H).
Qed.

Lemma test_clear_same x m : test (Z.land x (Z.lnot m)) m = false.
Proof.
  unfold test. now rewrite <- Z.land_assoc, land_lnot_same, Z.land_0_r.
Qed.

(** For a one-bit mask, [~x & m] is the negation of [x & m]. *)
Lemma ntest_bit x k : 0 <= k -> ntest x (2^k) = negb (test x (2^k)).
Proof.
  intros Hk. unfold ntest, test.
  assert (B : forall y, Z.land y (2^k) = if Z.testbit y k then 2^k else 0).
  { intros y. apply Z.bits_inj'. intros n Hn.
    rewrite Z.land_spec, Z.pow2_bits_eqb by lia.
    destruct (Z.eqb_spec k n) as [->|Hne].
    - destruct (Z.testbit y n) eqn:E; cbn.
      + now rewrite Z.pow2_bits_true.
      + now rewrite Z.bits_0.
    - rewrite andb_false_r. destruct (Z.testbit y k).
      + now rewrite Z.pow2_bits_false.
      + now rewrite Z.bits_0. }
  rewrite !B, Z.lnot_spec by lia.
  assert (P : 2^k <> 0) by (apply Z.pow_nonzero; lia).
  destruct (Z.testbit x k); cbn [negb];
    destruct (Z.eqb_spec (2^k) 0); try contradiction; reflexivity.
Qed.

(** ** C2: the frame decoder *)

Lemma field_of_mask x lo n :
  0 <= lo -> 0 <= n ->
  Z.shiftr (Z.land x (Z.shiftl (Z.ones n) lo)) lo = Z.shiftr x lo mod 2^n.
Proof.
  intros Hlo Hn.
  rewrite Z.shiftr_land, Z.shiftr_shiftl_l, Z.sub_diag, Z.shiftl_0_r by lia.
  apply Z.land_ones. exact Hn.
Qed.

(** C2 (as amended).  For every bit count, buffer and prior contents of
    the two output variables: when the bit count is 26 the decoder
    succeeds with facilityCode = bits 24..17 and cardCode = bits 16..1
    of the buffer, counted from 0 at the least-significant bit (bits
    25..18 and 17..2 counted from 1), and logs nothing; for every other
    bit count it returns false, leaves both output variables as they
    were and logs the unknown format. *)
Theorem C2_weigandDecode_fields :
  forall facilityCode cardCode bitCount dataBits w,
    weigandDecode facilityCode cardCode bitCount dataBits w =
      (if bitCount =? 26
       then (true, bits0 dataBits 24 17, bits0 dataBits 16 1, w)
       else (false, facilityCode, cardCode,
             debug (MsgUnknownFormat bitCount) w))
    /\ bits0 dataBits 24 17 = bits1 dataBits 25 18
    /\ bits0 dataBits 16 1 = bits1 dataBits 17 2.
Proof.
  intros fc cc n x w. split; [|split; reflexivity].
  unfold weigandDecode. destruct (n =? 26); [|reflexivity].
  unfold bits0, u8, u16.
  change 0x1FE0000 with (Z.shiftl (Z.ones 8) 17).
  change 0x1FFFE with (Z.shiftl (Z.ones 16) 1).
  rewrite !field_of_mask by lia.
  change (24 - 17 + 1) with 8. change (16 - 1 + 1) with 16.
  now rewrite !Z.mod_mod by lia.
Qed.

(** C2 as stated fails: on the 26-bit frame 0x1010001 the decoder
    returns facility 128 and card 32768, while bits[23:16] and
    bits[16:1] counted from 1 are 2 and 1 (and bits[23:16] counted from
    0 is 1). *)
Lemma C2_counterexample :
  weigandDecode 0 0 26 0x1010001 init = (true, 128, 32768, init)
  /\ spec_facilityCode 0x1010001 = 2
  /\ spec_cardCode 0x1010001 = 1
  /\ bits0 0x1010001 23 16 = 1
  /\ weigandDecode 0 0 26 0x1010001 init <>
       (true, spec_facilityCode 0x1010001, spec_cardCode 0x1010001, init).
Proof. repeat split; try reflexivity. vm_compute. discriminate. Qed.

(** ** C6, C5: the access decision *)

Lemma catScan_none conf fc cc n : forall i,
  (forall k, (i <= k < i + n)%nat -> cat_matches conf fc cc k = false) ->
  catScan conf fc cc i n = (i + n)%nat.
Proof.
  induction n as [|n IH]; intros i H; cbn [catScan].
  - lia.
  - rewrite (H i) by lia. rewrite IH; [lia|].
    intros k Hk. apply H. lia.
Qed.

Lemma catScan_first conf fc cc n : forall i k,
  (i <= k < i + n)%nat ->
  cat_matches conf fc cc k = true ->
  (forall j, (i <= j < k)%nat -> cat_matches conf fc cc j = false) ->
  catScan conf fc cc i n = k.
Proof.
  induction n as [|n IH]; intros i k Hk Hm Hfirst; cbn [catScan].
  - lia.
  - destruct (cat_matches conf fc cc i) eqn:E.
    + destruct (Nat.eq_dec i k) as [->|Hne]; [reflexivity|].
      rewrite (Hfirst i) in E by lia. discriminate.
    + assert (i <> k) by (intros ->; congruence).
      apply IH; [lia | exact Hm | intros j Hj; apply Hfirst; lia].
Qed.

Lemma catScan_bound conf fc cc n : forall i,
  (i <= catScan conf fc cc i n <= i + n)%nat.
Proof.
  induction n as [|n IH]; intros i; cbn [catScan]; [lia|].
  destruct (cat_matches conf fc cc i); [lia|].
  specialize (IH (S i)). lia.
Qed.

Lemma catScan_hit conf fc cc n : forall i,
  catScan conf fc cc i n <> (i + n)%nat ->
  cat_matches conf fc cc (catScan conf fc cc i n) = true.
Proof.
  induction n as [|n IH]; intros i; cbn [catScan]; [lia|].
  destruct (cat_matches conf fc cc i) eqn:E; [now rewrite E|].
  intros H. apply IH. lia.
Qed.

(** C6.  For every configuration, direction and credential: when no
    slot 0..6 matches (facility, card), [checkCard] returns -1
    (Unknown); when slot [i] matches and no earlier slot does, it
    returns 1 (Permit) if slot [i] carries the permission flag of the
    direction and 0 (Deny) otherwise, whatever later slots hold. *)
Theorem C6_checkCard_first_match :
  forall conf dir fc cc w,
    ((forall i, (i < CFG_NCATS)%nat -> cat_matches conf fc cc i = false) ->
     fst (checkCard conf dir fc cc w) = -1)
    /\
    (forall i, (i < CFG_NCATS)%nat ->
       cat_matches conf fc cc i = true ->
       (forall j, (j < i)%nat -> cat_matches conf fc cc j = false) ->
       fst (checkCard conf dir fc cc w) =
         if permitted conf dir i then 1 else 0).
Proof.
  intros conf dir fc cc w. split.
  - intros H. unfold checkCard.
    rewrite catScan_none by (intros k Hk; apply H; lia).
    reflexivity.
  - intros i Hi Hm Hfirst. unfold checkCard.
    rewrite (catScan_first conf fc cc CFG_NCATS 0 i)
      by (try assumption; try lia; intros j Hj; apply Hfirst; lia).
    destruct (Nat.eqb_spec i CFG_NCATS) as [->|_]; [lia|].
    cbn [fst]. unfold permitted.
    destruct dir; cbn [direction_eqb andb orb];
      [now rewrite orb_false_r | reflexivity].
Qed.

(** C6 at work: (10, 500) sits in slots 1 and 3 of [exampleConf]; the
    entry decision is taken from slot 1 (Permit) and the exit decision
    too (Deny), although slot 3 would permit the exit; (99, 1) is in no
    slot. *)
Lemma C6_checkCard_first_match_witness :
  fst (checkCard exampleConf ENTRY 10 500 init) = 1
  /\ fst (checkCard exampleConf EXIT 10 500 init) = 0
  /\ fst (checkCard exampleConf EXIT 99 1 init) = -1.
Proof.
  split; [|split].
  - apply (proj2 (C6_checkCard_first_match exampleConf ENTRY 10 500 init) 1%nat).
    + unfold CFG_NCATS; lia.
    + reflexivity.
    + intros j Hj. assert (j = 0%nat) as -> by lia. reflexivity.
  - apply (proj2 (C6_checkCard_first_match exampleConf EXIT 10 500 init) 1%nat).
    + unfold CFG_NCATS; lia.
    + reflexivity.
    + intros j Hj. assert (j = 0%nat) as -> by lia. reflexivity.
  - apply (proj1 (C6_checkCard_first_match exampleConf EXIT 99 1 init)).
    intros i Hi. unfold CFG_NCATS in Hi.
    do 7 (destruct i as [|i]; [reflexivity|]). lia.
Defined.

(** C5 (as amended).  [checkCard] leaves every program variable as it
    was (flags, capture state, ledger, memo, deadlines): the world it
    returns differs from the one it was given at most in the trace.
    When it returns 0 or 1 (Deny, Permit) the trace is unchanged too.
    When it returns -1 (Unknown) it has itself logged "Unknown Card" and
    called [ntfy] with that message on the default topic. *)
Theorem C5_checkCard_effects :
  forall conf dir fc cc w,
    let r := checkCard conf dir fc cc w in
    snd r = set_trace (trace (snd r)) w
    /\ snd r =
         (if fst r =? -1
          then ntfy conf (cfg_ntfy_topic conf) "interrobang" 3
                 (MsgUnknownCard fc cc) (debug (MsgUnknownCard fc cc) w)
          else w).
Proof.
  intros conf dir fc cc w. unfold checkCard.
  destruct (catScan conf fc cc 0 CFG_NCATS =? CFG_NCATS)%nat; cbn [fst snd].
  - split; [|reflexivity].
    unfold ntfy, debug. destruct (ntest (cfg_flags conf) CFG_NTFY_ENABLE);
      reflexivity.
  - split; [now destruct w|].
    now destruct (_ || _).
Qed.

(** C5 as stated fails: for a credential in no slot, with notifications
    enabled, [checkCard] itself posts the "Unknown Card" notification. *)
Lemma C5_counterexample :
  checkCard exampleConf ENTRY 99 1 init =
    (-1, set_trace [Debug (MsgUnknownCard 99 1);
                    Ntfy "catflap" "interrobang" 3 (MsgUnknownCard 99 1)]
           init)
  /\ trace (snd (checkCard exampleConf ENTRY 99 1 init)) <> trace init.
Proof. split; [reflexivity | vm_compute; discriminate]. Qed.

(** ** The lock flags through one iteration *)

Lemma ntest_flag x m k : m = 2^k -> 0 <= k -> ntest x m = negb (test x m).
Proof. intros -> Hk. now apply ntest_bit. Qed.

Lemma ntest_ENTRY_OPEN x :
  ntest x STATE_ENTRY_OPEN = negb (test x STATE_ENTRY_OPEN).
Proof. apply (ntest_flag x _ 7); [reflexivity | lia]. Qed.

Lemma ntest_EXIT_OPEN x :
  ntest x STATE_EXIT_OPEN = negb (test x STATE_EXIT_OPEN).
Proof. apply (ntest_flag x _ 8); [reflexivity | lia]. Qed.

Lemma ntest_ENTRY_LOCKED_OPEN x :
  ntest x STATE_ENTRY_LOCKED_OPEN = negb (test x STATE_ENTRY_LOCKED_OPEN).
Proof. apply (ntest_flag x _ 9); [reflexivity | lia]. Qed.

Lemma ntest_EXIT_LOCKED_OPEN x :
  ntest x STATE_EXIT_LOCKED_OPEN = negb (test x STATE_EXIT_LOCKED_OPEN).
Proof. apply (ntest_flag x _ 10); [reflexivity | lia]. Qed.

Lemma ntest_ENTRY_WEIGAND_DONE x :
  ntest x STATE_ENTRY_WEIGAND_DONE = negb (test x STATE_ENTRY_WEIGAND_DONE).
Proof. apply (ntest_flag x _ 0); [reflexivity | lia]. Qed.

Lemma ntest_EXIT_WEIGAND_DONE x :
  ntest x STATE_EXIT_WEIGAND_DONE = negb (test x STATE_EXIT_WEIGAND_DONE).
Proof. apply (ntest_flag x _ 1); [reflexivity | lia]. Qed.

(** Setting and clearing flags in the 16-bit [state]. *)
Lemma test_set x a m :
  0 <= m < 2^16 ->
  test (u16 (Z.lor x a)) m = test x m || negb (Z.land a m =? 0).
Proof. intros H. now rewrite test_u16, test_lor. Qed.

Lemma test_clear x a m :
  0 <= m < 2^16 -> Z.land a m = 0 ->
  test (u16 (Z.land x (Z.lnot a))) m = test x m.
Proof. intros H D. now rewrite test_u16, test_clear_other. Qed.

Lemma test_cleared x m :
  0 <= m < 2^16 -> test (u16 (Z.land x (Z.lnot m))) m = false.
Proof. intros H. now rewrite test_u16, test_clear_same. Qed.

Lemma test_clear2 x a b m :
  0 <= m < 2^16 -> Z.land a m = 0 -> Z.land b m = 0 ->
  test (u16 (Z.land x (Z.land (Z.lnot a) (Z.lnot b)))) m = test x m.
Proof.
  intros H A B.
  now rewrite test_u16, Z.land_assoc, !test_clear_other.
Qed.

Lemma test_cleared2_l x a b :
  0 <= a < 2^16 ->
  test (u16 (Z.land x (Z.land (Z.lnot a) (Z.lnot b)))) a = false.
Proof.
  intros H. rewrite test_u16 by exact H.
  rewrite (Z.land_comm (Z.lnot a)), Z.land_assoc. apply test_clear_same.
Qed.

Lemma test_cleared2_r x a b :
  0 <= b < 2^16 ->
  test (u16 (Z.land x (Z.land (Z.lnot a) (Z.lnot b)))) b = false.
Proof.
  intros H. rewrite test_u16 by exact H.
  rewrite Z.land_assoc. apply test_clear_same.
Qed.

(** Side conditions on constant masks. *)
Ltac mask_range := vm_compute; split; [discriminate | reflexivity].

(** Field projections through the setters. *)
Ltac fields :=
  cbn [state entryDataBits entryBitCount entryLastBit exitDataBits
       exitBitCount exitLastBit doorTrigger catInOut catTime entryCloseAt
       exitCloseAt entryCloseTime exitCloseTime lastFacilityCode
       lastCardCode facilityCode cardCode trace
       set_state set_entryCapture set_exitCapture set_doorTrigger
       set_ledger set_entryCloseAt set_exitCloseAt set_entryCloseTime
       set_exitCloseTime set_last set_locals set_trace emit debug
       fst snd] in *.

(** Rewrite every flag test of an updated [state] to tests of the
    original one. *)
Ltac flags :=
  repeat first
    [ rewrite ntest_ENTRY_OPEN in *
    | rewrite ntest_EXIT_OPEN in *
    | rewrite ntest_ENTRY_LOCKED_OPEN in *
    | rewrite ntest_EXIT_LOCKED_OPEN in *
    | rewrite ntest_ENTRY_WEIGAND_DONE in *
    | rewrite ntest_EXIT_WEIGAND_DONE in *
    | rewrite test_cleared by mask_range
    | rewrite test_cleared2_l by mask_range
    | rewrite test_cleared2_r by mask_range
    | rewrite test_clear by (first [mask_range | reflexivity])
    | rewrite test_clear2 by (first [mask_range | reflexivity])
    | rewrite test_set by mask_range ];
  cbn [Z.land Z.eqb Pos.land Pos.eqb negb orb andb
       STATE_ENTRY_WEIGAND_DONE STATE_EXIT_WEIGAND_DONE STATE_OTA_FLASH
       STATE_NTP_GOT_TIME STATE_DOOR_TRIGGER STATE_GOT_IP_ADDRESS
       STATE_BOOTUP_NTFY STATE_ENTRY_OPEN STATE_EXIT_OPEN
       STATE_ENTRY_LOCKED_OPEN STATE_EXIT_LOCKED_OPEN];
  rewrite ?orb_false_r, ?orb_true_r, ?andb_true_r, ?andb_false_r.

Ltac lock_flags :=
  unfold lockFlags, entryOpen, exitOpen, entryLockedOpenFlag,
    exitLockedOpenFlag in *.

Ltac break_if :=
  repeat match goal with
    | |- context [if ?c then _ else _] => destruct c eqn:?
    end.

Lemma set_locals_flags a b w : lockFlags (set_locals a b w) = lockFlags w.
Proof. reflexivity. Qed.

Lemma bootNotify_flags conf w : lockFlags (bootNotify conf w) = lockFlags w.
Proof.
  lock_flags. unfold bootNotify, ntfy. break_if; fields; flags; congruence.
Qed.

Lemma pollDeadlines_flags e w : lockFlags (pollDeadlines e w) = lockFlags w.
Proof.
  lock_flags. unfold pollDeadlines. break_if; fields; flags; congruence.
Qed.

Lemma doorSwing_flags e w : lockFlags (doorSwing e w) = lockFlags w.
Proof.
  lock_flags. unfold doorSwing. break_if; fields; flags; congruence.
Qed.

Lemma lockedOpenDelay_flags w : lockFlags (lockedOpenDelay w) = lockFlags w.
Proof. unfold lockedOpenDelay. break_if; reflexivity. Qed.

Lemma entryLockedOpen_flags conf e w :
  lockFlags (entryLockedOpen conf e w) =
    if entryLockedOpenCond e w
    then (true, exitOpen w, true, exitLockedOpenFlag w)
    else lockFlags w.
Proof.
  lock_flags. unfold entryLockedOpen, entryUnlock, ntfy.
  destruct (entryLockedOpenCond e w); [|reflexivity].
  break_if; fields; flags; congruence.
Qed.

Lemma exitLockedOpen_flags conf e w :
  lockFlags (exitLockedOpen conf e w) =
    if exitLockedOpenCond e w
    then (entryOpen w, true, entryLockedOpenFlag w, true)
    else lockFlags w.
Proof.
  lock_flags. unfold exitLockedOpen, exitUnlock, ntfy.
  destruct (exitLockedOpenCond e w); [|reflexivity].
  break_if; fields; flags; congruence.
Qed.

Lemma entryRelock_flags e w :
  lockFlags (entryRelock e w) =
    if entryRelockCond e w
    then (false, exitOpen w, false, exitLockedOpenFlag w)
    else lockFlags w.
Proof.
  lock_flags. unfold entryRelock, entryLock.
  destruct (entryRelockCond e w); [|reflexivity].
  break_if; fields; flags; congruence.
Qed.

Lemma exitRelock_flags e w :
  lockFlags (exitRelock e w) =
    if exitRelockCond e w
    then (entryOpen w, false, entryLockedOpenFlag w, false)
    else lockFlags w.
Proof.
  lock_flags. unfold exitRelock, exitLock.
  destruct (exitRelockCond e w); [|reflexivity].
  break_if; fields; flags; congruence.
Qed.


Lemma ntfy_state conf t g p m w : state (ntfy conf t g p m w) = state w.
Proof. unfold ntfy. now destruct (ntest _ _). Qed.

Lemma checkCard_state conf dir fc cc w :
  state (snd (checkCard conf dir fc cc w)) = state w.
Proof.
  unfold checkCard. destruct (_ =? _)%nat; fields; [|reflexivity].
  now rewrite ntfy_state.
Qed.

Lemma entryAnnounce_state conf e fc cc w :
  state (entryAnnounce conf e fc cc w) = state w.
Proof.
  unfold entryAnnounce. break_if; fields; now rewrite ?ntfy_state.
Qed.

Lemma exitAnnounce_state conf e fc cc w :
  state (exitAnnounce conf e fc cc w) = state w.
Proof.
  unfold exitAnnounce. break_if; fields; now rewrite ?ntfy_state.
Qed.

Lemma entryDecide_state conf e fc cc w :
  state (entryDecide conf e fc cc w) =
    if fst (checkCard conf ENTRY fc cc w) =? 1
    then u16 (Z.lor (state w) STATE_ENTRY_OPEN)
    else state w.
Proof.
  unfold entryDecide.
  destruct (Z.eqb_spec (fst (checkCard conf ENTRY fc cc w)) 0) as [E|E].
  - rewrite E. fields. now rewrite ntfy_state, checkCard_state.
  - destruct (fst (checkCard conf ENTRY fc cc w) =? 1).
    + unfold entryUnlock. fields.
      now rewrite entryAnnounce_state; fields; rewrite checkCard_state.
    + apply checkCard_state.
Qed.

Lemma exitDecide_state conf e fc cc w :
  state (exitDecide conf e fc cc w) =
    if fst (checkCard conf EXIT fc cc w) =? 1
    then u16 (Z.lor (state w) STATE_EXIT_OPEN)
    else state w.
Proof.
  unfold exitDecide.
  destruct (Z.eqb_spec (fst (checkCard conf EXIT fc cc w)) 0) as [E|E].
  - rewrite E. fields. now rewrite ntfy_state, checkCard_state.
  - destruct (fst (checkCard conf EXIT fc cc w) =? 1).
    + unfold exitUnlock. fields.
      now rewrite exitAnnounce_state; fields; rewrite checkCard_state.
    + apply checkCard_state.
Qed.

Lemma entryFrame_flags conf e w :
  exists b,
    lockFlags (entryFrame conf e w) =
      (entryOpen w || b, exitOpen w, entryLockedOpenFlag w,
       exitLockedOpenFlag w)
    /\ (b = true -> exitOpen w = false).
Proof.
  lock_flags. unfold entryFrame.
  destruct (test (state w) STATE_ENTRY_WEIGAND_DONE).
  2:{ exists false. rewrite orb_false_r. split; [reflexivity|discriminate]. }
  unfold entryCaptureReset, weigandDecode.
  destruct (entryBitCount w =? 26); fields; cbn [andb].
  - rewrite ntest_EXIT_OPEN.
    destruct (test (state w) STATE_EXIT_OPEN) eqn:X; cbn [negb].
    + exists false. fields. flags. split; [congruence|discriminate].
    + rewrite entryDecide_state. fields.
      destruct (_ =? 1).
      * exists true. flags. split; [congruence|reflexivity].
      * exists false. flags. split; [congruence|discriminate].
  - exists false. flags. split; [reflexivity|discriminate].
Qed.

Lemma exitFrame_flags conf e w :
  exists b,
    lockFlags (exitFrame conf e w) =
      (entryOpen w, exitOpen w || b, entryLockedOpenFlag w,
       exitLockedOpenFlag w)
    /\ (b = true -> entryOpen w = false).
Proof.
  lock_flags. unfold exitFrame.
  destruct (test (state w) STATE_EXIT_WEIGAND_DONE).
  2:{ exists false. rewrite orb_false_r. split; [reflexivity|discriminate]. }
  unfold exitCaptureReset, weigandDecode.
  destruct (exitBitCount w =? 26); fields; cbn [andb].
  - rewrite ntest_ENTRY_OPEN.
    destruct (test (state w) STATE_ENTRY_OPEN) eqn:X; cbn [negb].
    + exists false. fields. flags. split; [congruence|discriminate].
    + rewrite exitDecide_state. fields.
      destruct (_ =? 1).
      * exists true. flags. split; [congruence|reflexivity].
      * exists false. flags. split; [congruence|discriminate].
  - exists false. flags. split; [reflexivity|discriminate].
Qed.

Lemma runIsr_flags i now w : lockFlags (runIsr i now w) = lockFlags w.
Proof.
  lock_flags.
  destruct i; cbn [runIsr];
    unfold ISR_ENTRY_D0, ISR_ENTRY_D1, ISR_EXIT_D0, ISR_EXIT_D1, ISR_DOOR;
    break_if; fields; flags; reflexivity.
Qed.

Lemma runCallback_flags c w : lockFlags (runCallback c w) = lockFlags w.
Proof.
  lock_flags. destruct c; cbn [runCallback]; fields; flags; reflexivity.
Qed.

(** The two invariants as functions of the four lock flags. *)
Lemma consistent_flags w w' :
  lockFlags w' = lockFlags w -> consistent w' = consistent w.
Proof. unfold consistent. lock_flags. intros H. now inversion H. Qed.

Lemma exclusive_flags w w' :
  lockFlags w' = lockFlags w -> exclusive w' = exclusive w.
Proof. unfold exclusive. lock_flags. intros H. now inversion H. Qed.

(** The iteration as the composition of its phases. *)
Lemma beforeDetection_eq conf e w :
  beforeDetection conf e w =
    doorSwing e
      (exitFrame conf e
         (entryFrame conf e
            (pollDeadlines e
               (bootNotify conf
                  (set_locals (stack_facilityCode e) (stack_cardCode e)
                     w))))).
Proof. reflexivity. Qed.

Lemma fromDetection_eq conf e w :
  fromDetection conf e w =
    exitRelock e
      (entryRelock e
         (lockedOpenDelay
            (exitLockedOpen conf e (entryLockedOpen conf e w)))).
Proof. reflexivity. Qed.

Lemma loop_eq conf e w :
  loop conf e w = fromDetection conf e (beforeDetection conf e w).
Proof. reflexivity. Qed.

(** ** C10: a locked-open flag implies the open flag *)

Lemma entryFrame_consistent conf e w :
  consistent w = true -> consistent (entryFrame conf e w) = true.
Proof.
  intros H. destruct (entryFrame_flags conf e w) as (b & F & Hb).
  unfold lockFlags in F. injection F as F1 F2 F3 F4.
  unfold consistent in *. rewrite F1, F2, F3, F4.
  destruct (entryOpen w), (exitOpen w), (entryLockedOpenFlag w),
    (exitLockedOpenFlag w), b; cbn in *; congruence.
Qed.

Lemma exitFrame_consistent conf e w :
  consistent w = true -> consistent (exitFrame conf e w) = true.
Proof.
  intros H. destruct (exitFrame_flags conf e w) as (b & F & Hb).
  unfold lockFlags in F. injection F as F1 F2 F3 F4.
  unfold consistent in *. rewrite F1, F2, F3, F4.
  destruct (entryOpen w), (exitOpen w), (entryLockedOpenFlag w),
    (exitLockedOpenFlag w), b; cbn in *; congruence.
Qed.

Lemma entryLockedOpen_consistent conf e w :
  consistent w = true -> consistent (entryLockedOpen conf e w) = true.
Proof.
  intros H. pose proof (entryLockedOpen_flags conf e w) as F.
  destruct (entryLockedOpenCond e w);
    [|now rewrite (consistent_flags _ _ F)].
  unfold lockFlags in F. injection F as F1 F2 F3 F4.
  unfold consistent in *. rewrite F1, F2, F3, F4.
  destruct (entryOpen w), (exitOpen w), (entryLockedOpenFlag w),
    (exitLockedOpenFlag w); cbn in *; congruence.
Qed.

Lemma exitLockedOpen_consistent conf e w :
  consistent w = true -> consistent (exitLockedOpen conf e w) = true.
Proof.
  intros H. pose proof (exitLockedOpen_flags conf e w) as F.
  destruct (exitLockedOpenCond e w);
    [|now rewrite (consistent_flags _ _ F)].
  unfold lockFlags in F. injection F as F1 F2 F3 F4.
  unfold consistent in *. rewrite F1, F2, F3, F4.
  destruct (entryOpen w), (exitOpen w), (entryLockedOpenFlag w),
    (exitLockedOpenFlag w); cbn in *; congruence.
Qed.

Lemma entryRelock_consistent e w :
  consistent w = true -> consistent (entryRelock e w) = true.
Proof.
  intros H. pose proof (entryRelock_flags e w) as F.
  destruct (entryRelockCond e w);
    [|now rewrite (consistent_flags _ _ F)].
  unfold lockFlags in F. injection F as F1 F2 F3 F4.
  unfold consistent in *. rewrite F1, F2, F3, F4.
  destruct (entryOpen w), (exitOpen w), (entryLockedOpenFlag w),
    (exitLockedOpenFlag w); cbn in *; congruence.
Qed.

Lemma exitRelock_consistent e w :
  consistent w = true -> consistent (exitRelock e w) = true.
Proof.
  intros H. pose proof (exitRelock_flags e w) as F.
  destruct (exitRelockCond e w);
    [|now rewrite (consistent_flags _ _ F)].
  unfold lockFlags in F. injection F as F1 F2 F3 F4.
  unfold consistent in *. rewrite F1, F2, F3, F4.
  destruct (entryOpen w), (exitOpen w), (entryLockedOpenFlag w),
    (exitLockedOpenFlag w); cbn in *; congruence.
Qed.

Lemma beforeDetection_consistent conf e w :
  consistent w = true -> consistent (beforeDetection conf e w) = true.
Proof.
  intros H. rewrite beforeDetection_eq.
  rewrite (consistent_flags _ _ (doorSwing_flags _ _)).
  apply exitFrame_consistent, entryFrame_consistent.
  now rewrite (consistent_flags _ _ (pollDeadlines_flags _ _)),
    (consistent_flags _ _ (bootNotify_flags _ _)),
    (consistent_flags _ _ (set_locals_flags _ _ _)).
Qed.

Lemma fromDetection_consistent conf e w :
  consistent w = true -> consistent (fromDetection conf e w) = true.
Proof.
  intros H. rewrite fromDetection_eq.
  apply exitRelock_consistent, entryRelock_consistent.
  rewrite (consistent_flags _ _ (lockedOpenDelay_flags _)).
  now apply exitLockedOpen_consistent, entryLockedOpen_consistent.
Qed.

Lemma reachable_consistent w : reachable w -> consistent w = true.
Proof.
  induction 1.
  - reflexivity.
  - rewrite loop_eq.
    now apply fromDetection_consistent, beforeDetection_consistent.
  - now rewrite (consistent_flags _ _ (runIsr_flags _ _ _)).
  - now rewrite (consistent_flags _ _ (runCallback_flags _ _)).
Qed.

Lemma pulses_reachable d0 d1 n bits now : forall w,
  reachable w -> reachable (pulses d0 d1 n bits now w).
Proof.
  induction n as [|n IH]; intros w R; cbn [pulses]; [exact R|].
  apply IH. now apply reach_isr.
Qed.

Lemma bothOpen_reachable : reachable bothOpen.
Proof.
  unfold bothOpen, kitAtExit, entryRelocked, entryUnlocked, kitAtEntry.
  apply reach_loop, pulses_reachable, reach_loop, reach_loop,
    pulses_reachable, reach_init.
Qed.

(** C10.  In every state reachable from the initial state by iterations
    of the loop, pin interrupts and callbacks, for each direction: if
    the STATE_*_LOCKED_OPEN flag is set then the STATE_*_OPEN flag of
    the same direction is set. *)
Theorem C10_locked_open_implies_open :
  forall w, reachable w ->
    (entryLockedOpenFlag w = true -> entryOpen w = true)
    /\ (exitLockedOpenFlag w = true -> exitOpen w = true).
Proof.
  intros w R. pose proof (reachable_consistent w R) as C.
  unfold consistent in C. apply andb_prop in C. destruct C as [C1 C2].
  split; intros L; [rewrite L in C1 | rewrite L in C2]; assumption.
Qed.

(** C10 at work in the worked run: in [bothOpen] the entry direction is
    flagged locked-open, and open. *)
Lemma C10_locked_open_implies_open_witness :
  reachable bothOpen
  /\ entryLockedOpenFlag bothOpen = true
  /\ entryOpen bothOpen = true.
Proof.
  split; [exact bothOpen_reachable|]. split; [vm_compute; reflexivity|].
  apply (proj1 (C10_locked_open_implies_open bothOpen bothOpen_reachable)).
  vm_compute. reflexivity.
Defined.

(** ** C1: mutual exclusion of the two locks *)

Lemma entryFrame_exclusive conf e w :
  exclusive w = true -> exclusive (entryFrame conf e w) = true.
Proof.
  intros H. destruct (entryFrame_flags conf e w) as (b & F & Hb).
  unfold lockFlags in F. injection F as F1 F2 F3 F4.
  unfold exclusive in *. rewrite F1, F2.
  destruct (entryOpen w), (exitOpen w), b; cbn in *;
    try reflexivity; try discriminate.
  now specialize (Hb eq_refl).
Qed.

Lemma exitFrame_exclusive conf e w :
  exclusive w = true -> exclusive (exitFrame conf e w) = true.
Proof.
  intros H. destruct (exitFrame_flags conf e w) as (b & F & Hb).
  unfold lockFlags in F. injection F as F1 F2 F3 F4.
  unfold exclusive in *. rewrite F1, F2.
  destruct (entryOpen w), (exitOpen w), b; cbn in *;
    try reflexivity; try discriminate.
  now specialize (Hb eq_refl).
Qed.

Lemma entryRelock_exclusive e w :
  exclusive w = true -> exclusive (entryRelock e w) = true.
Proof.
  intros H. pose proof (entryRelock_flags e w) as F.
  destruct (entryRelockCond e w);
    [|now rewrite (exclusive_flags _ _ F)].
  unfold lockFlags in F. injection F as F1 F2 F3 F4.
  unfold exclusive. now rewrite F1.
Qed.

Lemma exitRelock_exclusive e w :
  exclusive w = true -> exclusive (exitRelock e w) = true.
Proof.
  intros H. pose proof (exitRelock_flags e w) as F.
  destruct (exitRelockCond e w);
    [|now rewrite (exclusive_flags _ _ F)].
  unfold lockFlags in F. injection F as F1 F2 F3 F4.
  unfold exclusive. rewrite F2. apply negb_true_iff, andb_false_r.
Qed.

Lemma beforeDetection_exclusive conf e w :
  exclusive w = true -> exclusive (beforeDetection conf e w) = true.
Proof.
  intros H. rewrite beforeDetection_eq.
  rewrite (exclusive_flags _ _ (doorSwing_flags _ _)).
  apply exitFrame_exclusive, entryFrame_exclusive.
  now rewrite (exclusive_flags _ _ (pollDeadlines_flags _ _)),
    (exclusive_flags _ _ (bootNotify_flags _ _)),
    (exclusive_flags _ _ (set_locals_flags _ _ _)).
Qed.

(** The detection keeps the exclusion when it does not fire while the
    opposite direction is open. *)
Lemma entryLockedOpen_exclusive conf e w :
  exclusive w = true ->
  entryLockedOpenCond e w && exitOpen w = false ->
  exclusive (entryLockedOpen conf e w) = true.
Proof.
  intros H G. pose proof (entryLockedOpen_flags conf e w) as F.
  destruct (entryLockedOpenCond e w);
    [|now rewrite (exclusive_flags _ _ F)].
  unfold lockFlags in F. injection F as F1 F2 F3 F4.
  unfold exclusive. rewrite F1, F2. cbn in G. now rewrite G.
Qed.

Lemma exitLockedOpen_exclusive conf e w :
  exclusive w = true ->
  exitLockedOpenCond e w && entryOpen w = false ->
  exclusive (exitLockedOpen conf e w) = true.
Proof.
  intros H G. pose proof (exitLockedOpen_flags conf e w) as F.
  destruct (exitLockedOpenCond e w);
    [|now rewrite (exclusive_flags _ _ F)].
  unfold lockFlags in F. injection F as F1 F2 F3 F4.
  unfold exclusive. rewrite F1, F2. cbn in G. now rewrite G.
Qed.

Lemma detectionRespectsExclusion_eq conf e w :
  detectionRespectsExclusion conf e w =
    negb (entryLockedOpenCond e (beforeDetection conf e w)
          && exitOpen (beforeDetection conf e w))
    && negb (exitLockedOpenCond e
               (entryLockedOpen conf e (beforeDetection conf e w))
             && entryOpen
                  (entryLockedOpen conf e (beforeDetection conf e w))).
Proof. reflexivity. Qed.

Lemma loop_exclusive conf e w :
  exclusive w = true ->
  detectionRespectsExclusion conf e w = true ->
  exclusive (loop conf e w) = true.
Proof.
  intros H G. rewrite detectionRespectsExclusion_eq in G.
  apply andb_prop in G. destruct G as [G1 G2].
  apply negb_true_iff in G1, G2.
  rewrite loop_eq, fromDetection_eq.
  apply exitRelock_exclusive, entryRelock_exclusive.
  rewrite (exclusive_flags _ _ (lockedOpenDelay_flags _)).
  apply exitLockedOpen_exclusive; [|exact G2].
  apply entryLockedOpen_exclusive; [|exact G1].
  now apply beforeDetection_exclusive.
Qed.

Lemma reachableGuarded_reachable w : reachableGuarded w -> reachable w.
Proof.
  induction 1; [apply reach_init | now apply reach_loop
               | now apply reach_isr | now apply reach_callback].
Qed.

Lemma pulses_guarded d0 d1 n bits now : forall w,
  reachableGuarded w -> reachableGuarded (pulses d0 d1 n bits now w).
Proof.
  induction n as [|n IH]; intros w R; cbn [pulses]; [exact R|].
  apply IH. now apply guarded_isr.
Qed.

(** C1 (as amended).  In every state reachable through iterations in
    which the locked-open detection does not fire for a direction while
    the opposite direction is open (and through any interrupts and
    callbacks), at most one direction is open: one of the two lock
    states is Locked.  Frame processing, swing extension and re-lock
    keep this by themselves. *)
Theorem C1_exclusive_without_detection :
  forall w, reachableGuarded w ->
    exclusive w = true
    /\ (entryLockState w = Locked \/ exitLockState w = Locked).
Proof.
  intros w R.
  assert (X : exclusive w = true).
  { induction R.
    - reflexivity.
    - now apply loop_exclusive.
    - now rewrite (exclusive_flags _ _ (runIsr_flags _ _ _)).
    - now rewrite (exclusive_flags _ _ (runCallback_flags _ _)). }
  split; [exact X|].
  pose proof (reachable_consistent w (reachableGuarded_reachable w R)) as C.
  unfold exclusive in X. unfold consistent in C.
  unfold entryLockState, exitLockState, lockStateOf.
  destruct (entryOpen w), (exitOpen w), (entryLockedOpenFlag w),
    (exitLockedOpenFlag w); cbn in *; try discriminate; auto.
Qed.

(** C1 (as amended) at work: after Kit's card at the entry reader the
    entry is Unlocked and the exit Locked. *)
Lemma C1_exclusive_without_detection_witness :
  reachableGuarded entryUnlocked
  /\ exclusive entryUnlocked = true
  /\ (entryLockState entryUnlocked = Locked
      \/ exitLockState entryUnlocked = Locked).
Proof.
  assert (R : reachableGuarded entryUnlocked).
  { unfold entryUnlocked, kitAtEntry.
    apply guarded_loop;
      [apply pulses_guarded, guarded_init | vm_compute; reflexivity]. }
  split; [exact R|].
  exact (C1_exclusive_without_detection entryUnlocked R).
Defined.

(** C1 as stated fails.  In the worked run the entry is re-locked at
    161 s; at 162 s Kit's card at the exit reader unlocks the exit
    (the entry is not open), and in the same iteration the door sensor
    reads open less than 2 s after the entry re-lock, so the
    locked-open detection re-unlocks the entry: the state reached has
    the entry LockedOpen and the exit Unlocked. *)
Lemma C1_counterexample :
  reachable bothOpen
  /\ entryLockState bothOpen = LockedOpen
  /\ exitLockState bothOpen = Unlocked
  /\ ~ (entryLockState bothOpen <> Locked -> exitLockState bothOpen = Locked).
Proof.
  split; [exact bothOpen_reachable|].
  split; [vm_compute; reflexivity|].
  split; [vm_compute; reflexivity|].
  intros H.
  assert (E : exitLockState bothOpen = Locked)
    by (apply H; vm_compute; discriminate).
  vm_compute in E. discriminate.
Qed.

(** ** C4: the swing extension *)

Lemma doorSwing_entryCloseAt e w :
  entryCloseAt (doorSwing e w) =
    (if test (state w) STATE_DOOR_TRIGGER && entryOpen w
     then time_NULL e 354 + DOOR_SWING_TIMEOUT_DEFAULT
     else entryCloseAt w).
Proof.
  unfold doorSwing, entryOpen.
  destruct (test (state w) STATE_DOOR_TRIGGER); [|reflexivity].
  destruct (test (state w) STATE_ENTRY_OPEN); fields;
    destruct (test (state w) STATE_EXIT_OPEN); reflexivity.
Qed.

Lemma doorSwing_exitCloseAt e w :
  exitCloseAt (doorSwing e w) =
    (if test (state w) STATE_DOOR_TRIGGER && exitOpen w
     then time_NULL e 358 + DOOR_SWING_TIMEOUT_DEFAULT
     else exitCloseAt w).
Proof.
  unfold doorSwing, exitOpen.
  destruct (test (state w) STATE_DOOR_TRIGGER); [|reflexivity].
  destruct (test (state w) STATE_ENTRY_OPEN); fields;
    destruct (test (state w) STATE_EXIT_OPEN); reflexivity.
Qed.

(** C4 (as amended).  The swing extension sets the close deadline of
    every direction that is open to exactly now + DOOR_SWING_TIMEOUT
    (3 s), whatever the stored deadline was, and leaves the deadline of
    a direction that is not open, or when no door trigger is pending,
    unchanged; so the deadline is not decreased exactly when it was at
    most now + 3 s. *)
Theorem C4_swing_sets_deadline :
  forall e w,
    entryCloseAt (doorSwing e w) =
      (if test (state w) STATE_DOOR_TRIGGER && entryOpen w
       then time_NULL e 354 + DOOR_SWING_TIMEOUT_DEFAULT
       else entryCloseAt w)
    /\ exitCloseAt (doorSwing e w) =
      (if test (state w) STATE_DOOR_TRIGGER && exitOpen w
       then time_NULL e 358 + DOOR_SWING_TIMEOUT_DEFAULT
       else exitCloseAt w)
    /\ (entryCloseAt w <=? entryCloseAt (doorSwing e w)) =
      (negb (test (state w) STATE_DOOR_TRIGGER && entryOpen w)
       || (entryCloseAt w <=? time_NULL e 354 + 3))
    /\ (exitCloseAt w <=? exitCloseAt (doorSwing e w)) =
      (negb (test (state w) STATE_DOOR_TRIGGER && exitOpen w)
       || (exitCloseAt w <=? time_NULL e 358 + 3)).
Proof.
  intros e w.
  split; [apply doorSwing_entryCloseAt|].
  split; [apply doorSwing_exitCloseAt|].
  split.
  - rewrite doorSwing_entryCloseAt.
    destruct (_ && _); cbn [negb orb]; [reflexivity|]. apply Z.leb_refl.
  - rewrite doorSwing_exitCloseAt.
    destruct (_ && _); cbn [negb orb]; [reflexivity|]. apply Z.leb_refl.
Qed.

Lemma entryUnlocked_reachable : reachable entryUnlocked.
Proof.
  unfold entryUnlocked, kitAtEntry.
  apply reach_loop, pulses_reachable, reach_init.
Qed.

(** C4 as stated fails.  In the worked run the entry is Unlocked with
    close deadline 160 s; the door moves and the next iteration runs at
    101 s: the deadline, further in the future than 101 + 3, becomes
    104 s. *)
Lemma C4_counterexample :
  reachable doorMoved
  /\ entryLockState doorMoved = Unlocked
  /\ entryCloseAt doorMoved = 160
  /\ entryCloseAt (doorSwing (constEnv 2001 101 1) doorMoved) = 104
  /\ entryCloseAt afterSwing = 104
  /\ ~ (entryCloseAt doorMoved <= entryCloseAt afterSwing).
Proof.
  split; [apply reach_isr, entryUnlocked_reachable|].
  repeat split; try (vm_compute; reflexivity).
  vm_compute. intros H. now apply H.
Qed.

(** ** C3: duplicate suppression by the last-credential memo *)

(** The announcement (notification and ledger update) is skipped as
    soon as one field of the credential equals the memo. *)
Lemma entryAnnounce_suppressed conf e fc cc w :
  lastFacilityCode w = fc \/ lastCardCode w = cc ->
  entryAnnounce conf e fc cc w = w.
Proof.
  intros [H|H]; unfold entryAnnounce; rewrite H, Z.eqb_refl;
    cbn [negb andb]; [reflexivity | now rewrite andb_false_r].
Qed.

Lemma exitAnnounce_suppressed conf e fc cc w :
  lastFacilityCode w = fc \/ lastCardCode w = cc ->
  exitAnnounce conf e fc cc w = w.
Proof.
  intros [H|H]; unfold exitAnnounce; rewrite H, Z.eqb_refl;
    cbn [negb andb]; [reflexivity | now rewrite andb_false_r].
Qed.

(** C3 fails on the code.  In the worked run the memo holds Kit's
    credential (10, 400) when Tom's card (10, 500), which differs from
    it and is permitted for entry, is read: the iteration unlocks the
    entry again and logs the entry, but sends no notification and
    leaves the ledger as it was, because the facility codes are
    equal. *)
Theorem C3_same_facility_not_announced :
  reachable tomAtEntry
  /\ (lastFacilityCode tomAtEntry, lastCardCode tomAtEntry) = (10, 400)
  /\ fst (checkCard exampleConf ENTRY 10 500 tomAtEntry) = 1
  /\ trace tomProcessed =
       trace tomAtEntry
       ++ [DigitalWrite PIN_ENTRY_SOLENOID OPEN; Delay 30;
           AnalogWrite PIN_ENTRY_SOLENOID 180; Debug (MsgEntry "Tom")]
  /\ catInOut tomProcessed = catInOut tomAtEntry
  /\ catTime tomProcessed = catTime tomAtEntry
  /\ (lastFacilityCode tomProcessed, lastCardCode tomProcessed) = (10, 500).
Proof.
  split.
  - unfold tomAtEntry. apply pulses_reachable, entryUnlocked_reachable.
  - repeat split; vm_compute; reflexivity.
Qed.

(** ** C8: the capture state after a frame is consumed *)

Lemma ntfy_world conf t g p m w :
  ntfy conf t g p m w = set_trace (trace (ntfy conf t g p m w)) w.
Proof. unfold ntfy. now destruct (ntest _ _). Qed.

Lemma checkCard_world conf dir fc cc w :
  snd (checkCard conf dir fc cc w) =
    set_trace (trace (snd (checkCard conf dir fc cc w))) w.
Proof.
  unfold checkCard. destruct (_ =? _)%nat; cbn [snd]; [|reflexivity].
  unfold ntfy. now destruct (ntest _ _).
Qed.

Lemma ntfy_entryCapture conf t g p m w :
  entryCapture (ntfy conf t g p m w) = entryCapture w.
Proof. now rewrite ntfy_world. Qed.

Lemma checkCard_entryCapture conf dir fc cc w :
  entryCapture (snd (checkCard conf dir fc cc w)) = entryCapture w.
Proof. now rewrite checkCard_world. Qed.

Lemma exitAnnounce_entryCapture conf e fc cc w :
  entryCapture (exitAnnounce conf e fc cc w) = entryCapture w.
Proof.
  unfold exitAnnounce.
  destruct (_ && _); [|reflexivity].
  destruct (_ <? _)%nat.
  - change (entryCapture (ntfy conf (catTopic conf fc cc) "arrow_right,unlock"
                            3 (MsgExit (catName conf fc cc)) w)
            = entryCapture w).
    apply ntfy_entryCapture.
  - apply ntfy_entryCapture.
Qed.

Lemma exitDecide_entryCapture conf e fc cc w :
  entryCapture (exitDecide conf e fc cc w) = entryCapture w.
Proof.
  unfold exitDecide.
  destruct (fst (checkCard conf EXIT fc cc w) =? 0).
  - change (entryCapture
              (ntfy conf (catTopic conf fc cc) "stop_sign" 3
                 (MsgExitDenied (catName conf fc cc))
                 (snd (checkCard conf EXIT fc cc w))) = entryCapture w).
    now rewrite ntfy_entryCapture, checkCard_entryCapture.
  - destruct (fst (checkCard conf EXIT fc cc w) =? 1).
    + change (entryCapture
                (exitAnnounce conf e fc cc
                   (set_exitCloseAt (time_NULL e 331 + DOOR_TIMEOUT_DEFAULT)
                      (exitUnlock (snd (checkCard conf EXIT fc cc w)))))
              = entryCapture w).
      rewrite exitAnnounce_entryCapture.
      change (entryCapture (snd (checkCard conf EXIT fc cc w))
              = entryCapture w).
      apply checkCard_entryCapture.
    + apply checkCard_entryCapture.
Qed.

Lemma exitFrame_entryCapture conf e w :
  entryCapture (exitFrame conf e w) = entryCapture w.
Proof.
  unfold exitFrame.
  destruct (test (state w) STATE_EXIT_WEIGAND_DONE); [|reflexivity].
  unfold weigandDecode.
  destruct (exitBitCount w =? 26); cbn [fst snd andb]; [|reflexivity].
  destruct (ntest _ _); [|reflexivity].
  change (entryCapture
            (exitDecide conf e
               (u8 (Z.shiftr (Z.land (exitDataBits w) 33423360) 17))
               (u16 (Z.shiftr (Z.land (exitDataBits w) 131070) 1))
               (set_locals
                  (u8 (Z.shiftr (Z.land (exitDataBits w) 33423360) 17))
                  (u16 (Z.shiftr (Z.land (exitDataBits w) 131070) 1)) w))
          = entryCapture w).
  now rewrite exitDecide_entryCapture.
Qed.

Lemma doorSwing_capture e w :
  entryCapture (doorSwing e w) = entryCapture w
  /\ exitCapture (doorSwing e w) = exitCapture w.
Proof.
  unfold entryCapture, exitCapture, doorSwing.
  break_if; fields; split; reflexivity.
Qed.

Lemma entryLockedOpen_capture conf e w :
  entryCapture (entryLockedOpen conf e w) = entryCapture w
  /\ exitCapture (entryLockedOpen conf e w) = exitCapture w.
Proof.
  unfold entryCapture, exitCapture, entryLockedOpen, entryUnlock, ntfy.
  break_if; fields; split; reflexivity.
Qed.

Lemma exitLockedOpen_capture conf e w :
  entryCapture (exitLockedOpen conf e w) = entryCapture w
  /\ exitCapture (exitLockedOpen conf e w) = exitCapture w.
Proof.
  unfold entryCapture, exitCapture, exitLockedOpen, exitUnlock, ntfy.
  break_if; fields; split; reflexivity.
Qed.

Lemma lockedOpenDelay_capture w :
  entryCapture (lockedOpenDelay w) = entryCapture w
  /\ exitCapture (lockedOpenDelay w) = exitCapture w.
Proof.
  unfold entryCapture, exitCapture, lockedOpenDelay.
  break_if; fields; split; reflexivity.
Qed.

Lemma entryRelock_capture e w :
  entryCapture (entryRelock e w) = entryCapture w
  /\ exitCapture (entryRelock e w) = exitCapture w.
Proof.
  unfold entryCapture, exitCapture, entryRelock, entryLock.
  break_if; fields; split; reflexivity.
Qed.

Lemma exitRelock_capture e w :
  entryCapture (exitRelock e w) = entryCapture w
  /\ exitCapture (exitRelock e w) = exitCapture w.
Proof.
  unfold entryCapture, exitCapture, exitRelock, exitLock.
  break_if; fields; split; reflexivity.
Qed.

Lemma fromDetection_capture conf e w :
  entryCapture (fromDetection conf e w) = entryCapture w
  /\ exitCapture (fromDetection conf e w) = exitCapture w.
Proof.
  rewrite fromDetection_eq. split.
  - now rewrite (proj1 (exitRelock_capture _ _)),
      (proj1 (entryRelock_capture _ _)),
      (proj1 (lockedOpenDelay_capture _)),
      (proj1 (exitLockedOpen_capture _ _ _)),
      (proj1 (entryLockedOpen_capture _ _ _)).
  - now rewrite (proj2 (exitRelock_capture _ _)),
      (proj2 (entryRelock_capture _ _)),
      (proj2 (lockedOpenDelay_capture _)),
      (proj2 (exitLockedOpen_capture _ _ _)),
      (proj2 (entryLockedOpen_capture _ _ _)).
Qed.

Lemma entryFrame_resets conf e w :
  test (state w) STATE_ENTRY_WEIGAND_DONE = true ->
  entryCapture (entryFrame conf e w) = (0, 0, 0).
Proof.
  intros H. unfold entryFrame. rewrite H. reflexivity.
Qed.

Lemma exitFrame_resets conf e w :
  test (state w) STATE_EXIT_WEIGAND_DONE = true ->
  exitCapture (exitFrame conf e w) = (0, 0, 0).
Proof.
  intros H. unfold exitFrame. rewrite H. reflexivity.
Qed.

(** The exit channel through the entry frame processing. *)
Lemma entryFrame_exit conf e w :
  test (state (entryFrame conf e w)) STATE_EXIT_WEIGAND_DONE =
    test (state w) STATE_EXIT_WEIGAND_DONE.
Proof.
  unfold entryFrame.
  destruct (test (state w) STATE_ENTRY_WEIGAND_DONE); [|reflexivity].
  unfold entryCaptureReset, weigandDecode.
  destruct (entryBitCount w =? 26); fields; cbn [andb]; flags; [|reflexivity].
  destruct (negb _); fields; [|reflexivity].
  rewrite entryDecide_state. fields. destruct (_ =? 1); flags; reflexivity.
Qed.

(** The done flags after the deadlines are polled. *)
Lemma pollDeadlines_entry_done e w :
  test (state (pollDeadlines e w)) STATE_ENTRY_WEIGAND_DONE =
    entryFrameReady e w.
Proof.
  unfold pollDeadlines, entryFrameReady.
  break_if; fields; flags; rewrite ?orb_false_r, ?orb_true_r; reflexivity.
Qed.

Lemma pollDeadlines_exit_done e w :
  test (state (pollDeadlines e w)) STATE_EXIT_WEIGAND_DONE =
    exitFrameReady e w.
Proof.
  unfold pollDeadlines, exitFrameReady.
  destruct (negb (entryLastBit w =? 0) && _); fields;
    destruct (negb (exitLastBit w =? 0) && _); fields; flags;
    rewrite ?orb_false_r, ?orb_true_r; reflexivity.
Qed.

Lemma set_locals_ready a b e w :
  entryFrameReady e (set_locals a b w) = entryFrameReady e w
  /\ exitFrameReady e (set_locals a b w) = exitFrameReady e w.
Proof. split; reflexivity. Qed.

Lemma bootNotify_ready conf e w :
  entryFrameReady e (bootNotify conf w) = entryFrameReady e w
  /\ exitFrameReady e (bootNotify conf w) = exitFrameReady e w.
Proof.
  unfold entryFrameReady, exitFrameReady, bootNotify, ntfy.
  destruct (_ && _); [|split; reflexivity].
  destruct (ntest (cfg_flags conf) _); fields; flags; split; reflexivity.
Qed.

(** C8.  For every configuration, readings and state: if a channel
    has a completed frame when an iteration of the loop starts (its
    done flag is set, or its deadline is set and has passed), then
    after the iteration that channel's capture state (bit buffer, bit
    count, deadline) is (0, 0, 0), whatever the decode and the decision
    were; and resetting a capture state that is already empty leaves
    the state as it is. *)
Theorem C8_capture_reset :
  forall conf e w,
    (entryFrameReady e w = true -> entryCapture (loop conf e w) = (0, 0, 0))
    /\ (exitFrameReady e w = true -> exitCapture (loop conf e w) = (0, 0, 0))
    /\ entryCaptureReset (entryCaptureReset w) = entryCaptureReset w
    /\ exitCaptureReset (exitCaptureReset w) = exitCaptureReset w
    /\ (entryCapture w = (0, 0, 0) -> entryCaptureReset w = w)
    /\ (exitCapture w = (0, 0, 0) -> exitCaptureReset w = w).
Proof.
  intros conf e w.
  split; [|split; [|split; [|split; [|split]]]]; try reflexivity.
  - intros R. rewrite loop_eq, (proj1 (fromDetection_capture _ _ _)),
      beforeDetection_eq, (proj1 (doorSwing_capture _ _)),
      exitFrame_entryCapture.
    apply entryFrame_resets. rewrite pollDeadlines_entry_done.
    now rewrite (proj1 (bootNotify_ready _ _ _)).
  - intros R. rewrite loop_eq, (proj2 (fromDetection_capture _ _ _)),
      beforeDetection_eq, (proj2 (doorSwing_capture _ _)).
    apply exitFrame_resets. rewrite entryFrame_exit, pollDeadlines_exit_done.
    now rewrite (proj2 (bootNotify_ready _ _ _)).
  - unfold entryCapture, entryCaptureReset. intros H.
    injection H as H1 H2 H3.
    transitivity (set_entryCapture (entryDataBits w) (entryBitCount w)
                    (entryLastBit w) w); [|reflexivity].
    now rewrite H1, H2, H3.
  - unfold exitCapture, exitCaptureReset. intros H.
    injection H as H1 H2 H3.
    transitivity (set_exitCapture (exitDataBits w) (exitBitCount w)
                    (exitLastBit w) w); [|reflexivity].
    now rewrite H1, H2, H3.
Qed.


(** C8 at work in the worked run: Kit's frames at the entry and at the
    exit reader are consumed by the next iteration, and the initial
    state, whose capture states are empty, is a fixed point of both
    resets. *)
Lemma C8_capture_reset_witness :
  entryFrameReady (constEnv 1020 100 0) kitAtEntry = true
  /\ entryCapture (loop exampleConf (constEnv 1020 100 0) kitAtEntry)
     = (0, 0, 0)
  /\ exitFrameReady (constEnv 62520 162 1) kitAtExit = true
  /\ exitCapture (loop exampleConf (constEnv 62520 162 1) kitAtExit)
     = (0, 0, 0)
  /\ entryCaptureReset init = init
  /\ exitCaptureReset init = init.
Proof.
  pose proof (C8_capture_reset exampleConf (constEnv 1020 100 0) kitAtEntry)
    as (E & _).
  pose proof (C8_capture_reset exampleConf (constEnv 62520 162 1) kitAtExit)
    as (_ & X & _).
  pose proof (C8_capture_reset exampleConf (constEnv 0 0 0) init)
    as (_ & _ & _ & _ & NE & NX).
  assert (RE : entryFrameReady (constEnv 1020 100 0) kitAtEntry = true)
    by (vm_compute; reflexivity).
  assert (RX : exitFrameReady (constEnv 62520 162 1) kitAtExit = true)
    by (vm_compute; reflexivity).
  split; [exact RE|]. split; [exact (E RE)|].
  split; [exact RX|]. split; [exact (X RX)|].
  split; [apply NE | apply NX]; reflexivity.
Defined.

(** ** C7: locked-open detection *)

Lemma lockState_Locked a b : lockStateOf a b = Locked -> a = false /\ b = false.
Proof. destruct a, b; cbn; intros H; try discriminate; auto. Qed.

Lemma entryLockedOpenCond_true e w :
  entryLockState w = Locked ->
  digitalRead e 362 <> 0 ->
  time_NULL e 362 - entryCloseTime w < 2 ->
  entryLockedOpenCond e w = true.
Proof.
  intros L S T. apply lockState_Locked in L. destruct L as [O F].
  unfold entryOpen in O. unfold entryLockedOpenFlag in F.
  unfold entryLockedOpenCond.
  rewrite ntest_ENTRY_OPEN, ntest_ENTRY_LOCKED_OPEN, O, F.
  cbn [negb andb]. apply andb_true_intro. split.
  - now apply Z.ltb_lt.
  - apply negb_true_iff. now apply Z.eqb_neq.
Qed.

Lemma entryLockedOpenCond_late e w :
  2 <= time_NULL e 362 - entryCloseTime w ->
  entryLockedOpenCond e w = false.
Proof.
  intros T. unfold entryLockedOpenCond.
  assert (E : (time_NULL e 362 - entryCloseTime w <? 2) = false)
    by (apply Z.ltb_ge; lia).
  rewrite E. now rewrite andb_false_r.
Qed.

Lemma entryLockedOpen_trace conf e w :
  trace (entryLockedOpen conf e w) =
    trace w ++ (if entryLockedOpenCond e w then entryLockedOpenEvents conf else []).
Proof.
  unfold entryLockedOpen, entryLockedOpenEvents, entryUnlock, ntfy.
  destruct (entryLockedOpenCond e w); [|now rewrite app_nil_r].
  destruct (ntest (cfg_flags conf) CFG_NTFY_ENABLE); fields;
    rewrite <- ?app_assoc; reflexivity.
Qed.

Lemma entryLockState_flags w w' :
  lockFlags w' = lockFlags w -> entryLockState w' = entryLockState w.
Proof.
  unfold lockFlags, entryLockState. intros H. injection H as H1 H2 H3 H4.
  now rewrite H1, H3.
Qed.

Lemma exitLockState_flags w w' :
  lockFlags w' = lockFlags w -> exitLockState w' = exitLockState w.
Proof.
  unfold lockFlags, exitLockState. intros H. injection H as H1 H2 H3 H4.
  now rewrite H2, H4.
Qed.

(** The phases of the other direction leave a direction's lock state alone. *)
Lemma exitLockedOpen_entryLockState conf e w :
  entryLockState (exitLockedOpen conf e w) = entryLockState w.
Proof.
  pose proof (exitLockedOpen_flags conf e w) as F.
  destruct (exitLockedOpenCond e w); [|now apply entryLockState_flags].
  unfold lockFlags in F. injection F as F1 F2 F3 F4.
  unfold entryLockState. now rewrite F1, F3.
Qed.

Lemma exitRelock_entryLockState e w :
  entryLockState (exitRelock e w) = entryLockState w.
Proof.
  pose proof (exitRelock_flags e w) as F.
  destruct (exitRelockCond e w); [|now apply entryLockState_flags].
  unfold lockFlags in F. injection F as F1 F2 F3 F4.
  unfold entryLockState. now rewrite F1, F3.
Qed.

Lemma entryLockedOpen_exitLockState conf e w :
  exitLockState (entryLockedOpen conf e w) = exitLockState w.
Proof.
  pose proof (entryLockedOpen_flags conf e w) as F.
  destruct (entryLockedOpenCond e w); [|now apply exitLockState_flags].
  unfold lockFlags in F. injection F as F1 F2 F3 F4.
  unfold exitLockState. now rewrite F2, F4.
Qed.

Lemma entryRelock_exitLockState e w :
  exitLockState (entryRelock e w) = exitLockState w.
Proof.
  pose proof (entryRelock_flags e w) as F.
  destruct (entryRelockCond e w); [|now apply exitLockState_flags].
  unfold lockFlags in F. injection F as F1 F2 F3 F4.
  unfold exitLockState. now rewrite F2, F4.
Qed.

Lemma entryRelock_sensor_open e w :
  digitalRead e 376 <> 0 -> entryRelock e w = w.
Proof.
  intros S. unfold entryRelock, entryRelockCond.
  apply Z.eqb_neq in S. rewrite S. now rewrite andb_false_r.
Qed.

Lemma entryRelock_not_open e w :
  entryOpen w = false -> entryRelock e w = w.
Proof.
  intros O. unfold entryRelock, entryRelockCond. unfold entryOpen in O.
  now rewrite O.
Qed.

Lemma entryLockedOpen_fired conf e w :
  entryLockedOpenCond e w = true ->
  entryLockState (entryLockedOpen conf e w) = LockedOpen
  /\ entryOpen (entryLockedOpen conf e w) = true.
Proof.
  intros C. pose proof (entryLockedOpen_flags conf e w) as F.
  rewrite C in F. unfold lockFlags in F. injection F as F1 F2 F3 F4.
  unfold entryLockState. now rewrite F1, F3.
Qed.

(** From the detection to the end of the iteration, entry side. *)
Lemma fromDetection_entry_fired conf e w :
  entryLockedOpenCond e w = true ->
  digitalRead e 376 <> 0 ->
  entryLockState (fromDetection conf e w) = LockedOpen.
Proof.
  intros C S. rewrite fromDetection_eq.
  rewrite exitRelock_entryLockState, (entryRelock_sensor_open _ _ S).
  rewrite (entryLockState_flags _ _ (lockedOpenDelay_flags _)).
  rewrite exitLockedOpen_entryLockState.
  now apply entryLockedOpen_fired.
Qed.

Lemma exitLockedOpenCond_true e w :
  exitLockState w = Locked ->
  digitalRead e 368 <> 0 ->
  time_NULL e 368 - exitCloseTime w < 2 ->
  exitLockedOpenCond e w = true.
Proof.
  intros L S T. apply lockState_Locked in L. destruct L as [O F].
  unfold exitOpen in O. unfold exitLockedOpenFlag in F.
  unfold exitLockedOpenCond.
  rewrite ntest_EXIT_OPEN, ntest_EXIT_LOCKED_OPEN, O, F.
  cbn [negb andb]. apply andb_true_intro. split.
  - now apply Z.ltb_lt.
  - apply negb_true_iff. now apply Z.eqb_neq.
Qed.

Lemma exitLockedOpenCond_late e w :
  2 <= time_NULL e 368 - exitCloseTime w ->
  exitLockedOpenCond e w = false.
Proof.
  intros T. unfold exitLockedOpenCond.
  assert (E : (time_NULL e 368 - exitCloseTime w <? 2) = false)
    by (apply Z.ltb_ge; lia).
  rewrite E. now rewrite andb_false_r.
Qed.

Lemma exitLockedOpen_trace conf e w :
  trace (exitLockedOpen conf e w) =
    trace w ++ (if exitLockedOpenCond e w then exitLockedOpenEvents conf else []).
Proof.
  unfold exitLockedOpen, exitLockedOpenEvents, exitUnlock, ntfy.
  destruct (exitLockedOpenCond e w); [|now rewrite app_nil_r].
  destruct (ntest (cfg_flags conf) CFG_NTFY_ENABLE); fields;
    rewrite <- ?app_assoc; reflexivity.
Qed.

Lemma exitLockedOpen_fired conf e w :
  exitLockedOpenCond e w = true ->
  exitLockState (exitLockedOpen conf e w) = LockedOpen
  /\ exitOpen (exitLockedOpen conf e w) = true.
Proof.
  intros C. pose proof (exitLockedOpen_flags conf e w) as F.
  rewrite C in F. unfold lockFlags in F. injection F as F1 F2 F3 F4.
  unfold exitLockState. now rewrite F2, F4.
Qed.

Lemma exitRelock_sensor_open e w :
  digitalRead e 386 <> 0 -> exitRelock e w = w.
Proof.
  intros S. unfold exitRelock, exitRelockCond.
  apply Z.eqb_neq in S. rewrite S. now rewrite andb_false_r.
Qed.

Lemma exitRelock_not_open e w :
  exitOpen w = false -> exitRelock e w = w.
Proof.
  intros O. unfold exitRelock, exitRelockCond. unfold exitOpen in O.
  now rewrite O.
Qed.

Lemma entryLockedOpen_exitCloseTime conf e w :
  exitCloseTime (entryLockedOpen conf e w) = exitCloseTime w.
Proof.
  unfold entryLockedOpen, entryUnlock, ntfy.
  break_if; reflexivity.
Qed.

Lemma entryLockedOpen_exitCond conf e w :
  exitLockedOpenCond e (entryLockedOpen conf e w) = exitLockedOpenCond e w.
Proof.
  pose proof (entryLockedOpen_flags conf e w) as F.
  unfold exitLockedOpenCond.
  rewrite entryLockedOpen_exitCloseTime, !ntest_EXIT_OPEN,
    !ntest_EXIT_LOCKED_OPEN.
  change (test (state (entryLockedOpen conf e w)) STATE_EXIT_OPEN)
    with (exitOpen (entryLockedOpen conf e w)).
  change (test (state (entryLockedOpen conf e w)) STATE_EXIT_LOCKED_OPEN)
    with (exitLockedOpenFlag (entryLockedOpen conf e w)).
  destruct (entryLockedOpenCond e w);
    unfold lockFlags in F; injection F as F1 F2 F3 F4;
    now rewrite F2, F4.
Qed.

Lemma lockedOpenDelay_trace w :
  trace (lockedOpenDelay w) =
    trace w ++ (if test (state w) (Z.lor STATE_ENTRY_LOCKED_OPEN STATE_EXIT_LOCKED_OPEN) then [Delay 500] else []).
Proof.
  unfold lockedOpenDelay. destruct (test _ _); [reflexivity|].
  now rewrite app_nil_r.
Qed.

Lemma entryRelock_trace e w :
  trace (entryRelock e w) =
    trace w ++ (if entryRelockCond e w then entryRelockEvents else []).
Proof.
  unfold entryRelock, entryLock, entryRelockEvents.
  destruct (entryRelockCond e w); [|now rewrite app_nil_r].
  destruct (ntest _ _); fields; rewrite <- ?app_assoc; reflexivity.
Qed.

Lemma exitRelock_trace e w :
  trace (exitRelock e w) =
    trace w ++ (if exitRelockCond e w then exitRelockEvents else []).
Proof.
  unfold exitRelock, exitLock, exitRelockEvents.
  destruct (exitRelockCond e w); [|now rewrite app_nil_r].
  destruct (ntest _ _); fields; rewrite <- ?app_assoc; reflexivity.
Qed.

Lemma pinEvents_app pin a b :
  pinEvents pin (a ++ b) = pinEvents pin a ++ pinEvents pin b.
Proof. apply filter_app. Qed.

Lemma exit_phases_entry_pin conf e w :
  pinEvents PIN_ENTRY_SOLENOID (trace (exitLockedOpen conf e w)) = pinEvents PIN_ENTRY_SOLENOID (trace w)
  /\ pinEvents PIN_ENTRY_SOLENOID (trace (lockedOpenDelay w)) = pinEvents PIN_ENTRY_SOLENOID (trace w)
  /\ pinEvents PIN_ENTRY_SOLENOID (trace (exitRelock e w)) = pinEvents PIN_ENTRY_SOLENOID (trace w).
Proof.
  rewrite exitLockedOpen_trace, lockedOpenDelay_trace, exitRelock_trace,
    !pinEvents_app.
  repeat split.
  - destruct (exitLockedOpenCond e w); [|apply app_nil_r].
    unfold exitLockedOpenEvents.
    destruct (ntest _ _); apply app_nil_r.
  - destruct (test _ _); apply app_nil_r.
  - destruct (exitRelockCond e w); apply app_nil_r.
Qed.

Lemma entry_phases_exit_pin conf e w :
  pinEvents PIN_EXIT_SOLENOID (trace (entryLockedOpen conf e w)) = pinEvents PIN_EXIT_SOLENOID (trace w)
  /\ pinEvents PIN_EXIT_SOLENOID (trace (lockedOpenDelay w)) = pinEvents PIN_EXIT_SOLENOID (trace w)
  /\ pinEvents PIN_EXIT_SOLENOID (trace (entryRelock e w)) = pinEvents PIN_EXIT_SOLENOID (trace w).
Proof.
  rewrite entryLockedOpen_trace, lockedOpenDelay_trace, entryRelock_trace,
    !pinEvents_app.
  repeat split.
  - destruct (entryLockedOpenCond e w); [|apply app_nil_r].
    unfold entryLockedOpenEvents.
    destruct (ntest _ _); apply app_nil_r.
  - destruct (test _ _); apply app_nil_r.
  - destruct (entryRelockCond e w); apply app_nil_r.
Qed.

Lemma fromDetection_exit_fired conf e w :
  exitLockedOpenCond e w = true ->
  digitalRead e 386 <> 0 ->
  exitLockState (fromDetection conf e w) = LockedOpen.
Proof.
  intros C S. rewrite fromDetection_eq.
  rewrite (exitRelock_sensor_open _ _ S), entryRelock_exitLockState.
  rewrite (exitLockState_flags _ _ (lockedOpenDelay_flags _)).
  apply exitLockedOpen_fired. now rewrite entryLockedOpen_exitCond.
Qed.

Lemma entryLockedOpen_idle conf e w :
  entryLockedOpenCond e w = false -> entryLockedOpen conf e w = w.
Proof. intros C. unfold entryLockedOpen. now rewrite C. Qed.

Lemma exitLockedOpen_idle conf e w :
  exitLockedOpenCond e w = false -> exitLockedOpen conf e w = w.
Proof. intros C. unfold exitLockedOpen. now rewrite C. Qed.

Lemma entryLocked_not_open w : entryLockState w = Locked -> entryOpen w = false.
Proof. intros L. now apply lockState_Locked in L. Qed.

Lemma exitLocked_not_open w : exitLockState w = Locked -> exitOpen w = false.
Proof. intros L. now apply lockState_Locked in L. Qed.

Lemma fromDetection_entry_idle conf e w :
  entryLockState w = Locked ->
  entryLockedOpenCond e w = false ->
  entryLockState (fromDetection conf e w) = Locked
  /\ pinEvents PIN_ENTRY_SOLENOID (trace (fromDetection conf e w)) =
       pinEvents PIN_ENTRY_SOLENOID (trace w).
Proof.
  intros L C. rewrite fromDetection_eq, (entryLockedOpen_idle _ _ _ C).
  assert (L' : entryLockState (lockedOpenDelay (exitLockedOpen conf e w))
               = Locked).
  { now rewrite (entryLockState_flags _ _ (lockedOpenDelay_flags _)),
      exitLockedOpen_entryLockState. }
  rewrite (entryRelock_not_open _ _ (entryLocked_not_open _ L')).
  split.
  - now rewrite exitRelock_entryLockState.
  - destruct (exit_phases_entry_pin conf e
                (lockedOpenDelay (exitLockedOpen conf e w))) as (_ & _ & R).
    destruct (exit_phases_entry_pin conf e (exitLockedOpen conf e w))
      as (_ & D & _).
    destruct (exit_phases_entry_pin conf e w) as (X & _ & _).
    now rewrite R, D, X.
Qed.

Lemma fromDetection_exit_idle conf e w :
  exitLockState w = Locked ->
  exitLockedOpenCond e w = false ->
  exitLockState (fromDetection conf e w) = Locked
  /\ pinEvents PIN_EXIT_SOLENOID (trace (fromDetection conf e w)) =
       pinEvents PIN_EXIT_SOLENOID (trace w).
Proof.
  intros L C. rewrite fromDetection_eq.
  assert (C' : exitLockedOpenCond e (entryLockedOpen conf e w) = false)
    by now rewrite entryLockedOpen_exitCond.
  rewrite (exitLockedOpen_idle _ _ _ C').
  assert (L' : exitLockState
                 (entryRelock e
                    (lockedOpenDelay (entryLockedOpen conf e w))) = Locked).
  { now rewrite entryRelock_exitLockState,
      (exitLockState_flags _ _ (lockedOpenDelay_flags _)),
      entryLockedOpen_exitLockState. }
  rewrite (exitRelock_not_open _ _ (exitLocked_not_open _ L')).
  split; [exact L'|].
  destruct (entry_phases_exit_pin conf e
              (lockedOpenDelay (entryLockedOpen conf e w))) as (_ & _ & R).
  destruct (entry_phases_exit_pin conf e (entryLockedOpen conf e w))
    as (_ & D & _).
  destruct (entry_phases_exit_pin conf e w) as (X & _ & _).
  now rewrite R, D, X.
Qed.

(** C7.  Let [w] be the state in which an iteration of the loop
    reaches the locked-open detection (line 362; [loop_eq]: the
    iteration is [fromDetection] after [beforeDetection]).  For each
    direction: if its lock state in [w] is Locked, the door sensor
    reads open and less than 2 s have passed since the re-lock time
    recorded for the direction, the detection re-unlocks it (unlock
    pulse on its solenoid), notifies "Locked open", and marks it
    LockedOpen, and it stays so to the end of the iteration when the
    sensor still reads open at the re-lock check; if 2 s or more have
    passed, the detection does nothing, the direction is still Locked
    at the end of the iteration and its solenoid has not been
    driven. *)
Theorem C7_locked_open_detection :
  forall conf e w,
    (entryLockState w = Locked ->
     digitalRead e 362 <> 0 ->
     time_NULL e 362 - entryCloseTime w < 2 ->
     entryLockState (entryLockedOpen conf e w) = LockedOpen
     /\ entryOpen (entryLockedOpen conf e w) = true
     /\ trace (entryLockedOpen conf e w) =
          trace w ++ entryLockedOpenEvents conf
     /\ (digitalRead e 376 <> 0 ->
         entryLockState (fromDetection conf e w) = LockedOpen))
    /\
    (entryLockState w = Locked ->
     2 <= time_NULL e 362 - entryCloseTime w ->
     entryLockedOpen conf e w = w
     /\ entryLockState (fromDetection conf e w) = Locked
     /\ pinEvents PIN_ENTRY_SOLENOID (trace (fromDetection conf e w)) =
          pinEvents PIN_ENTRY_SOLENOID (trace w))
    /\
    (exitLockState w = Locked ->
     digitalRead e 368 <> 0 ->
     time_NULL e 368 - exitCloseTime w < 2 ->
     exitLockState (exitLockedOpen conf e (entryLockedOpen conf e w))
       = LockedOpen
     /\ exitOpen (exitLockedOpen conf e (entryLockedOpen conf e w)) = true
     /\ trace (exitLockedOpen conf e (entryLockedOpen conf e w)) =
          trace (entryLockedOpen conf e w) ++ exitLockedOpenEvents conf
     /\ (digitalRead e 386 <> 0 ->
         exitLockState (fromDetection conf e w) = LockedOpen))
    /\
    (exitLockState w = Locked ->
     2 <= time_NULL e 368 - exitCloseTime w ->
     exitLockedOpen conf e (entryLockedOpen conf e w)
       = entryLockedOpen conf e w
     /\ exitLockState (fromDetection conf e w) = Locked
     /\ pinEvents PIN_EXIT_SOLENOID (trace (fromDetection conf e w)) =
          pinEvents PIN_EXIT_SOLENOID (trace w)).
Proof.
  intros conf e w. split; [|split; [|split]].
  - intros L S T.
    pose proof (entryLockedOpenCond_true e w L S T) as C.
    destruct (entryLockedOpen_fired conf e w C) as [A B].
    repeat split; try assumption.
    + now rewrite entryLockedOpen_trace, C.
    + intros S'. now apply fromDetection_entry_fired.
  - intros L T.
    pose proof (entryLockedOpenCond_late e w T) as C.
    split; [now apply entryLockedOpen_idle|].
    now apply fromDetection_entry_idle.
  - intros L S T.
    pose proof (exitLockedOpenCond_true e w L S T) as C.
    assert (C' : exitLockedOpenCond e (entryLockedOpen conf e w) = true)
      by now rewrite entryLockedOpen_exitCond.
    destruct (exitLockedOpen_fired conf e _ C') as [A B].
    repeat split; try assumption.
    + now rewrite exitLockedOpen_trace, C'.
    + intros S'. now apply fromDetection_exit_fired.
  - intros L T.
    pose proof (exitLockedOpenCond_late e w T) as C.
    split.
    + apply exitLockedOpen_idle. now rewrite entryLockedOpen_exitCond.
    + now apply fromDetection_exit_idle.
Qed.

(** C7 at work in the worked run.  One second after the entry re-lock
    (clock 162 s, sensor open) the entry becomes LockedOpen; 39 s
    after it (clock 200 s) both directions stay Locked; in the first
    two seconds after boot, with the sensor open, the exit becomes
    LockedOpen. *)
Lemma C7_locked_open_detection_witness :
  entryLockState (entryLockedOpen exampleConf (constEnv 70000 162 1)
                    entryRelocked) = LockedOpen
  /\ entryLockState (fromDetection exampleConf (constEnv 70000 200 1)
                       entryRelocked) = Locked
  /\ exitLockState (exitLockedOpen exampleConf (constEnv 0 1 1)
                      (entryLockedOpen exampleConf (constEnv 0 1 1) init))
     = LockedOpen
  /\ exitLockState (fromDetection exampleConf (constEnv 70000 200 1)
                      entryRelocked) = Locked.
Proof.
  pose proof (C7_locked_open_detection exampleConf (constEnv 70000 162 1)
                entryRelocked) as (P1 & _).
  pose proof (C7_locked_open_detection exampleConf (constEnv 70000 200 1)
                entryRelocked) as (_ & P2 & _ & P4).
  pose proof (C7_locked_open_detection exampleConf (constEnv 0 1 1) init)
    as (_ & _ & P3 & _).
  assert (Locked1 : entryLockState entryRelocked = Locked)
    by (vm_compute; reflexivity).
  assert (Locked2 : exitLockState entryRelocked = Locked)
    by (vm_compute; reflexivity).
  assert (Locked3 : exitLockState init = Locked)
    by (vm_compute; reflexivity).
  assert (Open1 : digitalRead (constEnv 70000 162 1) 362 <> 0)
    by (vm_compute; discriminate).
  assert (Open3 : digitalRead (constEnv 0 1 1) 368 <> 0)
    by (vm_compute; discriminate).
  assert (Soon1 : time_NULL (constEnv 70000 162 1) 362
                  - entryCloseTime entryRelocked < 2)
    by (vm_compute; reflexivity).
  assert (Soon3 : time_NULL (constEnv 0 1 1) 368 - exitCloseTime init < 2)
    by (vm_compute; reflexivity).
  assert (Late2 : 2 <= time_NULL (constEnv 70000 200 1) 362
                       - entryCloseTime entryRelocked)
    by (vm_compute; discriminate).
  assert (Late4 : 2 <= time_NULL (constEnv 70000 200 1) 368
                       - exitCloseTime entryRelocked)
    by (vm_compute; discriminate).
  split; [exact (proj1 (P1 Locked1 Open1 Soon1))|].
  split; [exact (proj1 (proj2 (P2 Locked1 Late2)))|].
  split; [exact (proj1 (P3 Locked3 Open3 Soon3))|].
  exact (proj1 (proj2 (P4 Locked2 Late4))).
Defined.

(** ** The detection over a whole iteration

    The statements of C7 start where the iteration reaches the
    detection.  Counted from the start of the iteration they hold for a
    direction that has no completed frame to process first. *)

Lemma entryFrame_idle conf e w :
  test (state w) STATE_ENTRY_WEIGAND_DONE = false -> entryFrame conf e w = w.
Proof. intros H. unfold entryFrame. now rewrite H. Qed.

Lemma exitFrame_idle conf e w :
  test (state w) STATE_EXIT_WEIGAND_DONE = false -> exitFrame conf e w = w.
Proof. intros H. unfold exitFrame. now rewrite H. Qed.

Lemma closeTimes_front conf e w :
  entryCloseTime (pollDeadlines e (bootNotify conf
     (set_locals (stack_facilityCode e) (stack_cardCode e) w)))
    = entryCloseTime w
  /\ exitCloseTime (pollDeadlines e (bootNotify conf
     (set_locals (stack_facilityCode e) (stack_cardCode e) w)))
    = exitCloseTime w.
Proof.
  unfold pollDeadlines, bootNotify, ntfy. break_if; split; reflexivity.
Qed.

Lemma doorSwing_closeTimes e w :
  entryCloseTime (doorSwing e w) = entryCloseTime w
  /\ exitCloseTime (doorSwing e w) = exitCloseTime w.
Proof. unfold doorSwing. break_if; split; reflexivity. Qed.

Lemma ntfy_closeTimes conf t g p m w :
  entryCloseTime (ntfy conf t g p m w) = entryCloseTime w
  /\ exitCloseTime (ntfy conf t g p m w) = exitCloseTime w.
Proof. now rewrite ntfy_world. Qed.

Lemma checkCard_closeTimes conf dir fc cc w :
  entryCloseTime (snd (checkCard conf dir fc cc w)) = entryCloseTime w
  /\ exitCloseTime (snd (checkCard conf dir fc cc w)) = exitCloseTime w.
Proof. now rewrite checkCard_world. Qed.

Lemma entryAnnounce_closeTimes conf e fc cc w :
  entryCloseTime (entryAnnounce conf e fc cc w) = entryCloseTime w
  /\ exitCloseTime (entryAnnounce conf e fc cc w) = exitCloseTime w.
Proof.
  unfold entryAnnounce.
  destruct (_ && _); [|split; reflexivity].
  destruct (_ <? _)%nat; [|apply ntfy_closeTimes].
  apply (ntfy_closeTimes conf (catTopic conf fc cc) "unlock,arrow_left" 3
           (MsgEntry (catName conf fc cc)) w).
Qed.

Lemma exitAnnounce_closeTimes conf e fc cc w :
  entryCloseTime (exitAnnounce conf e fc cc w) = entryCloseTime w
  /\ exitCloseTime (exitAnnounce conf e fc cc w) = exitCloseTime w.
Proof.
  unfold exitAnnounce.
  destruct (_ && _); [|split; reflexivity].
  destruct (_ <? _)%nat; [|apply ntfy_closeTimes].
  apply (ntfy_closeTimes conf (catTopic conf fc cc) "arrow_right,unlock" 3
           (MsgExit (catName conf fc cc)) w).
Qed.

Lemma entryDecide_closeTimes conf e fc cc w :
  entryCloseTime (entryDecide conf e fc cc w) = entryCloseTime w
  /\ exitCloseTime (entryDecide conf e fc cc w) = exitCloseTime w.
Proof.
  unfold entryDecide.
  destruct (checkCard_closeTimes conf ENTRY fc cc w) as [A B].
  destruct (fst (checkCard conf ENTRY fc cc w) =? 0).
  - destruct (ntfy_closeTimes conf (catTopic conf fc cc) "stop_sign" 3
                (MsgEntryDenied (catName conf fc cc))
                (snd (checkCard conf ENTRY fc cc w))) as [C D].
    split.
    + change (entryCloseTime
                (ntfy conf (catTopic conf fc cc) "stop_sign" 3
                   (MsgEntryDenied (catName conf fc cc))
                   (snd (checkCard conf ENTRY fc cc w))) = entryCloseTime w).
      rewrite C. exact A.
    + change (exitCloseTime
                (ntfy conf (catTopic conf fc cc) "stop_sign" 3
                   (MsgEntryDenied (catName conf fc cc))
                   (snd (checkCard conf ENTRY fc cc w))) = exitCloseTime w).
      rewrite D. exact B.
  - destruct (fst (checkCard conf ENTRY fc cc w) =? 1);
      [|split; assumption].
    destruct (entryAnnounce_closeTimes conf e fc cc
                (set_entryCloseAt (time_NULL e 301 + DOOR_TIMEOUT_DEFAULT)
                   (entryUnlock (snd (checkCard conf ENTRY fc cc w)))))
      as [C D].
    split.
    + change (entryCloseTime
                (entryAnnounce conf e fc cc
                   (set_entryCloseAt (time_NULL e 301 + DOOR_TIMEOUT_DEFAULT)
                      (entryUnlock (snd (checkCard conf ENTRY fc cc w)))))
              = entryCloseTime w).
      rewrite C. exact A.
    + change (exitCloseTime
                (entryAnnounce conf e fc cc
                   (set_entryCloseAt (time_NULL e 301 + DOOR_TIMEOUT_DEFAULT)
                      (entryUnlock (snd (checkCard conf ENTRY fc cc w)))))
              = exitCloseTime w).
      rewrite D. exact B.
Qed.

Lemma exitDecide_closeTimes conf e fc cc w :
  entryCloseTime (exitDecide conf e fc cc w) = entryCloseTime w
  /\ exitCloseTime (exitDecide conf e fc cc w) = exitCloseTime w.
Proof.
  unfold exitDecide.
  destruct (checkCard_closeTimes conf EXIT fc cc w) as [A B].
  destruct (fst (checkCard conf EXIT fc cc w) =? 0).
  - destruct (ntfy_closeTimes conf (catTopic conf fc cc) "stop_sign" 3
                (MsgExitDenied (catName conf fc cc))
                (snd (checkCard conf EXIT fc cc w))) as [C D].
    split.
    + change (entryCloseTime
                (ntfy conf (catTopic conf fc cc) "stop_sign" 3
                   (MsgExitDenied (catName conf fc cc))
                   (snd (checkCard conf EXIT fc cc w))) = entryCloseTime w).
      rewrite C. exact A.
    + change (exitCloseTime
                (ntfy conf (catTopic conf fc cc) "stop_sign" 3
                   (MsgExitDenied (catName conf fc cc))
                   (snd (checkCard conf EXIT fc cc w))) = exitCloseTime w).
      rewrite D. exact B.
  - destruct (fst (checkCard conf EXIT fc cc w) =? 1);
      [|split; assumption].
    destruct (exitAnnounce_closeTimes conf e fc cc
                (set_exitCloseAt (time_NULL e 331 + DOOR_TIMEOUT_DEFAULT)
                   (exitUnlock (snd (checkCard conf EXIT fc cc w)))))
      as [C D].
    split.
    + change (entryCloseTime
                (exitAnnounce conf e fc cc
                   (set_exitCloseAt (time_NULL e 331 + DOOR_TIMEOUT_DEFAULT)
                      (exitUnlock (snd (checkCard conf EXIT fc cc w)))))
              = entryCloseTime w).
      rewrite C. exact A.
    + change (exitCloseTime
                (exitAnnounce conf e fc cc
                   (set_exitCloseAt (time_NULL e 331 + DOOR_TIMEOUT_DEFAULT)
                      (exitUnlock (snd (checkCard conf EXIT fc cc w)))))
              = exitCloseTime w).
      rewrite D. exact B.
Qed.

Lemma entryFrame_closeTimes conf e w :
  entryCloseTime (entryFrame conf e w) = entryCloseTime w
  /\ exitCloseTime (entryFrame conf e w) = exitCloseTime w.
Proof.
  unfold entryFrame.
  destruct (test (state w) STATE_ENTRY_WEIGAND_DONE); [|split; reflexivity].
  unfold weigandDecode.
  destruct (entryBitCount w =? 26); cbn [fst snd andb];
    [|split; reflexivity].
  destruct (ntest _ _); [|split; reflexivity].
  apply (entryDecide_closeTimes conf e _ _
           (set_locals
              (u8 (Z.shiftr (Z.land (entryDataBits w) 33423360) 17))
              (u16 (Z.shiftr (Z.land (entryDataBits w) 131070) 1)) w)).
Qed.

Lemma exitFrame_closeTimes conf e w :
  entryCloseTime (exitFrame conf e w) = entryCloseTime w
  /\ exitCloseTime (exitFrame conf e w) = exitCloseTime w.
Proof.
  unfold exitFrame.
  destruct (test (state w) STATE_EXIT_WEIGAND_DONE); [|split; reflexivity].
  unfold weigandDecode.
  destruct (exitBitCount w =? 26); cbn [fst snd andb];
    [|split; reflexivity].
  destruct (ntest _ _); [|split; reflexivity].
  apply (exitDecide_closeTimes conf e _ _
           (set_locals
              (u8 (Z.shiftr (Z.land (exitDataBits w) 33423360) 17))
              (u16 (Z.shiftr (Z.land (exitDataBits w) 131070) 1)) w)).
Qed.

(** The re-lock times are only written by the re-lock itself. *)
Lemma beforeDetection_closeTimes conf e w :
  entryCloseTime (beforeDetection conf e w) = entryCloseTime w
  /\ exitCloseTime (beforeDetection conf e w) = exitCloseTime w.
Proof.
  rewrite beforeDetection_eq.
  destruct (doorSwing_closeTimes e
              (exitFrame conf e (entryFrame conf e (pollDeadlines e
                 (bootNotify conf (set_locals (stack_facilityCode e)
                    (stack_cardCode e) w)))))) as [A1 B1].
  destruct (exitFrame_closeTimes conf e
              (entryFrame conf e (pollDeadlines e
                 (bootNotify conf (set_locals (stack_facilityCode e)
                    (stack_cardCode e) w))))) as [A2 B2].
  destruct (entryFrame_closeTimes conf e
              (pollDeadlines e
                 (bootNotify conf (set_locals (stack_facilityCode e)
                    (stack_cardCode e) w)))) as [A3 B3].
  destruct (closeTimes_front conf e w) as [A4 B4].
  split; [now rewrite A1, A2, A3, A4 | now rewrite B1, B2, B3, B4].
Qed.

Lemma exitFrame_entryLockState conf e w :
  entryLockState (exitFrame conf e w) = entryLockState w.
Proof.
  destruct (exitFrame_flags conf e w) as (b & F & _).
  unfold lockFlags in F. injection F as F1 F2 F3 F4.
  unfold entryLockState. now rewrite F1, F3.
Qed.

Lemma entryFrame_exitLockState conf e w :
  exitLockState (entryFrame conf e w) = exitLockState w.
Proof.
  destruct (entryFrame_flags conf e w) as (b & F & _).
  unfold lockFlags in F. injection F as F1 F2 F3 F4.
  unfold exitLockState. now rewrite F2, F4.
Qed.

(** A direction with no completed frame keeps its lock state up to the
    detection. *)
Lemma beforeDetection_entry_quiet conf e w :
  entryFrameReady e w = false ->
  entryLockState (beforeDetection conf e w) = entryLockState w.
Proof.
  intros Q. rewrite beforeDetection_eq.
  rewrite (entryLockState_flags _ _ (doorSwing_flags _ _)).
  rewrite exitFrame_entryLockState, entryFrame_idle.
  - now rewrite (entryLockState_flags _ _ (pollDeadlines_flags _ _)),
      (entryLockState_flags _ _ (bootNotify_flags _ _)).
  - rewrite pollDeadlines_entry_done.
    now rewrite (proj1 (bootNotify_ready _ _ _)).
Qed.

Lemma beforeDetection_exit_quiet conf e w :
  exitFrameReady e w = false ->
  exitLockState (beforeDetection conf e w) = exitLockState w.
Proof.
  intros Q. rewrite beforeDetection_eq.
  rewrite (exitLockState_flags _ _ (doorSwing_flags _ _)).
  rewrite exitFrame_idle.
  - now rewrite entryFrame_exitLockState,
      (exitLockState_flags _ _ (pollDeadlines_flags _ _)),
      (exitLockState_flags _ _ (bootNotify_flags _ _)).
  - rewrite entryFrame_exit, pollDeadlines_exit_done.
    now rewrite (proj2 (bootNotify_ready _ _ _)).
Qed.

(** The detection over a whole iteration, for a direction that is
    Locked when the iteration starts and has no completed frame. *)
Lemma loop_entry_locked_open conf e w :
  entryLockState w = Locked -> entryFrameReady e w = false ->
  digitalRead e 362 <> 0 -> time_NULL e 362 - entryCloseTime w < 2 ->
  digitalRead e 376 <> 0 ->
  entryLockState (loop conf e w) = LockedOpen.
Proof.
  intros L Q S T S'. rewrite loop_eq.
  apply fromDetection_entry_fired; [|exact S'].
  apply entryLockedOpenCond_true; [|exact S|].
  - now rewrite beforeDetection_entry_quiet.
  - now rewrite (proj1 (beforeDetection_closeTimes _ _ _)).
Qed.

Lemma loop_entry_stays_locked conf e w :
  entryLockState w = Locked -> entryFrameReady e w = false ->
  2 <= time_NULL e 362 - entryCloseTime w ->
  entryLockState (loop conf e w) = Locked.
Proof.
  intros L Q T. rewrite loop_eq.
  apply fromDetection_entry_idle.
  - now rewrite beforeDetection_entry_quiet.
  - apply entryLockedOpenCond_late.
    now rewrite (proj1 (beforeDetection_closeTimes _ _ _)).
Qed.

Lemma loop_exit_locked_open conf e w :
  exitLockState w = Locked -> exitFrameReady e w = false ->
  digitalRead e 368 <> 0 -> time_NULL e 368 - exitCloseTime w < 2 ->
  digitalRead e 386 <> 0 ->
  exitLockState (loop conf e w) = LockedOpen.
Proof.
  intros L Q S T S'. rewrite loop_eq.
  apply fromDetection_exit_fired; [|exact S'].
  apply exitLockedOpenCond_true; [|exact S|].
  - now rewrite beforeDetection_exit_quiet.
  - now rewrite (proj2 (beforeDetection_closeTimes _ _ _)).
Qed.

Lemma loop_exit_stays_locked conf e w :
  exitLockState w = Locked -> exitFrameReady e w = false ->
  2 <= time_NULL e 368 - exitCloseTime w ->
  exitLockState (loop conf e w) = Locked.
Proof.
  intros L Q T. rewrite loop_eq.
  apply fromDetection_exit_idle.
  - now rewrite beforeDetection_exit_quiet.
  - apply exitLockedOpenCond_late.
    now rewrite (proj2 (beforeDetection_closeTimes _ _ _)).
Qed.

(** ** C9: configuration load and auto-heal *)

Lemma wr_length m : forall off bs, List.length (wr m off bs) = List.length m.
Proof.
  induction m as [|x m IH]; intros off bs; [reflexivity|].
  destruct off; cbn [wr].
  - destruct bs; [reflexivity|]. cbn [List.length]. now rewrite IH.
  - cbn [List.length]. now rewrite IH.
Qed.

Lemma wr_nil m : forall off, wr m off [] = m.
Proof.
  induction m as [|x m IH]; intros off; [reflexivity|].
  destruct off; cbn [wr]; [reflexivity|]. now rewrite IH.
Qed.

Lemma wr_nth_below m : forall off bs k d,
  (k < off)%nat -> nth k (wr m off bs) d = nth k m d.
Proof.
  induction m as [|x m IH]; intros off bs k d H; [reflexivity|].
  destruct off; [lia|]. cbn [wr].
  destruct k; [reflexivity|]. cbn [nth]. apply IH. lia.
Qed.

Lemma wr_nth_above m : forall off bs k d,
  (off + List.length bs <= k)%nat -> nth k (wr m off bs) d = nth k m d.
Proof.
  induction m as [|x m IH]; intros off bs k d H; [reflexivity|].
  destruct off; cbn [wr].
  - destruct bs as [|b bs]; [reflexivity|].
    cbn [List.length] in H. destruct k; [lia|]. cbn [nth].
    apply (IH 0%nat). cbn. lia.
  - destruct k; [reflexivity|]. cbn [nth]. apply IH. lia.
Qed.

Lemma wr_nth_inside m : forall off bs k d,
  (off <= k < off + List.length bs)%nat -> (k < List.length m)%nat ->
  nth k (wr m off bs) d = nth (k - off) bs d.
Proof.
  induction m as [|x m IH]; intros off bs k d H L; [cbn in L; lia|].
  destruct off; cbn [wr].
  - destruct bs as [|b bs]; [cbn in H; lia|].
    destruct k; [reflexivity|]. cbn [nth List.length] in *.
    rewrite (IH 0%nat) by (cbn; lia). now rewrite Nat.sub_0_r.
  - destruct k; [lia|]. cbn [nth List.length] in *.
    rewrite IH by lia. reflexivity.
Qed.

Lemma wr_firstn m : forall off bs n,
  (n <= off)%nat -> firstn n (wr m off bs) = firstn n m.
Proof.
  induction m as [|x m IH]; intros off bs n H; [reflexivity|].
  destruct off; cbn [wr].
  - assert (n = 0%nat) as -> by lia. reflexivity.
  - destruct n; [reflexivity|]. cbn [firstn]. rewrite IH by lia. reflexivity.
Qed.

Lemma wr_skipn_above m : forall off bs k,
  (off + List.length bs <= k)%nat -> skipn k (wr m off bs) = skipn k m.
Proof.
  induction m as [|x m IH]; intros off bs k H; [reflexivity|].
  destruct off; cbn [wr].
  - destruct bs as [|b bs]; [reflexivity|].
    cbn [List.length] in H. destruct k; [lia|]. cbn [skipn].
    apply (IH 0%nat). cbn. lia.
  - destruct k; [lia|]. cbn [skipn]. apply IH. lia.
Qed.

Lemma wr_skipn_below m : forall off bs k,
  (k <= off)%nat -> skipn k (wr m off bs) = wr (skipn k m) (off - k) bs.
Proof.
  induction m as [|x m IH]; intros off bs k H.
  - cbn. now rewrite !skipn_nil.
  - destruct k; [now rewrite Nat.sub_0_r|].
    destruct off; [lia|]. cbn [wr skipn]. rewrite IH by lia. reflexivity.
Qed.

Lemma upd_length l : forall i v, List.length (upd l i v) = List.length l.
Proof.
  induction l as [|x l IH]; intros i v; [reflexivity|].
  destruct i; cbn [upd List.length]; [reflexivity|]. now rewrite IH.
Qed.

Lemma upd_nth l : forall i v k d,
  nth k (upd l i v) d =
    if (k =? i)%nat && (k <? List.length l)%nat then v else nth k l d.
Proof.
  induction l as [|x l IH]; intros i v k d.
  - cbn. destruct k; now rewrite andb_false_r.
  - destruct i, k; cbn [upd nth List.length]; try reflexivity.
    rewrite IH. reflexivity.
Qed.

Lemma store_loop conf n : forall start ee,
  let ee' := fold_left (fun ee i => upd ee i (rd8 conf i)) (seq start n) ee in
  List.length ee' = List.length ee
  /\ forall k d, nth k ee' d =
       if (start <=? k)%nat && (k <? start + n)%nat && (k <? List.length ee)%nat
       then rd8 conf k else nth k ee d.
Proof.
  induction n as [|n IH]; intros start ee; cbn [seq fold_left].
  - split; [reflexivity|]. intros k d.
    destruct (start <=? k)%nat eqn:A; [|reflexivity].
    destruct (k <? start + 0)%nat eqn:B; [|reflexivity].
    apply Nat.leb_le in A. apply Nat.ltb_lt in B. lia.
  - destruct (IH (S start) (upd ee start (rd8 conf start))) as [L N].
    cbv zeta in L, N. split; [now rewrite L, upd_length|].
    intros k d. rewrite N, upd_length, upd_nth.
    destruct (Nat.leb_spec (S start) k), (Nat.leb_spec start k),
      (Nat.ltb_spec k (S start + n)), (Nat.ltb_spec k (start + S n)),
      (Nat.ltb_spec k (List.length ee)), (Nat.eqb_spec k start);
      cbn [andb]; try lia; try reflexivity.
    now subst.
Qed.

Lemma eepromStore_length conf ee : List.length (eepromStore conf ee) = List.length ee.
Proof. apply (store_loop conf SIZEOF_CFG 0 ee). Qed.

Lemma eepromStore_nth conf ee k d :
  (SIZEOF_CFG <= List.length ee)%nat ->
  nth k (eepromStore conf ee) d =
    if (k <? SIZEOF_CFG)%nat then rd8 conf k else nth k ee d.
Proof.
  intros L. destruct (store_loop conf SIZEOF_CFG 0 ee) as [_ N].
  cbv zeta in N. unfold eepromStore. rewrite N.
  cbn [Nat.leb andb Nat.add].
  destruct (Nat.ltb_spec k SIZEOF_CFG), (Nat.ltb_spec k (List.length ee));
    cbn [andb]; try reflexivity. lia.
Qed.

Lemma wr_bytes m : forall off bs, bytes m -> bytes bs -> bytes (wr m off bs).
Proof.
  unfold bytes.
  induction m as [|x m IH]; intros off bs Hm Hb; [constructor|].
  inversion Hm; subst. destruct off; cbn [wr].
  - destruct bs as [|b bs]; [assumption|].
    inversion Hb; subst. constructor; [assumption|]. now apply IH.
  - constructor; [assumption|]. now apply IH.
Qed.

Lemma u8_range z : 0 <= u8 z < 2^8.
Proof. unfold u8. apply Z.mod_pos_bound. lia. Qed.

Lemma u16_range z : 0 <= u16 z < 2^16.
Proof. unfold u16. apply Z.mod_pos_bound. lia. Qed.

Lemma map_u8_bytes l : bytes (map u8 l).
Proof.
  unfold bytes. induction l; cbn [map]; constructor; auto using u8_range.
Qed.

Lemma le16_bytes z : bytes (le16 z).
Proof.
  unfold bytes, le16. repeat constructor; apply Z.mod_pos_bound; lia.
Qed.

Lemma le32_bytes z : bytes (le32 z).
Proof.
  unfold bytes, le32. repeat constructor; apply Z.mod_pos_bound; lia.
Qed.

Lemma bytes_of_string_bytes s : bytes (bytes_of_string s).
Proof.
  unfold bytes, bytes_of_string.
  induction s as [|a s IH]; cbn [list_ascii_of_string map]; constructor;
    [|exact IH].
  pose proof (N_ascii_bounded a). lia.
Qed.

Lemma bytes_app a b : bytes a -> bytes b -> bytes (a ++ b).
Proof. unfold bytes. intros. apply Forall_app. now split. Qed.

Lemma repeat_bytes n : bytes (repeat 0 n).
Proof.
  unfold bytes. induction n; cbn [repeat]; constructor; [lia|assumption].
Qed.

Lemma bytes_nth m k : bytes m -> 0 <= nth k m 0 < 2^8.
Proof.
  unfold bytes. intros H. revert k.
  induction H as [|x m Hx Hm IH]; intros k; destruct k; cbn [nth];
    try lia; auto.
Qed.

Lemma rd16_le16 z : 0 <= z < 2^16 -> rd16 (le16 z) 0 = z.
Proof.
  intros H. unfold rd16, rd8, le16. cbn [nth Nat.add].
  rewrite (Z.mod_small (z / 2^8)) by
    (split; [apply Z.div_pos; lia | apply Z.div_lt_upper_bound; lia]).
  pose proof (Z.div_mod z (2^8)). lia.
Qed.

(** Facts about the configuration code, for any checksum function and
    MAC address. *)
Section ConfigFacts.

Variable ccitt : list Z -> Z.
Variable macAddress : list Z.

Lemma configDefault_length :
  List.length (configDefault macAddress) = SIZEOF_CFG.
Proof.
  unfold configDefault, toCharArray, strcpy.
  rewrite !wr_length. apply repeat_length.
Qed.

Lemma configDefault_bytes : bytes (configDefault macAddress).
Proof.
  unfold configDefault, toCharArray, strcpy.
  repeat first
    [ apply wr_bytes | apply bytes_app | apply map_u8_bytes
    | apply le32_bytes | apply bytes_of_string_bytes | apply repeat_bytes
    | apply (repeat_bytes 1) ].
Qed.

Lemma configSealed_length conf :
  List.length (configSealed ccitt conf) = List.length conf.
Proof. apply wr_length. Qed.

Lemma configSealed_bytes conf : bytes conf -> bytes (configSealed ccitt conf).
Proof. intros H. apply wr_bytes; [exact H | apply le16_bytes]. Qed.

Lemma configSealed_crcOf conf :
  crcOf ccitt (configSealed ccitt conf) = crcOf ccitt conf.
Proof.
  unfold crcOf, configSealed. now rewrite wr_firstn by reflexivity.
Qed.

Lemma configSealed_crc conf :
  List.length conf = SIZEOF_CFG ->
  cfg_crc (configSealed ccitt conf) = crcOf ccitt conf.
Proof.
  intros L. unfold cfg_crc, configSealed, rd16, rd8.
  rewrite !wr_nth_inside
    by (rewrite ?L; unfold OFF_CRC, SIZEOF_CFG, le16; cbn [List.length]; lia).
  change (OFF_CRC - OFF_CRC)%nat with 0%nat.
  change (OFF_CRC + 1 - OFF_CRC)%nat with 1%nat.
  apply (rd16_le16 (crcOf ccitt conf)). apply u16_range.
Qed.

Lemma configSealed_magic conf :
  cfg_magic (configSealed ccitt conf) = cfg_magic conf.
Proof.
  unfold cfg_magic, configSealed, rd32, rd8.
  now rewrite !wr_nth_below by (unfold OFF_MAGIC, OFF_CRC; lia).
Qed.

Lemma configDefault_magic : cfg_magic (configDefault macAddress) = MAGIC.
Proof.
  unfold cfg_magic, configDefault, toCharArray, strcpy, rd32, rd8.
  unfold OFF_MAGIC, OFF_NTPSERVER, OFF_WPAKEY, OFF_SSID, OFF_TIMEZONE,
    OFF_HOSTNAME, SIZEOF_CFG.
  rewrite !(wr_nth_below _ 165) by lia.
  rewrite !(wr_nth_below _ 101) by lia.
  rewrite !(wr_nth_below _ 37) by lia.
  rewrite !(wr_nth_below _ 229) by lia.
  rewrite !wr_nth_inside
    by (rewrite ?wr_length, ?repeat_length; cbn [List.length le32]; lia).
  reflexivity.
Qed.

Lemma configSealed_default_valid :
  configCorrupt ccitt (configSealed ccitt (configDefault macAddress)) = false.
Proof.
  unfold configCorrupt.
  rewrite configSealed_magic, configDefault_magic, configSealed_crcOf,
    (configSealed_crc _ configDefault_length), !Z.eqb_refl.
  reflexivity.
Qed.

Lemma configLoad_length ee : List.length (configLoad ee) = SIZEOF_CFG.
Proof. unfold configLoad. now rewrite length_map, length_seq. Qed.

Lemma configLoad_nth ee k :
  (k < SIZEOF_CFG)%nat -> nth k (configLoad ee) 0 = u8 (rd8 ee k).
Proof.
  intros H. unfold configLoad.
  rewrite (nth_indep _ 0 ((fun i => u8 (rd8 ee i)) 0%nat))
    by (now rewrite length_map, length_seq).
  rewrite (map_nth (fun i => u8 (rd8 ee i))), seq_nth by exact H.
  reflexivity.
Qed.

(** What [configSave] wrote is what [configInit] reads back. *)
Lemma configLoad_store conf ee :
  List.length conf = SIZEOF_CFG -> bytes conf ->
  (SIZEOF_CFG <= List.length ee)%nat ->
  configLoad (eepromStore conf ee) = conf.
Proof.
  intros L B E.
  apply (nth_ext _ _ 0 0); [now rewrite configLoad_length|].
  intros k Hk. rewrite configLoad_length in Hk.
  rewrite (configLoad_nth _ _ Hk). unfold rd8 at 1.
  rewrite eepromStore_nth by exact E.
  apply Nat.ltb_lt in Hk. rewrite Hk. unfold u8, rd8.
  apply Z.mod_small, bytes_nth, B.
Qed.

Lemma eepromStore_firstn conf ee :
  List.length conf = SIZEOF_CFG ->
  (SIZEOF_CFG <= List.length ee)%nat ->
  firstn SIZEOF_CFG (eepromStore conf ee) = conf.
Proof.
  intros L E.
  assert (LF : List.length (firstn SIZEOF_CFG (eepromStore conf ee))
               = SIZEOF_CFG).
  { rewrite length_firstn, eepromStore_length. lia. }
  apply (nth_ext _ _ 0 0); [now rewrite LF, L|].
  intros k Hk. rewrite LF in Hk.
  rewrite nth_firstn, eepromStore_nth by exact E.
  apply Nat.ltb_lt in Hk. now rewrite Hk.
Qed.

Lemma eepromStore_skipn conf ee :
  (SIZEOF_CFG <= List.length ee)%nat ->
  skipn SIZEOF_CFG (eepromStore conf ee) = skipn SIZEOF_CFG ee.
Proof.
  intros E.
  apply (nth_ext _ _ 0 0);
    [now rewrite !length_skipn, eepromStore_length|].
  intros k Hk. rewrite !nth_skipn, eepromStore_nth by exact E.
  destruct (Nat.ltb_spec (SIZEOF_CFG + k) SIZEOF_CFG); [lia|reflexivity].
Qed.

(** Above the hostname field the default record does not depend on the
    MAC address. *)
Lemma configDefault_skipn k :
  (OFF_SSID <= k)%nat ->
  skipn k (configDefault macAddress) = skipn k (configDefault []).
Proof.
  intros H. rewrite <- (Nat.sub_add OFF_SSID k H).
  rewrite <- !skipn_skipn. f_equal.
  unfold configDefault, toCharArray, strcpy.
  unfold OFF_MAGIC, OFF_NTPSERVER, OFF_WPAKEY, OFF_SSID, OFF_TIMEZONE,
    OFF_HOSTNAME, SIZEOF_CFG.
  rewrite !(wr_skipn_below _ 165) by lia.
  rewrite !(wr_skipn_below _ 101) by lia.
  rewrite !(wr_skipn_below _ 37) by lia.
  rewrite !(wr_skipn_below _ 229) by lia.
  rewrite !(wr_skipn_above _ 0) by (cbn [List.length le32]; lia).
  rewrite !(wr_skipn_above _ 4).
  - reflexivity.
  - cbn. lia.
  - rewrite length_app, length_map, length_firstn. cbn [List.length]. lia.
Qed.

Lemma rd8_skipn m k : rd8 m k = rd8 (skipn k m) 0.
Proof. unfold rd8. now rewrite nth_skipn, Nat.add_0_r. Qed.

(** A slot is read from the bytes at and above the credential table. *)
Lemma blankSlot_above conf conf' i :
  skipn OFF_CAT conf = skipn OFF_CAT conf' ->
  blankSlot conf' i -> blankSlot conf i.
Proof.
  intros K.
  assert (R : forall n, rd8 conf (OFF_CAT + n) = rd8 conf' (OFF_CAT + n)).
  { intros n. unfold rd8. now rewrite <- !nth_skipn, K. }
  assert (S : forall n, skipn (OFF_CAT + n) conf = skipn (OFF_CAT + n) conf').
  { intros n. rewrite (Nat.add_comm OFF_CAT n), <- !skipn_skipn.
    now rewrite K. }
  unfold blankSlot, cat_facility, cat_id, cat_flags, cat_name, cat_topic,
    rd16, cat_off.
  now rewrite <- !Nat.add_assoc, !R, !S.
Qed.

Lemma configDefault_blank : blankSettings (configDefault macAddress).
Proof.
  unfold blankSettings. split; [|split].
  - intros i Hi.
    apply (blankSlot_above _ (configDefault [])).
    + apply configDefault_skipn. vm_compute. lia.
    + unfold CFG_NCATS in Hi.
      do 7 (destruct i as [|i];
            [vm_compute; repeat split; reflexivity|]).
      lia.
  - rewrite configDefault_skipn by (vm_compute; lia).
    vm_compute. reflexivity.
  - rewrite configDefault_skipn by (vm_compute; lia).
    vm_compute. reflexivity.
Qed.

Lemma configDefault_others : defaultSettings (configDefault macAddress).
Proof.
  unfold defaultSettings, cfg_flags, cfg_ntfy_topic.
  rewrite (rd8_skipn (configDefault macAddress)).
  rewrite !configDefault_skipn by (vm_compute; lia).
  vm_compute. repeat split; reflexivity.
Qed.

End ConfigFacts.

Lemma configCorrupt_false ccitt conf :
  cfg_magic conf = MAGIC /\ cfg_crc conf = crcOf ccitt conf ->
  configCorrupt ccitt conf = false.
Proof.
  intros [M C]. unfold configCorrupt. now rewrite M, C, !Z.eqb_refl.
Qed.

Lemma configCorrupt_true ccitt conf :
  cfg_magic conf <> MAGIC \/ cfg_crc conf <> crcOf ccitt conf ->
  configCorrupt ccitt conf = true.
Proof.
  intros [M|C]; unfold configCorrupt.
  - apply Z.eqb_neq in M. now rewrite M.
  - apply Z.eqb_neq in C. rewrite C. apply orb_true_r.
Qed.

Lemma configInit_valid ccitt mac s :
  configCorrupt ccitt (configLoad (st_eeprom s)) = false ->
  configInit ccitt mac s =
    mkStorage (configLoad (st_eeprom s)) (st_eeprom s) (st_log s).
Proof. intros C. unfold configInit. now rewrite C. Qed.

Lemma configInit_corrupt ccitt mac s :
  configCorrupt ccitt (configLoad (st_eeprom s)) = true ->
  configInit ccitt mac s =
    mkStorage (configSealed ccitt (configDefault mac))
      (eepromStore (configSealed ccitt (configDefault mac)) (st_eeprom s))
      (st_log s ++ [Debug MsgSettingsCorrupted]).
Proof. intros C. unfold configInit. now rewrite C. Qed.

(** The offsets of the record are those the layout rules give for its
    declaration. *)
Lemma layout_cat :
  fst (layout 0 catMembers)
  = [CAT_NAME; CAT_TOPIC; CAT_FACILITY; CAT_ID; CAT_FLAGS]
  /\ structSize catMembers = SIZEOF_CAT.
Proof. split; reflexivity. Qed.

Lemma layout_cfg :
  layout 0 cfgMembers
  = ([OFF_MAGIC; OFF_HOSTNAME; OFF_SSID; OFF_WPAKEY; OFF_NTPSERVER;
      OFF_TIMEZONE; OFF_FLAGS; OFF_CAT; OFF_NTFY + NTFY_URL;
      OFF_NTFY + NTFY_TOPIC; OFF_NTFY + NTFY_USERNAME;
      OFF_NTFY + NTFY_PASSWORD; OFF_CRC]%nat,
     SIZEOF_CFG).
Proof. reflexivity. Qed.

(** [configInit] in terms of the integrity check. *)
Lemma configInit_cases ccitt macAddress s :
  (SIZEOF_CFG <= List.length (st_eeprom s))%nat ->
  (cfg_magic (configLoad (st_eeprom s)) = MAGIC
   /\ cfg_crc (configLoad (st_eeprom s))
      = crcOf ccitt (configLoad (st_eeprom s)) ->
   configInit ccitt macAddress s =
     mkStorage (configLoad (st_eeprom s)) (st_eeprom s) (st_log s))
  /\
  (cfg_magic (configLoad (st_eeprom s)) <> MAGIC
   \/ cfg_crc (configLoad (st_eeprom s))
      <> crcOf ccitt (configLoad (st_eeprom s)) ->
   st_conf (configInit ccitt macAddress s)
     = configSealed ccitt (configDefault macAddress)
   /\ firstn SIZEOF_CFG (st_eeprom (configInit ccitt macAddress s))
      = configSealed ccitt (configDefault macAddress)
   /\ skipn SIZEOF_CFG (st_eeprom (configInit ccitt macAddress s))
      = skipn SIZEOF_CFG (st_eeprom s)
   /\ cfg_magic (st_conf (configInit ccitt macAddress s)) = MAGIC
   /\ cfg_crc (st_conf (configInit ccitt macAddress s))
      = crcOf ccitt (st_conf (configInit ccitt macAddress s))
   /\ configInit ccitt macAddress (configInit ccitt macAddress s)
      = configInit ccitt macAddress s)
  /\ firstn CRC_LEN (configSealed ccitt (configDefault macAddress))
     = firstn CRC_LEN (configDefault macAddress).
Proof.
  intros E.
  split; [|split].
  - intros V. now apply configInit_valid, configCorrupt_false.
  - intros C. apply configCorrupt_true in C.
    rewrite (configInit_corrupt ccitt macAddress s C).
    cbn [st_conf st_eeprom].
    assert (L : List.length (configSealed ccitt (configDefault macAddress))
                = SIZEOF_CFG)
      by now rewrite configSealed_length, configDefault_length.
    assert (B : bytes (configSealed ccitt (configDefault macAddress)))
      by apply configSealed_bytes, configDefault_bytes.
    split; [reflexivity|].
    split; [now apply eepromStore_firstn|].
    split; [now apply eepromStore_skipn|].
    split; [now rewrite configSealed_magic, configDefault_magic|].
    split.
    { now rewrite configSealed_crcOf,
        (configSealed_crc _ _ (configDefault_length macAddress)). }
    rewrite configInit_valid; cbn [st_conf st_eeprom st_log].
    + now rewrite configLoad_store.
    + rewrite configLoad_store by assumption.
      apply configSealed_default_valid.
  - unfold configSealed. now rewrite wr_firstn by reflexivity.
Qed.

(** C9.  [configInit] on an EEPROM that holds at least the record
    (1054 bytes; setup asks for 1536 cells).  The checksum is the
    library's CCITT function, truncated to 16 bits, of the first
    [sizeof(struct cfg) - 2] = 1052 bytes of the record, which are all
    the bytes before the [crc] member.  If the magic marker of the
    loaded record is [MAGIC] and its [crc] member equals that checksum,
    the loaded record is used unchanged and the EEPROM is not written.
    If either does not match, the configuration becomes the default
    record with its checksum set, that record is written to the EEPROM
    at once (cells past the record untouched), it passes the integrity
    check, and running [configInit] on the result changes nothing.  The
    default record has blank credentials and blank WiFi settings
    (notifications off, NTP server pool.ntp.org, a US Eastern time
    zone, the MAC address as host name); setting its checksum changes
    none of the bytes before the [crc] member. *)
Theorem C9_configInit :
  forall ccitt macAddress s,
    (SIZEOF_CFG <= List.length (st_eeprom s))%nat ->
    (cfg_magic (configLoad (st_eeprom s)) = MAGIC
     /\ cfg_crc (configLoad (st_eeprom s))
        = u16 (ccitt (firstn (SIZEOF_CFG - 2) (configLoad (st_eeprom s)))) ->
     configInit ccitt macAddress s =
       mkStorage (configLoad (st_eeprom s)) (st_eeprom s) (st_log s))
    /\
    (cfg_magic (configLoad (st_eeprom s)) <> MAGIC
     \/ cfg_crc (configLoad (st_eeprom s))
        <> u16 (ccitt (firstn (SIZEOF_CFG - 2) (configLoad (st_eeprom s)))) ->
     st_conf (configInit ccitt macAddress s)
       = configSealed ccitt (configDefault macAddress)
     /\ firstn SIZEOF_CFG (st_eeprom (configInit ccitt macAddress s))
        = configSealed ccitt (configDefault macAddress)
     /\ skipn SIZEOF_CFG (st_eeprom (configInit ccitt macAddress s))
        = skipn SIZEOF_CFG (st_eeprom s)
     /\ cfg_magic (st_conf (configInit ccitt macAddress s)) = MAGIC
     /\ cfg_crc (st_conf (configInit ccitt macAddress s))
        = u16 (ccitt (firstn (SIZEOF_CFG - 2)
                        (st_conf (configInit ccitt macAddress s))))
     /\ configInit ccitt macAddress (configInit ccitt macAddress s)
        = configInit ccitt macAddress s)
    /\ firstn (SIZEOF_CFG - 2) (configSealed ccitt (configDefault macAddress))
       = firstn (SIZEOF_CFG - 2) (configDefault macAddress)
    /\ (SIZEOF_CFG = 1054 /\ OFF_CRC = SIZEOF_CFG - 2)%nat
    /\ blankSettings (configDefault macAddress)
    /\ defaultSettings (configDefault macAddress).
Proof.
  intros ccitt mac s E.
  destruct (configInit_cases ccitt mac s E) as (V & C & F).
  split; [exact V|]. split; [exact C|]. split; [exact F|].
  split; [split; reflexivity|].
  split; [apply configDefault_blank | apply configDefault_others].
Qed.

(** C9 at work: first boot on an erased EEPROM (every cell 0xFF) with
    CRC-16/CCITT-FALSE stores the sealed default record; the next boot
    loads it unchanged. *)
Lemma C9_configInit_witness :
  st_conf healed = configSealed crc16_ccitt (configDefault exampleMac)
  /\ firstn SIZEOF_CFG (st_eeprom healed)
     = configSealed crc16_ccitt (configDefault exampleMac)
  /\ configInit crc16_ccitt exampleMac healed =
       mkStorage (configLoad (st_eeprom healed)) (st_eeprom healed)
         (st_log healed).
Proof.
  assert (E0 : (SIZEOF_CFG <= List.length (st_eeprom firstBoot))%nat)
    by (vm_compute; lia).
  assert (E1 : (SIZEOF_CFG <= List.length (st_eeprom healed))%nat)
    by (vm_compute; lia).
  assert (Bad : cfg_magic (configLoad (st_eeprom firstBoot)) <> MAGIC
                \/ cfg_crc (configLoad (st_eeprom firstBoot))
                   <> u16 (crc16_ccitt
                             (firstn (SIZEOF_CFG - 2)
                                (configLoad (st_eeprom firstBoot)))))
    by (left; vm_compute; discriminate).
  assert (Good : cfg_magic (configLoad (st_eeprom healed)) = MAGIC
                 /\ cfg_crc (configLoad (st_eeprom healed))
                    = u16 (crc16_ccitt
                             (firstn (SIZEOF_CFG - 2)
                                (configLoad (st_eeprom healed)))))
    by (vm_compute; split; reflexivity).
  pose proof (C9_configInit crc16_ccitt exampleMac firstBoot E0)
    as (_ & C & _).
  pose proof (C9_configInit crc16_ccitt exampleMac healed E1) as (V & _).
  destruct (C Bad) as (A1 & A2 & _).
  split; [exact A1|]. split; [exact A2|]. exact (V Good).
Defined.

(** * Further properties

    ** Capture and decode *)

Lemma lor_even_1 x : 0 <= x -> Z.lor (u64 (Z.shiftl x 1)) 1 = u64 (2 * x) + 1.
Proof.
  intros H. rewrite Z.shiftl_mul_pow2 by lia. change (2^1) with 2.
  rewrite (Z.mul_comm x 2).
  assert (E : Z.land (u64 (2 * x)) 1 = 0).
  { change 1 with (Z.ones 1) at 1. rewrite Z.land_ones by lia.
    unfold u64. change (2^1) with 2. change (2^64) with (2 * 2^63).
    rewrite Z.mul_mod_distr_l by lia.
    now rewrite Z.mul_comm, Z.mod_mul by lia. }
  now rewrite <- Z.lxor_lor, <- Z.add_nocarry_lxor.
Qed.

(** One reader pulse on the entry channel. *)
Lemma entry_pulse (b : bool) now w :
  test (state w) STATE_ENTRY_WEIGAND_DONE = false ->
  0 <= entryDataBits w ->
  let w' := runIsr (if b then EntryD1 else EntryD0) now w in
  entryDataBits w' = u64 (2 * entryDataBits w) + Z.b2z b
  /\ entryBitCount w' = u8 (entryBitCount w + 1)
  /\ entryLastBit w' = u32 (now + WEIGAND_TIMEOUT)
  /\ state w' = state w.
Proof.
  intros D P. destruct b; cbn [runIsr Z.b2z]; unfold ISR_ENTRY_D1, ISR_ENTRY_D0;
    rewrite ntest_ENTRY_WEIGAND_DONE, D; cbn [negb]; fields.
  - repeat split. now apply lor_even_1.
  - repeat split. rewrite Z.shiftl_mul_pow2 by lia.
    now rewrite Z.add_0_r, Z.mul_comm.
Qed.

Lemma mod_pow2_succ a n :
  0 <= n -> a mod 2^(n + 1) = 2^n * Z.b2z (Z.testbit a n) + a mod 2^n.
Proof.
  intros H. rewrite Z.pow_add_r, Z.rem_mul_r, Z.testbit_spec' by lia.
  change (2^1) with 2. lia.
Qed.

Lemma u64_shift_in d b n r :
  0 <= n ->
  u64 ((u64 (2 * d) + b) * 2^n + r) = u64 (d * 2^(n + 1) + (2^n * b + r)).
Proof.
  intros H. unfold u64.
  rewrite Z.pow_add_r by lia. change (2^1) with 2.
  rewrite <- (Zplus_mod_idemp_l ((2 * d mod 2^64 + b) * 2^n)).
  rewrite <- (Zmult_mod_idemp_l (2 * d mod 2^64 + b)).
  rewrite (Zplus_mod_idemp_l (2 * d)).
  rewrite Zmult_mod_idemp_l, Zplus_mod_idemp_l.
  f_equal. ring.
Qed.

Lemma u8_succ c n : u8 (u8 (c + 1) + Z.of_nat n) = u8 (c + Z.of_nat (S n)).
Proof.
  unfold u8. rewrite Zplus_mod_idemp_l. f_equal. lia.
Qed.

Lemma u64_small x : 0 <= x < 2^64 -> u64 x = x.
Proof. intros H. unfold u64. now apply Z.mod_small. Qed.

(** The entry capture state after [n] pulses. *)
Lemma entry_pulses n bits now : forall w,
  test (state w) STATE_ENTRY_WEIGAND_DONE = false ->
  0 <= entryDataBits w < 2^64 ->
  0 <= entryBitCount w < 2^8 ->
  entryDataBits (pulses EntryD0 EntryD1 n bits now w)
    = u64 (entryDataBits w * 2 ^ Z.of_nat n + bits mod 2 ^ Z.of_nat n)
  /\ entryBitCount (pulses EntryD0 EntryD1 n bits now w)
    = u8 (entryBitCount w + Z.of_nat n)
  /\ entryLastBit (pulses EntryD0 EntryD1 n bits now w)
    = match n with
      | O => entryLastBit w
      | S _ => u32 (now + WEIGAND_TIMEOUT)
      end
  /\ state (pulses EntryD0 EntryD1 n bits now w) = state w.
Proof.
  induction n as [|n IH]; intros w D P C.
  - cbn [pulses Z.of_nat]. rewrite Z.pow_0_r, Z.mod_1_r, Z.mul_1_r, !Z.add_0_r.
    repeat split; symmetry; [now apply u64_small|].
    unfold u8. now apply Z.mod_small.
  - cbn [pulses].
    assert (P0 : 0 <= entryDataBits w) by lia.
    destruct (entry_pulse (Z.testbit bits (Z.of_nat n)) now w D P0)
      as (E1 & E2 & E3 & E4).
    cbv zeta in E1, E2, E3, E4.
    set (w1 := runIsr (if Z.testbit bits (Z.of_nat n) then EntryD1
                       else EntryD0) now w) in *.
    assert (D1 : test (state w1) STATE_ENTRY_WEIGAND_DONE = false)
      by now rewrite E4.
    assert (P1 : 0 <= entryDataBits w1 < 2^64).
    { rewrite E1. unfold u64.
      pose proof (Z.mod_pos_bound (2 * entryDataBits w) (2^64)).
      assert (2 * entryDataBits w mod 2^64 <> 2^64 - 1).
      { intros X. change (2^64) with (2 * 2^63) in X at 1.
        rewrite Z.mul_mod_distr_l in X by lia. lia. }
      destruct (Z.testbit bits (Z.of_nat n)); cbn [Z.b2z]; lia. }
    assert (C1 : 0 <= entryBitCount w1 < 2^8)
      by (rewrite E2; unfold u8; apply Z.mod_pos_bound; lia).
    destruct (IH w1 D1 P1 C1) as (F1 & F2 & F3 & F4).
    rewrite F1, F2, F3, F4, E4. clear F1 F2 F3 F4 IH.
    split; [|split; [|split]]; try reflexivity.
    + rewrite Nat2Z.inj_succ, <- Z.add_1_r.
      rewrite mod_pow2_succ by lia.
      rewrite <- u64_shift_in by lia. now rewrite <- E1.
    + rewrite E2. apply u8_succ.
    + destruct n; [exact E3 | reflexivity].
Qed.

(** One reader pulse on the exit channel. *)
Lemma exit_pulse (b : bool) now w :
  test (state w) STATE_EXIT_WEIGAND_DONE = false ->
  0 <= exitDataBits w ->
  let w' := runIsr (if b then ExitD1 else ExitD0) now w in
  exitDataBits w' = u64 (2 * exitDataBits w) + Z.b2z b
  /\ exitBitCount w' = u8 (exitBitCount w + 1)
  /\ exitLastBit w' = u32 (now + WEIGAND_TIMEOUT)
  /\ state w' = state w.
Proof.
  intros D P. destruct b; cbn [runIsr Z.b2z]; unfold ISR_EXIT_D1, ISR_EXIT_D0;
    rewrite ntest_EXIT_WEIGAND_DONE, D; cbn [negb]; fields.
  - repeat split. now apply lor_even_1.
  - repeat split. rewrite Z.shiftl_mul_pow2 by lia.
    now rewrite Z.add_0_r, Z.mul_comm.
Qed.

(** The exit capture state after [n] pulses. *)
Lemma exit_pulses n bits now : forall w,
  test (state w) STATE_EXIT_WEIGAND_DONE = false ->
  0 <= exitDataBits w < 2^64 ->
  0 <= exitBitCount w < 2^8 ->
  exitDataBits (pulses ExitD0 ExitD1 n bits now w)
    = u64 (exitDataBits w * 2 ^ Z.of_nat n + bits mod 2 ^ Z.of_nat n)
  /\ exitBitCount (pulses ExitD0 ExitD1 n bits now w)
    = u8 (exitBitCount w + Z.of_nat n)
  /\ exitLastBit (pulses ExitD0 ExitD1 n bits now w)
    = match n with
      | O => exitLastBit w
      | S _ => u32 (now + WEIGAND_TIMEOUT)
      end
  /\ state (pulses ExitD0 ExitD1 n bits now w) = state w.
Proof.
  induction n as [|n IH]; intros w D P C.
  - cbn [pulses Z.of_nat]. rewrite Z.pow_0_r, Z.mod_1_r, Z.mul_1_r, !Z.add_0_r.
    repeat split; symmetry; [now apply u64_small|].
    unfold u8. now apply Z.mod_small.
  - cbn [pulses].
    assert (P0 : 0 <= exitDataBits w) by lia.
    destruct (exit_pulse (Z.testbit bits (Z.of_nat n)) now w D P0)
      as (E1 & E2 & E3 & E4).
    cbv zeta in E1, E2, E3, E4.
    set (w1 := runIsr (if Z.testbit bits (Z.of_nat n) then ExitD1
                       else ExitD0) now w) in *.
    assert (D1 : test (state w1) STATE_EXIT_WEIGAND_DONE = false)
      by now rewrite E4.
    assert (P1 : 0 <= exitDataBits w1 < 2^64).
    { rewrite E1. unfold u64.
      pose proof (Z.mod_pos_bound (2 * exitDataBits w) (2^64)).
      assert (2 * exitDataBits w mod 2^64 <> 2^64 - 1).
      { intros X. change (2^64) with (2 * 2^63) in X at 1.
        rewrite Z.mul_mod_distr_l in X by lia. lia. }
      destruct (Z.testbit bits (Z.of_nat n)); cbn [Z.b2z]; lia. }
    assert (C1 : 0 <= exitBitCount w1 < 2^8)
      by (rewrite E2; unfold u8; apply Z.mod_pos_bound; lia).
    destruct (IH w1 D1 P1 C1) as (F1 & F2 & F3 & F4).
    rewrite F1, F2, F3, F4, E4. clear F1 F2 F3 F4 IH.
    split; [|split; [|split]]; try reflexivity.
    + rewrite Nat2Z.inj_succ, <- Z.add_1_r.
      rewrite mod_pow2_succ by lia.
      rewrite <- u64_shift_in by lia. now rewrite <- E1.
    + rewrite E2. apply u8_succ.
    + destruct n; [exact E3 | reflexivity].
Qed.

Lemma decode_fields h p25 fc cc p0 :
  0 <= p25 <= 1 -> 0 <= fc < 2^8 -> 0 <= cc < 2^16 -> 0 <= p0 <= 1 ->
  Z.shiftr (h * 2^26 + wiegand26 p25 fc cc p0) 17 mod 2^8 = fc
  /\ Z.shiftr (h * 2^26 + wiegand26 p25 fc cc p0) 1 mod 2^16 = cc.
Proof.
  intros H25 Hf Hc H0. unfold wiegand26. rewrite !Z.shiftr_div_pow2 by lia.
  split.
  - replace (h * 2^26 + (p25 * 2^25 + fc * 2^17 + cc * 2 + p0))
      with ((h * 2^9 + p25 * 2^8 + fc) * 2^17 + (cc * 2 + p0)) by ring.
    rewrite Z.div_add_l, (Z.div_small (cc * 2 + p0)), Z.add_0_r by lia.
    replace (h * 2^9 + p25 * 2^8 + fc) with (fc + (h * 2 + p25) * 2^8) by ring.
    rewrite Z.mod_add by lia. now apply Z.mod_small.
  - replace (h * 2^26 + (p25 * 2^25 + fc * 2^17 + cc * 2 + p0))
      with ((h * 2^25 + p25 * 2^24 + fc * 2^16 + cc) * 2^1 + p0) by ring.
    rewrite Z.div_add_l, (Z.div_small p0), Z.add_0_r by lia.
    replace (h * 2^25 + p25 * 2^24 + fc * 2^16 + cc)
      with (cc + (h * 2^9 + p25 * 2^8 + fc) * 2^16) by ring.
    rewrite Z.mod_add by lia. now apply Z.mod_small.
Qed.

Lemma weigandDecode_26 a b x w :
  weigandDecode a b 26 x w =
    (true, Z.shiftr x 17 mod 2^8, Z.shiftr x 1 mod 2^16, w).
Proof.
  unfold weigandDecode. cbn [Z.eqb Pos.eqb]. unfold u8, u16.
  change 0x1FE0000 with (Z.shiftl (Z.ones 8) 17).
  change 0x1FFFE with (Z.shiftl (Z.ones 16) 1).
  rewrite !field_of_mask by lia. now rewrite !Z.mod_mod by lia.
Qed.

Lemma wiegand26_range p25 fc cc p0 :
  0 <= p25 <= 1 -> 0 <= fc < 2^8 -> 0 <= cc < 2^16 -> 0 <= p0 <= 1 ->
  0 <= wiegand26 p25 fc cc p0 < 2^26.
Proof. unfold wiegand26. lia. Qed.

(** Equal bits in a field give equal field values. *)
Lemma field_ext x y lo len :
  0 <= lo -> 0 <= len ->
  (forall i, lo <= i < lo + len -> Z.testbit x i = Z.testbit y i) ->
  Z.shiftr x lo mod 2^len = Z.shiftr y lo mod 2^len.
Proof.
  intros Hlo Hlen H. apply Z.bits_inj'. intros i Hi.
  destruct (Z.lt_ge_cases i len) as [L|L].
  - rewrite !Z.mod_pow2_bits_low, !Z.shiftr_spec by lia. apply H. lia.
  - now rewrite !Z.mod_pow2_bits_high by lia.
Qed.

Lemma capture_low_bits bits n i :
  0 <= i < 64 -> i < n ->
  Z.testbit (u64 (bits mod 2^n)) i = Z.testbit bits i.
Proof.
  intros Hi Hn. unfold u64.
  now rewrite !Z.mod_pow2_bits_low by lia.
Qed.

Lemma entry_burst n bits now w :
  test (state w) STATE_ENTRY_WEIGAND_DONE = false ->
  entryCapture w = (0, 0, 0) ->
  entryCapture (pulses EntryD0 EntryD1 (S n) bits now w)
    = (u64 (bits mod 2 ^ Z.of_nat (S n)), u8 (Z.of_nat (S n)),
       u32 (now + WEIGAND_TIMEOUT)).
Proof.
  intros D C. unfold entryCapture in C.
  assert (Cd : entryDataBits w = 0) by congruence.
  assert (Cc : entryBitCount w = 0) by congruence.
  destruct (entry_pulses (S n) bits now w D) as (E1 & E2 & E3 & _);
    [rewrite Cd; lia | rewrite Cc; lia |].
  unfold entryCapture. rewrite E1, E2, E3, Cd, Cc.
  now rewrite Z.mul_0_l, !Z.add_0_l.
Qed.

Lemma exit_burst n bits now w :
  test (state w) STATE_EXIT_WEIGAND_DONE = false ->
  exitCapture w = (0, 0, 0) ->
  exitCapture (pulses ExitD0 ExitD1 (S n) bits now w)
    = (u64 (bits mod 2 ^ Z.of_nat (S n)), u8 (Z.of_nat (S n)),
       u32 (now + WEIGAND_TIMEOUT)).
Proof.
  intros D C. unfold exitCapture in C.
  assert (Cd : exitDataBits w = 0) by congruence.
  assert (Cc : exitBitCount w = 0) by congruence.
  destruct (exit_pulses (S n) bits now w D) as (E1 & E2 & E3 & _);
    [rewrite Cd; lia | rewrite Cc; lia |].
  unfold exitCapture. rewrite E1, E2, E3, Cd, Cc.
  now rewrite Z.mul_0_l, !Z.add_0_l.
Qed.

Lemma burst26 x : 0 <= x < 2^26 -> u64 (x mod 2 ^ Z.of_nat 26) = x.
Proof.
  intros H. change (Z.of_nat 26) with 26.
  rewrite Z.mod_small by lia. apply u64_small. lia.
Qed.

(** X1.  Capture and decode are inverse on 26-bit frames.  The 26
    pulses of a frame (parity bit, facility code [fc], card code [cc],
    parity bit), handled by the D0/D1 interrupts of a channel whose
    capture state is empty and whose done flag is clear, leave exactly
    that frame in the bit buffer, 26 in the bit count and the time of
    the pulses plus [WEIGAND_TIMEOUT] in the deadline; and decoding the
    frame returns [fc] and [cc], whatever the two parity bits are. *)
Theorem X1_capture_decode_roundtrip :
  forall p25 fc cc p0 now w a b w0,
    0 <= p25 <= 1 -> 0 <= fc < 2^8 -> 0 <= cc < 2^16 -> 0 <= p0 <= 1 ->
    (test (state w) STATE_ENTRY_WEIGAND_DONE = false ->
     entryCapture w = (0, 0, 0) ->
     entryCapture (pulses EntryD0 EntryD1 26 (wiegand26 p25 fc cc p0) now w)
       = (wiegand26 p25 fc cc p0, 26, u32 (now + WEIGAND_TIMEOUT)))
    /\ (test (state w) STATE_EXIT_WEIGAND_DONE = false ->
        exitCapture w = (0, 0, 0) ->
        exitCapture (pulses ExitD0 ExitD1 26 (wiegand26 p25 fc cc p0) now w)
          = (wiegand26 p25 fc cc p0, 26, u32 (now + WEIGAND_TIMEOUT)))
    /\ weigandDecode a b 26 (wiegand26 p25 fc cc p0) w0 = (true, fc, cc, w0).
Proof.
  intros p25 fc cc p0 now w a b w0 H25 Hf Hc H0.
  pose proof (wiegand26_range p25 fc cc p0 H25 Hf Hc H0) as R.
  split; [|split].
  - intros D C. rewrite (entry_burst 25 _ now w D C).
    now rewrite (burst26 _ R).
  - intros D C. rewrite (exit_burst 25 _ now w D C).
    now rewrite (burst26 _ R).
  - rewrite weigandDecode_26.
    destruct (decode_fields 0 p25 fc cc p0 H25 Hf Hc H0) as (F1 & F2).
    rewrite Z.mul_0_l, Z.add_0_l in F1, F2. now rewrite F1, F2.
Qed.

Lemma X1_capture_decode_roundtrip_witness :
  entryCapture (pulses EntryD0 EntryD1 26 (wiegand26 1 10 400 1) 1000 init)
    = (wiegand26 1 10 400 1, 26, u32 (1000 + WEIGAND_TIMEOUT))
  /\ weigandDecode 0 0 26 (wiegand26 1 10 400 1) init = (true, 10, 400, init).
Proof.
  assert (H25 : 0 <= 1 <= 1) by lia.
  assert (Hf : 0 <= 10 < 2^8) by lia.
  assert (Hc : 0 <= 400 < 2^16) by lia.
  destruct (X1_capture_decode_roundtrip 1 10 400 1 1000 init 0 0 init
              H25 Hf Hc H25) as (E & _ & F).
  split; [apply E; reflexivity | exact F].
Defined.

(** X2.  From an empty capture state, [n] >= 1 pulses leave the low
    [n] bits of the pulse train in the 64-bit buffer (the earliest
    pulses fall off its top), [n] modulo 256 in the 8-bit count, and the
    deadline 20 ms after the pulses. *)
Theorem X2_capture_accumulates :
  forall n bits now w,
    (test (state w) STATE_ENTRY_WEIGAND_DONE = false ->
     entryCapture w = (0, 0, 0) ->
     entryCapture (pulses EntryD0 EntryD1 (S n) bits now w)
       = (u64 (bits mod 2 ^ Z.of_nat (S n)), u8 (Z.of_nat (S n)),
          u32 (now + WEIGAND_TIMEOUT)))
    /\ (test (state w) STATE_EXIT_WEIGAND_DONE = false ->
        exitCapture w = (0, 0, 0) ->
        exitCapture (pulses ExitD0 ExitD1 (S n) bits now w)
          = (u64 (bits mod 2 ^ Z.of_nat (S n)), u8 (Z.of_nat (S n)),
             u32 (now + WEIGAND_TIMEOUT))).
Proof.
  intros n bits now w. split; intros D C.
  - now apply entry_burst.
  - now apply exit_burst.
Qed.

Lemma X2_capture_accumulates_witness :
  entryCapture (pulses EntryD0 EntryD1 (S 33) 0x2BADCAFE5 7 init)
    = (u64 (0x2BADCAFE5 mod 2 ^ Z.of_nat (S 33)), u8 (Z.of_nat (S 33)),
       u32 (7 + WEIGAND_TIMEOUT)).
Proof.
  apply (proj1 (X2_capture_accumulates 33 0x2BADCAFE5 7 init)); reflexivity.
Defined.

(** X3.  The decoder reads bits 1 to 24 of the buffer only: two
    buffers that agree there decode alike, so neither parity bit (bits
    0 and 25) is checked and bits above the frame are ignored. *)
Theorem X3_weigandDecode_ignores_parity :
  forall a b x y w,
    (forall i, 1 <= i <= 24 -> Z.testbit x i = Z.testbit y i) ->
    weigandDecode a b 26 x w = weigandDecode a b 26 y w.
Proof.
  intros a b x y w H. rewrite !weigandDecode_26.
  rewrite (field_ext x y 17 8), (field_ext x y 1 16); try lia; auto;
    intros i Hi; apply H; lia.
Qed.

Lemma X3_weigandDecode_ignores_parity_witness :
  weigandDecode 0 0 26 (wiegand26 0 10 400 0) init
  = weigandDecode 0 0 26 (wiegand26 1 10 400 1 + 5 * 2^26) init.
Proof.
  apply X3_weigandDecode_ignores_parity.
  intros i Hi.
  assert (C : i = 1 \/ i = 2 \/ i = 3 \/ i = 4 \/ i = 5 \/ i = 6 \/ i = 7
     \/ i = 8 \/ i = 9 \/ i = 10 \/ i = 11 \/ i = 12 \/ i = 13 \/ i = 14
     \/ i = 15 \/ i = 16 \/ i = 17 \/ i = 18 \/ i = 19 \/ i = 20 \/ i = 21
     \/ i = 22 \/ i = 23 \/ i = 24) by lia.
  repeat (destruct C as [C|C]; [subst i; reflexivity|]).
  subst i; reflexivity.
Defined.

(** X4.  The bit count wraps at 256: a burst of 26 + 256 k pulses
    passes the width check of the decoder, which returns the facility
    and card code fields of the last pulses of the burst. *)
Theorem X4_overlong_burst_accepted :
  forall k bits now w a b w0,
    test (state w) STATE_ENTRY_WEIGAND_DONE = false ->
    entryCapture w = (0, 0, 0) ->
    entryBitCount (pulses EntryD0 EntryD1 (26 + 256 * k) bits now w) = 26
    /\ weigandDecode a b
         (entryBitCount (pulses EntryD0 EntryD1 (26 + 256 * k) bits now w))
         (entryDataBits (pulses EntryD0 EntryD1 (26 + 256 * k) bits now w))
         w0
       = (true, bits0 bits 24 17, bits0 bits 16 1, w0).
Proof.
  intros k bits now w a b w0 D C.
  pose proof (entry_burst (25 + 256 * k) bits now w D C) as E.
  change (S (25 + 256 * k)) with (26 + 256 * k)%nat in E.
  unfold entryCapture in E.
  assert (Ed : entryDataBits (pulses EntryD0 EntryD1 (26 + 256 * k) bits now w)
               = u64 (bits mod 2 ^ Z.of_nat (26 + 256 * k))) by congruence.
  assert (Ec : entryBitCount (pulses EntryD0 EntryD1 (26 + 256 * k) bits now w)
               = u8 (Z.of_nat (26 + 256 * k))) by congruence.
  assert (C26 : u8 (Z.of_nat (26 + 256 * k)) = 26).
  { unfold u8. rewrite Nat2Z.inj_add, Nat2Z.inj_mul.
    change (Z.of_nat 26) with 26. change (Z.of_nat 256) with (2^8).
    rewrite (Z.mul_comm (2^8)), Z.mod_add by lia. reflexivity. }
  rewrite Ec, Ed, C26. split; [reflexivity|].
  rewrite weigandDecode_26. unfold bits0.
  change (24 - 17 + 1) with 8. change (16 - 1 + 1) with 16.
  rewrite (field_ext _ bits 17 8), (field_ext _ bits 1 16); try lia; auto;
    intros i Hi; apply capture_low_bits; lia.
Qed.

Lemma X4_overlong_burst_accepted_witness :
  entryBitCount (pulses EntryD0 EntryD1 (26 + 256 * 1)
                   (wiegand26 0 10 400 0) 0 init) = 26.
Proof.
  apply (X4_overlong_burst_accepted 1 (wiegand26 0 10 400 0) 0 init 0 0 init);
    reflexivity.
Defined.

(** The decision of [checkCard] in terms of the first matching slot. *)
Lemma checkCard_unknown conf dir fc cc w :
  catNumber conf fc cc = CFG_NCATS ->
  checkCard conf dir fc cc w =
    (-1, ntfy conf (cfg_ntfy_topic conf) "interrobang" 3
           (MsgUnknownCard fc cc) (debug (MsgUnknownCard fc cc) w)).
Proof.
  unfold catNumber, checkCard. intros H. now rewrite H, Nat.eqb_refl.
Qed.

Lemma checkCard_known conf dir fc cc w :
  (catNumber conf fc cc < CFG_NCATS)%nat ->
  checkCard conf dir fc cc w =
    (if permitted conf dir (catNumber conf fc cc) then 1 else 0, w).
Proof.
  unfold catNumber, checkCard. intros H.
  assert (E : (catScan conf fc cc 0 CFG_NCATS =? CFG_NCATS)%nat = false)
    by (apply Nat.eqb_neq; lia).
  rewrite E. destruct dir; cbn [direction_eqb permitted andb orb];
    now rewrite ?orb_false_r.
Qed.

Lemma catNumber_bound conf fc cc : (catNumber conf fc cc <= CFG_NCATS)%nat.
Proof. unfold catNumber. apply (catScan_bound conf fc cc CFG_NCATS 0). Qed.

(** The three branches of the entry decision. *)
Lemma entryDecide_unknown conf e fc cc w :
  catNumber conf fc cc = CFG_NCATS ->
  entryDecide conf e fc cc w =
    ntfy conf (cfg_ntfy_topic conf) "interrobang" 3 (MsgUnknownCard fc cc)
      (debug (MsgUnknownCard fc cc) w).
Proof.
  intros H. unfold entryDecide. now rewrite (checkCard_unknown _ _ _ _ _ H).
Qed.

Lemma entryDecide_denied conf e fc cc w :
  (catNumber conf fc cc < CFG_NCATS)%nat ->
  permitted conf ENTRY (catNumber conf fc cc) = false ->
  entryDecide conf e fc cc w =
    debug (MsgEntryDenied (catName conf fc cc))
      (ntfy conf (catTopic conf fc cc) "stop_sign" 3
         (MsgEntryDenied (catName conf fc cc)) w).
Proof.
  intros H P. unfold entryDecide.
  now rewrite (checkCard_known _ _ _ _ _ H), P.
Qed.

Lemma entryDecide_permitted conf e fc cc w :
  (catNumber conf fc cc < CFG_NCATS)%nat ->
  permitted conf ENTRY (catNumber conf fc cc) = true ->
  entryDecide conf e fc cc w =
    debug (MsgEntry (catName conf fc cc))
      (set_last fc cc
         (entryAnnounce conf e fc cc
            (set_entryCloseAt (time_NULL e 301 + DOOR_TIMEOUT_DEFAULT)
               (entryUnlock w)))).
Proof.
  intros H P. unfold entryDecide.
  now rewrite (checkCard_known _ _ _ _ _ H), P.
Qed.

Lemma exitDecide_unknown conf e fc cc w :
  catNumber conf fc cc = CFG_NCATS ->
  exitDecide conf e fc cc w =
    ntfy conf (cfg_ntfy_topic conf) "interrobang" 3 (MsgUnknownCard fc cc)
      (debug (MsgUnknownCard fc cc) w).
Proof.
  intros H. unfold exitDecide. now rewrite (checkCard_unknown _ _ _ _ _ H).
Qed.

Lemma exitDecide_denied conf e fc cc w :
  (catNumber conf fc cc < CFG_NCATS)%nat ->
  permitted conf EXIT (catNumber conf fc cc) = false ->
  exitDecide conf e fc cc w =
    debug (MsgEntryDenied (catName conf fc cc))
      (ntfy conf (catTopic conf fc cc) "stop_sign" 3
         (MsgExitDenied (catName conf fc cc)) w).
Proof.
  intros H P. unfold exitDecide.
  now rewrite (checkCard_known _ _ _ _ _ H), P.
Qed.

Lemma exitDecide_permitted conf e fc cc w :
  (catNumber conf fc cc < CFG_NCATS)%nat ->
  permitted conf EXIT (catNumber conf fc cc) = true ->
  exitDecide conf e fc cc w =
    debug (MsgExit (catName conf fc cc))
      (set_last fc cc
         (exitAnnounce conf e fc cc
            (set_exitCloseAt (time_NULL e 331 + DOOR_TIMEOUT_DEFAULT)
               (exitUnlock w)))).
Proof.
  intros H P. unfold exitDecide.
  now rewrite (checkCard_known _ _ _ _ _ H), P.
Qed.

(** Frame processing, by case. *)
Lemma entryFrame_26 conf e w :
  test (state w) STATE_ENTRY_WEIGAND_DONE = true ->
  entryBitCount w = 26 ->
  exitOpen w = false ->
  entryFrame conf e w =
    entryFrameEnd
      (entryDecide conf e (fst (decoded (entryDataBits w)))
         (snd (decoded (entryDataBits w)))
         (set_locals (fst (decoded (entryDataBits w)))
            (snd (decoded (entryDataBits w))) w)).
Proof.
  intros D C X. unfold entryFrame. rewrite D, C, weigandDecode_26.
  cbn [fst snd andb]. fields. rewrite ntest_EXIT_OPEN.
  unfold exitOpen in X. rewrite X. reflexivity.
Qed.

Lemma entryFrame_blocked conf e w :
  test (state w) STATE_ENTRY_WEIGAND_DONE = true ->
  entryBitCount w = 26 ->
  exitOpen w = true ->
  entryFrame conf e w =
    entryFrameEnd
      (set_locals (fst (decoded (entryDataBits w)))
         (snd (decoded (entryDataBits w))) w).
Proof.
  intros D C X. unfold entryFrame. rewrite D, C, weigandDecode_26.
  cbn [fst snd andb]. fields. rewrite ntest_EXIT_OPEN.
  unfold exitOpen in X. rewrite X. reflexivity.
Qed.

Lemma entryFrame_width conf e w :
  test (state w) STATE_ENTRY_WEIGAND_DONE = true ->
  entryBitCount w <> 26 ->
  entryFrame conf e w =
    entryFrameEnd (debug (MsgUnknownFormat (entryBitCount w)) w).
Proof.
  intros D C. unfold entryFrame, weigandDecode. rewrite D.
  apply Z.eqb_neq in C. rewrite C. reflexivity.
Qed.

Lemma exitFrame_26 conf e w :
  test (state w) STATE_EXIT_WEIGAND_DONE = true ->
  exitBitCount w = 26 ->
  entryOpen w = false ->
  exitFrame conf e w =
    exitFrameEnd
      (exitDecide conf e (fst (decoded (exitDataBits w)))
         (snd (decoded (exitDataBits w)))
         (set_locals (fst (decoded (exitDataBits w)))
            (snd (decoded (exitDataBits w))) w)).
Proof.
  intros D C X. unfold exitFrame. rewrite D, C, weigandDecode_26.
  cbn [fst snd andb]. fields. rewrite ntest_ENTRY_OPEN.
  unfold entryOpen in X. rewrite X. reflexivity.
Qed.

Lemma exitFrame_blocked conf e w :
  test (state w) STATE_EXIT_WEIGAND_DONE = true ->
  exitBitCount w = 26 ->
  entryOpen w = true ->
  exitFrame conf e w =
    exitFrameEnd
      (set_locals (fst (decoded (exitDataBits w)))
         (snd (decoded (exitDataBits w))) w).
Proof.
  intros D C X. unfold exitFrame. rewrite D, C, weigandDecode_26.
  cbn [fst snd andb]. fields. rewrite ntest_ENTRY_OPEN.
  unfold entryOpen in X. rewrite X. reflexivity.
Qed.

Lemma exitFrame_width conf e w :
  test (state w) STATE_EXIT_WEIGAND_DONE = true ->
  exitBitCount w <> 26 ->
  exitFrame conf e w =
    exitFrameEnd (debug (MsgUnknownFormat (exitBitCount w)) w).
Proof.
  intros D C. unfold exitFrame, weigandDecode. rewrite D.
  apply Z.eqb_neq in C. rewrite C. reflexivity.
Qed.

(** ** The two directions through the phases of an iteration *)

Ltac sides :=
  unfold entrySide, exitSide, memo, ledger, entryOpen, exitOpen,
    entryLockedOpenFlag, exitLockedOpenFlag in *.

Ltac pins :=
  rewrite ?pinEvents_app;
  cbn [pinEvents filter onPin PIN_ENTRY_SOLENOID PIN_EXIT_SOLENOID
       Z.eqb Pos.eqb app];
  rewrite ?app_nil_r.

Lemma ntfy_trace conf t g p m w :
  trace (ntfy conf t g p m w) =
    trace w ++ (if ntest (cfg_flags conf) CFG_NTFY_ENABLE then []
                else [Ntfy t g p m]).
Proof. unfold ntfy. destruct (ntest _ _); [now rewrite app_nil_r|reflexivity]. Qed.

Lemma ntfy_pins pin conf t g p m w :
  pinEvents pin (trace (ntfy conf t g p m w)) = pinEvents pin (trace w).
Proof. rewrite ntfy_trace. destruct (ntest _ _); pins; reflexivity. Qed.

Lemma ntfy_sides conf t g p m w :
  entrySide (ntfy conf t g p m w) = entrySide w
  /\ exitSide (ntfy conf t g p m w) = exitSide w
  /\ memo (ntfy conf t g p m w) = memo w
  /\ ledger (ntfy conf t g p m w) = ledger w.
Proof.
  sides. rewrite !ntfy_pins. rewrite ntfy_world. fields. auto.
Qed.

Lemma debug_sides m w :
  entrySide (debug m w) = entrySide w
  /\ exitSide (debug m w) = exitSide w
  /\ memo (debug m w) = memo w
  /\ ledger (debug m w) = ledger w.
Proof. sides. fields. pins. auto. Qed.

Lemma entryAnnounce_sides conf e fc cc w :
  entrySide (entryAnnounce conf e fc cc w) = entrySide w
  /\ exitSide (entryAnnounce conf e fc cc w) = exitSide w
  /\ memo (entryAnnounce conf e fc cc w) = memo w.
Proof.
  destruct (ntfy_sides conf (catTopic conf fc cc) "unlock,arrow_left" 3
              (MsgEntry (catName conf fc cc)) w) as (A & B & C & _).
  unfold entryAnnounce. cbv zeta.
  destruct (_ && _); [|auto].
  destruct (_ <? _)%nat; [|auto].
  sides. fields. auto.
Qed.

Lemma exitAnnounce_sides conf e fc cc w :
  entrySide (exitAnnounce conf e fc cc w) = entrySide w
  /\ exitSide (exitAnnounce conf e fc cc w) = exitSide w
  /\ memo (exitAnnounce conf e fc cc w) = memo w.
Proof.
  destruct (ntfy_sides conf (catTopic conf fc cc) "arrow_right,unlock" 3
              (MsgExit (catName conf fc cc)) w) as (A & B & C & _).
  unfold exitAnnounce. cbv zeta.
  destruct (_ && _); [|auto].
  destruct (_ <? _)%nat; [|auto].
  sides. fields. auto.
Qed.

Lemma entryUnlock_exitSide w :
  exitSide (entryUnlock w) = exitSide w
  /\ memo (entryUnlock w) = memo w /\ ledger (entryUnlock w) = ledger w.
Proof.
  sides. unfold entryUnlock. fields. flags. pins. auto.
Qed.

Lemma exitUnlock_entrySide w :
  entrySide (exitUnlock w) = entrySide w
  /\ memo (exitUnlock w) = memo w /\ ledger (exitUnlock w) = ledger w.
Proof.
  sides. unfold exitUnlock. fields. flags. pins. auto.
Qed.

Lemma entryDecide_exitSide conf e fc cc w :
  exitSide (entryDecide conf e fc cc w) = exitSide w.
Proof.
  pose proof (catNumber_bound conf fc cc) as B.
  destruct (Nat.eq_dec (catNumber conf fc cc) CFG_NCATS) as [U|K].
  - rewrite (entryDecide_unknown _ _ _ _ _ U).
    rewrite (proj1 (proj2 (ntfy_sides _ _ _ _ _ _))).
    apply debug_sides.
  - assert (L : (catNumber conf fc cc < CFG_NCATS)%nat) by lia.
    destruct (permitted conf ENTRY (catNumber conf fc cc)) eqn:P.
    + rewrite (entryDecide_permitted _ _ _ _ _ L P).
      transitivity (exitSide (entryAnnounce conf e fc cc
         (set_entryCloseAt (time_NULL e 301 + DOOR_TIMEOUT_DEFAULT)
            (entryUnlock w)))); [sides; fields; pins; reflexivity|].
      rewrite (proj1 (proj2 (entryAnnounce_sides _ _ _ _ _))).
      apply (entryUnlock_exitSide w).
    + rewrite (entryDecide_denied _ _ _ _ _ L P).
      transitivity (exitSide (ntfy conf (catTopic conf fc cc) "stop_sign" 3
         (MsgEntryDenied (catName conf fc cc)) w));
        [sides; fields; pins; reflexivity|].
      apply ntfy_sides.
Qed.

Lemma exitDecide_entrySide conf e fc cc w :
  entrySide (exitDecide conf e fc cc w) = entrySide w.
Proof.
  pose proof (catNumber_bound conf fc cc) as B.
  destruct (Nat.eq_dec (catNumber conf fc cc) CFG_NCATS) as [U|K].
  - rewrite (exitDecide_unknown _ _ _ _ _ U).
    rewrite (proj1 (ntfy_sides _ _ _ _ _ _)).
    apply debug_sides.
  - assert (L : (catNumber conf fc cc < CFG_NCATS)%nat) by lia.
    destruct (permitted conf EXIT (catNumber conf fc cc)) eqn:P.
    + rewrite (exitDecide_permitted _ _ _ _ _ L P).
      transitivity (entrySide (exitAnnounce conf e fc cc
         (set_exitCloseAt (time_NULL e 331 + DOOR_TIMEOUT_DEFAULT)
            (exitUnlock w)))); [sides; fields; pins; reflexivity|].
      rewrite (proj1 (exitAnnounce_sides _ _ _ _ _)).
      apply (exitUnlock_entrySide w).
    + rewrite (exitDecide_denied _ _ _ _ _ L P).
      transitivity (entrySide (ntfy conf (catTopic conf fc cc) "stop_sign" 3
         (MsgExitDenied (catName conf fc cc)) w));
        [sides; fields; pins; reflexivity|].
      apply ntfy_sides.
Qed.

Lemma set_locals_sides a b w :
  entrySide (set_locals a b w) = entrySide w
  /\ exitSide (set_locals a b w) = exitSide w
  /\ memo (set_locals a b w) = memo w
  /\ ledger (set_locals a b w) = ledger w.
Proof. repeat split. Qed.

Lemma entryFrameEnd_sides w :
  entrySide (entryFrameEnd w) = entrySide w
  /\ exitSide (entryFrameEnd w) = exitSide w
  /\ memo (entryFrameEnd w) = memo w
  /\ ledger (entryFrameEnd w) = ledger w.
Proof.
  sides. unfold entryFrameEnd, entryCaptureReset. fields. flags. auto.
Qed.

Lemma exitFrameEnd_sides w :
  entrySide (exitFrameEnd w) = entrySide w
  /\ exitSide (exitFrameEnd w) = exitSide w
  /\ memo (exitFrameEnd w) = memo w
  /\ ledger (exitFrameEnd w) = ledger w.
Proof.
  sides. unfold exitFrameEnd, exitCaptureReset. fields. flags. auto.
Qed.

Lemma bootNotify_sides conf w :
  entrySide (bootNotify conf w) = entrySide w
  /\ exitSide (bootNotify conf w) = exitSide w
  /\ memo (bootNotify conf w) = memo w
  /\ ledger (bootNotify conf w) = ledger w.
Proof.
  unfold bootNotify. destruct (_ && _); [|auto]. cbv zeta.
  destruct (ntfy_sides conf (cfg_ntfy_topic conf) "facepalm" 3 MsgBootUp w)
    as (A & B & C & D).
  rewrite <- A, <- B, <- C, <- D.
  sides. fields. flags. auto.
Qed.

Lemma pollDeadlines_sides e w :
  entrySide (pollDeadlines e w) = entrySide w
  /\ exitSide (pollDeadlines e w) = exitSide w
  /\ memo (pollDeadlines e w) = memo w
  /\ ledger (pollDeadlines e w) = ledger w.
Proof.
  sides. unfold pollDeadlines. break_if; fields; flags; auto.
Qed.

Lemma lockedOpenDelay_sides w :
  entrySide (lockedOpenDelay w) = entrySide w
  /\ exitSide (lockedOpenDelay w) = exitSide w
  /\ memo (lockedOpenDelay w) = memo w
  /\ ledger (lockedOpenDelay w) = ledger w.
Proof.
  sides. unfold lockedOpenDelay. break_if; fields; pins; auto.
Qed.

Lemma entryFrame_exitSide conf e w :
  exitSide (entryFrame conf e w) = exitSide w.
Proof.
  destruct (test (state w) STATE_ENTRY_WEIGAND_DONE) eqn:D;
    [|now rewrite entryFrame_idle].
  destruct (Z.eq_dec (entryBitCount w) 26) as [C|C].
  - destruct (exitOpen w) eqn:X.
    + rewrite (entryFrame_blocked _ _ _ D C X).
      now rewrite (proj1 (proj2 (entryFrameEnd_sides _))).
    + rewrite (entryFrame_26 _ _ _ D C X).
      now rewrite (proj1 (proj2 (entryFrameEnd_sides _))),
        entryDecide_exitSide.
  - rewrite (entryFrame_width _ _ _ D C).
    rewrite (proj1 (proj2 (entryFrameEnd_sides _))). apply debug_sides.
Qed.

Lemma exitFrame_entrySide conf e w :
  entrySide (exitFrame conf e w) = entrySide w.
Proof.
  destruct (test (state w) STATE_EXIT_WEIGAND_DONE) eqn:D;
    [|now rewrite exitFrame_idle].
  destruct (Z.eq_dec (exitBitCount w) 26) as [C|C].
  - destruct (entryOpen w) eqn:X.
    + rewrite (exitFrame_blocked _ _ _ D C X).
      now rewrite (proj1 (exitFrameEnd_sides _)).
    + rewrite (exitFrame_26 _ _ _ D C X).
      now rewrite (proj1 (exitFrameEnd_sides _)), exitDecide_entrySide.
  - rewrite (exitFrame_width _ _ _ D C).
    rewrite (proj1 (exitFrameEnd_sides _)). apply debug_sides.
Qed.

Lemma exitLockedOpen_entrySide conf e w :
  entrySide (exitLockedOpen conf e w) = entrySide w
  /\ memo (exitLockedOpen conf e w) = memo w
  /\ ledger (exitLockedOpen conf e w) = ledger w.
Proof.
  sides. unfold exitLockedOpen, exitUnlock, ntfy.
  break_if; fields; flags; pins; auto.
Qed.

Lemma entryLockedOpen_exitSide conf e w :
  exitSide (entryLockedOpen conf e w) = exitSide w
  /\ memo (entryLockedOpen conf e w) = memo w
  /\ ledger (entryLockedOpen conf e w) = ledger w.
Proof.
  sides. unfold entryLockedOpen, entryUnlock, ntfy.
  break_if; fields; flags; pins; auto.
Qed.

Lemma exitRelock_entrySide e w :
  entrySide (exitRelock e w) = entrySide w
  /\ ledger (exitRelock e w) = ledger w.
Proof.
  sides. unfold exitRelock, exitLock.
  break_if; fields; flags; pins; auto.
Qed.

Lemma entryRelock_exitSide e w :
  exitSide (entryRelock e w) = exitSide w
  /\ ledger (entryRelock e w) = ledger w.
Proof.
  sides. unfold entryRelock, entryLock.
  break_if; fields; flags; pins; auto.
Qed.

(** ** Frames that are not yet complete *)

Lemma ntfy_exitCapture conf t g p m w :
  exitCapture (ntfy conf t g p m w) = exitCapture w.
Proof. now rewrite ntfy_world. Qed.

Lemma entryAnnounce_exitCapture conf e fc cc w :
  exitCapture (entryAnnounce conf e fc cc w) = exitCapture w.
Proof.
  pose proof (ntfy_exitCapture conf (catTopic conf fc cc) "unlock,arrow_left"
                3 (MsgEntry (catName conf fc cc)) w) as A.
  unfold entryAnnounce. cbv zeta.
  destruct (_ && _); [|reflexivity].
  destruct (_ <? _)%nat; [|exact A].
  unfold exitCapture in *. fields. exact A.
Qed.

Lemma entryDecide_exitCapture conf e fc cc w :
  exitCapture (entryDecide conf e fc cc w) = exitCapture w.
Proof.
  pose proof (catNumber_bound conf fc cc) as B.
  destruct (Nat.eq_dec (catNumber conf fc cc) CFG_NCATS) as [U|K].
  - rewrite (entryDecide_unknown _ _ _ _ _ U). now rewrite ntfy_exitCapture.
  - assert (L : (catNumber conf fc cc < CFG_NCATS)%nat) by lia.
    destruct (permitted conf ENTRY (catNumber conf fc cc)) eqn:P.
    + rewrite (entryDecide_permitted _ _ _ _ _ L P).
      transitivity (exitCapture (entryAnnounce conf e fc cc
         (set_entryCloseAt (time_NULL e 301 + DOOR_TIMEOUT_DEFAULT)
            (entryUnlock w)))); [reflexivity|].
      now rewrite entryAnnounce_exitCapture.
    + rewrite (entryDecide_denied _ _ _ _ _ L P).
      transitivity (exitCapture (ntfy conf (catTopic conf fc cc) "stop_sign" 3
         (MsgEntryDenied (catName conf fc cc)) w)); [reflexivity|].
      apply ntfy_exitCapture.
Qed.

Lemma entryFrame_exitCapture conf e w :
  exitCapture (entryFrame conf e w) = exitCapture w.
Proof.
  destruct (test (state w) STATE_ENTRY_WEIGAND_DONE) eqn:D;
    [|now rewrite entryFrame_idle].
  destruct (Z.eq_dec (entryBitCount w) 26) as [C|C].
  - destruct (exitOpen w) eqn:X.
    + now rewrite (entryFrame_blocked _ _ _ D C X).
    + rewrite (entryFrame_26 _ _ _ D C X).
      transitivity (exitCapture
        (entryDecide conf e (fst (decoded (entryDataBits w)))
           (snd (decoded (entryDataBits w)))
           (set_locals (fst (decoded (entryDataBits w)))
              (snd (decoded (entryDataBits w))) w))); [reflexivity|].
      now rewrite entryDecide_exitCapture.
  - now rewrite (entryFrame_width _ _ _ D C).
Qed.

Lemma front_capture conf e w :
  entryCapture (pollDeadlines e (bootNotify conf
     (set_locals (stack_facilityCode e) (stack_cardCode e) w)))
    = entryCapture w
  /\ exitCapture (pollDeadlines e (bootNotify conf
     (set_locals (stack_facilityCode e) (stack_cardCode e) w)))
    = exitCapture w.
Proof.
  unfold pollDeadlines, bootNotify, ntfy. break_if; split; reflexivity.
Qed.

Lemma front_entry_done conf e w :
  test (state (pollDeadlines e (bootNotify conf
     (set_locals (stack_facilityCode e) (stack_cardCode e) w))))
    STATE_ENTRY_WEIGAND_DONE = entryFrameReady e w.
Proof.
  rewrite pollDeadlines_entry_done.
  now rewrite (proj1 (bootNotify_ready _ _ _)).
Qed.

Lemma front_exit_done conf e w :
  test (state (pollDeadlines e (bootNotify conf
     (set_locals (stack_facilityCode e) (stack_cardCode e) w))))
    STATE_EXIT_WEIGAND_DONE = exitFrameReady e w.
Proof.
  rewrite pollDeadlines_exit_done.
  now rewrite (proj2 (bootNotify_ready _ _ _)).
Qed.

Lemma loop_entryCapture_pending conf e w :
  entryFrameReady e w = false ->
  entryCapture (loop conf e w) = entryCapture w.
Proof.
  intros Q. rewrite loop_eq, (proj1 (fromDetection_capture _ _ _)),
    beforeDetection_eq, (proj1 (doorSwing_capture _ _)),
    exitFrame_entryCapture.
  rewrite entryFrame_idle by now rewrite front_entry_done.
  apply front_capture.
Qed.

Lemma loop_exitCapture_pending conf e w :
  exitFrameReady e w = false ->
  exitCapture (loop conf e w) = exitCapture w.
Proof.
  intros Q. rewrite loop_eq, (proj2 (fromDetection_capture _ _ _)),
    beforeDetection_eq, (proj2 (doorSwing_capture _ _)).
  rewrite exitFrame_idle
    by now rewrite entryFrame_exit, front_exit_done.
  rewrite entryFrame_exitCapture. apply front_capture.
Qed.

(** X5.  A frame that is not complete when an iteration starts (done
    flag clear, and deadline unset or still ahead of the clock read at
    line 287 or 289) is left alone by the iteration: bit buffer, bit
    count and deadline of that channel are what they were, so a frame
    may be assembled across iterations. *)
Theorem X5_incomplete_frame_survives :
  forall conf e w,
    (entryFrameReady e w = false ->
     entryCapture (loop conf e w) = entryCapture w)
    /\ (exitFrameReady e w = false ->
        exitCapture (loop conf e w) = exitCapture w).
Proof.
  intros conf e w. split.
  - apply loop_entryCapture_pending.
  - apply loop_exitCapture_pending.
Qed.

Lemma X5_incomplete_frame_survives_witness :
  entryCapture
    (loop exampleConf (constEnv 1005 100 0)
       (pulses EntryD0 EntryD1 13 0x1ABC 1000 init))
  = entryCapture (pulses EntryD0 EntryD1 13 0x1ABC 1000 init).
Proof.
  apply (proj1 (X5_incomplete_frame_survives exampleConf (constEnv 1005 100 0)
                  (pulses EntryD0 EntryD1 13 0x1ABC 1000 init))).
  vm_compute. reflexivity.
Defined.


Lemma requests_inv w a b c :
  requests w = (a, b, c) ->
  test (state w) STATE_ENTRY_WEIGAND_DONE = a
  /\ test (state w) STATE_EXIT_WEIGAND_DONE = b
  /\ test (state w) STATE_DOOR_TRIGGER = c.
Proof. unfold requests. intros H. injection H as A B C. auto. Qed.

Lemma entryLockedOpen_requests conf e w :
  requests (entryLockedOpen conf e w) = requests w.
Proof.
  unfold requests, entryLockedOpen, entryUnlock, ntfy.
  break_if; fields; flags; reflexivity.
Qed.

Lemma exitLockedOpen_requests conf e w :
  requests (exitLockedOpen conf e w) = requests w.
Proof.
  unfold requests, exitLockedOpen, exitUnlock, ntfy.
  break_if; fields; flags; reflexivity.
Qed.

Lemma lockedOpenDelay_requests w :
  requests (lockedOpenDelay w) = requests w.
Proof. unfold requests, lockedOpenDelay. break_if; reflexivity. Qed.

Lemma entryRelock_requests e w : requests (entryRelock e w) = requests w.
Proof.
  unfold requests, entryRelock, entryLock.
  break_if; fields; flags; reflexivity.
Qed.

Lemma exitRelock_requests e w : requests (exitRelock e w) = requests w.
Proof.
  unfold requests, exitRelock, exitLock.
  break_if; fields; flags; reflexivity.
Qed.

Lemma fromDetection_requests conf e w :
  requests (fromDetection conf e w) = requests w.
Proof.
  rewrite fromDetection_eq.
  now rewrite exitRelock_requests, entryRelock_requests,
    lockedOpenDelay_requests, exitLockedOpen_requests,
    entryLockedOpen_requests.
Qed.

Lemma doorSwing_requests e w :
  requests (doorSwing e w) =
    (test (state w) STATE_ENTRY_WEIGAND_DONE,
     test (state w) STATE_EXIT_WEIGAND_DONE, false).
Proof.
  unfold requests, doorSwing.
  destruct (test (state w) STATE_DOOR_TRIGGER) eqn:T; [|now rewrite T].
  break_if; fields; flags; reflexivity.
Qed.

Lemma entryFrame_entry_done conf e w :
  test (state (entryFrame conf e w)) STATE_ENTRY_WEIGAND_DONE = false.
Proof.
  unfold entryFrame.
  destruct (test (state w) STATE_ENTRY_WEIGAND_DONE) eqn:D; [|exact D].
  cbv zeta. fields. now flags.
Qed.

Lemma exitFrame_exit_done conf e w :
  test (state (exitFrame conf e w)) STATE_EXIT_WEIGAND_DONE = false.
Proof.
  unfold exitFrame.
  destruct (test (state w) STATE_EXIT_WEIGAND_DONE) eqn:D; [|exact D].
  cbv zeta. fields. now flags.
Qed.

(** The entry channel through the exit frame processing. *)
Lemma exitFrame_entry conf e w :
  test (state (exitFrame conf e w)) STATE_ENTRY_WEIGAND_DONE =
    test (state w) STATE_ENTRY_WEIGAND_DONE.
Proof.
  unfold exitFrame.
  destruct (test (state w) STATE_EXIT_WEIGAND_DONE); [|reflexivity].
  unfold exitCaptureReset, weigandDecode.
  destruct (exitBitCount w =? 26); fields; cbn [andb]; flags; [|reflexivity].
  destruct (negb _); fields; [|reflexivity].
  rewrite exitDecide_state. fields. destruct (_ =? 1); flags; reflexivity.
Qed.

Lemma loop_requests conf e w : requests (loop conf e w) = (false, false, false).
Proof.
  rewrite loop_eq, fromDetection_requests, beforeDetection_eq,
    doorSwing_requests.
  now rewrite exitFrame_exit_done, exitFrame_entry, entryFrame_entry_done.
Qed.

Lemma loop_entry_done conf e w :
  test (state (loop conf e w)) STATE_ENTRY_WEIGAND_DONE = false.
Proof. apply (requests_inv _ _ _ _ (loop_requests conf e w)). Qed.

Lemma loop_exit_done conf e w :
  test (state (loop conf e w)) STATE_EXIT_WEIGAND_DONE = false.
Proof. apply (requests_inv _ _ _ _ (loop_requests conf e w)). Qed.

Lemma runIsr_done i now w :
  test (state (runIsr i now w)) STATE_ENTRY_WEIGAND_DONE
    = test (state w) STATE_ENTRY_WEIGAND_DONE
  /\ test (state (runIsr i now w)) STATE_EXIT_WEIGAND_DONE
    = test (state w) STATE_EXIT_WEIGAND_DONE.
Proof.
  destruct i; cbn [runIsr];
    unfold ISR_ENTRY_D0, ISR_ENTRY_D1, ISR_EXIT_D0, ISR_EXIT_D1, ISR_DOOR;
    break_if; fields; flags; split; reflexivity.
Qed.

Lemma runCallback_done c w :
  test (state (runCallback c w)) STATE_ENTRY_WEIGAND_DONE
    = test (state w) STATE_ENTRY_WEIGAND_DONE
  /\ test (state (runCallback c w)) STATE_EXIT_WEIGAND_DONE
    = test (state w) STATE_EXIT_WEIGAND_DONE.
Proof.
  destruct c; cbn [runCallback]; fields; flags; split; reflexivity.
Qed.

Lemma reachable_done w :
  reachable w ->
  test (state w) STATE_ENTRY_WEIGAND_DONE = false
  /\ test (state w) STATE_EXIT_WEIGAND_DONE = false.
Proof.
  induction 1 as [|conf e w R IH|i now w R IH|c w R IH].
  - split; reflexivity.
  - split; [apply loop_entry_done | apply loop_exit_done].
  - destruct (runIsr_done i now w) as [A B]. rewrite A, B. exact IH.
  - destruct (runCallback_done c w) as [A B]. rewrite A, B. exact IH.
Qed.

Lemma entrySide_inv w a b c d t :
  entrySide w = (a, b, c, d, t) ->
  entryOpen w = a /\ entryLockedOpenFlag w = b /\ entryCloseAt w = c
  /\ entryCloseTime w = d /\ pinEvents PIN_ENTRY_SOLENOID (trace w) = t.
Proof. unfold entrySide. intros H. injection H as A B C D T. auto. Qed.

Lemma exitSide_inv w a b c d t :
  exitSide w = (a, b, c, d, t) ->
  exitOpen w = a /\ exitLockedOpenFlag w = b /\ exitCloseAt w = c
  /\ exitCloseTime w = d /\ pinEvents PIN_EXIT_SOLENOID (trace w) = t.
Proof. unfold exitSide. intros H. injection H as A B C D T. auto. Qed.

Lemma entrySide_eq w :
  entrySide w = (entryOpen w, entryLockedOpenFlag w, entryCloseAt w,
                 entryCloseTime w, pinEvents PIN_ENTRY_SOLENOID (trace w)).
Proof. reflexivity. Qed.

Lemma exitSide_eq w :
  exitSide w = (exitOpen w, exitLockedOpenFlag w, exitCloseAt w,
                exitCloseTime w, pinEvents PIN_EXIT_SOLENOID (trace w)).
Proof. reflexivity. Qed.

(** A permitted frame at the entry. *)
Lemma entryDecide_unlocks conf e fc cc w :
  (catNumber conf fc cc < CFG_NCATS)%nat ->
  permitted conf ENTRY (catNumber conf fc cc) = true ->
  entrySide (entryDecide conf e fc cc w) =
    (true, entryLockedOpenFlag w,
     time_NULL e 301 + DOOR_TIMEOUT_DEFAULT, entryCloseTime w,
     pinEvents PIN_ENTRY_SOLENOID (trace w) ++ entryUnlockPins)
  /\ memo (entryDecide conf e fc cc w) = (fc, cc).
Proof.
  intros L P. rewrite (entryDecide_permitted _ _ _ _ _ L P). split.
  - transitivity (entrySide (entryAnnounce conf e fc cc
       (set_entryCloseAt (time_NULL e 301 + DOOR_TIMEOUT_DEFAULT)
          (entryUnlock w)))); [sides; fields; pins; reflexivity|].
    rewrite (proj1 (entryAnnounce_sides _ _ _ _ _)).
    sides. unfold entryUnlock, entryUnlockPins. fields. flags. pins.
    now rewrite <- app_assoc.
  - reflexivity.
Qed.

Lemma exitDecide_unlocks conf e fc cc w :
  (catNumber conf fc cc < CFG_NCATS)%nat ->
  permitted conf EXIT (catNumber conf fc cc) = true ->
  exitSide (exitDecide conf e fc cc w) =
    (true, exitLockedOpenFlag w,
     time_NULL e 331 + DOOR_TIMEOUT_DEFAULT, exitCloseTime w,
     pinEvents PIN_EXIT_SOLENOID (trace w) ++ exitUnlockPins)
  /\ memo (exitDecide conf e fc cc w) = (fc, cc).
Proof.
  intros L P. rewrite (exitDecide_permitted _ _ _ _ _ L P). split.
  - transitivity (exitSide (exitAnnounce conf e fc cc
       (set_exitCloseAt (time_NULL e 331 + DOOR_TIMEOUT_DEFAULT)
          (exitUnlock w)))); [sides; fields; pins; reflexivity|].
    rewrite (proj1 (proj2 (exitAnnounce_sides _ _ _ _ _))).
    sides. unfold exitUnlock, exitUnlockPins. fields. flags. pins.
    now rewrite <- app_assoc.
  - reflexivity.
Qed.

Lemma entryFrame_unlocks conf e w :
  test (state w) STATE_ENTRY_WEIGAND_DONE = true ->
  entryBitCount w = 26 ->
  exitOpen w = false ->
  (catNumber conf (fst (decoded (entryDataBits w)))
     (snd (decoded (entryDataBits w))) < CFG_NCATS)%nat ->
  permitted conf ENTRY
    (catNumber conf (fst (decoded (entryDataBits w)))
       (snd (decoded (entryDataBits w)))) = true ->
  entrySide (entryFrame conf e w) =
    (true, entryLockedOpenFlag w,
     time_NULL e 301 + DOOR_TIMEOUT_DEFAULT, entryCloseTime w,
     pinEvents PIN_ENTRY_SOLENOID (trace w) ++ entryUnlockPins)
  /\ memo (entryFrame conf e w) = decoded (entryDataBits w).
Proof.
  intros D C X L P. rewrite (entryFrame_26 _ _ _ D C X).
  rewrite (proj1 (entryFrameEnd_sides _)),
    (proj1 (proj2 (proj2 (entryFrameEnd_sides _)))).
  destruct (entryDecide_unlocks conf e _ _
              (set_locals (fst (decoded (entryDataBits w)))
                 (snd (decoded (entryDataBits w))) w) L P) as [A B].
  rewrite A, B. split; reflexivity.
Qed.

Lemma exitFrame_unlocks conf e w :
  test (state w) STATE_EXIT_WEIGAND_DONE = true ->
  exitBitCount w = 26 ->
  entryOpen w = false ->
  (catNumber conf (fst (decoded (exitDataBits w)))
     (snd (decoded (exitDataBits w))) < CFG_NCATS)%nat ->
  permitted conf EXIT
    (catNumber conf (fst (decoded (exitDataBits w)))
       (snd (decoded (exitDataBits w)))) = true ->
  exitSide (exitFrame conf e w) =
    (true, exitLockedOpenFlag w,
     time_NULL e 331 + DOOR_TIMEOUT_DEFAULT, exitCloseTime w,
     pinEvents PIN_EXIT_SOLENOID (trace w) ++ exitUnlockPins)
  /\ memo (exitFrame conf e w) = decoded (exitDataBits w).
Proof.
  intros D C X L P. rewrite (exitFrame_26 _ _ _ D C X).
  rewrite (proj1 (proj2 (exitFrameEnd_sides _))),
    (proj1 (proj2 (proj2 (exitFrameEnd_sides _)))).
  destruct (exitDecide_unlocks conf e _ _
              (set_locals (fst (decoded (exitDataBits w)))
                 (snd (decoded (exitDataBits w))) w) L P) as [A B].
  rewrite A, B. split; reflexivity.
Qed.

Lemma doorSwing_entrySide e w :
  entrySide (doorSwing e w) =
    (entryOpen w, entryLockedOpenFlag w,
     if test (state w) STATE_DOOR_TRIGGER && entryOpen w
     then time_NULL e 354 + DOOR_SWING_TIMEOUT_DEFAULT else entryCloseAt w,
     entryCloseTime w, pinEvents PIN_ENTRY_SOLENOID (trace w)).
Proof.
  sides. unfold doorSwing.
  destruct (test (state w) STATE_DOOR_TRIGGER); [|reflexivity].
  destruct (test (state w) STATE_ENTRY_OPEN) eqn:O; cbn [andb]; fields;
    destruct (test (state w) STATE_EXIT_OPEN) eqn:X; fields; flags; pins;
    rewrite ?O; reflexivity.
Qed.

Lemma doorSwing_exitSide e w :
  exitSide (doorSwing e w) =
    (exitOpen w, exitLockedOpenFlag w,
     if test (state w) STATE_DOOR_TRIGGER && exitOpen w
     then time_NULL e 358 + DOOR_SWING_TIMEOUT_DEFAULT else exitCloseAt w,
     exitCloseTime w, pinEvents PIN_EXIT_SOLENOID (trace w)).
Proof.
  sides. unfold doorSwing.
  destruct (test (state w) STATE_DOOR_TRIGGER); [|reflexivity].
  destruct (test (state w) STATE_ENTRY_OPEN) eqn:O; cbn [andb]; fields;
    destruct (test (state w) STATE_EXIT_OPEN) eqn:X; fields; flags; pins;
    rewrite ?X; reflexivity.
Qed.

Lemma doorSwing_memo e w :
  memo (doorSwing e w) = memo w /\ ledger (doorSwing e w) = ledger w.
Proof. unfold doorSwing. break_if; split; reflexivity. Qed.

(** The front of the iteration: lines 270-290. *)
Lemma front_sides conf e w :
  entrySide (pollDeadlines e (bootNotify conf
     (set_locals (stack_facilityCode e) (stack_cardCode e) w)))
    = entrySide w
  /\ exitSide (pollDeadlines e (bootNotify conf
     (set_locals (stack_facilityCode e) (stack_cardCode e) w)))
    = exitSide w
  /\ memo (pollDeadlines e (bootNotify conf
     (set_locals (stack_facilityCode e) (stack_cardCode e) w)))
    = memo w
  /\ ledger (pollDeadlines e (bootNotify conf
     (set_locals (stack_facilityCode e) (stack_cardCode e) w)))
    = ledger w.
Proof.
  destruct (pollDeadlines_sides e (bootNotify conf
     (set_locals (stack_facilityCode e) (stack_cardCode e) w)))
    as (A & B & C & D).
  destruct (bootNotify_sides conf
     (set_locals (stack_facilityCode e) (stack_cardCode e) w))
    as (A' & B' & C' & D').
  rewrite A, B, C, D, A', B', C', D'. repeat split.
Qed.

Lemma front_trigger conf e w :
  test (state (pollDeadlines e (bootNotify conf
     (set_locals (stack_facilityCode e) (stack_cardCode e) w))))
    STATE_DOOR_TRIGGER = test (state w) STATE_DOOR_TRIGGER.
Proof.
  unfold pollDeadlines, bootNotify, ntfy. break_if; fields; flags; reflexivity.
Qed.

Lemma entryFrame_trigger conf e w :
  test (state (entryFrame conf e w)) STATE_DOOR_TRIGGER =
    test (state w) STATE_DOOR_TRIGGER.
Proof.
  unfold entryFrame.
  destruct (test (state w) STATE_ENTRY_WEIGAND_DONE); [|reflexivity].
  unfold entryCaptureReset, weigandDecode.
  destruct (entryBitCount w =? 26); fields; cbn [andb]; flags; [|reflexivity].
  destruct (negb _); fields; [|reflexivity].
  rewrite entryDecide_state. fields. destruct (_ =? 1); flags; reflexivity.
Qed.

Lemma exitFrame_trigger conf e w :
  test (state (exitFrame conf e w)) STATE_DOOR_TRIGGER =
    test (state w) STATE_DOOR_TRIGGER.
Proof.
  unfold exitFrame.
  destruct (test (state w) STATE_EXIT_WEIGAND_DONE); [|reflexivity].
  unfold exitCaptureReset, weigandDecode.
  destruct (exitBitCount w =? 26); fields; cbn [andb]; flags; [|reflexivity].
  destruct (negb _); fields; [|reflexivity].
  rewrite exitDecide_state. fields. destruct (_ =? 1); flags; reflexivity.
Qed.

(** The interrupts of a pulse train touch the capture state only. *)
Lemma pulses_entry_sides n bits now : forall w,
  entrySide (pulses EntryD0 EntryD1 n bits now w) = entrySide w
  /\ exitSide (pulses EntryD0 EntryD1 n bits now w) = exitSide w
  /\ memo (pulses EntryD0 EntryD1 n bits now w) = memo w
  /\ ledger (pulses EntryD0 EntryD1 n bits now w) = ledger w
  /\ exitCapture (pulses EntryD0 EntryD1 n bits now w) = exitCapture w.
Proof.
  induction n as [|n IH]; intros w; [repeat split|].
  cbn [pulses].
  destruct (IH (runIsr (if Z.testbit bits (Z.of_nat n) then EntryD1
                        else EntryD0) now w)) as (A & B & C & D & E).
  rewrite A, B, C, D, E.
  destruct (Z.testbit bits (Z.of_nat n)); cbn [runIsr];
    unfold ISR_ENTRY_D1, ISR_ENTRY_D0; destruct (ntest _ _); repeat split.
Qed.

Lemma pulses_exit_sides n bits now : forall w,
  entrySide (pulses ExitD0 ExitD1 n bits now w) = entrySide w
  /\ exitSide (pulses ExitD0 ExitD1 n bits now w) = exitSide w
  /\ memo (pulses ExitD0 ExitD1 n bits now w) = memo w
  /\ ledger (pulses ExitD0 ExitD1 n bits now w) = ledger w
  /\ entryCapture (pulses ExitD0 ExitD1 n bits now w) = entryCapture w.
Proof.
  induction n as [|n IH]; intros w; [repeat split|].
  cbn [pulses].
  destruct (IH (runIsr (if Z.testbit bits (Z.of_nat n) then ExitD1
                        else ExitD0) now w)) as (A & B & C & D & E).
  rewrite A, B, C, D, E.
  destruct (Z.testbit bits (Z.of_nat n)); cbn [runIsr];
    unfold ISR_EXIT_D1, ISR_EXIT_D0; destruct (ntest _ _); repeat split.
Qed.

(** From the detection on, for a direction that is open and whose
    deadline has not passed at the re-lock check. *)
Lemma fromDetection_entry_holds conf e w :
  entryOpen w = true ->
  time_NULL e 376 <= entryCloseAt w ->
  entrySide (fromDetection conf e w) = entrySide w.
Proof.
  intros O T. rewrite fromDetection_eq.
  assert (C : entryLockedOpenCond e w = false).
  { unfold entryLockedOpenCond. rewrite ntest_ENTRY_OPEN.
    unfold entryOpen in O. now rewrite O. }
  rewrite (entryLockedOpen_idle _ _ _ C).
  rewrite (proj1 (exitRelock_entrySide _ _)).
  assert (S : entrySide (lockedOpenDelay (exitLockedOpen conf e w))
              = entrySide w).
  { now rewrite (proj1 (lockedOpenDelay_sides _)),
      (proj1 (exitLockedOpen_entrySide _ _ _)). }
  assert (R : entryRelockCond e (lockedOpenDelay (exitLockedOpen conf e w))
              = false).
  { unfold entryRelockCond.
    rewrite entrySide_eq in S. apply entrySide_inv in S.
    destruct S as (_ & _ & S & _). rewrite S.
    assert (E : (entryCloseAt w <? time_NULL e 376) = false)
      by (apply Z.ltb_ge; lia).
    rewrite E. now rewrite andb_false_r. }
  unfold entryRelock at 1. rewrite R. exact S.
Qed.

Lemma fromDetection_exit_holds conf e w :
  exitOpen w = true ->
  time_NULL e 386 <= exitCloseAt w ->
  exitSide (fromDetection conf e w) = exitSide w.
Proof.
  intros O T. rewrite fromDetection_eq.
  assert (S0 : exitSide (entryLockedOpen conf e w) = exitSide w)
    by apply entryLockedOpen_exitSide.
  assert (C : exitLockedOpenCond e (entryLockedOpen conf e w) = false).
  { unfold exitLockedOpenCond. rewrite ntest_EXIT_OPEN.
    rewrite exitSide_eq in S0. apply exitSide_inv in S0.
    destruct S0 as (S0 & _). unfold exitOpen in S0, O. now rewrite S0, O. }
  rewrite (exitLockedOpen_idle _ _ _ C).
  assert (S : exitSide (entryRelock e (lockedOpenDelay
                          (entryLockedOpen conf e w))) = exitSide w).
  { now rewrite (proj1 (entryRelock_exitSide _ _)),
      (proj1 (proj2 (lockedOpenDelay_sides _))). }
  assert (R : exitRelockCond e (entryRelock e (lockedOpenDelay
                                  (entryLockedOpen conf e w))) = false).
  { unfold exitRelockCond.
    rewrite exitSide_eq in S. apply exitSide_inv in S.
    destruct S as (_ & _ & S & _). rewrite S.
    assert (E : (exitCloseAt w <? time_NULL e 386) = false)
      by (apply Z.ltb_ge; lia).
    rewrite E. now rewrite andb_false_r. }
  unfold exitRelock at 1. rewrite R. exact S.
Qed.

(** A completed, permitted 26-bit entry frame through an iteration. *)
Lemma beforeDetection_entry_unlocks conf e w :
  entryFrameReady e w = true ->
  entryBitCount w = 26 ->
  exitOpen w = false ->
  (catNumber conf (fst (decoded (entryDataBits w)))
     (snd (decoded (entryDataBits w))) < CFG_NCATS)%nat ->
  permitted conf ENTRY
    (catNumber conf (fst (decoded (entryDataBits w)))
       (snd (decoded (entryDataBits w)))) = true ->
  entrySide (beforeDetection conf e w) =
    (true, entryLockedOpenFlag w,
     if test (state w) STATE_DOOR_TRIGGER
     then time_NULL e 354 + DOOR_SWING_TIMEOUT_DEFAULT
     else time_NULL e 301 + DOOR_TIMEOUT_DEFAULT,
     entryCloseTime w,
     pinEvents PIN_ENTRY_SOLENOID (trace w) ++ entryUnlockPins).
Proof.
  intros R C X L P. rewrite beforeDetection_eq.
  set (w2 := pollDeadlines e (bootNotify conf
     (set_locals (stack_facilityCode e) (stack_cardCode e) w))).
  assert (D2 : test (state w2) STATE_ENTRY_WEIGAND_DONE = true)
    by (unfold w2; now rewrite front_entry_done).
  destruct (front_capture conf e w) as [K _]. fold w2 in K.
  unfold entryCapture in K.
  assert (Kd : entryDataBits w2 = entryDataBits w) by congruence.
  assert (Kc : entryBitCount w2 = entryBitCount w) by congruence.
  destruct (front_sides conf e w) as (Se & Sx & _). fold w2 in Se, Sx.
  rewrite entrySide_eq in Se. apply entrySide_inv in Se.
  destruct Se as (_ & Se2 & _ & Se4 & Se5).
  rewrite exitSide_eq in Sx. apply exitSide_inv in Sx.
  destruct Sx as (Sx1 & _).
  assert (T2 : test (state w2) STATE_DOOR_TRIGGER
               = test (state w) STATE_DOOR_TRIGGER)
    by apply front_trigger.
  assert (C2 : entryBitCount w2 = 26) by congruence.
  assert (X2 : exitOpen w2 = false) by congruence.
  destruct (entryFrame_unlocks conf e w2 D2 C2 X2) as [U _];
    [now rewrite Kd | now rewrite Kd |].
  rewrite Se2, Se4, Se5 in U.
  pose proof (entryFrame_trigger conf e w2) as T3. rewrite T2 in T3.
  revert U T3. generalize (entryFrame conf e w2). intros w3 U T3.
  rewrite <- (exitFrame_entrySide conf e w3) in U.
  rewrite <- (exitFrame_trigger conf e w3) in T3.
  revert U T3. generalize (exitFrame conf e w3). intros w4 U T3.
  rewrite doorSwing_entrySide, T3.
  apply entrySide_inv in U. destruct U as (U1 & U2 & U3 & U4 & U5).
  rewrite U1, U2, U3, U4, U5.
  now destruct (test (state w) STATE_DOOR_TRIGGER).
Qed.

Lemma beforeDetection_exit_unlocks conf e w :
  exitFrameReady e w = true ->
  exitBitCount w = 26 ->
  entryOpen w = false ->
  entryFrameReady e w = false ->
  (catNumber conf (fst (decoded (exitDataBits w)))
     (snd (decoded (exitDataBits w))) < CFG_NCATS)%nat ->
  permitted conf EXIT
    (catNumber conf (fst (decoded (exitDataBits w)))
       (snd (decoded (exitDataBits w)))) = true ->
  exitSide (beforeDetection conf e w) =
    (true, exitLockedOpenFlag w,
     if test (state w) STATE_DOOR_TRIGGER
     then time_NULL e 358 + DOOR_SWING_TIMEOUT_DEFAULT
     else time_NULL e 331 + DOOR_TIMEOUT_DEFAULT,
     exitCloseTime w,
     pinEvents PIN_EXIT_SOLENOID (trace w) ++ exitUnlockPins).
Proof.
  intros R C X Q L P. rewrite beforeDetection_eq.
  set (w2 := pollDeadlines e (bootNotify conf
     (set_locals (stack_facilityCode e) (stack_cardCode e) w))).
  assert (E2 : test (state w2) STATE_ENTRY_WEIGAND_DONE = false)
    by (unfold w2; now rewrite front_entry_done).
  rewrite (entryFrame_idle _ _ _ E2).
  assert (D2 : test (state w2) STATE_EXIT_WEIGAND_DONE = true)
    by (unfold w2; now rewrite front_exit_done).
  destruct (front_capture conf e w) as [_ K]. fold w2 in K.
  unfold exitCapture in K.
  assert (Kd : exitDataBits w2 = exitDataBits w) by congruence.
  assert (Kc : exitBitCount w2 = exitBitCount w) by congruence.
  destruct (front_sides conf e w) as (Se & Sx & _). fold w2 in Se, Sx.
  rewrite entrySide_eq in Se. apply entrySide_inv in Se.
  destruct Se as (Se1 & _).
  rewrite exitSide_eq in Sx. apply exitSide_inv in Sx.
  destruct Sx as (_ & Sx2 & _ & Sx4 & Sx5).
  assert (T2 : test (state w2) STATE_DOOR_TRIGGER
               = test (state w) STATE_DOOR_TRIGGER)
    by apply front_trigger.
  assert (C2 : exitBitCount w2 = 26) by congruence.
  assert (X2 : entryOpen w2 = false) by congruence.
  destruct (exitFrame_unlocks conf e w2 D2 C2 X2) as [U _];
    [now rewrite Kd | now rewrite Kd |].
  rewrite Sx2, Sx4, Sx5 in U.
  pose proof (exitFrame_trigger conf e w2) as T3. rewrite T2 in T3.
  revert U T3. generalize (exitFrame conf e w2). intros w4 U T3.
  rewrite doorSwing_exitSide, T3.
  apply exitSide_inv in U. destruct U as (U1 & U2 & U3 & U4 & U5).
  rewrite U1, U2, U3, U4, U5.
  now destruct (test (state w) STATE_DOOR_TRIGGER).
Qed.

Lemma entry_ready now (e : env) w :
  test (state w) STATE_ENTRY_WEIGAND_DONE = false ->
  entryLastBit w = u32 (now + WEIGAND_TIMEOUT) ->
  u32 (now + WEIGAND_TIMEOUT) <> 0 ->
  u32 (now + WEIGAND_TIMEOUT) <= millis e 287 ->
  entryFrameReady e w = true.
Proof.
  intros D L N M. unfold entryFrameReady. rewrite D, L.
  apply Z.eqb_neq in N. apply Z.leb_le in M. now rewrite N, M.
Qed.

Lemma exit_ready now (e : env) w :
  test (state w) STATE_EXIT_WEIGAND_DONE = false ->
  exitLastBit w = u32 (now + WEIGAND_TIMEOUT) ->
  u32 (now + WEIGAND_TIMEOUT) <> 0 ->
  u32 (now + WEIGAND_TIMEOUT) <= millis e 289 ->
  exitFrameReady e w = true.
Proof.
  intros D L N M. unfold exitFrameReady. rewrite D, L.
  apply Z.eqb_neq in N. apply Z.leb_le in M.
  now rewrite N, M, orb_true_r.
Qed.

Lemma decoded_wiegand26 p25 fc cc p0 :
  0 <= p25 <= 1 -> 0 <= fc < 2^8 -> 0 <= cc < 2^16 -> 0 <= p0 <= 1 ->
  decoded (wiegand26 p25 fc cc p0) = (fc, cc).
Proof.
  intros H25 Hf Hc H0. unfold decoded, bits0.
  change (24 - 17 + 1) with 8. change (16 - 1 + 1) with 16.
  destruct (decode_fields 0 p25 fc cc p0 H25 Hf Hc H0) as (F1 & F2).
  rewrite Z.mul_0_l, Z.add_0_l in F1, F2. now rewrite F1, F2.
Qed.

(** X7.  A registered card opens the entry.  Take a state with an
    empty entry capture and the exit not open, a credential whose first
    matching slot has the entry permission, and the 26 pulses of its
    frame at time [now].  In the iteration that finds the deadline
    passed, provided the clock read at the re-lock check (line 376) is
    not past the new deadline, the entry ends the iteration open, with
    the unlock pulse on its solenoid as the only new event on that pin,
    and with its close deadline 60 s after the clock read at line 301 -
    or 3 s after the clock read at line 354 if the door-moved flag was
    set.  The locked-open flag and the re-lock time are untouched. *)
Theorem X7_permitted_card_unlocks_entry :
  forall conf e now w p25 fc cc p0,
    0 <= p25 <= 1 -> 0 <= fc < 2^8 -> 0 <= cc < 2^16 -> 0 <= p0 <= 1 ->
    test (state w) STATE_ENTRY_WEIGAND_DONE = false ->
    entryCapture w = (0, 0, 0) ->
    exitOpen w = false ->
    (catNumber conf fc cc < CFG_NCATS)%nat ->
    permitted conf ENTRY (catNumber conf fc cc) = true ->
    u32 (now + WEIGAND_TIMEOUT) <> 0 ->
    u32 (now + WEIGAND_TIMEOUT) <= millis e 287 ->
    time_NULL e 376 <= time_NULL e 301 + DOOR_TIMEOUT_DEFAULT ->
    time_NULL e 376 <= time_NULL e 354 + DOOR_SWING_TIMEOUT_DEFAULT ->
    entrySide
      (loop conf e
         (pulses EntryD0 EntryD1 26 (wiegand26 p25 fc cc p0) now w))
    = (true, entryLockedOpenFlag w,
       if test (state w) STATE_DOOR_TRIGGER
       then time_NULL e 354 + DOOR_SWING_TIMEOUT_DEFAULT
       else time_NULL e 301 + DOOR_TIMEOUT_DEFAULT,
       entryCloseTime w,
       pinEvents PIN_ENTRY_SOLENOID (trace w) ++ entryUnlockPins).
Proof.
  intros conf e now w p25 fc cc p0 H25 Hf Hc H0 D C X L P N M T1 T2.
  pose proof (wiegand26_range p25 fc cc p0 H25 Hf Hc H0) as R.
  pose proof (entry_burst 25 (wiegand26 p25 fc cc p0) now w D C) as B.
  rewrite (burst26 _ R) in B. change (u8 (Z.of_nat 26)) with 26 in B.
  destruct (pulses_entry_sides 26 (wiegand26 p25 fc cc p0) now w)
    as (Se & Sx & _).
  assert (S1 : state (pulses EntryD0 EntryD1 26 (wiegand26 p25 fc cc p0)
                        now w) = state w).
  { unfold entryCapture in C.
    apply (entry_pulses 26 (wiegand26 p25 fc cc p0) now w D).
    - assert (entryDataBits w = 0) by congruence. lia.
    - assert (entryBitCount w = 0) by congruence. lia. }
  revert B Se Sx S1.
  generalize (pulses EntryD0 EntryD1 26 (wiegand26 p25 fc cc p0) now w).
  intros w1 B Se Sx S1.
  unfold entryCapture in B.
  assert (Bd : entryDataBits w1 = wiegand26 p25 fc cc p0) by congruence.
  assert (Bc : entryBitCount w1 = 26) by congruence.
  assert (Bl : entryLastBit w1 = u32 (now + WEIGAND_TIMEOUT)) by congruence.
  assert (D1 : test (state w1) STATE_ENTRY_WEIGAND_DONE = false)
    by now rewrite S1.
  pose proof (entry_ready now e w1 D1 Bl N M) as Rdy.
  rewrite exitSide_eq in Sx. apply exitSide_inv in Sx.
  destruct Sx as (Sx1 & _).
  assert (X1 : exitOpen w1 = false) by congruence.
  pose proof (beforeDetection_entry_unlocks conf e w1 Rdy Bc X1) as U.
  rewrite Bd, (decoded_wiegand26 _ _ _ _ H25 Hf Hc H0) in U.
  specialize (U L P). rewrite S1 in U.
  rewrite entrySide_eq in Se. apply entrySide_inv in Se.
  destruct Se as (_ & Se2 & _ & Se4 & Se5).
  rewrite Se2, Se4, Se5 in U.
  rewrite loop_eq. revert U. generalize (beforeDetection conf e w1).
  intros w5 U.
  rewrite <- U. apply entrySide_inv in U.
  destruct U as (U1 & _ & U3 & _).
  apply fromDetection_entry_holds; [exact U1|].
  rewrite U3. destruct (test (state w) STATE_DOOR_TRIGGER); assumption.
Qed.

Lemma X7_permitted_card_unlocks_entry_witness :
  entrySide
    (loop exampleConf (constEnv 1020 100 0)
       (pulses EntryD0 EntryD1 26 (wiegand26 1 10 400 0) 1000 init))
  = (true, false, 100 + DOOR_TIMEOUT_DEFAULT, 0, entryUnlockPins).
Proof.
  apply (X7_permitted_card_unlocks_entry exampleConf (constEnv 1020 100 0)
           1000 init 1 10 400 0);
    try reflexivity; try lia; vm_compute; try discriminate; lia.
Defined.

(** X8.  The same at the exit, when the entry is not open and has no
    complete frame in that iteration (the entry frame is processed
    first): the exit ends the iteration open, the unlock pulse of the
    exit solenoid (duty 50) is the only new event on its pin, and the
    deadline is 60 s after the clock read at line 331, or 3 s after the
    clock read at line 358 if the door-moved flag was set. *)
Theorem X8_permitted_card_unlocks_exit :
  forall conf e now w p25 fc cc p0,
    0 <= p25 <= 1 -> 0 <= fc < 2^8 -> 0 <= cc < 2^16 -> 0 <= p0 <= 1 ->
    test (state w) STATE_EXIT_WEIGAND_DONE = false ->
    exitCapture w = (0, 0, 0) ->
    entryOpen w = false ->
    entryFrameReady e w = false ->
    (catNumber conf fc cc < CFG_NCATS)%nat ->
    permitted conf EXIT (catNumber conf fc cc) = true ->
    u32 (now + WEIGAND_TIMEOUT) <> 0 ->
    u32 (now + WEIGAND_TIMEOUT) <= millis e 289 ->
    time_NULL e 386 <= time_NULL e 331 + DOOR_TIMEOUT_DEFAULT ->
    time_NULL e 386 <= time_NULL e 358 + DOOR_SWING_TIMEOUT_DEFAULT ->
    exitSide
      (loop conf e
         (pulses ExitD0 ExitD1 26 (wiegand26 p25 fc cc p0) now w))
    = (true, exitLockedOpenFlag w,
       if test (state w) STATE_DOOR_TRIGGER
       then time_NULL e 358 + DOOR_SWING_TIMEOUT_DEFAULT
       else time_NULL e 331 + DOOR_TIMEOUT_DEFAULT,
       exitCloseTime w,
       pinEvents PIN_EXIT_SOLENOID (trace w) ++ exitUnlockPins).
Proof.
  intros conf e now w p25 fc cc p0 H25 Hf Hc H0 D C X Q L P N M T1 T2.
  pose proof (wiegand26_range p25 fc cc p0 H25 Hf Hc H0) as R.
  pose proof (exit_burst 25 (wiegand26 p25 fc cc p0) now w D C) as B.
  rewrite (burst26 _ R) in B. change (u8 (Z.of_nat 26)) with 26 in B.
  destruct (pulses_exit_sides 26 (wiegand26 p25 fc cc p0) now w)
    as (Se & Sx & _ & _ & Ke).
  assert (S1 : state (pulses ExitD0 ExitD1 26 (wiegand26 p25 fc cc p0)
                        now w) = state w).
  { unfold exitCapture in C.
    apply (exit_pulses 26 (wiegand26 p25 fc cc p0) now w D).
    - assert (exitDataBits w = 0) by congruence. lia.
    - assert (exitBitCount w = 0) by congruence. lia. }
  revert B Se Sx Ke S1.
  generalize (pulses ExitD0 ExitD1 26 (wiegand26 p25 fc cc p0) now w).
  intros w1 B Se Sx Ke S1.
  unfold exitCapture in B.
  assert (Bd : exitDataBits w1 = wiegand26 p25 fc cc p0) by congruence.
  assert (Bc : exitBitCount w1 = 26) by congruence.
  assert (Bl : exitLastBit w1 = u32 (now + WEIGAND_TIMEOUT)) by congruence.
  assert (D1 : test (state w1) STATE_EXIT_WEIGAND_DONE = false)
    by now rewrite S1.
  pose proof (exit_ready now e w1 D1 Bl N M) as Rdy.
  rewrite entrySide_eq in Se. apply entrySide_inv in Se.
  destruct Se as (Se1 & _).
  assert (X1 : entryOpen w1 = false) by congruence.
  assert (Q1 : entryFrameReady e w1 = false).
  { unfold entryFrameReady in *. unfold entryCapture in Ke.
    assert (El : entryLastBit w1 = entryLastBit w) by congruence.
    now rewrite S1, El. }
  pose proof (beforeDetection_exit_unlocks conf e w1 Rdy Bc X1 Q1) as U.
  rewrite Bd, (decoded_wiegand26 _ _ _ _ H25 Hf Hc H0) in U.
  specialize (U L P). rewrite S1 in U.
  rewrite exitSide_eq in Sx. apply exitSide_inv in Sx.
  destruct Sx as (_ & Sx2 & _ & Sx4 & Sx5).
  rewrite Sx2, Sx4, Sx5 in U.
  rewrite loop_eq. revert U. generalize (beforeDetection conf e w1).
  intros w5 U.
  rewrite <- U. apply exitSide_inv in U.
  destruct U as (U1 & _ & U3 & _).
  apply fromDetection_exit_holds; [exact U1|].
  rewrite U3. destruct (test (state w) STATE_DOOR_TRIGGER); assumption.
Qed.

Lemma X8_permitted_card_unlocks_exit_witness :
  exitSide
    (loop exampleConf (constEnv 1020 100 0)
       (pulses ExitD0 ExitD1 26 (wiegand26 1 10 400 0) 1000 init))
  = (true, false, 100 + DOOR_TIMEOUT_DEFAULT, 0, exitUnlockPins).
Proof.
  apply (X8_permitted_card_unlocks_exit exampleConf (constEnv 1020 100 0)
           1000 init 1 10 400 0);
    try reflexivity; try lia; vm_compute; try discriminate; lia.
Defined.

Lemma door_eq w w' :
  entrySide w' = entrySide w -> exitSide w' = exitSide w ->
  memo w' = memo w -> ledger w' = ledger w -> door w' = door w.
Proof. unfold door. now intros -> -> -> ->. Qed.

Lemma ntfy_door conf t g p m w : door (ntfy conf t g p m w) = door w.
Proof. apply door_eq; apply ntfy_sides. Qed.

Lemma debug_door m w : door (debug m w) = door w.
Proof. apply door_eq; apply debug_sides. Qed.

Lemma entryFrameEnd_door w : door (entryFrameEnd w) = door w.
Proof. apply door_eq; apply entryFrameEnd_sides. Qed.

Lemma exitFrameEnd_door w : door (exitFrameEnd w) = door w.
Proof. apply door_eq; apply exitFrameEnd_sides. Qed.

Lemma entryDecide_refuses conf e fc cc w :
  (catNumber conf fc cc <? CFG_NCATS)%nat
  && permitted conf ENTRY (catNumber conf fc cc) = false ->
  door (entryDecide conf e fc cc w) = door w.
Proof.
  intros H. pose proof (catNumber_bound conf fc cc) as B.
  destruct (Nat.ltb_spec (catNumber conf fc cc) CFG_NCATS) as [L|L].
  - cbn [andb] in H. rewrite (entryDecide_denied _ _ _ _ _ L H).
    now rewrite debug_door, ntfy_door.
  - assert (U : catNumber conf fc cc = CFG_NCATS) by lia.
    rewrite (entryDecide_unknown _ _ _ _ _ U).
    now rewrite ntfy_door, debug_door.
Qed.

Lemma exitDecide_refuses conf e fc cc w :
  (catNumber conf fc cc <? CFG_NCATS)%nat
  && permitted conf EXIT (catNumber conf fc cc) = false ->
  door (exitDecide conf e fc cc w) = door w.
Proof.
  intros H. pose proof (catNumber_bound conf fc cc) as B.
  destruct (Nat.ltb_spec (catNumber conf fc cc) CFG_NCATS) as [L|L].
  - cbn [andb] in H. rewrite (exitDecide_denied _ _ _ _ _ L H).
    now rewrite debug_door, ntfy_door.
  - assert (U : catNumber conf fc cc = CFG_NCATS) by lia.
    rewrite (exitDecide_unknown _ _ _ _ _ U).
    now rewrite ntfy_door, debug_door.
Qed.

Lemma entryFrame_refuses conf e w :
  entryAdmits conf w = false -> door (entryFrame conf e w) = door w.
Proof.
  intros A.
  destruct (test (state w) STATE_ENTRY_WEIGAND_DONE) eqn:D;
    [|now rewrite entryFrame_idle].
  unfold entryAdmits in A.
  destruct (Z.eqb_spec (entryBitCount w) 26) as [C|C].
  - destruct (exitOpen w) eqn:X.
    + now rewrite (entryFrame_blocked _ _ _ D C X), entryFrameEnd_door.
    + rewrite (entryFrame_26 _ _ _ D C X), entryFrameEnd_door.
      cbn [andb negb] in A.
      now rewrite entryDecide_refuses.
  - now rewrite (entryFrame_width _ _ _ D C), entryFrameEnd_door, debug_door.
Qed.

Lemma exitFrame_refuses conf e w :
  exitAdmits conf w = false -> door (exitFrame conf e w) = door w.
Proof.
  intros A.
  destruct (test (state w) STATE_EXIT_WEIGAND_DONE) eqn:D;
    [|now rewrite exitFrame_idle].
  unfold exitAdmits in A.
  destruct (Z.eqb_spec (exitBitCount w) 26) as [C|C].
  - destruct (entryOpen w) eqn:X.
    + now rewrite (exitFrame_blocked _ _ _ D C X), exitFrameEnd_door.
    + rewrite (exitFrame_26 _ _ _ D C X), exitFrameEnd_door.
      cbn [andb negb] in A.
      now rewrite exitDecide_refuses.
  - now rewrite (exitFrame_width _ _ _ D C), exitFrameEnd_door, debug_door.
Qed.

(** X9.  A frame the loop does not unlock for changes nothing about
    the door.  If the frame in a channel is not admitted - wrong bit
    count, opposite direction open, no matching slot, or first matching
    slot without the permission - then processing it leaves both
    directions (lock flags, close deadline, re-lock time, solenoid
    events), the memo and the ledger exactly as they were; only log
    lines and notifications are added. *)
Theorem X9_refused_frame_changes_nothing :
  forall conf e w,
    (entryAdmits conf w = false -> door (entryFrame conf e w) = door w)
    /\ (exitAdmits conf w = false -> door (exitFrame conf e w) = door w).
Proof.
  intros conf e w. split.
  - apply entryFrame_refuses.
  - apply exitFrame_refuses.
Qed.

Lemma X9_refused_frame_changes_nothing_witness :
  door (exitFrame exampleConf (constEnv 1020 100 0)
          (pollDeadlines (constEnv 1020 100 0)
             (pulses ExitD0 ExitD1 26 (wiegand26 0 10 500 0) 1000 init)))
  = door (pollDeadlines (constEnv 1020 100 0)
            (pulses ExitD0 ExitD1 26 (wiegand26 0 10 500 0) 1000 init)).
Proof.
  apply (proj2 (X9_refused_frame_changes_nothing exampleConf
                  (constEnv 1020 100 0)
                  (pollDeadlines (constEnv 1020 100 0)
                     (pulses ExitD0 ExitD1 26 (wiegand26 0 10 500 0) 1000
                        init)))).
  vm_compute. reflexivity.
Defined.

Lemma entryAdmits_inv conf w :
  entryAdmits conf w = true ->
  entryBitCount w = 26 /\ exitOpen w = false
  /\ (catNumber conf (fst (decoded (entryDataBits w)))
        (snd (decoded (entryDataBits w))) < CFG_NCATS)%nat
  /\ permitted conf ENTRY
       (catNumber conf (fst (decoded (entryDataBits w)))
          (snd (decoded (entryDataBits w)))) = true.
Proof.
  unfold entryAdmits. intros H.
  apply andb_prop in H. destruct H as [H P].
  apply andb_prop in H. destruct H as [H L].
  apply andb_prop in H. destruct H as [C X].
  apply Z.eqb_eq in C. apply negb_true_iff in X. apply Nat.ltb_lt in L.
  auto.
Qed.

Lemma exitAdmits_inv conf w :
  exitAdmits conf w = true ->
  exitBitCount w = 26 /\ entryOpen w = false
  /\ (catNumber conf (fst (decoded (exitDataBits w)))
        (snd (decoded (exitDataBits w))) < CFG_NCATS)%nat
  /\ permitted conf EXIT
       (catNumber conf (fst (decoded (exitDataBits w)))
          (snd (decoded (exitDataBits w)))) = true.
Proof.
  unfold exitAdmits. intros H.
  apply andb_prop in H. destruct H as [H P].
  apply andb_prop in H. destruct H as [H L].
  apply andb_prop in H. destruct H as [C X].
  apply Z.eqb_eq in C. apply negb_true_iff in X. apply Nat.ltb_lt in L.
  auto.
Qed.

(** X10.  The entry reader has priority.  When both channels have a
    complete frame in the same iteration and the entry frame is
    admitted, processing it opens the entry, and the 26-bit exit frame
    processed next is consumed without effect: nothing is logged or
    notified for it, the door state is unchanged, and the exit capture
    state is reset. *)
Theorem X10_entry_frame_has_priority :
  forall conf e w,
    test (state w) STATE_ENTRY_WEIGAND_DONE = true ->
    test (state w) STATE_EXIT_WEIGAND_DONE = true ->
    exitBitCount w = 26 ->
    entryAdmits conf w = true ->
    entryOpen (entryFrame conf e w) = true
    /\ trace (exitFrame conf e (entryFrame conf e w))
       = trace (entryFrame conf e w)
    /\ door (exitFrame conf e (entryFrame conf e w))
       = door (entryFrame conf e w)
    /\ exitCapture (exitFrame conf e (entryFrame conf e w)) = (0, 0, 0).
Proof.
  intros conf e w De Dx Cx A.
  destruct (entryAdmits_inv _ _ A) as (C & X & L & P).
  destruct (entryFrame_unlocks conf e w De C X L P) as [U _].
  apply entrySide_inv in U. destruct U as (O & _).
  pose proof (entryFrame_exit conf e w) as Dx'. rewrite Dx in Dx'.
  pose proof (entryFrame_exitCapture conf e w) as K.
  unfold exitCapture in K.
  assert (Cx' : exitBitCount (entryFrame conf e w) = 26) by congruence.
  clear K. revert O Dx' Cx'. generalize (entryFrame conf e w).
  intros w3 O Dx' Cx'.
  rewrite (exitFrame_blocked _ _ _ Dx' Cx' O).
  split; [exact O|]. split; [reflexivity|]. split; [|reflexivity].
  now rewrite exitFrameEnd_door.
Qed.

Lemma X10_entry_frame_has_priority_witness :
  trace (exitFrame exampleConf (constEnv 1020 100 0)
           (entryFrame exampleConf (constEnv 1020 100 0)
              (pollDeadlines (constEnv 1020 100 0)
                 (pulses ExitD0 ExitD1 26 (wiegand26 0 10 400 0) 1000
                    (pulses EntryD0 EntryD1 26 (wiegand26 0 10 400 0) 1000
                       init)))))
  = trace (entryFrame exampleConf (constEnv 1020 100 0)
             (pollDeadlines (constEnv 1020 100 0)
                (pulses ExitD0 ExitD1 26 (wiegand26 0 10 400 0) 1000
                   (pulses EntryD0 EntryD1 26 (wiegand26 0 10 400 0) 1000
                      init)))).
Proof.
  apply (X10_entry_frame_has_priority exampleConf (constEnv 1020 100 0)
           (pollDeadlines (constEnv 1020 100 0)
              (pulses ExitD0 ExitD1 26 (wiegand26 0 10 400 0) 1000
                 (pulses EntryD0 EntryD1 26 (wiegand26 0 10 400 0) 1000
                    init))));
    vm_compute; reflexivity.
Defined.

(** ** Re-lock *)

Lemma entryRelock_fires e w :
  entryRelockCond e w = true ->
  entrySide (entryRelock e w) =
    (false, false, 0,
     if entryLockedOpenFlag w then entryCloseTime w else time_NULL e 381,
     pinEvents PIN_ENTRY_SOLENOID (trace w) ++ entryLockPins)
  /\ memo (entryRelock e w) = (0, 0).
Proof.
  intros C. sides. unfold entryRelock, entryLock, entryLockPins. rewrite C.
  cbv zeta. fields. rewrite ntest_ENTRY_LOCKED_OPEN.
  rewrite test_clear by (first [mask_range | reflexivity]).
  destruct (test (state w) STATE_ENTRY_LOCKED_OPEN); cbn [negb]; fields;
    flags; pins; rewrite <- ?app_assoc; split; reflexivity.
Qed.

Lemma exitRelock_fires e w :
  exitRelockCond e w = true ->
  exitSide (exitRelock e w) =
    (false, false, 0,
     if exitLockedOpenFlag w then exitCloseTime w else time_NULL e 391,
     pinEvents PIN_EXIT_SOLENOID (trace w) ++ exitLockPins)
  /\ memo (exitRelock e w) = (0, 0).
Proof.
  intros C. sides. unfold exitRelock, exitLock, exitLockPins. rewrite C.
  cbv zeta. fields. rewrite ntest_EXIT_LOCKED_OPEN.
  rewrite test_clear by (first [mask_range | reflexivity]).
  destruct (test (state w) STATE_EXIT_LOCKED_OPEN); cbn [negb]; fields;
    flags; pins; rewrite <- ?app_assoc; split; reflexivity.
Qed.

Lemma exitRelock_memo e w :
  memo (exitRelock e w) = if exitRelockCond e w then (0, 0) else memo w.
Proof.
  unfold exitRelock. destruct (exitRelockCond e w); [|reflexivity].
  unfold exitLock. cbv zeta. destruct (ntest _ _); reflexivity.
Qed.

Lemma entryRelock_memo e w :
  memo (entryRelock e w) = if entryRelockCond e w then (0, 0) else memo w.
Proof.
  unfold entryRelock. destruct (entryRelockCond e w); [|reflexivity].
  unfold entryLock. cbv zeta. destruct (ntest _ _); reflexivity.
Qed.

Lemma entryRelockCond_sides e w w' :
  entrySide w' = entrySide w -> entryRelockCond e w' = entryRelockCond e w.
Proof.
  intros S. rewrite (entrySide_eq w) in S. apply entrySide_inv in S.
  destruct S as (S1 & _ & S3 & _). unfold entryRelockCond.
  unfold entryOpen in S1. now rewrite S1, S3.
Qed.

Lemma exitRelockCond_sides e w w' :
  exitSide w' = exitSide w -> exitRelockCond e w' = exitRelockCond e w.
Proof.
  intros S. rewrite (exitSide_eq w) in S. apply exitSide_inv in S.
  destruct S as (S1 & _ & S3 & _). unfold exitRelockCond.
  unfold exitOpen in S1. now rewrite S1, S3.
Qed.

Lemma entryRelockCond_true e w :
  entryOpen w = true -> digitalRead e 376 = 0 ->
  entryCloseAt w < time_NULL e 376 ->
  entryRelockCond e w = true.
Proof.
  intros O S T. unfold entryRelockCond. unfold entryOpen in O.
  apply Z.ltb_lt in T. now rewrite O, S, T.
Qed.

Lemma exitRelockCond_true e w :
  exitOpen w = true -> digitalRead e 386 = 0 ->
  exitCloseAt w < time_NULL e 386 ->
  exitRelockCond e w = true.
Proof.
  intros O S T. unfold exitRelockCond. unfold exitOpen in O.
  apply Z.ltb_lt in T. now rewrite O, S, T.
Qed.

Lemma entryLockedOpenCond_open e w :
  entryOpen w = true -> entryLockedOpenCond e w = false.
Proof.
  intros O. unfold entryLockedOpenCond. rewrite ntest_ENTRY_OPEN.
  unfold entryOpen in O. now rewrite O.
Qed.

Lemma exitLockedOpenCond_open e w :
  exitOpen w = true -> exitLockedOpenCond e w = false.
Proof.
  intros O. unfold exitLockedOpenCond. rewrite ntest_EXIT_OPEN.
  unfold exitOpen in O. now rewrite O.
Qed.

Lemma fromDetection_entry_relocks conf e w :
  entryOpen w = true ->
  digitalRead e 376 = 0 ->
  entryCloseAt w < time_NULL e 376 ->
  entrySide (fromDetection conf e w) =
    (false, false, 0,
     if entryLockedOpenFlag w then entryCloseTime w else time_NULL e 381,
     pinEvents PIN_ENTRY_SOLENOID (trace w) ++ entryLockPins)
  /\ memo (fromDetection conf e w) = (0, 0).
Proof.
  intros O S T. rewrite fromDetection_eq.
  rewrite (entryLockedOpen_idle _ _ _ (entryLockedOpenCond_open e w O)).
  assert (S8 : entrySide (lockedOpenDelay (exitLockedOpen conf e w))
               = entrySide w).
  { now rewrite (proj1 (lockedOpenDelay_sides _)),
      (proj1 (exitLockedOpen_entrySide _ _ _)). }
  pose proof (entryRelockCond_sides e _ _ S8) as C.
  rewrite (entryRelockCond_true e w O S T) in C.
  destruct (entryRelock_fires e _ C) as [F M].
  rewrite (entrySide_eq w) in S8. apply entrySide_inv in S8.
  destruct S8 as (_ & S2 & _ & S4 & S5). rewrite S2, S4, S5 in F.
  revert F M.
  generalize (entryRelock e (lockedOpenDelay (exitLockedOpen conf e w))).
  intros w9 F M. split.
  - now rewrite (proj1 (exitRelock_entrySide _ _)).
  - rewrite exitRelock_memo, M. now destruct (exitRelockCond e w9).
Qed.

Lemma fromDetection_exit_relocks conf e w :
  exitOpen w = true ->
  digitalRead e 386 = 0 ->
  exitCloseAt w < time_NULL e 386 ->
  exitSide (fromDetection conf e w) =
    (false, false, 0,
     if exitLockedOpenFlag w then exitCloseTime w else time_NULL e 391,
     pinEvents PIN_EXIT_SOLENOID (trace w) ++ exitLockPins)
  /\ memo (fromDetection conf e w) = (0, 0).
Proof.
  intros O S T. rewrite fromDetection_eq.
  assert (S6 : exitSide (entryLockedOpen conf e w) = exitSide w)
    by apply entryLockedOpen_exitSide.
  assert (O6 : exitOpen (entryLockedOpen conf e w) = true).
  { rewrite (exitSide_eq w) in S6. apply exitSide_inv in S6.
    destruct S6 as (S6 & _). congruence. }
  rewrite (exitLockedOpen_idle _ _ _ (exitLockedOpenCond_open e _ O6)).
  assert (S9 : exitSide (entryRelock e (lockedOpenDelay
                           (entryLockedOpen conf e w))) = exitSide w).
  { now rewrite (proj1 (entryRelock_exitSide _ _)),
      (proj1 (proj2 (lockedOpenDelay_sides _))). }
  pose proof (exitRelockCond_sides e _ _ S9) as C.
  rewrite (exitRelockCond_true e w O S T) in C.
  destruct (exitRelock_fires e _ C) as [F M].
  rewrite (exitSide_eq w) in S9. apply exitSide_inv in S9.
  destruct S9 as (_ & S2 & _ & S4 & S5). rewrite S2, S4, S5 in F.
  split; assumption.
Qed.

(** Up to the detection, a direction with no complete frame and no
    door movement is left as it was. *)
Lemma beforeDetection_entry_still conf e w :
  entryFrameReady e w = false ->
  test (state w) STATE_DOOR_TRIGGER && entryOpen w = false ->
  entrySide (beforeDetection conf e w) = entrySide w.
Proof.
  intros Q T. rewrite beforeDetection_eq.
  set (w2 := pollDeadlines e (bootNotify conf
     (set_locals (stack_facilityCode e) (stack_cardCode e) w))).
  assert (E2 : test (state w2) STATE_ENTRY_WEIGAND_DONE = false)
    by (unfold w2; now rewrite front_entry_done).
  rewrite (entryFrame_idle _ _ _ E2).
  assert (T2 : test (state w2) STATE_DOOR_TRIGGER
               = test (state w) STATE_DOOR_TRIGGER)
    by apply front_trigger.
  assert (S2 : entrySide w2 = entrySide w) by apply front_sides.
  rewrite <- (exitFrame_trigger conf e w2) in T2.
  rewrite <- (exitFrame_entrySide conf e w2) in S2.
  revert T2 S2. generalize (exitFrame conf e w2). intros w4 T2 S2.
  rewrite doorSwing_entrySide, T2.
  rewrite (entrySide_eq w) in S2. apply entrySide_inv in S2.
  destruct S2 as (S21 & S22 & S23 & S24 & S25).
  rewrite S21, S22, S23, S24, S25, T. reflexivity.
Qed.

Lemma beforeDetection_exit_still conf e w :
  exitFrameReady e w = false ->
  test (state w) STATE_DOOR_TRIGGER && exitOpen w = false ->
  exitSide (beforeDetection conf e w) = exitSide w.
Proof.
  intros Q T. rewrite beforeDetection_eq.
  set (w2 := pollDeadlines e (bootNotify conf
     (set_locals (stack_facilityCode e) (stack_cardCode e) w))).
  assert (X2 : test (state w2) STATE_EXIT_WEIGAND_DONE = false)
    by (unfold w2; now rewrite front_exit_done).
  assert (T2 : test (state w2) STATE_DOOR_TRIGGER
               = test (state w) STATE_DOOR_TRIGGER)
    by apply front_trigger.
  assert (S2 : exitSide w2 = exitSide w) by apply front_sides.
  rewrite <- (entryFrame_exit conf e w2) in X2.
  rewrite <- (entryFrame_trigger conf e w2) in T2.
  rewrite <- (entryFrame_exitSide conf e w2) in S2.
  revert X2 T2 S2. generalize (entryFrame conf e w2). intros w3 X2 T2 S2.
  rewrite (exitFrame_idle _ _ _ X2).
  rewrite doorSwing_exitSide, T2.
  rewrite (exitSide_eq w) in S2. apply exitSide_inv in S2.
  destruct S2 as (S21 & S22 & S23 & S24 & S25).
  rewrite S21, S22, S23, S24, S25, T. reflexivity.
Qed.

(** X11.  The automatic re-lock.  A direction that is open when an
    iteration starts, has no complete frame and no pending door
    movement, is re-locked by that iteration if at its re-lock check
    (line 376 or 386) the sensor reads closed and the clock is past the
    close deadline: both its flags are cleared, its deadline is reset
    to 0, the lock pulse is the only new event on its solenoid pin, and
    the memo is (0, 0) at the end of the iteration.  The re-lock time
    is set to the clock read at line 381 or 391 - unless the direction
    was locked open, in which case it keeps its old value. *)
Theorem X11_relock_after_deadline :
  forall conf e w,
    (entryOpen w = true ->
     entryFrameReady e w = false ->
     test (state w) STATE_DOOR_TRIGGER = false ->
     digitalRead e 376 = 0 ->
     entryCloseAt w < time_NULL e 376 ->
     entrySide (loop conf e w) =
       (false, false, 0,
        if entryLockedOpenFlag w then entryCloseTime w else time_NULL e 381,
        pinEvents PIN_ENTRY_SOLENOID (trace w) ++ entryLockPins)
     /\ memo (loop conf e w) = (0, 0))
    /\ (exitOpen w = true ->
        exitFrameReady e w = false ->
        test (state w) STATE_DOOR_TRIGGER = false ->
        digitalRead e 386 = 0 ->
        exitCloseAt w < time_NULL e 386 ->
        exitSide (loop conf e w) =
          (false, false, 0,
           if exitLockedOpenFlag w then exitCloseTime w else time_NULL e 391,
           pinEvents PIN_EXIT_SOLENOID (trace w) ++ exitLockPins)
        /\ memo (loop conf e w) = (0, 0)).
Proof.
  intros conf e w. split; intros O Q T S D; rewrite loop_eq.
  - assert (B : entrySide (beforeDetection conf e w) = entrySide w)
      by (apply beforeDetection_entry_still; [exact Q | now rewrite T]).
    revert B. generalize (beforeDetection conf e w). intros w5 B.
    rewrite (entrySide_eq w) in B. apply entrySide_inv in B.
    destruct B as (B1 & B2 & B3 & B4 & B5).
    rewrite <- B2, <- B4, <- B5.
    apply fromDetection_entry_relocks; congruence.
  - assert (B : exitSide (beforeDetection conf e w) = exitSide w)
      by (apply beforeDetection_exit_still; [exact Q | now rewrite T]).
    revert B. generalize (beforeDetection conf e w). intros w5 B.
    rewrite (exitSide_eq w) in B. apply exitSide_inv in B.
    destruct B as (B1 & B2 & B3 & B4 & B5).
    rewrite <- B2, <- B4, <- B5.
    apply fromDetection_exit_relocks; congruence.
Qed.

Lemma X11_relock_after_deadline_witness :
  entrySide (loop exampleConf (constEnv 62000 161 0) entryUnlocked) =
    (false, false, 0,
     if entryLockedOpenFlag entryUnlocked then entryCloseTime entryUnlocked
     else 161,
     pinEvents PIN_ENTRY_SOLENOID (trace entryUnlocked) ++ entryLockPins)
  /\ memo (loop exampleConf (constEnv 62000 161 0) entryUnlocked) = (0, 0).
Proof.
  apply (proj1 (X11_relock_after_deadline exampleConf (constEnv 62000 161 0)
                  entryUnlocked)); vm_compute; reflexivity.
Defined.

(** ** No lock pulse while the sensor reads open *)

Lemma lockWrites_pins pin t :
  lockWrites pin t = lockWrites pin (pinEvents pin t).
Proof.
  unfold lockWrites, pinEvents. induction t as [|ev t IH]; [reflexivity|].
  cbn [filter]. destruct ev as [? ? ? ?|?|p l|p d|?]; cbn [lockWrite onPin];
    try exact IH.
  - destruct (p =? pin) eqn:E; cbn [andb filter lockWrite]; [|exact IH].
    rewrite E. cbn [andb]. destruct (l =? LOCK); now rewrite IH.
  - destruct (p =? pin); cbn [filter lockWrite]; exact IH.
Qed.

Lemma lockWrites_app pin a b :
  lockWrites pin (a ++ b) = lockWrites pin a ++ lockWrites pin b.
Proof. apply filter_app. Qed.

Lemma door_inv w w' :
  door w' = door w ->
  entrySide w' = entrySide w /\ exitSide w' = exitSide w
  /\ memo w' = memo w /\ ledger w' = ledger w.
Proof.
  unfold door. intros H.
  apply pair_equal_spec in H. destruct H as [H L].
  apply pair_equal_spec in H. destruct H as [H M].
  apply pair_equal_spec in H. destruct H as [E X]. auto.
Qed.

Lemma entryFrame_pins conf e w :
  exists b : bool,
    pinEvents PIN_ENTRY_SOLENOID (trace (entryFrame conf e w)) =
      pinEvents PIN_ENTRY_SOLENOID (trace w)
      ++ (if b then entryUnlockPins else [])
    /\ entryOpen (entryFrame conf e w) = entryOpen w || b.
Proof.
  destruct (test (state w) STATE_ENTRY_WEIGAND_DONE) eqn:D.
  - destruct (entryAdmits conf w) eqn:A.
    + destruct (entryAdmits_inv _ _ A) as (C & X & L & P).
      destruct (entryFrame_unlocks conf e w D C X L P) as [U _].
      apply entrySide_inv in U. destruct U as (U1 & _ & _ & _ & U5).
      exists true. now rewrite U1, U5, orb_true_r.
    + pose proof (entryFrame_refuses conf e w A) as R.
      apply door_inv in R. destruct R as (R1 & _).
      rewrite (entrySide_eq w) in R1. apply entrySide_inv in R1.
      destruct R1 as (R1 & _ & _ & _ & R5).
      exists false. now rewrite R1, R5, app_nil_r, orb_false_r.
  - exists false. rewrite (entryFrame_idle _ _ _ D).
    now rewrite app_nil_r, orb_false_r.
Qed.

Lemma exitFrame_pins conf e w :
  exists b : bool,
    pinEvents PIN_EXIT_SOLENOID (trace (exitFrame conf e w)) =
      pinEvents PIN_EXIT_SOLENOID (trace w)
      ++ (if b then exitUnlockPins else [])
    /\ exitOpen (exitFrame conf e w) = exitOpen w || b.
Proof.
  destruct (test (state w) STATE_EXIT_WEIGAND_DONE) eqn:D.
  - destruct (exitAdmits conf w) eqn:A.
    + destruct (exitAdmits_inv _ _ A) as (C & X & L & P).
      destruct (exitFrame_unlocks conf e w D C X L P) as [U _].
      apply exitSide_inv in U. destruct U as (U1 & _ & _ & _ & U5).
      exists true. now rewrite U1, U5, orb_true_r.
    + pose proof (exitFrame_refuses conf e w A) as R.
      apply door_inv in R. destruct R as (_ & R1 & _).
      rewrite (exitSide_eq w) in R1. apply exitSide_inv in R1.
      destruct R1 as (R1 & _ & _ & _ & R5).
      exists false. now rewrite R1, R5, app_nil_r, orb_false_r.
  - exists false. rewrite (exitFrame_idle _ _ _ D).
    now rewrite app_nil_r, orb_false_r.
Qed.

Lemma entryLockedOpen_entrySide conf e w :
  entrySide (entryLockedOpen conf e w) =
    if entryLockedOpenCond e w
    then (true, true, entryCloseAt w, entryCloseTime w,
          pinEvents PIN_ENTRY_SOLENOID (trace w) ++ entryUnlockPins)
    else entrySide w.
Proof.
  sides. unfold entryLockedOpen, entryUnlock, ntfy, entryUnlockPins.
  destruct (entryLockedOpenCond e w); [|reflexivity].
  cbv zeta. destruct (ntest (cfg_flags conf) _); fields; flags; pins;
    now rewrite <- ?app_assoc.
Qed.

Lemma exitLockedOpen_exitSide conf e w :
  exitSide (exitLockedOpen conf e w) =
    if exitLockedOpenCond e w
    then (true, true, exitCloseAt w, exitCloseTime w,
          pinEvents PIN_EXIT_SOLENOID (trace w) ++ exitUnlockPins)
    else exitSide w.
Proof.
  sides. unfold exitLockedOpen, exitUnlock, ntfy, exitUnlockPins.
  destruct (exitLockedOpenCond e w); [|reflexivity].
  cbv zeta. destruct (ntest (cfg_flags conf) _); fields; flags; pins;
    now rewrite <- ?app_assoc.
Qed.

(** The entry solenoid up to the detection: at most one unlock pulse. *)
Lemma beforeDetection_entry_pins conf e w :
  exists b : bool,
    pinEvents PIN_ENTRY_SOLENOID (trace (beforeDetection conf e w)) =
      pinEvents PIN_ENTRY_SOLENOID (trace w)
      ++ (if b then entryUnlockPins else [])
    /\ entryOpen (beforeDetection conf e w) = entryOpen w || b.
Proof.
  rewrite beforeDetection_eq.
  set (w2 := pollDeadlines e (bootNotify conf
     (set_locals (stack_facilityCode e) (stack_cardCode e) w))).
  assert (S2 : entrySide w2 = entrySide w) by apply front_sides.
  rewrite (entrySide_eq w) in S2. apply entrySide_inv in S2.
  destruct S2 as (S21 & _ & _ & _ & S25).
  destruct (entryFrame_pins conf e w2) as (b & P & O).
  rewrite S21 in O. rewrite S25 in P. exists b.
  revert P O. generalize (entryFrame conf e w2). intros w3 P O.
  pose proof (exitFrame_entrySide conf e w3) as S4.
  revert S4. generalize (exitFrame conf e w3). intros w4 S4.
  rewrite (entrySide_eq w3) in S4. apply entrySide_inv in S4.
  destruct S4 as (S41 & _ & _ & _ & S45).
  pose proof (doorSwing_entrySide e w4) as S5.
  apply entrySide_inv in S5. destruct S5 as (S51 & _ & _ & _ & S55).
  rewrite S51, S55, S41, S45. auto.
Qed.

Lemma beforeDetection_exit_pins conf e w :
  exists b : bool,
    pinEvents PIN_EXIT_SOLENOID (trace (beforeDetection conf e w)) =
      pinEvents PIN_EXIT_SOLENOID (trace w)
      ++ (if b then exitUnlockPins else [])
    /\ exitOpen (beforeDetection conf e w) = exitOpen w || b.
Proof.
  rewrite beforeDetection_eq.
  set (w2 := pollDeadlines e (bootNotify conf
     (set_locals (stack_facilityCode e) (stack_cardCode e) w))).
  assert (S2 : exitSide w2 = exitSide w) by apply front_sides.
  rewrite <- (entryFrame_exitSide conf e w2) in S2.
  revert S2. generalize (entryFrame conf e w2). intros w3 S2.
  rewrite (exitSide_eq w) in S2. apply exitSide_inv in S2.
  destruct S2 as (S21 & _ & _ & _ & S25).
  destruct (exitFrame_pins conf e w3) as (b & P & O).
  rewrite S21 in O. rewrite S25 in P. exists b.
  revert P O. generalize (exitFrame conf e w3). intros w4 P O.
  pose proof (doorSwing_exitSide e w4) as S5.
  apply exitSide_inv in S5. destruct S5 as (S51 & _ & _ & _ & S55).
  rewrite S51, S55. auto.
Qed.

(** From the detection on, when the sensor reads open at the re-lock
    check. *)
Lemma fromDetection_entry_sensor_open conf e w :
  digitalRead e 376 <> 0 ->
  exists b : bool,
    pinEvents PIN_ENTRY_SOLENOID (trace (fromDetection conf e w)) =
      pinEvents PIN_ENTRY_SOLENOID (trace w)
      ++ (if b then entryUnlockPins else [])
    /\ entryOpen (fromDetection conf e w) = entryOpen w || b.
Proof.
  intros S. rewrite fromDetection_eq.
  rewrite (entryRelock_sensor_open _ _ S).
  pose proof (entryLockedOpen_entrySide conf e w) as S6.
  exists (entryLockedOpenCond e w).
  assert (O : entryLockedOpenCond e w = true -> entryOpen w = false).
  { unfold entryLockedOpenCond. rewrite ntest_ENTRY_OPEN.
    unfold entryOpen. destruct (test (state w) STATE_ENTRY_OPEN);
      [discriminate | reflexivity]. }
  revert S6. generalize (entryLockedOpen conf e w). intros w6 S6.
  assert (S9 : entrySide (exitRelock e (lockedOpenDelay
                            (exitLockedOpen conf e w6))) = entrySide w6).
  { now rewrite (proj1 (exitRelock_entrySide _ _)),
      (proj1 (lockedOpenDelay_sides _)),
      (proj1 (exitLockedOpen_entrySide _ _ _)). }
  revert S9. generalize (exitRelock e (lockedOpenDelay
                            (exitLockedOpen conf e w6))). intros w10 S9.
  rewrite S6 in S9. clear S6.
  destruct (entryLockedOpenCond e w).
  - apply entrySide_inv in S9. destruct S9 as (S91 & _ & _ & _ & S95).
    now rewrite S91, S95, orb_true_r.
  - rewrite (entrySide_eq w) in S9. apply entrySide_inv in S9.
    destruct S9 as (S91 & _ & _ & _ & S95).
    now rewrite S91, S95, orb_false_r, app_nil_r.
Qed.

Lemma fromDetection_exit_sensor_open conf e w :
  digitalRead e 386 <> 0 ->
  exists b : bool,
    pinEvents PIN_EXIT_SOLENOID (trace (fromDetection conf e w)) =
      pinEvents PIN_EXIT_SOLENOID (trace w)
      ++ (if b then exitUnlockPins else [])
    /\ exitOpen (fromDetection conf e w) = exitOpen w || b.
Proof.
  intros S. rewrite fromDetection_eq.
  rewrite (exitRelock_sensor_open _ _ S).
  pose proof (entryLockedOpen_exitSide conf e w) as (S6 & _).
  revert S6. generalize (entryLockedOpen conf e w). intros w6 S6.
  pose proof (exitLockedOpen_exitSide conf e w6) as S7.
  exists (exitLockedOpenCond e w6).
  revert S7. generalize (exitLockedOpen conf e w6). intros w7 S7.
  assert (S9 : exitSide (entryRelock e (lockedOpenDelay w7)) = exitSide w7).
  { now rewrite (proj1 (entryRelock_exitSide _ _)),
      (proj1 (proj2 (lockedOpenDelay_sides _))). }
  revert S9. generalize (entryRelock e (lockedOpenDelay w7)). intros w9 S9.
  rewrite S7 in S9. clear S7.
  rewrite (exitSide_eq w) in S6. apply exitSide_inv in S6.
  destruct S6 as (S61 & S62 & S63 & S64 & S65).
  destruct (exitLockedOpenCond e w6).
  - apply exitSide_inv in S9. destruct S9 as (S91 & _ & _ & _ & S95).
    now rewrite S91, S95, S65, orb_true_r.
  - rewrite (exitSide_eq w6) in S9. apply exitSide_inv in S9.
    destruct S9 as (S91 & _ & _ & _ & S95).
    now rewrite S91, S95, S61, S65, orb_false_r, app_nil_r.
Qed.

Lemma lockWrites_entryUnlock b :
  lockWrites PIN_ENTRY_SOLENOID (if b : bool then entryUnlockPins else []) = [].
Proof. now destruct b. Qed.

Lemma lockWrites_exitUnlock b :
  lockWrites PIN_EXIT_SOLENOID (if b : bool then exitUnlockPins else []) = [].
Proof. now destruct b. Qed.

(** X12.  No lock pulse while the sensor reads open.  In an iteration
    whose re-lock check of a direction (line 376 or 386) reads the door
    sensor open, no write of [LOCK] to that direction's solenoid is
    added to the trace, and the direction, if it was open, is still
    open at the end of the iteration - whatever the deadlines. *)
Theorem X12_no_lock_while_sensor_open :
  forall conf e w,
    (digitalRead e 376 <> 0 ->
     lockWrites PIN_ENTRY_SOLENOID (trace (loop conf e w))
       = lockWrites PIN_ENTRY_SOLENOID (trace w)
     /\ (entryOpen w = true -> entryOpen (loop conf e w) = true))
    /\ (digitalRead e 386 <> 0 ->
        lockWrites PIN_EXIT_SOLENOID (trace (loop conf e w))
          = lockWrites PIN_EXIT_SOLENOID (trace w)
        /\ (exitOpen w = true -> exitOpen (loop conf e w) = true)).
Proof.
  intros conf e w. split; intros S; rewrite loop_eq.
  - destruct (beforeDetection_entry_pins conf e w) as (b1 & P1 & O1).
    revert P1 O1. generalize (beforeDetection conf e w). intros w5 P1 O1.
    destruct (fromDetection_entry_sensor_open conf e w5 S) as (b2 & P2 & O2).
    split.
    + rewrite lockWrites_pins, P2, P1, !lockWrites_app,
        !lockWrites_entryUnlock, !app_nil_r.
      symmetry. apply lockWrites_pins.
    + intros O. now rewrite O2, O1, O.
  - destruct (beforeDetection_exit_pins conf e w) as (b1 & P1 & O1).
    revert P1 O1. generalize (beforeDetection conf e w). intros w5 P1 O1.
    destruct (fromDetection_exit_sensor_open conf e w5 S) as (b2 & P2 & O2).
    split.
    + rewrite lockWrites_pins, P2, P1, !lockWrites_app,
        !lockWrites_exitUnlock, !app_nil_r.
      symmetry. apply lockWrites_pins.
    + intros O. now rewrite O2, O1, O.
Qed.

Lemma X12_no_lock_while_sensor_open_witness :
  lockWrites PIN_ENTRY_SOLENOID
    (trace (loop exampleConf (constEnv 62000 161 1) entryUnlocked))
  = lockWrites PIN_ENTRY_SOLENOID (trace entryUnlocked)
  /\ entryOpen (loop exampleConf (constEnv 62000 161 1) entryUnlocked) = true.
Proof.
  assert (S : digitalRead (constEnv 62000 161 1) 376 <> 0)
    by (vm_compute; discriminate).
  destruct (proj1 (X12_no_lock_while_sensor_open exampleConf
                     (constEnv 62000 161 1) entryUnlocked) S) as [A B].
  split; [exact A | apply B; vm_compute; reflexivity].
Defined.

(** ** The request flags *)

(** X13.  Every iteration consumes its requests: at its end the two
    frame-complete flags and the door-moved flag are clear.  Hence in
    every state between iterations (interrupts and callbacks do not set
    them) the frame-complete flags are clear, and the pulse handlers
    are never gated there. *)
Theorem X13_requests_consumed :
  (forall conf e w, requests (loop conf e w) = (false, false, false))
  /\ (forall w, reachable w ->
        test (state w) STATE_ENTRY_WEIGAND_DONE = false
        /\ test (state w) STATE_EXIT_WEIGAND_DONE = false).
Proof.
  split.
  - apply loop_requests.
  - apply reachable_done.
Qed.

Lemma X13_requests_consumed_witness :
  test (state bothOpen) STATE_ENTRY_WEIGAND_DONE = false
  /\ test (state bothOpen) STATE_EXIT_WEIGAND_DONE = false.
Proof.
  apply (proj2 X13_requests_consumed bothOpen). apply bothOpen_reachable.
Defined.

(** ** A frame with deadline 0 *)

Lemma iterated_zero_deadline w w' :
  iterated w w' ->
  test (state w) STATE_ENTRY_WEIGAND_DONE = false ->
  entryLastBit w = 0 ->
  entryCapture w' = entryCapture w
  /\ test (state w') STATE_ENTRY_WEIGAND_DONE = false.
Proof.
  intros I D Z0. induction I as [|conf e w' I [K D']]; [auto|].
  assert (Z' : entryLastBit w' = 0)
    by (unfold entryCapture in K; congruence).
  assert (Q : entryFrameReady e w' = false)
    by (unfold entryFrameReady; now rewrite D', Z').
  split.
  - now rewrite (loop_entryCapture_pending conf e w' Q).
  - apply loop_entry_done.
Qed.

(** X6.  A deadline of 0 means "no frame pending" to the loop.  If the
    pulses of a burst arrive when [millis() + WEIGAND_TIMEOUT] wraps to
    exactly 0 in the 32-bit deadline, then however many iterations
    follow, with whatever readings, the frame is never complete: the
    captured bits and count stay in place, with deadline 0. *)
Theorem X6_zero_deadline_never_completes :
  forall n bits now w w',
    test (state w) STATE_ENTRY_WEIGAND_DONE = false ->
    entryCapture w = (0, 0, 0) ->
    u32 (now + WEIGAND_TIMEOUT) = 0 ->
    iterated (pulses EntryD0 EntryD1 (S n) bits now w) w' ->
    entryCapture w' =
      (u64 (bits mod 2 ^ Z.of_nat (S n)), u8 (Z.of_nat (S n)), 0)
    /\ forall e, entryFrameReady e w' = false.
Proof.
  intros n bits now w w' D C Z0 I.
  pose proof (entry_burst n bits now w D C) as B. rewrite Z0 in B.
  assert (D1 : test (state (pulses EntryD0 EntryD1 (S n) bits now w))
                 STATE_ENTRY_WEIGAND_DONE = false).
  { destruct (entry_pulses (S n) bits now w D) as (_ & _ & _ & E4).
    - unfold entryCapture in C. assert (entryDataBits w = 0) by congruence. lia.
    - unfold entryCapture in C. assert (entryBitCount w = 0) by congruence. lia.
    - now rewrite E4. }
  revert B D1 I. generalize (pulses EntryD0 EntryD1 (S n) bits now w).
  intros w1 B D1 I.
  assert (Z1 : entryLastBit w1 = 0) by (unfold entryCapture in B; congruence).
  destruct (iterated_zero_deadline w1 w' I D1 Z1) as [K D'].
  split; [now rewrite K|].
  intros e. unfold entryFrameReady.
  assert (Z' : entryLastBit w' = 0)
    by (unfold entryCapture in K; congruence).
  now rewrite D', Z'.
Qed.

Lemma X6_zero_deadline_never_completes_witness :
  entryCapture
    (loop exampleConf (constEnv 900000 200 0)
       (loop exampleConf (constEnv 5000 100 0)
          (pulses EntryD0 EntryD1 (S 25) (wiegand26 0 10 400 0) (2^32 - 20)
             init)))
  = (u64 (wiegand26 0 10 400 0 mod 2 ^ Z.of_nat (S 25)),
     u8 (Z.of_nat (S 25)), 0).
Proof.
  apply (X6_zero_deadline_never_completes 25 (wiegand26 0 10 400 0)
           (2^32 - 20) init); try reflexivity.
  apply iterated_loop, iterated_loop, iterated_none.
Defined.

(** ** The memo while both directions are locked *)

Lemma bothLocked_memo_step w w' :
  entryOpen w' = entryOpen w -> exitOpen w' = exitOpen w ->
  memo w' = memo w ->
  (bothLocked w = true -> memo w = (0, 0)) ->
  bothLocked w' = true -> memo w' = (0, 0).
Proof. unfold bothLocked. intros -> -> ->. auto. Qed.

Lemma bothLocked_sides w w' :
  entrySide w' = entrySide w -> exitSide w' = exitSide w ->
  memo w' = memo w ->
  (bothLocked w = true -> memo w = (0, 0)) ->
  bothLocked w' = true -> memo w' = (0, 0).
Proof.
  intros E X. rewrite (entrySide_eq w) in E. apply entrySide_inv in E.
  rewrite (exitSide_eq w) in X. apply exitSide_inv in X.
  apply bothLocked_memo_step; [apply E | apply X].
Qed.

Lemma bothLocked_entry_open w :
  entryOpen w = true -> bothLocked w = true -> memo w = (0, 0).
Proof. unfold bothLocked. intros ->. discriminate. Qed.

Lemma bothLocked_exit_open w :
  exitOpen w = true -> bothLocked w = true -> memo w = (0, 0).
Proof. unfold bothLocked. intros ->. rewrite andb_false_r. discriminate. Qed.

Lemma entryFrame_memo_inv conf e w :
  (bothLocked w = true -> memo w = (0, 0)) ->
  bothLocked (entryFrame conf e w) = true ->
  memo (entryFrame conf e w) = (0, 0).
Proof.
  intros I.
  destruct (test (state w) STATE_ENTRY_WEIGAND_DONE) eqn:D;
    [|now rewrite entryFrame_idle].
  destruct (entryAdmits conf w) eqn:A.
  - destruct (entryAdmits_inv _ _ A) as (C & X & L & P).
    destruct (entryFrame_unlocks conf e w D C X L P) as [U _].
    apply entrySide_inv in U. apply bothLocked_entry_open, U.
  - pose proof (entryFrame_refuses conf e w A) as R.
    apply door_inv in R. destruct R as (R1 & R2 & R3 & _).
    now apply (bothLocked_sides w).
Qed.

Lemma exitFrame_memo_inv conf e w :
  (bothLocked w = true -> memo w = (0, 0)) ->
  bothLocked (exitFrame conf e w) = true ->
  memo (exitFrame conf e w) = (0, 0).
Proof.
  intros I.
  destruct (test (state w) STATE_EXIT_WEIGAND_DONE) eqn:D;
    [|now rewrite exitFrame_idle].
  destruct (exitAdmits conf w) eqn:A.
  - destruct (exitAdmits_inv _ _ A) as (C & X & L & P).
    destruct (exitFrame_unlocks conf e w D C X L P) as [U _].
    apply exitSide_inv in U. apply bothLocked_exit_open, U.
  - pose proof (exitFrame_refuses conf e w A) as R.
    apply door_inv in R. destruct R as (R1 & R2 & R3 & _).
    now apply (bothLocked_sides w).
Qed.

Lemma doorSwing_memo_inv e w :
  (bothLocked w = true -> memo w = (0, 0)) ->
  bothLocked (doorSwing e w) = true -> memo (doorSwing e w) = (0, 0).
Proof.
  pose proof (doorSwing_entrySide e w) as E. apply entrySide_inv in E.
  pose proof (doorSwing_exitSide e w) as X. apply exitSide_inv in X.
  apply bothLocked_memo_step; [apply E | apply X | apply doorSwing_memo].
Qed.

Lemma entryLockedOpen_memo_inv conf e w :
  (bothLocked w = true -> memo w = (0, 0)) ->
  bothLocked (entryLockedOpen conf e w) = true ->
  memo (entryLockedOpen conf e w) = (0, 0).
Proof.
  intros I. destruct (entryLockedOpenCond e w) eqn:C.
  - apply bothLocked_entry_open. now apply entryLockedOpen_fired.
  - now rewrite entryLockedOpen_idle.
Qed.

Lemma exitLockedOpen_memo_inv conf e w :
  (bothLocked w = true -> memo w = (0, 0)) ->
  bothLocked (exitLockedOpen conf e w) = true ->
  memo (exitLockedOpen conf e w) = (0, 0).
Proof.
  intros I. destruct (exitLockedOpenCond e w) eqn:C.
  - apply bothLocked_exit_open. now apply exitLockedOpen_fired.
  - now rewrite exitLockedOpen_idle.
Qed.

Lemma entryRelock_memo_inv e w :
  (bothLocked w = true -> memo w = (0, 0)) ->
  bothLocked (entryRelock e w) = true -> memo (entryRelock e w) = (0, 0).
Proof.
  intros I. rewrite entryRelock_memo.
  destruct (entryRelockCond e w) eqn:C; [reflexivity|].
  unfold entryRelock. now rewrite C.
Qed.

Lemma exitRelock_memo_inv e w :
  (bothLocked w = true -> memo w = (0, 0)) ->
  bothLocked (exitRelock e w) = true -> memo (exitRelock e w) = (0, 0).
Proof.
  intros I. rewrite exitRelock_memo.
  destruct (exitRelockCond e w) eqn:C; [reflexivity|].
  unfold exitRelock. now rewrite C.
Qed.

Lemma lockedOpenDelay_memo_inv w :
  (bothLocked w = true -> memo w = (0, 0)) ->
  bothLocked (lockedOpenDelay w) = true -> memo (lockedOpenDelay w) = (0, 0).
Proof. apply bothLocked_sides; apply lockedOpenDelay_sides. Qed.

Lemma front_memo_inv conf e w :
  (bothLocked w = true -> memo w = (0, 0)) ->
  bothLocked (pollDeadlines e (bootNotify conf
     (set_locals (stack_facilityCode e) (stack_cardCode e) w))) = true ->
  memo (pollDeadlines e (bootNotify conf
     (set_locals (stack_facilityCode e) (stack_cardCode e) w))) = (0, 0).
Proof. apply bothLocked_sides; apply front_sides. Qed.

Lemma loop_memo_inv conf e w :
  (bothLocked w = true -> memo w = (0, 0)) ->
  bothLocked (loop conf e w) = true -> memo (loop conf e w) = (0, 0).
Proof.
  intros I. rewrite loop_eq, fromDetection_eq, beforeDetection_eq.
  apply exitRelock_memo_inv, entryRelock_memo_inv, lockedOpenDelay_memo_inv,
    exitLockedOpen_memo_inv, entryLockedOpen_memo_inv, doorSwing_memo_inv,
    exitFrame_memo_inv, entryFrame_memo_inv, front_memo_inv.
  exact I.
Qed.

Lemma runIsr_memo i now w :
  entryOpen (runIsr i now w) = entryOpen w
  /\ exitOpen (runIsr i now w) = exitOpen w
  /\ memo (runIsr i now w) = memo w.
Proof.
  pose proof (runIsr_flags i now w) as F. unfold lockFlags in F.
  injection F as F1 F2 _ _. split; [exact F1|]. split; [exact F2|].
  destruct i; cbn [runIsr];
    unfold ISR_ENTRY_D0, ISR_ENTRY_D1, ISR_EXIT_D0, ISR_EXIT_D1, ISR_DOOR;
    break_if; reflexivity.
Qed.

Lemma runCallback_memo c w :
  entryOpen (runCallback c w) = entryOpen w
  /\ exitOpen (runCallback c w) = exitOpen w
  /\ memo (runCallback c w) = memo w.
Proof.
  pose proof (runCallback_flags c w) as F. unfold lockFlags in F.
  injection F as F1 F2 _ _. split; [exact F1|]. split; [exact F2|].
  destruct c; reflexivity.
Qed.

Lemma reachable_memo w :
  reachable w -> bothLocked w = true -> memo w = (0, 0).
Proof.
  induction 1 as [|conf e w R IH|i now w R IH|c w R IH].
  - reflexivity.
  - now apply loop_memo_inv.
  - destruct (runIsr_memo i now w) as (A & B & C).
    now apply (bothLocked_memo_step w).
  - destruct (runCallback_memo c w) as (A & B & C).
    now apply (bothLocked_memo_step w).
Qed.

(** X14.  In every reachable state in which both directions are
    locked, the Last-Credential Memo is (0, 0): what an unlock wrote
    into it never outlives the re-lock. *)
Theorem X14_memo_cleared_when_locked :
  forall w,
    reachable w -> entryOpen w = false -> exitOpen w = false ->
    lastFacilityCode w = 0 /\ lastCardCode w = 0.
Proof.
  intros w R E X.
  assert (M : memo w = (0, 0))
    by (apply reachable_memo; [exact R | unfold bothLocked; now rewrite E, X]).
  unfold memo in M. split; congruence.
Qed.

Lemma X14_memo_cleared_when_locked_witness :
  lastFacilityCode entryRelocked = 0 /\ lastCardCode entryRelocked = 0.
Proof.
  apply X14_memo_cleared_when_locked; try reflexivity.
  unfold entryRelocked. apply reach_loop, entryUnlocked_reachable.
Defined.

(** ** Saving and loading the configuration *)

Lemma bytesb_bytes m : bytesb m = true -> bytes m.
Proof.
  unfold bytesb, bytes. rewrite forallb_forall, Forall_forall.
  intros H b Hb. specialize (H b Hb). lia.
Qed.

Lemma configSave_valid ccitt s :
  List.length (st_conf s) = SIZEOF_CFG ->
  cfg_magic (st_conf s) = MAGIC ->
  configCorrupt ccitt (st_conf (configSave ccitt s)) = false.
Proof.
  intros L M. unfold configSave. cbn [st_conf].
  apply configCorrupt_false.
  now rewrite configSealed_magic, configSealed_crcOf, configSealed_crc.
Qed.

Lemma configSave_load ccitt s :
  List.length (st_conf s) = SIZEOF_CFG -> bytes (st_conf s) ->
  (SIZEOF_CFG <= List.length (st_eeprom s))%nat ->
  configLoad (st_eeprom (configSave ccitt s)) = st_conf (configSave ccitt s).
Proof.
  intros L B E. unfold configSave. cbn [st_conf st_eeprom].
  apply configLoad_store; [|now apply configSealed_bytes|exact E].
  now rewrite configSealed_length.
Qed.

(** X15.  Saved settings survive a reboot.  For a record of
    [sizeof(struct cfg)] bytes carrying the magic marker, on an EEPROM
    that holds the record: after [configSave], a later [configInit] -
    whatever the RAM held - loads exactly the record that was saved,
    logs nothing and leaves the EEPROM as it is.  The save leaves the
    first [sizeof(struct cfg) - 2] bytes of the record as they are,
    sets the [crc] member to their checksum, writes the record to the
    first [sizeof(struct cfg)] cells of the EEPROM and touches no cell
    past them. *)
Theorem X15_saved_settings_survive_reboot :
  forall ccitt macAddress s ram log,
    List.length (st_conf s) = SIZEOF_CFG ->
    bytes (st_conf s) ->
    cfg_magic (st_conf s) = MAGIC ->
    (SIZEOF_CFG <= List.length (st_eeprom s))%nat ->
    configInit ccitt macAddress
      (mkStorage ram (st_eeprom (configSave ccitt s)) log)
    = mkStorage (st_conf (configSave ccitt s))
        (st_eeprom (configSave ccitt s)) log
    /\ firstn (SIZEOF_CFG - 2) (st_conf (configSave ccitt s))
       = firstn (SIZEOF_CFG - 2) (st_conf s)
    /\ cfg_crc (st_conf (configSave ccitt s))
       = u16 (ccitt (firstn (SIZEOF_CFG - 2) (st_conf s)))
    /\ firstn SIZEOF_CFG (st_eeprom (configSave ccitt s))
       = st_conf (configSave ccitt s)
    /\ skipn SIZEOF_CFG (st_eeprom (configSave ccitt s))
       = skipn SIZEOF_CFG (st_eeprom s).
Proof.
  intros ccitt mac s ram log L B M E.
  pose proof (configSave_load ccitt s L B E) as R.
  split; [|split; [|split; [|split]]].
  - rewrite configInit_valid; cbn [st_conf st_eeprom st_log].
    + now rewrite R.
    + rewrite R. now apply configSave_valid.
  - unfold configSave, configSealed. cbn [st_conf].
    now rewrite wr_firstn by reflexivity.
  - unfold configSave. cbn [st_conf].
    exact (configSealed_crc ccitt (st_conf s) L).
  - unfold configSave. cbn [st_conf st_eeprom].
    apply eepromStore_firstn; [|exact E].
    now rewrite configSealed_length.
  - unfold configSave. cbn [st_eeprom]. now apply eepromStore_skipn.
Qed.

Lemma X15_saved_settings_survive_reboot_witness :
  configInit crc16_ccitt exampleMac
    (mkStorage []
       (st_eeprom (configSave crc16_ccitt
                     (mkStorage kitConf (st_eeprom healed) [])))
       [])
  = mkStorage
      (st_conf (configSave crc16_ccitt
                  (mkStorage kitConf (st_eeprom healed) [])))
      (st_eeprom (configSave crc16_ccitt
                    (mkStorage kitConf (st_eeprom healed) [])))
      [].
Proof.
  apply (X15_saved_settings_survive_reboot crc16_ccitt exampleMac
           (mkStorage kitConf (st_eeprom healed) []) [] []).
  - vm_compute. reflexivity.
  - apply bytesb_bytes. vm_compute. reflexivity.
  - vm_compute. reflexivity.
  - vm_compute. lia.
Defined.

Lemma configLoad_bytes ee : bytes (configLoad ee).
Proof.
  unfold configLoad, bytes. apply Forall_forall. intros b Hb.
  apply in_map_iff in Hb. destruct Hb as (i & <- & _). apply u8_range.
Qed.

Lemma configCorrupt_false_inv ccitt conf :
  configCorrupt ccitt conf = false ->
  cfg_magic conf = MAGIC /\ cfg_crc conf = crcOf ccitt conf.
Proof.
  unfold configCorrupt. intros V. apply orb_false_elim in V.
  destruct V as [M R]. apply negb_false_iff, Z.eqb_eq in M, R. now split.
Qed.

Lemma configCorrupt_true_inv ccitt conf :
  configCorrupt ccitt conf = true ->
  cfg_magic conf <> MAGIC \/ cfg_crc conf <> crcOf ccitt conf.
Proof.
  unfold configCorrupt. intros V. apply orb_true_iff in V.
  destruct V as [M|R]; [left|right].
  - now apply negb_true_iff, Z.eqb_neq in M.
  - now apply negb_true_iff, Z.eqb_neq in R.
Qed.

Lemma configInit_validity ccitt macAddress s :
  (SIZEOF_CFG <= List.length (st_eeprom s))%nat ->
  configCorrupt ccitt (st_conf (configInit ccitt macAddress s)) = false
  /\ List.length (st_conf (configInit ccitt macAddress s)) = SIZEOF_CFG
  /\ bytes (st_conf (configInit ccitt macAddress s))
  /\ configLoad (st_eeprom (configInit ccitt macAddress s))
     = st_conf (configInit ccitt macAddress s)
  /\ configInit ccitt macAddress (configInit ccitt macAddress s)
     = configInit ccitt macAddress s.
Proof.
  revert ccitt macAddress s. intros ccitt mac s E.
  destruct (configCorrupt ccitt (configLoad (st_eeprom s))) eqn:C.
  - rewrite (configInit_corrupt ccitt mac s C). cbn [st_conf st_eeprom].
    assert (L : List.length (configSealed ccitt (configDefault mac))
                = SIZEOF_CFG)
      by now rewrite configSealed_length, configDefault_length.
    assert (B : bytes (configSealed ccitt (configDefault mac)))
      by apply configSealed_bytes, configDefault_bytes.
    pose proof (configLoad_store _ _ L B E) as R.
    split; [apply configSealed_default_valid|].
    split; [exact L|]. split; [exact B|]. split; [exact R|].
    rewrite configInit_valid; cbn [st_conf st_eeprom st_log].
    + now rewrite R.
    + rewrite R. apply configSealed_default_valid.
  - rewrite (configInit_valid ccitt mac s C). cbn [st_conf st_eeprom].
    split; [exact C|]. split; [apply configLoad_length|].
    split; [apply configLoad_bytes|]. split; [reflexivity|].
    now rewrite configInit_valid.
Qed.

(** X16.  Whatever the EEPROM holds, [configInit] leaves a
    configuration that passes the integrity check - its magic member is
    [MAGIC] and its [crc] member is the checksum of its first
    [sizeof(struct cfg) - 2] bytes -, has the size of the record,
    consists of bytes and is what the copy loop reads back from the
    EEPROM; and running [configInit] again changes nothing. *)
Theorem X16_configInit_establishes_validity :
  forall ccitt macAddress s,
    (SIZEOF_CFG <= List.length (st_eeprom s))%nat ->
    cfg_magic (st_conf (configInit ccitt macAddress s)) = MAGIC
    /\ cfg_crc (st_conf (configInit ccitt macAddress s))
       = u16 (ccitt (firstn (SIZEOF_CFG - 2)
                       (st_conf (configInit ccitt macAddress s))))
    /\ List.length (st_conf (configInit ccitt macAddress s)) = SIZEOF_CFG
    /\ bytes (st_conf (configInit ccitt macAddress s))
    /\ configLoad (st_eeprom (configInit ccitt macAddress s))
       = st_conf (configInit ccitt macAddress s)
    /\ configInit ccitt macAddress (configInit ccitt macAddress s)
       = configInit ccitt macAddress s.
Proof.
  intros ccitt mac s E.
  destruct (configInit_validity ccitt mac s E) as (V & L & B & R & I).
  destruct (configCorrupt_false_inv _ _ V) as [M C].
  split; [exact M|]. split; [exact C|]. split; [exact L|].
  split; [exact B|]. split; [exact R | exact I].
Qed.

Lemma X16_configInit_establishes_validity_witness :
  cfg_magic (st_conf (configInit crc16_ccitt exampleMac firstBoot)) = MAGIC.
Proof.
  apply (X16_configInit_establishes_validity crc16_ccitt exampleMac firstBoot).
  vm_compute. lia.
Defined.

(** ** A damaged magic marker or checksum *)

Lemma configLoad_upd ee k v j :
  (j < SIZEOF_CFG)%nat -> (SIZEOF_CFG <= List.length ee)%nat ->
  nth j (configLoad (upd ee k v)) 0 =
    if (j =? k)%nat then u8 v else nth j (configLoad ee) 0.
Proof.
  intros J E. rewrite !configLoad_nth by exact J. unfold rd8.
  rewrite upd_nth.
  assert (L : (j <? List.length ee)%nat = true) by (apply Nat.ltb_lt; lia).
  rewrite L, andb_true_r. now destruct (j =? k)%nat.
Qed.

Lemma configLoad_upd_crcOf ccitt ee k v :
  (CRC_LEN <= k)%nat -> (SIZEOF_CFG <= List.length ee)%nat ->
  crcOf ccitt (configLoad (upd ee k v)) = crcOf ccitt (configLoad ee).
Proof.
  intros K E. unfold crcOf. f_equal. f_equal.
  assert (C : (CRC_LEN <= SIZEOF_CFG)%nat) by (unfold CRC_LEN; lia).
  apply (nth_ext _ _ 0 0).
  - now rewrite !length_firstn, !configLoad_length.
  - intros j Hj. rewrite length_firstn, configLoad_length in Hj.
    rewrite !nth_firstn.
    destruct (j <? CRC_LEN)%nat eqn:JC; [|reflexivity].
    apply Nat.ltb_lt in JC.
    rewrite configLoad_upd by (try exact E; lia).
    assert (N : (j =? k)%nat = false) by (apply Nat.eqb_neq; lia).
    now rewrite N.
Qed.

Lemma damage_detected :
  forall ccitt macAddress ee k v ram log,
    (SIZEOF_CFG <= List.length ee)%nat ->
    configCorrupt ccitt (configLoad ee) = false ->
    (k < 4 \/ k = OFF_CRC \/ k = OFF_CRC + 1)%nat ->
    u8 v <> u8 (rd8 ee k) ->
    configCorrupt ccitt (configLoad (upd ee k v)) = true
    /\ st_conf (configInit ccitt macAddress (mkStorage ram (upd ee k v) log))
       = configSealed ccitt (configDefault macAddress)
    /\ st_log (configInit ccitt macAddress (mkStorage ram (upd ee k v) log))
       = log ++ [Debug MsgSettingsCorrupted].
Proof.
  intros ccitt mac ee k v ram log E V K D.
  assert (C : configCorrupt ccitt (configLoad (upd ee k v)) = true).
  { unfold configCorrupt in V. apply orb_false_elim in V.
    destruct V as [M R]. apply negb_false_iff, Z.eqb_eq in M, R.
    assert (Kb : (k < SIZEOF_CFG)%nat) by (unfold OFF_CRC, SIZEOF_CFG in *; lia).
    pose proof (u8_range v) as Rv. pose proof (u8_range (rd8 ee k)) as Ro.
    rewrite <- (configLoad_nth ee k Kb) in D, Ro.
    apply configCorrupt_true.
    destruct K as [K|K].
    - left. rewrite <- M. unfold cfg_magic, rd32, rd8, OFF_MAGIC.
      rewrite !configLoad_upd by (try exact E; unfold SIZEOF_CFG; lia).
      cbn [Nat.add].
      destruct k as [|[|[|[|k]]]]; [| | | |lia]; cbn [Nat.eqb]; lia.
    - right. rewrite configLoad_upd_crcOf
        by (try exact E; unfold CRC_LEN, SIZEOF_CFG, OFF_CRC in *; lia).
      rewrite <- R. unfold cfg_crc, rd16, rd8.
      rewrite !configLoad_upd
        by (try exact E; unfold OFF_CRC, SIZEOF_CFG; lia).
      destruct K as [-> | ->].
      + rewrite Nat.eqb_refl.
        assert (N : (OFF_CRC + 1 =? OFF_CRC)%nat = false) by reflexivity.
        rewrite N. lia.
      + rewrite Nat.eqb_refl.
        assert (N : (OFF_CRC =? OFF_CRC + 1)%nat = false) by reflexivity.
        rewrite N. lia. }
  split; [exact C|].
  now rewrite configInit_corrupt.
Qed.

(** X17.  Damage to the magic marker or to the stored checksum is
    always detected.  If the EEPROM holds a record that passes the
    check - magic [MAGIC], [crc] member equal to the checksum of the
    first [sizeof(struct cfg) - 2] bytes - and one of its four magic
    bytes (cells 0 to 3) or two checksum bytes (the last two cells of
    the record) is then changed to a different value, the record read
    back no longer passes the check, and the next [configInit] logs it
    and falls back to the default record. *)
Theorem X17_damaged_marker_or_checksum_detected :
  forall ccitt macAddress ee k v ram log,
    (SIZEOF_CFG <= List.length ee)%nat ->
    cfg_magic (configLoad ee) = MAGIC ->
    cfg_crc (configLoad ee)
      = u16 (ccitt (firstn (SIZEOF_CFG - 2) (configLoad ee))) ->
    (k < 4 \/ k = SIZEOF_CFG - 2 \/ k = SIZEOF_CFG - 1)%nat ->
    u8 v <> u8 (rd8 ee k) ->
    (cfg_magic (configLoad (upd ee k v)) <> MAGIC
     \/ cfg_crc (configLoad (upd ee k v))
        <> u16 (ccitt (firstn (SIZEOF_CFG - 2) (configLoad (upd ee k v)))))
    /\ st_conf (configInit ccitt macAddress (mkStorage ram (upd ee k v) log))
       = configSealed ccitt (configDefault macAddress)
    /\ st_log (configInit ccitt macAddress (mkStorage ram (upd ee k v) log))
       = log ++ [Debug MsgSettingsCorrupted].
Proof.
  intros ccitt mac ee k v ram log E M C K D.
  assert (V : configCorrupt ccitt (configLoad ee) = false)
    by (apply configCorrupt_false; split; [exact M | exact C]).
  assert (K' : (k < 4 \/ k = OFF_CRC \/ k = OFF_CRC + 1)%nat)
    by (unfold OFF_CRC, SIZEOF_CFG in *; lia).
  destruct (damage_detected ccitt mac ee k v ram log E V K' D)
    as (T & R).
  split; [|exact R].
  exact (configCorrupt_true_inv _ _ T).
Qed.

Lemma X17_damaged_marker_or_checksum_detected_witness :
  st_log (configInit crc16_ccitt exampleMac
            (mkStorage [] (upd (st_eeprom healed) 1053 0) []))
  = [] ++ [Debug MsgSettingsCorrupted].
Proof.
  apply (X17_damaged_marker_or_checksum_detected crc16_ccitt exampleMac
           (st_eeprom healed) 1053 0 [] []).
  - vm_compute. lia.
  - vm_compute. reflexivity.
  - vm_compute. reflexivity.
  - right. right. reflexivity.
  - vm_compute. discriminate.
Defined.

(** ** The bytes the form writes *)

Lemma within_id lo hi : within lo hi (fun conf => conf).
Proof. intros conf. auto. Qed.

Lemma within_wr lo hi off bs :
  (lo <= off)%nat -> (off + List.length bs <= hi)%nat ->
  within lo hi (fun conf => wr conf off bs).
Proof.
  intros L H conf. split; [apply wr_length|].
  intros k d [K|K]; [apply wr_nth_below | apply wr_nth_above]; lia.
Qed.

Lemma within_comp lo hi f g :
  within lo hi f -> within lo hi g -> within lo hi (fun conf => g (f conf)).
Proof.
  intros F G conf. destruct (F conf) as [F1 F2], (G (f conf)) as [G1 G2].
  split; [congruence|]. intros k d K. now rewrite G2, F2.
Qed.

Lemma within_weaken lo hi lo' hi' f :
  (lo' <= lo)%nat -> (hi <= hi')%nat -> within lo hi f -> within lo' hi' f.
Proof.
  intros L H F conf. destruct (F conf) as [F1 F2]. split; [exact F1|].
  intros k d K. apply F2. lia.
Qed.

Lemma strncpy_within off src n :
  within off (off + n) (fun conf => strncpy conf off src n).
Proof.
  unfold strncpy. apply within_wr; [lia|].
  rewrite length_firstn, length_app, repeat_length. lia.
Qed.

Section WebFormFacts.

Variable ccitt : list Z -> Z.
Variable urlDecode : string -> string.
Variable toInt : string -> Z.

Lemma saveField_within r name off n :
  within off (off + n) (saveField urlDecode r name off n).
Proof.
  unfold saveField. destruct (hasArg r name).
  - apply strncpy_within.
  - apply within_id.
Qed.

Lemma saveFlag_within r name off mask :
  within off (off + 1) (saveFlag r name off mask).
Proof.
  intros conf. unfold saveFlag.
  destruct (hasArg r name);
    apply (within_wr off (off + 1) off [_]); cbn [List.length]; lia.
Qed.

Lemma saveFacility_within r i :
  within (cat_off i + CAT_FACILITY) (cat_off i + CAT_FACILITY + 1)
    (saveFacility toInt r i).
Proof.
  intros conf. unfold saveFacility. destruct (numberOk _ _ _ _).
  - apply (within_wr _ _ _ [_]); cbn [List.length]; lia.
  - now apply within_id.
Qed.

Lemma saveId_within r i :
  within (cat_off i + CAT_ID) (cat_off i + CAT_ID + 2) (saveId toInt r i).
Proof.
  intros conf. unfold saveId. destruct (numberOk _ _ _ _).
  - apply (within_wr _ _ _ (le16 _)); cbn [List.length le16]; lia.
  - now apply within_id.
Qed.

Lemma saveCat_within r i :
  within (cat_off i) (cat_off i + SIZEOF_CAT) (saveCat urlDecode toInt r i).
Proof.
  unfold saveCat.
  apply (within_comp _ _
           (fun conf =>
              saveFlag r (key "entry" i) (cat_off i + CAT_FLAGS) CFG_CAT_ENTRY
                (saveId toInt r i (saveFacility toInt r i
                   (saveField urlDecode r (key "topic" i)
                      (cat_off i + CAT_TOPIC) 64
                      (saveField urlDecode r (key "catname" i)
                         (cat_off i + CAT_NAME) 20 conf)))))).
  2:{ eapply within_weaken; [| |apply saveFlag_within];
      unfold CAT_FLAGS, SIZEOF_CAT; lia. }
  apply (within_comp _ _
           (fun conf =>
              saveId toInt r i (saveFacility toInt r i
                 (saveField urlDecode r (key "topic" i)
                    (cat_off i + CAT_TOPIC) 64
                    (saveField urlDecode r (key "catname" i)
                       (cat_off i + CAT_NAME) 20 conf))))).
  2:{ eapply within_weaken; [| |apply saveFlag_within];
      unfold CAT_FLAGS, SIZEOF_CAT; lia. }
  apply (within_comp _ _
           (fun conf =>
              saveFacility toInt r i
                (saveField urlDecode r (key "topic" i)
                   (cat_off i + CAT_TOPIC) 64
                   (saveField urlDecode r (key "catname" i)
                      (cat_off i + CAT_NAME) 20 conf)))).
  2:{ eapply within_weaken; [| |apply saveId_within];
      unfold CAT_ID, SIZEOF_CAT; lia. }
  apply (within_comp _ _
           (fun conf =>
              saveField urlDecode r (key "topic" i)
                (cat_off i + CAT_TOPIC) 64
                (saveField urlDecode r (key "catname" i)
                   (cat_off i + CAT_NAME) 20 conf))).
  2:{ eapply within_weaken; [| |apply saveFacility_within];
      unfold CAT_FACILITY, SIZEOF_CAT; lia. }
  apply (within_comp _ _
           (fun conf =>
              saveField urlDecode r (key "catname" i)
                (cat_off i + CAT_NAME) 20 conf)).
  - eapply within_weaken; [| |apply saveField_within];
      unfold CAT_NAME, SIZEOF_CAT; lia.
  - eapply within_weaken; [| |apply saveField_within];
      unfold CAT_TOPIC, SIZEOF_CAT; lia.
Qed.

Lemma saveCats_within r n : forall i,
  within (cat_off i) (cat_off (i + n)) (saveCats urlDecode toInt r i n).
Proof.
  induction n as [|n IH]; intros i; cbn [saveCats].
  - apply within_id.
  - apply (within_comp _ _ (saveCat urlDecode toInt r i)).
    + eapply within_weaken; [| |apply saveCat_within];
        unfold cat_off, SIZEOF_CAT; lia.
    + eapply within_weaken; [| |apply IH]; unfold cat_off; lia.
Qed.

Lemma saveCats_split r n : forall i m conf,
  saveCats urlDecode toInt r i (n + m) conf =
    saveCats urlDecode toInt r (i + n) m (saveCats urlDecode toInt r i n conf).
Proof.
  induction n as [|n IH]; intros i m conf; cbn [saveCats Nat.add].
  - now rewrite Nat.add_0_r.
  - rewrite IH. now rewrite Nat.add_succ_r.
Qed.

Lemma saveGlobals_length r conf :
  List.length (saveGlobals urlDecode r conf) = List.length conf.
Proof.
  unfold saveGlobals.
  repeat first [ rewrite (proj1 (saveField_within _ _ _ _ _))
               | rewrite (proj1 (saveFlag_within _ _ _ _ _)) ].
  reflexivity.
Qed.

(** The settings outside the slots leave the slots, the magic marker
    and the checksum alone. *)
Lemma saveGlobals_outside r conf k d :
  (k < OFF_HOSTNAME \/ OFF_CAT <= k < OFF_NTFY \/ OFF_CRC <= k)%nat ->
  nth k (saveGlobals urlDecode r conf) d = nth k conf d.
Proof.
  intros K. unfold saveGlobals.
  unfold OFF_HOSTNAME, OFF_CAT, OFF_NTFY, OFF_CRC in K.
  repeat first
    [ rewrite (proj2 (saveField_within _ _ _ _ _))
        by (unfold OFF_NTFY, NTFY_PASSWORD, NTFY_USERNAME, NTFY_TOPIC,
              NTFY_URL, OFF_TIMEZONE, OFF_NTPSERVER, OFF_WPAKEY, OFF_SSID,
              OFF_HOSTNAME; lia)
    | rewrite (proj2 (saveFlag_within _ _ _ _ _))
        by (unfold OFF_FLAGS; lia) ].
  reflexivity.
Qed.

(** The bytes of slot [i] in the record the form builds: those the turn
    for slot [i] leaves, and that turn starts from the bytes the slot
    had before the request. *)
Lemma formConf_slot r conf i :
  (i < CFG_NCATS)%nat ->
  exists before,
    List.length before = List.length conf
    /\ (forall k d, (cat_off i <= k < cat_off (S i))%nat ->
          nth k before d = nth k conf d)
    /\ (forall k d, (cat_off i <= k < cat_off (S i))%nat ->
          nth k (formConf urlDecode toInt r conf) d
          = nth k (saveCat urlDecode toInt r i before) d).
Proof.
  intros I.
  exists (saveCats urlDecode toInt r 0 i (saveGlobals urlDecode r conf)).
  split; [|split].
  - now rewrite (proj1 (saveCats_within r i 0 _)), saveGlobals_length.
  - intros k d K.
    rewrite (proj2 (saveCats_within r i 0 _)) by (right; apply K).
    apply saveGlobals_outside.
    unfold cat_off, CFG_NCATS, SIZEOF_CAT, OFF_CAT, OFF_NTFY in *. lia.
  - intros k d K. unfold formConf.
    replace CFG_NCATS with (i + S (CFG_NCATS - S i))%nat by lia.
    rewrite saveCats_split. cbn [saveCats Nat.add].
    rewrite (proj2 (saveCats_within r _ (S i) _)); [reflexivity|].
    unfold cat_off in *. lia.
Qed.

End WebFormFacts.

Lemma u8_land_low x m : 0 <= m < 2^8 -> Z.land (u8 x) m = Z.land x m.
Proof.
  intros Hm. unfold u8. rewrite <- Z.land_ones by lia.
  rewrite <- Z.land_assoc. f_equal.
  rewrite Z.land_comm, Z.land_ones by lia. apply Z.mod_small. lia.
Qed.

Lemma test_u8 x m : 0 <= m < 2^8 -> test (u8 x) m = test x m.
Proof. intros H. unfold test. now rewrite u8_land_low. Qed.

Lemma rd8_wr_at m off b bs :
  (off < List.length m)%nat -> rd8 (wr m off (b :: bs)) off = b.
Proof.
  intros L. unfold rd8. rewrite wr_nth_inside by (cbn [List.length]; lia).
  now rewrite Nat.sub_diag.
Qed.

Section WebFormSlots.

Variable ccitt : list Z -> Z.
Variable urlDecode : string -> string.
Variable toInt : string -> Z.

(** The permission flags a slot gets are the two check boxes. *)
Lemma saveFlag_test r name off mask conf :
  (off < List.length conf)%nat -> 0 <= mask < 2^8 -> mask <> 0 ->
  test (rd8 (saveFlag r name off mask conf) off) mask = hasArg r name.
Proof.
  intros L M N. unfold saveFlag. destruct (hasArg r name);
    rewrite rd8_wr_at by exact L; rewrite test_u8 by exact M.
  - rewrite test_lor, Z.land_diag.
    apply Z.eqb_neq in N. rewrite N. apply orb_true_r.
  - apply test_clear_same.
Qed.

Lemma saveFlag_test_other r name off mask m conf :
  (off < List.length conf)%nat -> 0 <= m < 2^8 -> Z.land mask m = 0 ->
  test (rd8 (saveFlag r name off mask conf) off) m = test (rd8 conf off) m.
Proof.
  intros L M D. unfold saveFlag. destruct (hasArg r name);
    rewrite rd8_wr_at by exact L; rewrite test_u8 by exact M.
  - rewrite test_lor, D. cbn [Z.eqb negb]. apply orb_false_r.
  - now apply test_clear_other.
Qed.

Lemma saveCat_permitted r i conf :
  (cat_off i + CAT_FLAGS < List.length conf)%nat ->
  permitted (saveCat urlDecode toInt r i conf) ENTRY i
    = hasArg r (key "entry" i)
  /\ permitted (saveCat urlDecode toInt r i conf) EXIT i
     = hasArg r (key "exit" i).
Proof.
  intros L. unfold permitted, cat_flags, saveCat.
  set (c3 := saveId toInt r i (saveFacility toInt r i
     (saveField urlDecode r (key "topic" i) (cat_off i + CAT_TOPIC) 64
        (saveField urlDecode r (key "catname" i) (cat_off i + CAT_NAME) 20
           conf)))).
  assert (L3 : (cat_off i + CAT_FLAGS < List.length c3)%nat).
  { unfold c3.
    now rewrite (proj1 (saveId_within _ _ _ _)),
      (proj1 (saveFacility_within _ _ _ _)),
      !(proj1 (saveField_within _ _ _ _ _ _)). }
  assert (L4 : (cat_off i + CAT_FLAGS
                < List.length (saveFlag r (key "entry" i)
                                 (cat_off i + CAT_FLAGS) CFG_CAT_ENTRY c3))%nat)
    by now rewrite (proj1 (saveFlag_within _ _ _ _ _)).
  assert (ME : 0 <= CFG_CAT_ENTRY < 2^8) by (unfold CFG_CAT_ENTRY; lia).
  assert (MX : 0 <= CFG_CAT_EXIT < 2^8) by (unfold CFG_CAT_EXIT; lia).
  split.
  - rewrite saveFlag_test_other by (try reflexivity; assumption).
    apply saveFlag_test; try assumption. discriminate.
  - apply saveFlag_test; try assumption. discriminate.
Qed.

Lemma numberOk_range r name max :
  numberOk toInt r name max = true -> 0 <= toInt (arg r name) <= max.
Proof.
  unfold numberOk. intros H.
  apply andb_prop in H. destruct H as [H B].
  apply andb_prop in H. destruct H as [_ A]. lia.
Qed.

Lemma saveCat_facility r i conf :
  (cat_off i + SIZEOF_CAT <= List.length conf)%nat ->
  cat_facility (saveCat urlDecode toInt r i conf) i =
    if numberOk toInt r (key "facility" i) 255
    then toInt (arg r (key "facility" i))
    else cat_facility conf i.
Proof.
  intros L. unfold cat_facility, saveCat, rd8.
  rewrite !(proj2 (saveFlag_within _ _ _ _ _))
    by (unfold CAT_FLAGS, CAT_FACILITY; lia).
  rewrite (proj2 (saveId_within _ _ _ _))
    by (unfold CAT_ID, CAT_FACILITY; lia).
  set (c1 := saveField urlDecode r (key "topic" i) (cat_off i + CAT_TOPIC) 64
               (saveField urlDecode r (key "catname" i)
                  (cat_off i + CAT_NAME) 20 conf)).
  assert (L1 : List.length c1 = List.length conf)
    by (unfold c1; now rewrite !(proj1 (saveField_within _ _ _ _ _ _))).
  assert (N1 : nth (cat_off i + CAT_FACILITY) c1 0
               = nth (cat_off i + CAT_FACILITY) conf 0).
  { unfold c1.
    now rewrite !(proj2 (saveField_within _ _ _ _ _ _))
      by (unfold CAT_TOPIC, CAT_NAME, CAT_FACILITY; lia). }
  unfold saveFacility.
  destruct (numberOk toInt r (key "facility" i) 255) eqn:K; [|exact N1].
  change (rd8 (wr c1 (cat_off i + CAT_FACILITY)
                 [u8 (toInt (arg r (key "facility" i)))])
            (cat_off i + CAT_FACILITY) = toInt (arg r (key "facility" i))).
  rewrite rd8_wr_at by (unfold CAT_FACILITY, SIZEOF_CAT in *; lia).
  apply numberOk_range in K. unfold u8. apply Z.mod_small. lia.
Qed.

Lemma saveCat_id r i conf :
  (cat_off i + SIZEOF_CAT <= List.length conf)%nat ->
  cat_id (saveCat urlDecode toInt r i conf) i =
    if numberOk toInt r (key "id" i) 8191
    then toInt (arg r (key "id" i))
    else cat_id conf i.
Proof.
  intros L. unfold cat_id, saveCat, rd16, rd8.
  rewrite !(proj2 (saveFlag_within _ _ _ _ _))
    by (unfold CAT_FLAGS, CAT_ID; lia).
  set (c2 := saveFacility toInt r i
               (saveField urlDecode r (key "topic" i) (cat_off i + CAT_TOPIC)
                  64
                  (saveField urlDecode r (key "catname" i)
                     (cat_off i + CAT_NAME) 20 conf))).
  assert (L2 : List.length c2 = List.length conf).
  { unfold c2.
    now rewrite (proj1 (saveFacility_within _ _ _ _)),
      !(proj1 (saveField_within _ _ _ _ _ _)). }
  assert (N2 : forall k, (cat_off i + CAT_ID <= k < cat_off i + CAT_ID + 2)%nat ->
                 nth k c2 0 = nth k conf 0).
  { intros k K. unfold c2.
    rewrite (proj2 (saveFacility_within _ _ _ _))
      by (unfold CAT_FACILITY, CAT_ID in *; lia).
    now rewrite !(proj2 (saveField_within _ _ _ _ _ _))
      by (unfold CAT_TOPIC, CAT_NAME, CAT_ID in *; lia). }
  unfold saveId.
  destruct (numberOk toInt r (key "id" i) 8191) eqn:K.
  - rewrite !wr_nth_inside
      by (cbn [List.length le16]; unfold CAT_ID, SIZEOF_CAT in *; lia).
    rewrite Nat.sub_diag.
    replace (cat_off i + CAT_ID + 1 - (cat_off i + CAT_ID))%nat with 1%nat
      by lia.
    apply numberOk_range in K.
    assert (U : u16 (toInt (arg r (key "id" i))) = toInt (arg r (key "id" i)))
      by (unfold u16; apply Z.mod_small; lia).
    rewrite U. apply (rd16_le16 (toInt (arg r (key "id" i)))). lia.
  - rewrite !N2 by lia. reflexivity.
Qed.

End WebFormSlots.

Lemma configSealed_nth ccitt conf k d :
  (k < OFF_CRC)%nat -> nth k (configSealed ccitt conf) d = nth k conf d.
Proof. intros K. unfold configSealed. now apply wr_nth_below. Qed.

(** The members of slot [i] are read from the bytes of slot [i]. *)
Lemma slot_members conf conf' i :
  (forall k d, (cat_off i <= k < cat_off (S i))%nat ->
     nth k conf' d = nth k conf d) ->
  cat_facility conf' i = cat_facility conf i
  /\ cat_id conf' i = cat_id conf i
  /\ cat_flags conf' i = cat_flags conf i.
Proof.
  intros H. unfold cat_facility, cat_id, cat_flags, rd16, rd8.
  rewrite !H by (unfold cat_off, CAT_FACILITY, CAT_ID, CAT_FLAGS, SIZEOF_CAT;
                 lia).
  auto.
Qed.

Lemma slot_permitted conf conf' i dir :
  cat_flags conf' i = cat_flags conf i ->
  permitted conf' dir i = permitted conf dir i.
Proof. intros H. unfold permitted. now rewrite H. Qed.

Lemma slot_matches conf conf' i fc cc :
  cat_facility conf' i = cat_facility conf i ->
  cat_id conf' i = cat_id conf i ->
  cat_matches conf' fc cc i = cat_matches conf fc cc i.
Proof. intros F I. unfold cat_matches. now rewrite F, I. Qed.

Section WebFormSaved.

Variable ccitt : list Z -> Z.
Variable urlDecode : string -> string.
Variable toInt : string -> Z.

Lemma formConf_length r conf :
  List.length (formConf urlDecode toInt r conf) = List.length conf.
Proof.
  unfold formConf.
  now rewrite (proj1 (saveCats_within _ _ _ _ _ _)), saveGlobals_length.
Qed.

(** The slot members after [handleSave], from the request and the
    members before. *)
Lemma handleSave_slot r s i :
  List.length (st_conf s) = SIZEOF_CFG ->
  (i < CFG_NCATS)%nat ->
  (permitted (st_conf (handleSave ccitt urlDecode toInt true r s)) ENTRY i
     = hasArg r (key "entry" i)
   /\ permitted (st_conf (handleSave ccitt urlDecode toInt true r s)) EXIT i
      = hasArg r (key "exit" i))
  /\ cat_facility (st_conf (handleSave ccitt urlDecode toInt true r s)) i =
       (if numberOk toInt r (key "facility" i) 255
        then toInt (arg r (key "facility" i))
        else cat_facility (st_conf s) i)
  /\ cat_id (st_conf (handleSave ccitt urlDecode toInt true r s)) i =
       (if numberOk toInt r (key "id" i) 8191
        then toInt (arg r (key "id" i))
        else cat_id (st_conf s) i).
Proof.
  intros L I. unfold handleSave, configSave. cbn [st_conf].
  destruct (formConf_slot urlDecode toInt r (st_conf s) i I)
    as (before & Lb & B & A).
  assert (R : (cat_off (S i) <= OFF_CRC)%nat)
    by (unfold cat_off, CFG_NCATS, SIZEOF_CAT, OFF_CAT, OFF_CRC in *; lia).
  assert (S1 : forall k d, (cat_off i <= k < cat_off (S i))%nat ->
            nth k (configSealed ccitt (formConf urlDecode toInt r (st_conf s)))
              d
            = nth k (saveCat urlDecode toInt r i before) d).
  { intros k d K. rewrite configSealed_nth by lia. now apply A. }
  destruct (slot_members _ _ i S1) as (F1 & F2 & F3).
  destruct (slot_members _ _ i B) as (G1 & G2 & G3).
  assert (Lc : (cat_off i + SIZEOF_CAT <= List.length before)%nat).
  { rewrite Lb, L.
    unfold cat_off, CFG_NCATS, SIZEOF_CAT, OFF_CAT, SIZEOF_CFG in *. lia. }
  rewrite !(slot_permitted _ _ i _ F3), F1, F2.
  rewrite saveCat_facility, saveCat_id by exact Lc. rewrite G1, G2.
  split; [|auto].
  apply saveCat_permitted. unfold CAT_FLAGS, SIZEOF_CAT in *. lia.
Qed.

(** Without a buffer the handler only logs. *)
Lemma handleSave_failed r s :
  handleSave ccitt urlDecode toInt false r s =
    mkStorage (st_conf s) (st_eeprom s) (st_log s ++ [Debug MsgWebNoMemory]).
Proof. reflexivity. Qed.

End WebFormSaved.

(** ** What a saved form leaves in the slots *)

Section WebFormTheorems.

Variable ccitt : list Z -> Z.
Variable urlDecode : string -> string.
Variable toInt : string -> Z.

(** X18.  After the settings form is handled with a buffer from
    [malloc], a slot has the entry (exit) permission exactly when the
    request carried its entry (exit) check box.  In particular any
    request that omits a box - a form with the box cleared, or a
    request that carries other settings only - revokes the permission.
    When [malloc] fails the permissions are what they were. *)
Theorem X18_form_permissions_are_the_check_boxes :
  forall allocated r s i,
    List.length (st_conf s) = SIZEOF_CFG ->
    (i < CFG_NCATS)%nat ->
    permitted (st_conf (handleSave ccitt urlDecode toInt allocated r s))
      ENTRY i
      = (if allocated then hasArg r (key "entry" i)
         else permitted (st_conf s) ENTRY i)
    /\ permitted (st_conf (handleSave ccitt urlDecode toInt allocated r s))
         EXIT i
       = (if allocated then hasArg r (key "exit" i)
          else permitted (st_conf s) EXIT i).
Proof.
  intros [|] r s i L I.
  - apply (handleSave_slot ccitt urlDecode toInt r s i L I).
  - rewrite handleSave_failed. split; reflexivity.
Qed.

(** X19.  The numbers of a slot are validated.  The facility code
    becomes the submitted number only if [malloc] gave a buffer, the
    argument is not empty and the number is in 0..255, and the card
    code only if it is in 0..8191; otherwise the member keeps its
    value. *)
Theorem X19_form_numbers_are_validated :
  forall allocated r s i,
    List.length (st_conf s) = SIZEOF_CFG ->
    (i < CFG_NCATS)%nat ->
    cat_facility (st_conf (handleSave ccitt urlDecode toInt allocated r s)) i
    = (if allocated
          && negb (String.length (arg r (key "facility" i)) =? 0)%nat
          && (0 <=? toInt (arg r (key "facility" i)))
          && (toInt (arg r (key "facility" i)) <=? 255)
       then toInt (arg r (key "facility" i))
       else cat_facility (st_conf s) i)
    /\ cat_id (st_conf (handleSave ccitt urlDecode toInt allocated r s)) i
       = (if allocated
             && negb (String.length (arg r (key "id" i)) =? 0)%nat
             && (0 <=? toInt (arg r (key "id" i)))
             && (toInt (arg r (key "id" i)) <=? 8191)
          then toInt (arg r (key "id" i))
          else cat_id (st_conf s) i).
Proof.
  intros [|] r s i L I.
  - apply (handleSave_slot ccitt urlDecode toInt r s i L I).
  - rewrite handleSave_failed. split; reflexivity.
Qed.

End WebFormTheorems.

Lemma X18_form_permissions_are_the_check_boxes_witness :
  permitted (st_conf (handleSave crc16_ccitt (fun v => v) exampleToInt true
                        kitRequest (mkStorage kitConf (st_eeprom healed) [])))
    ENTRY 0 = hasArg kitRequest (key "entry" 0)
  /\ permitted (st_conf (handleSave crc16_ccitt (fun v => v) exampleToInt true
                           kitRequest
                           (mkStorage kitConf (st_eeprom healed) [])))
       EXIT 0 = hasArg kitRequest (key "exit" 0).
Proof.
  apply (X18_form_permissions_are_the_check_boxes crc16_ccitt (fun v => v)
           exampleToInt true kitRequest
           (mkStorage kitConf (st_eeprom healed) []) 0).
  - vm_compute. reflexivity.
  - vm_compute. lia.
Defined.

Lemma X19_form_numbers_are_validated_witness :
  cat_id (st_conf (handleSave crc16_ccitt (fun v => v) exampleToInt true
                     [("id0", "9000")]%string
                     (mkStorage kitConf (st_eeprom healed) []))) 0
  = (if negb (String.length (arg [("id0", "9000")]%string (key "id" 0))
              =? 0)%nat
        && (0 <=? exampleToInt (arg [("id0", "9000")]%string (key "id" 0)))
        && (exampleToInt (arg [("id0", "9000")]%string (key "id" 0))
            <=? 8191)
     then exampleToInt (arg [("id0", "9000")]%string (key "id" 0))
     else cat_id kitConf 0).
Proof.
  apply (X19_form_numbers_are_validated crc16_ccitt (fun v => v)
           exampleToInt true [("id0", "9000")]%string
           (mkStorage kitConf (st_eeprom healed) []) 0).
  - vm_compute. reflexivity.
  - vm_compute. lia.
Defined.

(** ** Card numbers the form cannot register *)

Section CardCeiling.

Variable ccitt : list Z -> Z.
Variable urlDecode : string -> string.
Variable toInt : string -> Z.
Variable macAddress : list Z.

Lemma fromDefaults_ids conf :
  fromDefaults ccitt urlDecode toInt macAddress conf ->
  List.length conf = SIZEOF_CFG
  /\ forall i, (i < CFG_NCATS)%nat -> cat_id conf i <= 8191.
Proof.
  induction 1 as [|[|] r conf ee log F [L IH]];
    [| |rewrite handleSave_failed; split; assumption].
  - split; [now rewrite configSealed_length, configDefault_length|].
    intros i I.
    destruct (configDefault_blank macAddress) as [B _].
    destruct (B i I) as (_ & Z & _).
    assert (S : cat_id (configSealed ccitt (configDefault macAddress)) i
                = cat_id (configDefault macAddress) i).
    { apply slot_members. intros k d K. apply configSealed_nth.
      unfold cat_off, CFG_NCATS, SIZEOF_CAT, OFF_CAT, OFF_CRC in *. lia. }
    rewrite S, Z. lia.
  - split.
    + unfold handleSave, configSave. cbn [st_conf].
      now rewrite configSealed_length, formConf_length.
    + intros i I.
      destruct (handleSave_slot ccitt urlDecode toInt r
                  (mkStorage conf ee log) i L I) as (_ & _ & D).
      rewrite D. cbn [st_conf].
      destruct (numberOk toInt r (key "id" i) 8191) eqn:K.
      * apply numberOk_range in K. lia.
      * now apply IH.
Qed.

(** X20.  Card numbers above 8191 cannot be registered.  In every
    configuration reached from the default record by saving the form,
    no slot matches a credential whose card code is above 8191 (the
    decoder delivers card codes up to 65535), so [checkCard] reports
    such a card as unknown in both directions. *)
Theorem X20_cards_above_8191_are_unknown :
  forall conf dir fc cc w,
    fromDefaults ccitt urlDecode toInt macAddress conf ->
    8191 < cc ->
    (forall i, (i < CFG_NCATS)%nat -> cat_matches conf fc cc i = false)
    /\ fst (checkCard conf dir fc cc w) = -1.
Proof.
  intros conf dir fc cc w F C.
  destruct (fromDefaults_ids conf F) as [_ B].
  assert (N : forall i, (i < CFG_NCATS)%nat ->
                cat_matches conf fc cc i = false).
  { intros i I. unfold cat_matches. specialize (B i I).
    assert (E : (cat_id conf i =? cc) = false) by (apply Z.eqb_neq; lia).
    rewrite E. apply andb_false_r. }
  split; [exact N|].
  rewrite checkCard_unknown; [reflexivity|].
  unfold catNumber. apply (catScan_none conf fc cc CFG_NCATS 0).
  intros k K. apply N. lia.
Qed.

End CardCeiling.

Lemma X20_cards_above_8191_are_unknown_witness :
  fst (checkCard
         (st_conf (handleSave crc16_ccitt (fun v => v) exampleToInt true
                     [("facility0", "10"); ("id0", "9000");
                      ("entry0", "true")]%string
                     (mkStorage
                        (configSealed crc16_ccitt (configDefault exampleMac))
                        erasedEeprom [])))
         ENTRY 10 9000 init) = -1.
Proof.
  apply (X20_cards_above_8191_are_unknown crc16_ccitt (fun v => v)
           exampleToInt exampleMac).
  - apply fromDefaults_save, fromDefaults_default.
  - lia.
Defined.

(** ** A saved form after a reboot *)

Lemma until0_bytes bs : bytes bs -> bytes (until0 bs).
Proof.
  unfold bytes. induction 1 as [|b bs Hb Hbs IH]; cbn [until0].
  - constructor.
  - destruct (b =? 0); constructor; assumption.
Qed.

Lemma firstn_bytes n bs : bytes bs -> bytes (firstn n bs).
Proof.
  unfold bytes. revert bs. induction n as [|n IH]; intros bs H; [constructor|].
  destruct H as [|b bs Hb Hbs]; cbn [firstn]; constructor; auto.
Qed.

Lemma strncpy_bytes m off src n :
  bytes m -> bytes src -> bytes (strncpy m off src n).
Proof.
  intros M S. unfold strncpy. apply wr_bytes; [exact M|].
  apply firstn_bytes, bytes_app; [now apply until0_bytes|apply repeat_bytes].
Qed.

Lemma singleton_bytes z : bytes [u8 z].
Proof. constructor; [apply u8_range | constructor]. Qed.

Section WebFormReboot.

Variable ccitt : list Z -> Z.
Variable urlDecode : string -> string.
Variable toInt : string -> Z.

Lemma saveField_bytes r name off n conf :
  bytes conf -> bytes (saveField urlDecode r name off n conf).
Proof.
  intros B. unfold saveField. destruct (hasArg r name); [|exact B].
  apply strncpy_bytes; [exact B | apply bytes_of_string_bytes].
Qed.

Lemma saveFlag_bytes r name off mask conf :
  bytes conf -> bytes (saveFlag r name off mask conf).
Proof.
  intros B. unfold saveFlag.
  destruct (hasArg r name); apply wr_bytes; try exact B;
    apply singleton_bytes.
Qed.

Lemma saveCat_bytes r i conf :
  bytes conf -> bytes (saveCat urlDecode toInt r i conf).
Proof.
  intros B. unfold saveCat. apply saveFlag_bytes, saveFlag_bytes.
  unfold saveId. destruct (numberOk _ _ _ _);
    [apply wr_bytes; [|apply le16_bytes]|];
    (unfold saveFacility; destruct (numberOk _ _ _ _);
     [apply wr_bytes; [|apply singleton_bytes]|];
     now apply saveField_bytes, saveField_bytes).
Qed.

Lemma saveCats_bytes r n : forall i conf,
  bytes conf -> bytes (saveCats urlDecode toInt r i n conf).
Proof.
  induction n as [|n IH]; intros i conf B; cbn [saveCats]; [exact B|].
  now apply IH, saveCat_bytes.
Qed.

Lemma formConf_bytes r conf :
  bytes conf -> bytes (formConf urlDecode toInt r conf).
Proof.
  intros B. unfold formConf, saveGlobals. apply saveCats_bytes.
  repeat first [apply saveField_bytes | apply saveFlag_bytes]. exact B.
Qed.

Lemma formConf_magic r conf :
  cfg_magic (formConf urlDecode toInt r conf) = cfg_magic conf.
Proof.
  unfold cfg_magic, rd32, rd8, formConf.
  rewrite !(proj2 (saveCats_within _ _ _ _ _ _))
    by (unfold cat_off, OFF_MAGIC, OFF_CAT; lia).
  now rewrite !saveGlobals_outside by (unfold OFF_MAGIC, OFF_HOSTNAME; lia).
Qed.

(** X21.  A saved form survives a reboot: after [handleSave] with a
    buffer from [malloc] on a well-formed record, [configInit] -
    whatever the RAM held - loads exactly the record [handleSave] left
    in memory, and logs nothing.  When [malloc] fails, the record in
    memory and the EEPROM are what they were, so a reboot loads what
    it would have loaded before. *)
Theorem X21_saved_form_survives_reboot :
  forall macAddress r s ram log,
    List.length (st_conf s) = SIZEOF_CFG ->
    bytes (st_conf s) ->
    cfg_magic (st_conf s) = MAGIC ->
    (SIZEOF_CFG <= List.length (st_eeprom s))%nat ->
    configInit ccitt macAddress
      (mkStorage ram
         (st_eeprom (handleSave ccitt urlDecode toInt true r s)) log)
    = mkStorage (st_conf (handleSave ccitt urlDecode toInt true r s))
        (st_eeprom (handleSave ccitt urlDecode toInt true r s)) log
    /\ st_conf (handleSave ccitt urlDecode toInt false r s) = st_conf s
    /\ st_eeprom (handleSave ccitt urlDecode toInt false r s) = st_eeprom s.
Proof.
  intros mac r s ram log L B M E.
  split; [|split; reflexivity].
  unfold handleSave.
  set (s' := mkStorage (formConf urlDecode toInt r (st_conf s))
               (st_eeprom s) (st_log s)).
  assert (L' : List.length (st_conf s') = SIZEOF_CFG)
    by (unfold s'; cbn [st_conf]; now rewrite formConf_length).
  assert (B' : bytes (st_conf s'))
    by (unfold s'; cbn [st_conf]; now apply formConf_bytes).
  assert (M' : cfg_magic (st_conf s') = MAGIC)
    by (unfold s'; cbn [st_conf]; now rewrite formConf_magic).
  rewrite configInit_valid; cbn [st_conf st_eeprom st_log].
  - now rewrite (configSave_load ccitt s' L' B' E).
  - rewrite (configSave_load ccitt s' L' B' E).
    now apply configSave_valid.
Qed.

(** X22.  A card registered through the form is recognised.  If
    [malloc] gave [handleSave] its buffer, the request gives slot [i] a
    valid facility code [fc] and card code [cc], and no earlier slot of
    the saved record matches ([fc], [cc]), then [checkCard] on the
    saved record permits the card in a direction exactly when the
    request carried the box of that direction, and denies it otherwise;
    it adds nothing to the log. *)
Theorem X22_registered_card_is_recognised :
  forall r s i fc cc w,
    List.length (st_conf s) = SIZEOF_CFG ->
    (i < CFG_NCATS)%nat ->
    numberOk toInt r (key "facility" i) 255 = true ->
    toInt (arg r (key "facility" i)) = fc ->
    numberOk toInt r (key "id" i) 8191 = true ->
    toInt (arg r (key "id" i)) = cc ->
    (forall j, (j < i)%nat ->
       cat_matches (st_conf (handleSave ccitt urlDecode toInt true r s))
         fc cc j = false) ->
    checkCard (st_conf (handleSave ccitt urlDecode toInt true r s))
      ENTRY fc cc w
      = (if hasArg r (key "entry" i) then 1 else 0, w)
    /\ checkCard (st_conf (handleSave ccitt urlDecode toInt true r s))
         EXIT fc cc w
       = (if hasArg r (key "exit" i) then 1 else 0, w).
Proof.
  intros r s i fc cc w L I KF F KI C N.
  destruct (handleSave_slot ccitt urlDecode toInt r s i L I)
    as ((PE & PX) & SF & SI).
  rewrite KF, F in SF. rewrite KI, C in SI.
  set (conf' := st_conf (handleSave ccitt urlDecode toInt true r s)) in *.
  assert (M : cat_matches conf' fc cc i = true)
    by (unfold cat_matches; now rewrite SF, SI, !Z.eqb_refl).
  assert (S : catNumber conf' fc cc = i).
  { unfold catNumber. apply catScan_first; [lia|exact M|].
    intros j J. apply N. lia. }
  rewrite !checkCard_known by (rewrite S; exact I).
  now rewrite S, PE, PX.
Qed.

End WebFormReboot.

Lemma X21_saved_form_survives_reboot_witness :
  configInit crc16_ccitt exampleMac
    (mkStorage []
       (st_eeprom (handleSave crc16_ccitt (fun v => v) exampleToInt true
                     kitRequest (mkStorage kitConf (st_eeprom healed) [])))
       [])
  = mkStorage
      (st_conf (handleSave crc16_ccitt (fun v => v) exampleToInt true
                  kitRequest (mkStorage kitConf (st_eeprom healed) [])))
      (st_eeprom (handleSave crc16_ccitt (fun v => v) exampleToInt true
                    kitRequest (mkStorage kitConf (st_eeprom healed) [])))
      [].
Proof.
  apply (fun L B M E =>
           proj1 (X21_saved_form_survives_reboot crc16_ccitt (fun v => v)
                    exampleToInt exampleMac kitRequest
                    (mkStorage kitConf (st_eeprom healed) []) [] []
                    L B M E)).
  - vm_compute. reflexivity.
  - apply bytesb_bytes. vm_compute. reflexivity.
  - vm_compute. reflexivity.
  - vm_compute. lia.
Defined.

Lemma X22_registered_card_is_recognised_witness :
  checkCard
    (st_conf (handleSave crc16_ccitt (fun v => v) exampleToInt true kitRequest
                (mkStorage (st_conf healed) (st_eeprom healed) [])))
    ENTRY 10 400 init
  = (if hasArg kitRequest (key "entry" 2) then 1 else 0, init).
Proof.
  apply (X22_registered_card_is_recognised crc16_ccitt (fun v => v)
           exampleToInt kitRequest
           (mkStorage (st_conf healed) (st_eeprom healed) []) 2 10 400 init).
  - vm_compute. reflexivity.
  - vm_compute. lia.
  - vm_compute. reflexivity.
  - vm_compute. reflexivity.
  - vm_compute. reflexivity.
  - vm_compute. reflexivity.
  - intros j J.
    assert (C : j = 0%nat \/ j = 1%nat) by lia.
    destruct C as [-> | ->]; vm_compute; reflexivity.
Defined.

(** ** Names that fill their field *)

Lemma cstr_until0 m : forall rest, cstr (until0 m ++ 0 :: rest) = cstr m.
Proof.
  induction m as [|b m IH]; intros rest; cbn [until0 cstr app].
  - reflexivity.
  - destruct (b =? 0) eqn:E; cbn [cstr app]; rewrite ?E; [reflexivity|].
    now rewrite IH.
Qed.

Lemma until0_nonzero m : Forall (fun b => b <> 0) (until0 m).
Proof.
  induction m as [|b m IH]; cbn [until0]; [constructor|].
  destruct (Z.eqb_spec b 0); constructor; assumption.
Qed.

Lemma cstr_app a b :
  Forall (fun x => x <> 0) a -> cstr (a ++ b) = (cstr (a ++ [0]) ++ cstr b)%string.
Proof.
  induction 1 as [|x a Hx Ha IH]; cbn [app cstr].
  - reflexivity.
  - apply Z.eqb_neq in Hx. rewrite Hx. cbn [String.append]. now rewrite IH.
Qed.

Lemma cstr_nonzero_length a :
  Forall (fun x => x <> 0) a ->
  String.length (cstr (a ++ [0])) = List.length a.
Proof.
  induction 1 as [|x a Hx Ha IH]; cbn [app cstr]; [reflexivity|].
  apply Z.eqb_neq in Hx. rewrite Hx. cbn [String.length List.length].
  now rewrite IH.
Qed.

Lemma firstn_nonzero n a :
  Forall (fun x => x <> 0) a -> Forall (fun x : Z => x <> 0) (firstn n a).
Proof.
  revert a. induction n as [|n IH]; intros a H; [constructor|].
  destruct H as [|x a Hx Ha]; cbn [firstn]; constructor; auto.
Qed.

(** The bytes of a field after [strncpy], by the length of the source
    string. *)
Lemma strncpy_short body n :
  (List.length body < n)%nat ->
  exists rest, firstn n (body ++ repeat 0 n) = body ++ 0 :: rest.
Proof.
  intros L. rewrite firstn_app, firstn_all2 by lia.
  destruct n as [|n]; [lia|].
  replace (S n - List.length body)%nat with (S (n - List.length body))
    by lia.
  cbn [repeat firstn]. eauto.
Qed.

Lemma strncpy_long body n :
  (n <= List.length body)%nat ->
  firstn n (body ++ repeat 0 n) = firstn n body.
Proof.
  intros L. rewrite firstn_app.
  replace (n - List.length body)%nat with 0%nat by lia.
  cbn [firstn]. apply app_nil_r.
Qed.

(** A string is read from the bytes up to its first NUL. *)
Lemma cstr_ext n : forall m m',
  (forall k, (k < n)%nat -> nth k m 0 = nth k m' 0) ->
  (exists j, (j < n)%nat /\ nth j m 0 = 0) ->
  cstr m = cstr m'.
Proof.
  induction n as [|n IH]; intros m m' H (j & J & Z0); [lia|].
  pose proof (H 0%nat ltac:(lia)) as H0.
  destruct m as [|b m], m' as [|b' m']; cbn [nth] in H0; cbn [cstr].
  - reflexivity.
  - subst b'. reflexivity.
  - subst b. reflexivity.
  - subst b'. destruct (Z.eqb_spec b 0) as [E|E]; [reflexivity|].
    f_equal. apply IH.
    + intros k K. apply (H (S k)). lia.
    + destruct j as [|j]; [cbn [nth] in Z0; contradiction|].
      exists j. split; [lia|exact Z0].
Qed.

Lemma bytes_of_string_cons a v :
  bytes_of_string (String a v) = Z.of_N (N_of_ascii a) :: bytes_of_string v.
Proof. reflexivity. Qed.

Lemma noNul_until0 v : noNul v = true -> until0 (bytes_of_string v) = bytes_of_string v.
Proof.
  unfold noNul. induction v as [|a v IH]; [reflexivity|].
  rewrite bytes_of_string_cons. cbn [forallb until0]. intros H.
  apply andb_prop in H. destruct H as [A H].
  apply negb_true_iff in A. rewrite A. now rewrite IH.
Qed.

Lemma bytes_of_string_length v :
  List.length (bytes_of_string v) = String.length v.
Proof.
  induction v as [|a v IH]; [reflexivity|].
  rewrite bytes_of_string_cons. cbn [List.length String.length]. now rewrite IH.
Qed.

Lemma cstr_substring v : forall n,
  noNul v = true ->
  cstr (firstn n (bytes_of_string v) ++ [0]) = substring 0 n v.
Proof.
  unfold noNul. induction v as [|a v IH]; intros n H.
  - destruct n; reflexivity.
  - rewrite bytes_of_string_cons in *. cbn [forallb] in H.
    apply andb_prop in H. destruct H as [A H]. apply negb_true_iff in A.
    destruct n as [|n]; [reflexivity|].
    cbn [firstn app cstr substring]. rewrite A, N2Z.id, ascii_N_embedding.
    now rewrite IH.
Qed.

Lemma cstr_bytes_of_string v :
  noNul v = true -> cstr (bytes_of_string v) = v.
Proof.
  unfold noNul. induction v as [|a v IH]; intros H; [reflexivity|].
  rewrite bytes_of_string_cons in *. cbn [forallb] in H.
  apply andb_prop in H. destruct H as [A H]. apply negb_true_iff in A.
  cbn [cstr]. rewrite A, N2Z.id, ascii_N_embedding. now rewrite IH.
Qed.

Section WebFormNames.

Variable ccitt : list Z -> Z.
Variable urlDecode : string -> string.
Variable toInt : string -> Z.

Lemma handleSave_region r s i :
  List.length (st_conf s) = SIZEOF_CFG ->
  (i < CFG_NCATS)%nat ->
  exists before,
    List.length before = SIZEOF_CFG
    /\ forall k d, (cat_off i <= k < cat_off (S i))%nat ->
         nth k (st_conf (handleSave ccitt urlDecode toInt true r s)) d
         = nth k (saveCat urlDecode toInt r i before) d.
Proof.
  intros L I.
  destruct (formConf_slot urlDecode toInt r (st_conf s) i I)
    as (before & Lb & _ & A).
  exists before. split; [congruence|].
  intros k d K. unfold handleSave, configSave. cbn [st_conf].
  rewrite configSealed_nth; [now apply A|].
  unfold cat_off, CFG_NCATS, SIZEOF_CAT, OFF_CAT, OFF_CRC in *. lia.
Qed.

Lemma handleSave_name_bytes r s i k :
  List.length (st_conf s) = SIZEOF_CFG ->
  (i < CFG_NCATS)%nat ->
  hasArg r (key "catname" i) = true ->
  (k < 20)%nat ->
  nth k (skipn (cat_off i + CAT_NAME)
           (st_conf (handleSave ccitt urlDecode toInt true r s))) 0
  = nth k (firstn 20
             (until0 (bytes_of_string (urlDecode (arg r (key "catname" i))))
              ++ repeat 0 20)) 0.
Proof.
  intros L I H K.
  destruct (handleSave_region r s i L I) as (before & Lb & A).
  rewrite nth_skipn.
  rewrite A by (unfold cat_off, CAT_NAME, SIZEOF_CAT in *; lia).
  unfold saveCat.
  rewrite !(proj2 (saveFlag_within _ _ _ _ _))
    by (unfold CAT_FLAGS, CAT_NAME; lia).
  rewrite (proj2 (saveId_within _ _ _ _))
    by (unfold CAT_ID, CAT_NAME; lia).
  rewrite (proj2 (saveFacility_within _ _ _ _))
    by (unfold CAT_FACILITY, CAT_NAME; lia).
  rewrite (proj2 (saveField_within _ _ _ _ _ _))
    by (unfold CAT_TOPIC, CAT_NAME; lia).
  unfold saveField. rewrite H. unfold strncpy.
  rewrite wr_nth_inside.
  - f_equal. lia.
  - rewrite length_firstn, length_app, repeat_length. lia.
  - rewrite Lb. unfold cat_off, CAT_NAME, SIZEOF_CAT, OFF_CAT, SIZEOF_CFG,
      CFG_NCATS in *. lia.
Qed.

(** X23.  Names and their terminator, when [malloc] gave
    [handleSave] its buffer.  A submitted name (without NUL characters)
    shorter than the 20-byte name member is stored and read back
    unchanged.  A name of 20 characters or more is cut to 20 and stored
    without a terminating NUL: reading the name of the slot then gives
    those 20 characters followed by the topic string of the slot, which
    lies next to it in the record. *)
Theorem X23_name_without_terminator :
  forall r s i,
    List.length (st_conf s) = SIZEOF_CFG ->
    (i < CFG_NCATS)%nat ->
    hasArg r (key "catname" i) = true ->
    noNul (urlDecode (arg r (key "catname" i))) = true ->
    ((String.length (urlDecode (arg r (key "catname" i))) < 20)%nat ->
     cat_name (st_conf (handleSave ccitt urlDecode toInt true r s)) i
       = urlDecode (arg r (key "catname" i)))
    /\ ((20 <= String.length (urlDecode (arg r (key "catname" i))))%nat ->
        cat_name (st_conf (handleSave ccitt urlDecode toInt true r s)) i
          = (substring 0 20 (urlDecode (arg r (key "catname" i)))
             ++ cat_topic
                  (st_conf (handleSave ccitt urlDecode toInt true r s)) i
            )%string).
Proof.
  intros r s i L I H N.
  set (v := urlDecode (arg r (key "catname" i))) in *.
  set (conf' := st_conf (handleSave ccitt urlDecode toInt true r s)).
  pose proof (fun k => handleSave_name_bytes r s i k L I H) as B.
  fold v conf' in B. rewrite (noNul_until0 v N) in B.
  split; intros Len.
  - unfold cat_name.
    destruct (strncpy_short (bytes_of_string v) 20) as (rest & E);
      [now rewrite bytes_of_string_length|].
    rewrite E in B.
    rewrite (cstr_ext 20 _ (bytes_of_string v ++ 0 :: rest)).
    + rewrite <- (noNul_until0 v N) at 1. rewrite cstr_until0.
      now apply cstr_bytes_of_string.
    + exact B.
    + exists (String.length v). split; [exact Len|].
      rewrite B by exact Len.
      rewrite app_nth2 by (rewrite bytes_of_string_length; lia).
      now rewrite bytes_of_string_length, Nat.sub_diag.
  - unfold cat_name.
    rewrite strncpy_long in B by now rewrite bytes_of_string_length.
    assert (F : firstn 20 (skipn (cat_off i + CAT_NAME) conf')
                = firstn 20 (bytes_of_string v)).
    { assert (Lc : List.length conf' = SIZEOF_CFG).
      { unfold conf', handleSave, configSave. cbn [st_conf].
        now rewrite configSealed_length, formConf_length. }
      apply (nth_ext _ _ 0 0).
      - rewrite !length_firstn, length_skipn, Lc, bytes_of_string_length.
        unfold cat_off, CAT_NAME, SIZEOF_CAT, OFF_CAT, SIZEOF_CFG,
          CFG_NCATS in *. lia.
      - intros k K. rewrite length_firstn in K.
        rewrite nth_firstn.
        assert (K20 : (k <? 20)%nat = true) by (apply Nat.ltb_lt; lia).
        rewrite K20. apply B. lia. }
    rewrite <- (firstn_skipn 20 (skipn (cat_off i + CAT_NAME) conf')).
    rewrite F, skipn_skipn.
    rewrite cstr_app.
    + rewrite (cstr_substring v 20 N). f_equal. unfold cat_topic.
      f_equal. f_equal. unfold CAT_NAME, CAT_TOPIC. lia.
    + apply firstn_nonzero. rewrite <- (noNul_until0 v N).
      apply until0_nonzero.
Qed.

End WebFormNames.

Lemma X23_name_without_terminator_witness :
  cat_name (st_conf (handleSave crc16_ccitt (fun v => v) exampleToInt true
                       longNameRequest
                       (mkStorage kitConf (st_eeprom healed) []))) 0
  = (substring 0 20 (arg longNameRequest (key "catname" 0))
     ++ cat_topic
          (st_conf (handleSave crc16_ccitt (fun v => v) exampleToInt true
                      longNameRequest
                      (mkStorage kitConf (st_eeprom healed) []))) 0
    )%string.
Proof.
  apply (X23_name_without_terminator crc16_ccitt (fun v => v) exampleToInt
           longNameRequest (mkStorage kitConf (st_eeprom healed) []) 0).
  - vm_compute. reflexivity.
  - vm_compute. lia.
  - vm_compute. reflexivity.
  - vm_compute. reflexivity.
  - vm_compute. lia.
Defined.

(** ** The uptime line *)

(** X24.  The uptime line of the status page is a faithful split of
    the time since boot: while that time is not negative and fits an
    [int], the days, hours, minutes and seconds printed add up to it,
    with hours below 24 and minutes and seconds below 60. *)
Theorem X24_uptime_line :
  forall t bootTime,
    0 <= t - bootTime < 2^31 ->
    exists d h m s,
      uptime t bootTime = (d, h, m, s)
      /\ d * 86400 + h * 3600 + m * 60 + s = t - bootTime
      /\ 0 <= d /\ 0 <= h < 24 /\ 0 <= m < 60 /\ 0 <= s < 60.
Proof.
  intros t b R. unfold uptime.
  assert (S : s32 (t - b) = t - b).
  { unfold s32. rewrite Z.mod_small by lia. lia. }
  rewrite S. set (x := t - b) in *.
  assert (P1 : 0 <= x / 60) by (apply Z.div_pos; lia).
  assert (P2 : 0 <= x / 60 / 60) by (apply Z.div_pos; lia).
  assert (P3 : 0 <= x / 60 / 60 / 24) by (apply Z.div_pos; lia).
  rewrite (Z.quot_div_nonneg x 86400), (Z.quot_div_nonneg x 60) by lia.
  rewrite (Z.quot_div_nonneg (x / 60) 60) by lia.
  rewrite !Z.rem_mod_nonneg by lia.
  do 4 eexists. split; [reflexivity|].
  pose proof (Z.div_mod x 60 ltac:(lia)).
  pose proof (Z.div_mod (x / 60) 60 ltac:(lia)).
  pose proof (Z.div_mod (x / 60 / 60) 24 ltac:(lia)).
  pose proof (Z.mod_pos_bound x 60 ltac:(lia)).
  pose proof (Z.mod_pos_bound (x / 60) 60 ltac:(lia)).
  pose proof (Z.mod_pos_bound (x / 60 / 60) 24 ltac:(lia)).
  assert (D : x / 86400 = x / 60 / 60 / 24)
    by (rewrite !Z.div_div by lia; reflexivity).
  rewrite D. lia.
Qed.

Lemma X24_uptime_line_witness :
  exists d h m s,
    uptime 1700100000 1700000000 = (d, h, m, s)
    /\ d * 86400 + h * 3600 + m * 60 + s = 1700100000 - 1700000000
    /\ 0 <= d /\ 0 <= h < 24 /\ 0 <= m < 60 /\ 0 <= s < 60.
Proof. apply X24_uptime_line. lia. Defined.

(** ** The presence table after a passage *)

Lemma test_bit x j : 0 <= j -> test x (Z.shiftl 1 j) = Z.testbit x j.
Proof.
  intros J. unfold test. rewrite Z.shiftl_1_l.
  destruct (Z.testbit x j) eqn:B.
  - assert (E : Z.land x (2^j) = 2^j).
    { apply Z.bits_inj'. intros k K. rewrite Z.land_spec, Z.pow2_bits_eqb by lia.
      destruct (Z.eqb_spec j k) as [->|N]; [now rewrite B | apply andb_false_r]. }
    rewrite E.
    assert (P : 0 < 2^j) by (apply Z.pow_pos_nonneg; lia).
    destruct (Z.eqb_spec (2^j) 0); [lia|reflexivity].
  - assert (E : Z.land x (2^j) = 0).
    { apply Z.bits_inj'. intros k K.
      rewrite Z.land_spec, Z.pow2_bits_eqb, Z.bits_0 by lia.
      destruct (Z.eqb_spec j k) as [->|N]; [now rewrite B | apply andb_false_r]. }
    now rewrite E.
Qed.

Lemma u8_testbit x j : 0 <= j < 8 -> Z.testbit (u8 x) j = Z.testbit x j.
Proof. intros J. unfold u8. apply Z.mod_pow2_bits_low. lia. Qed.

Lemma ledger_bit_set x i j :
  (i < 8)%nat -> (j < 8)%nat ->
  test (u8 (Z.lor x (Z.shiftl 1 (Z.of_nat i)))) (Z.shiftl 1 (Z.of_nat j))
  = (j =? i)%nat || test x (Z.shiftl 1 (Z.of_nat j)).
Proof.
  intros I J. rewrite !test_bit, u8_testbit by lia.
  rewrite Z.lor_spec, Z.shiftl_1_l, Z.pow2_bits_eqb by lia.
  rewrite orb_comm. f_equal.
  destruct (Nat.eqb_spec j i) as [->|N]; [apply Z.eqb_refl|].
  apply Z.eqb_neq. lia.
Qed.

Lemma ledger_bit_clear x i j :
  (i < 8)%nat -> (j < 8)%nat ->
  test (u8 (Z.land x (Z.lnot (Z.shiftl 1 (Z.of_nat i)))))
    (Z.shiftl 1 (Z.of_nat j))
  = negb (j =? i)%nat && test x (Z.shiftl 1 (Z.of_nat j)).
Proof.
  intros I J. rewrite !test_bit, u8_testbit by lia.
  rewrite Z.land_spec, Z.lnot_spec, Z.shiftl_1_l, Z.pow2_bits_eqb by lia.
  rewrite andb_comm. f_equal. f_equal.
  destruct (Nat.eqb_spec j i) as [->|N]; [apply Z.eqb_refl|].
  apply Z.eqb_neq. lia.
Qed.

Lemma ntfy_ledger_fields conf t g p m w :
  catInOut (ntfy conf t g p m w) = catInOut w
  /\ catTime (ntfy conf t g p m w) = catTime w.
Proof. now rewrite ntfy_world. Qed.

Lemma entryAnnounce_ledger conf e fc cc w :
  (catNumber conf fc cc < CFG_NCATS)%nat ->
  ledger (entryAnnounce conf e fc cc w) =
    if announced w fc cc
    then (u8 (Z.lor (catInOut w)
                (Z.shiftl 1 (Z.of_nat (catNumber conf fc cc)))),
          upd (catTime w) (catNumber conf fc cc) (time_NULL e 306))
    else ledger w.
Proof.
  intros L. unfold entryAnnounce, announced.
  destruct (_ && _); [|reflexivity]. cbv zeta.
  apply Nat.ltb_lt in L. rewrite L.
  destruct (ntfy_ledger_fields conf (catTopic conf fc cc) "unlock,arrow_left"
              3 (MsgEntry (catName conf fc cc)) w) as [A B].
  unfold ledger. fields. now rewrite A, B.
Qed.

Lemma exitAnnounce_ledger conf e fc cc w :
  (catNumber conf fc cc < CFG_NCATS)%nat ->
  ledger (exitAnnounce conf e fc cc w) =
    if announced w fc cc
    then (u8 (Z.land (catInOut w)
                (Z.lnot (Z.shiftl 1 (Z.of_nat (catNumber conf fc cc))))),
          upd (catTime w) (catNumber conf fc cc) (time_NULL e 336))
    else ledger w.
Proof.
  intros L. unfold exitAnnounce, announced.
  destruct (_ && _); [|reflexivity]. cbv zeta.
  apply Nat.ltb_lt in L. rewrite L.
  destruct (ntfy_ledger_fields conf (catTopic conf fc cc) "arrow_right,unlock"
              3 (MsgExit (catName conf fc cc)) w) as [A B].
  unfold ledger. fields. now rewrite A, B.
Qed.

Lemma entryFrame_ledger conf e w :
  test (state w) STATE_ENTRY_WEIGAND_DONE = true ->
  entryAdmits conf w = true ->
  ledger (entryFrame conf e w) =
    if announced w (fst (decoded (entryDataBits w)))
         (snd (decoded (entryDataBits w)))
    then (u8 (Z.lor (catInOut w)
                (Z.shiftl 1
                   (Z.of_nat (catNumber conf (fst (decoded (entryDataBits w)))
                                (snd (decoded (entryDataBits w))))))),
          upd (catTime w)
            (catNumber conf (fst (decoded (entryDataBits w)))
               (snd (decoded (entryDataBits w))))
            (time_NULL e 306))
    else ledger w.
Proof.
  intros D A. destruct (entryAdmits_inv _ _ A) as (C & X & L & P).
  rewrite (entryFrame_26 _ _ _ D C X).
  rewrite (proj2 (proj2 (proj2 (entryFrameEnd_sides _)))).
  rewrite (entryDecide_permitted _ _ _ _ _ L P).
  transitivity (ledger (entryAnnounce conf e (fst (decoded (entryDataBits w)))
     (snd (decoded (entryDataBits w)))
     (set_entryCloseAt (time_NULL e 301 + DOOR_TIMEOUT_DEFAULT)
        (entryUnlock (set_locals (fst (decoded (entryDataBits w)))
                        (snd (decoded (entryDataBits w))) w)))));
    [reflexivity|].
  now rewrite (entryAnnounce_ledger _ _ _ _ _ L).
Qed.

Lemma exitFrame_ledger conf e w :
  test (state w) STATE_EXIT_WEIGAND_DONE = true ->
  exitAdmits conf w = true ->
  ledger (exitFrame conf e w) =
    if announced w (fst (decoded (exitDataBits w)))
         (snd (decoded (exitDataBits w)))
    then (u8 (Z.land (catInOut w)
                (Z.lnot
                   (Z.shiftl 1
                      (Z.of_nat
                         (catNumber conf (fst (decoded (exitDataBits w)))
                            (snd (decoded (exitDataBits w)))))))),
          upd (catTime w)
            (catNumber conf (fst (decoded (exitDataBits w)))
               (snd (decoded (exitDataBits w))))
            (time_NULL e 336))
    else ledger w.
Proof.
  intros D A. destruct (exitAdmits_inv _ _ A) as (C & X & L & P).
  rewrite (exitFrame_26 _ _ _ D C X).
  rewrite (proj2 (proj2 (proj2 (exitFrameEnd_sides _)))).
  rewrite (exitDecide_permitted _ _ _ _ _ L P).
  transitivity (ledger (exitAnnounce conf e (fst (decoded (exitDataBits w)))
     (snd (decoded (exitDataBits w)))
     (set_exitCloseAt (time_NULL e 331 + DOOR_TIMEOUT_DEFAULT)
        (exitUnlock (set_locals (fst (decoded (exitDataBits w)))
                       (snd (decoded (exitDataBits w))) w)))));
    [reflexivity|].
  now rewrite (exitAnnounce_ledger _ _ _ _ _ L).
Qed.

Lemma statusRow_ledger conf w w' j :
  ledger w' = ledger w -> statusRow conf w' j = statusRow conf w j.
Proof.
  unfold ledger, statusRow. intros H.
  apply pair_equal_spec in H. destruct H as [A B]. now rewrite A, B.
Qed.

Lemma statusRow_entered conf w w' i t j :
  ledger w' = (u8 (Z.lor (catInOut w) (Z.shiftl 1 (Z.of_nat i))),
               upd (catTime w) i t) ->
  (i < CFG_NCATS)%nat -> (j < CFG_NCATS)%nat ->
  List.length (catTime w) = CFG_NCATS -> t <> 0 ->
  statusRow conf w' j =
    if (j =? i)%nat then Some (cat_name conf i, true, t)
    else statusRow conf w j.
Proof.
  unfold ledger, statusRow. intros H I J L T.
  apply pair_equal_spec in H. destruct H as [A B]. rewrite A, B.
  rewrite upd_nth, L, ledger_bit_set by (unfold CFG_NCATS in *; lia).
  assert (Jl : (j <? CFG_NCATS)%nat = true) by now apply Nat.ltb_lt.
  rewrite Jl, andb_true_r.
  destruct (Nat.eqb_spec j i) as [->|N]; [|reflexivity].
  apply Z.eqb_neq in T. now rewrite T.
Qed.

Lemma statusRow_left conf w w' i t j :
  ledger w' = (u8 (Z.land (catInOut w) (Z.lnot (Z.shiftl 1 (Z.of_nat i)))),
               upd (catTime w) i t) ->
  (i < CFG_NCATS)%nat -> (j < CFG_NCATS)%nat ->
  List.length (catTime w) = CFG_NCATS -> t <> 0 ->
  statusRow conf w' j =
    if (j =? i)%nat then Some (cat_name conf i, false, t)
    else statusRow conf w j.
Proof.
  unfold ledger, statusRow. intros H I J L T.
  apply pair_equal_spec in H. destruct H as [A B]. rewrite A, B.
  rewrite upd_nth, L, ledger_bit_clear by (unfold CFG_NCATS in *; lia).
  assert (Jl : (j <? CFG_NCATS)%nat = true) by now apply Nat.ltb_lt.
  rewrite Jl, andb_true_r.
  destruct (Nat.eqb_spec j i) as [->|N]; [|reflexivity].
  apply Z.eqb_neq in T. now rewrite T.
Qed.

(** X25.  The presence table follows the door.  When an admitted
    frame is processed at a non-zero clock and is announced (both
    fields of its credential differ from the memo), the row of the
    slot that decided - the first slot matching the credential - shows
    the cat "In" after an entry and "Out" after an exit, with the clock
    read at line 306 or 336 as its time; every other row, and every row
    when the frame is not announced, is what it was. *)
Theorem X25_status_page_follows_the_door :
  forall conf e w j,
    List.length (catTime w) = CFG_NCATS ->
    (j < CFG_NCATS)%nat ->
    (test (state w) STATE_ENTRY_WEIGAND_DONE = true ->
     entryAdmits conf w = true ->
     time_NULL e 306 <> 0 ->
     statusRow conf (entryFrame conf e w) j =
       if announced w (fst (decoded (entryDataBits w)))
            (snd (decoded (entryDataBits w)))
          && (j =? catNumber conf (fst (decoded (entryDataBits w)))
                     (snd (decoded (entryDataBits w))))%nat
       then Some (cat_name conf j, true, time_NULL e 306)
       else statusRow conf w j)
    /\ (test (state w) STATE_EXIT_WEIGAND_DONE = true ->
        exitAdmits conf w = true ->
        time_NULL e 336 <> 0 ->
        statusRow conf (exitFrame conf e w) j =
          if announced w (fst (decoded (exitDataBits w)))
               (snd (decoded (exitDataBits w)))
             && (j =? catNumber conf (fst (decoded (exitDataBits w)))
                        (snd (decoded (exitDataBits w))))%nat
          then Some (cat_name conf j, false, time_NULL e 336)
          else statusRow conf w j).
Proof.
  intros conf e w j L J. split; intros D A T.
  - pose proof (entryFrame_ledger conf e w D A) as G.
    destruct (entryAdmits_inv _ _ A) as (_ & _ & I & _).
    destruct (announced w _ _); cbn [andb].
    + rewrite (statusRow_entered conf w _ _ _ j G I J L T).
      match goal with
      | |- context [(j =? ?i)%nat] =>
          now destruct (Nat.eqb_spec j i) as [->|N]
      end.
    + now apply statusRow_ledger.
  - pose proof (exitFrame_ledger conf e w D A) as G.
    destruct (exitAdmits_inv _ _ A) as (_ & _ & I & _).
    destruct (announced w _ _); cbn [andb].
    + rewrite (statusRow_left conf w _ _ _ j G I J L T).
      match goal with
      | |- context [(j =? ?i)%nat] =>
          now destruct (Nat.eqb_spec j i) as [->|N]
      end.
    + now apply statusRow_ledger.
Qed.

Lemma X25_status_page_follows_the_door_witness :
  statusRow exampleConf
    (entryFrame exampleConf (constEnv 1020 100 0)
       (pollDeadlines (constEnv 1020 100 0) kitAtEntry)) 2
  = Some ("Kit"%string, true, 100).
Proof.
  apply (proj1 (X25_status_page_follows_the_door exampleConf
                  (constEnv 1020 100 0)
                  (pollDeadlines (constEnv 1020 100 0) kitAtEntry) 2
                  eq_refl ltac:(vm_compute; lia)));
    vm_compute; try reflexivity; discriminate.
Defined.

(** ** The default record and the credential (0, 0) *)

Lemma blank_matches conf i fc cc :
  cat_facility conf i = 0 -> cat_id conf i = 0 ->
  cat_matches conf fc cc i = (fc =? 0) && (cc =? 0).
Proof.
  intros F I. unfold cat_matches. rewrite F, I.
  now rewrite (Z.eqb_sym 0 fc), (Z.eqb_sym 0 cc).
Qed.

Lemma cstr_wr_after m off bs :
  (0 < off)%nat -> cstr m = EmptyString -> cstr (wr m off bs) = EmptyString.
Proof.
  intros O E. destruct m as [|x m]; [reflexivity|].
  destruct off as [|off]; [lia|]. cbn [wr cstr] in *.
  now destruct (x =? 0).
Qed.

Lemma configSealed_blank ccitt macAddress i :
  (i < CFG_NCATS)%nat ->
  cat_facility (configSealed ccitt (configDefault macAddress)) i = 0
  /\ cat_id (configSealed ccitt (configDefault macAddress)) i = 0
  /\ cat_flags (configSealed ccitt (configDefault macAddress)) i = 0
  /\ cat_name (configSealed ccitt (configDefault macAddress)) i = EmptyString.
Proof.
  intros I. destruct (configDefault_blank macAddress) as [B _].
  destruct (B i I) as (F & D & Fl & Nm & _).
  assert (R : (cat_off (S i) <= OFF_CRC)%nat)
    by (unfold cat_off, CFG_NCATS, SIZEOF_CAT, OFF_CAT, OFF_CRC in *; lia).
  destruct (slot_members (configDefault macAddress)
              (configSealed ccitt (configDefault macAddress)) i)
    as (F' & D' & Fl').
  { intros k d K. apply configSealed_nth. lia. }
  rewrite F', D', Fl'. repeat split; try assumption.
  unfold cat_name, configSealed. rewrite wr_skipn_below.
  - apply cstr_wr_after; [|exact Nm].
    unfold cat_off, CAT_NAME, SIZEOF_CAT in *. lia.
  - unfold cat_off, CAT_NAME, SIZEOF_CAT in *. lia.
Qed.

(** X26.  With the default record, the credential (0, 0) is not
    unknown: the blank slots have facility 0 and card 0, so a card that
    decodes to (0, 0) matches slot 0 and is denied, under the empty
    name, in both directions; every other credential is unknown. *)
Theorem X26_blank_slots_match_credential_zero :
  forall ccitt macAddress dir fc cc w,
    checkCard (configSealed ccitt (configDefault macAddress)) dir 0 0 w
      = (0, w)
    /\ catName (configSealed ccitt (configDefault macAddress)) 0 0
       = EmptyString
    /\ ((fc, cc) <> (0, 0) ->
        fst (checkCard (configSealed ccitt (configDefault macAddress))
               dir fc cc w) = -1).
Proof.
  intros ccitt mac dir fc cc w.
  set (conf := configSealed ccitt (configDefault mac)).
  pose proof (configSealed_blank ccitt mac) as B. fold conf in B.
  assert (M : forall i fc' cc', (i < CFG_NCATS)%nat ->
            cat_matches conf fc' cc' i = (fc' =? 0) && (cc' =? 0)).
  { intros i fc' cc' I. destruct (B i I) as (F & D & _).
    now apply blank_matches. }
  assert (S0 : catNumber conf 0 0 = 0%nat).
  { unfold catNumber. apply catScan_first.
    - unfold CFG_NCATS. lia.
    - rewrite M by (unfold CFG_NCATS; lia). reflexivity.
    - intros j J. lia. }
  destruct (B 0%nat ltac:(unfold CFG_NCATS; lia)) as (_ & _ & Fl & Nm).
  split; [|split].
  - rewrite checkCard_known by (rewrite S0; unfold CFG_NCATS; lia).
    rewrite S0. unfold permitted. rewrite Fl. now destruct dir.
  - unfold catName. rewrite S0. exact Nm.
  - intros N. rewrite checkCard_unknown; [reflexivity|].
    unfold catNumber. apply (catScan_none _ fc cc CFG_NCATS 0).
    intros k K. rewrite M by lia.
    destruct (Z.eqb_spec fc 0) as [->|]; [|reflexivity].
    destruct (Z.eqb_spec cc 0) as [->|]; [|reflexivity].
    now contradiction N.
Qed.

Lemma X26_blank_slots_match_credential_zero_witness :
  checkCard (configSealed crc16_ccitt (configDefault exampleMac)) ENTRY 0 0
    init = (0, init)
  /\ fst (checkCard (configSealed crc16_ccitt (configDefault exampleMac))
            ENTRY 10 400 init) = -1.
Proof.
  destruct (X26_blank_slots_match_credential_zero crc16_ccitt exampleMac
              ENTRY 10 400 init) as (A & _ & C).
  split; [exact A | apply C; discriminate].
Defined.

(** ** Where notifications come from *)

Section Quiet.

(** A class [f] of notifications that, under the configuration
    [conf], no call of [ntfy] other than the boot notification adds
    to. *)
Variable conf : conf_t.
Variable f : event -> bool.
Hypothesis f_posts : forall ev, f ev = true -> isNtfy ev = true.
Hypothesis f_quiet :
  ntest (cfg_flags conf) CFG_NTFY_ENABLE = true
  \/ forall t g p m, m <> MsgBootUp -> f (Ntfy t g p m) = false.

Lemma quiet_app t evs :
  forallb (fun ev => negb (f ev)) evs = true ->
  filter f (t ++ evs) = filter f t.
Proof.
  intros H. rewrite filter_app.
  replace (filter f evs) with (@nil event); [apply app_nil_r|].
  induction evs as [|ev evs IH]; [reflexivity|].
  cbn [forallb] in H. apply andb_prop in H. destruct H as [A B].
  cbn [filter]. apply negb_true_iff in A. rewrite A. now apply IH.
Qed.

Lemma f_other ev : isNtfy ev = false -> f ev = false.
Proof.
  intros H. destruct (f ev) eqn:E; [|reflexivity].
  apply f_posts in E. congruence.
Qed.

Lemma quiet_ntfy t g p m w :
  m <> MsgBootUp ->
  filter f (trace (ntfy conf t g p m w)) = filter f (trace w).
Proof.
  intros M. rewrite ntfy_trace.
  destruct (ntest (cfg_flags conf) CFG_NTFY_ENABLE) eqn:D;
    [now rewrite app_nil_r|].
  destruct f_quiet as [Q|Q]; [congruence|].
  apply quiet_app. cbn [forallb]. now rewrite Q.
Qed.

Lemma quiet_debug m w : filter f (trace (debug m w)) = filter f (trace w).
Proof.
  unfold debug. cbn [emit trace]. apply quiet_app. cbn [forallb].
  now rewrite f_other.
Qed.

Lemma quiet_entryUnlock w :
  filter f (trace (entryUnlock w)) = filter f (trace w).
Proof.
  unfold entryUnlock. fields. rewrite <- !app_assoc.
  apply quiet_app. cbn [forallb app]. now rewrite !f_other.
Qed.

Lemma quiet_exitUnlock w :
  filter f (trace (exitUnlock w)) = filter f (trace w).
Proof.
  unfold exitUnlock. fields. rewrite <- !app_assoc.
  apply quiet_app. cbn [forallb app]. now rewrite !f_other.
Qed.

Lemma quiet_entryAnnounce e fc cc w :
  filter f (trace (entryAnnounce conf e fc cc w)) = filter f (trace w).
Proof.
  unfold entryAnnounce. cbv zeta.
  destruct (_ && _); [|reflexivity].
  destruct (_ <? _)%nat; fields; now apply quiet_ntfy.
Qed.

Lemma quiet_exitAnnounce e fc cc w :
  filter f (trace (exitAnnounce conf e fc cc w)) = filter f (trace w).
Proof.
  unfold exitAnnounce. cbv zeta.
  destruct (_ && _); [|reflexivity].
  destruct (_ <? _)%nat; fields; now apply quiet_ntfy.
Qed.

Lemma quiet_entryDecide e fc cc w :
  filter f (trace (entryDecide conf e fc cc w)) = filter f (trace w).
Proof.
  pose proof (catNumber_bound conf fc cc) as B.
  destruct (Nat.eq_dec (catNumber conf fc cc) CFG_NCATS) as [U|K].
  - rewrite (entryDecide_unknown _ _ _ _ _ U), quiet_ntfy by discriminate.
    apply quiet_debug.
  - assert (L : (catNumber conf fc cc < CFG_NCATS)%nat) by lia.
    destruct (permitted conf ENTRY (catNumber conf fc cc)) eqn:P.
    + rewrite (entryDecide_permitted _ _ _ _ _ L P), quiet_debug.
      transitivity (filter f (trace (entryAnnounce conf e fc cc
         (set_entryCloseAt (time_NULL e 301 + DOOR_TIMEOUT_DEFAULT)
            (entryUnlock w))))); [reflexivity|].
      rewrite quiet_entryAnnounce. apply quiet_entryUnlock.
    + rewrite (entryDecide_denied _ _ _ _ _ L P), quiet_debug.
      now apply quiet_ntfy.
Qed.

Lemma quiet_exitDecide e fc cc w :
  filter f (trace (exitDecide conf e fc cc w)) = filter f (trace w).
Proof.
  pose proof (catNumber_bound conf fc cc) as B.
  destruct (Nat.eq_dec (catNumber conf fc cc) CFG_NCATS) as [U|K].
  - rewrite (exitDecide_unknown _ _ _ _ _ U), quiet_ntfy by discriminate.
    apply quiet_debug.
  - assert (L : (catNumber conf fc cc < CFG_NCATS)%nat) by lia.
    destruct (permitted conf EXIT (catNumber conf fc cc)) eqn:P.
    + rewrite (exitDecide_permitted _ _ _ _ _ L P), quiet_debug.
      transitivity (filter f (trace (exitAnnounce conf e fc cc
         (set_exitCloseAt (time_NULL e 331 + DOOR_TIMEOUT_DEFAULT)
            (exitUnlock w))))); [reflexivity|].
      rewrite quiet_exitAnnounce. apply quiet_exitUnlock.
    + rewrite (exitDecide_denied _ _ _ _ _ L P), quiet_debug.
      now apply quiet_ntfy.
Qed.

Lemma quiet_entryFrame e w :
  filter f (trace (entryFrame conf e w)) = filter f (trace w).
Proof.
  destruct (test (state w) STATE_ENTRY_WEIGAND_DONE) eqn:D;
    [|now rewrite entryFrame_idle].
  destruct (Z.eq_dec (entryBitCount w) 26) as [C|C].
  - destruct (exitOpen w) eqn:X.
    + now rewrite (entryFrame_blocked _ _ _ D C X).
    + rewrite (entryFrame_26 _ _ _ D C X).
      transitivity (filter f (trace
        (entryDecide conf e (fst (decoded (entryDataBits w)))
           (snd (decoded (entryDataBits w)))
           (set_locals (fst (decoded (entryDataBits w)))
              (snd (decoded (entryDataBits w))) w)))); [reflexivity|].
      now rewrite quiet_entryDecide.
  - rewrite (entryFrame_width _ _ _ D C).
    transitivity
      (filter f (trace (debug (MsgUnknownFormat (entryBitCount w)) w)));
      [reflexivity|]. apply quiet_debug.
Qed.

Lemma quiet_exitFrame e w :
  filter f (trace (exitFrame conf e w)) = filter f (trace w).
Proof.
  destruct (test (state w) STATE_EXIT_WEIGAND_DONE) eqn:D;
    [|now rewrite exitFrame_idle].
  destruct (Z.eq_dec (exitBitCount w) 26) as [C|C].
  - destruct (entryOpen w) eqn:X.
    + now rewrite (exitFrame_blocked _ _ _ D C X).
    + rewrite (exitFrame_26 _ _ _ D C X).
      transitivity (filter f (trace
        (exitDecide conf e (fst (decoded (exitDataBits w)))
           (snd (decoded (exitDataBits w)))
           (set_locals (fst (decoded (exitDataBits w)))
              (snd (decoded (exitDataBits w))) w)))); [reflexivity|].
      now rewrite quiet_exitDecide.
  - rewrite (exitFrame_width _ _ _ D C).
    transitivity
      (filter f (trace (debug (MsgUnknownFormat (exitBitCount w)) w)));
      [reflexivity|]. apply quiet_debug.
Qed.

Lemma quiet_pollDeadlines e w :
  filter f (trace (pollDeadlines e w)) = filter f (trace w).
Proof. unfold pollDeadlines. now break_if. Qed.

Lemma quiet_doorSwing e w :
  filter f (trace (doorSwing e w)) = filter f (trace w).
Proof.
  unfold doorSwing. break_if; fields; rewrite ?quiet_app; try reflexivity;
    cbn [forallb]; now rewrite f_other.
Qed.

Lemma quiet_fromDetection e w :
  filter f (trace (fromDetection conf e w)) = filter f (trace w).
Proof.
  rewrite fromDetection_eq.
  rewrite exitRelock_trace, quiet_app.
  2:{ destruct (exitRelockCond _ _); [|reflexivity].
      cbn [forallb exitRelockEvents]. now rewrite !f_other. }
  rewrite entryRelock_trace, quiet_app.
  2:{ destruct (entryRelockCond _ _); [|reflexivity].
      cbn [forallb entryRelockEvents]. now rewrite !f_other. }
  rewrite lockedOpenDelay_trace, quiet_app.
  2:{ destruct (test _ _); [|reflexivity].
      cbn [forallb]. now rewrite f_other. }
  pose proof (quiet_ntfy (cfg_ntfy_topic conf) "lock,unlock" 3
                MsgLockedOpenExit) as QX.
  pose proof (quiet_ntfy (cfg_ntfy_topic conf) "lock,unlock" 3
                MsgLockedOpenEntry) as QE.
  assert (X : filter f (trace (exitLockedOpen conf e
                                 (entryLockedOpen conf e w)))
              = filter f (trace (entryLockedOpen conf e w))).
  { unfold exitLockedOpen. destruct (exitLockedOpenCond _ _); [|reflexivity].
    cbv zeta. fields. rewrite quiet_app by (cbn [forallb]; now rewrite f_other).
    rewrite QX by discriminate. apply quiet_exitUnlock. }
  rewrite X.
  unfold entryLockedOpen. destruct (entryLockedOpenCond _ _); [|reflexivity].
  cbv zeta. fields. rewrite quiet_app by (cbn [forallb]; now rewrite f_other).
  rewrite QE by discriminate. apply quiet_entryUnlock.
Qed.

End Quiet.

Lemma isBootNtfy_posts ev : isBootNtfy ev = true -> isNtfy ev = true.
Proof. destruct ev as [t g p m| | | |]; try discriminate. reflexivity. Qed.

Lemma isBootNtfy_quiet t g p m : m <> MsgBootUp -> isBootNtfy (Ntfy t g p m) = false.
Proof. intros M. destruct m; try reflexivity. now contradiction M. Qed.

Lemma ntest_BOOTUP_NTFY x :
  ntest x STATE_BOOTUP_NTFY = negb (test x STATE_BOOTUP_NTFY).
Proof. apply (ntest_flag x _ 6); [reflexivity | lia]. Qed.

Lemma ntest_NTFY_ENABLE x :
  ntest x CFG_NTFY_ENABLE = negb (test x CFG_NTFY_ENABLE).
Proof. apply (ntest_flag x _ 0); [reflexivity | lia]. Qed.

Lemma bootNotify_bootPosts conf w :
  bootPosts (trace (bootNotify conf w)) = bootPosts (trace w) ++ bootPost conf w.
Proof.
  unfold bootNotify, bootPost, bootPosts. rewrite ntest_BOOTUP_NTFY.
  destruct (negb (test (state w) STATE_BOOTUP_NTFY)
            && test (state w) STATE_GOT_IP_ADDRESS); cbn [andb];
    [|now rewrite app_nil_r].
  cbv zeta. fields. rewrite ntfy_trace, ntest_NTFY_ENABLE, filter_app.
  now destruct (test (cfg_flags conf) CFG_NTFY_ENABLE).
Qed.

Lemma bootNotify_posts_off conf w :
  ntest (cfg_flags conf) CFG_NTFY_ENABLE = true ->
  posts (trace (bootNotify conf w)) = posts (trace w).
Proof.
  intros D. unfold bootNotify. destruct (_ && _); [|reflexivity].
  cbv zeta. fields. unfold ntfy. now rewrite D.
Qed.

Lemma loop_posts_off conf e w :
  ntest (cfg_flags conf) CFG_NTFY_ENABLE = true ->
  posts (trace (loop conf e w)) = posts (trace w).
Proof.
  intros D. unfold posts.
  rewrite loop_eq, (quiet_fromDetection conf isNtfy (fun _ H => H) (or_introl D)),
    beforeDetection_eq,
    (quiet_doorSwing isNtfy (fun _ H => H)),
    (quiet_exitFrame conf isNtfy (fun _ H => H) (or_introl D)),
    (quiet_entryFrame conf isNtfy (fun _ H => H) (or_introl D)),
    (quiet_pollDeadlines isNtfy).
  exact (bootNotify_posts_off conf
           (set_locals (stack_facilityCode e) (stack_cardCode e) w) D).
Qed.

Lemma loop_bootPosts conf e w :
  bootPosts (trace (loop conf e w)) = bootPosts (trace w) ++ bootPost conf w.
Proof.
  unfold bootPosts at 1.
  rewrite loop_eq,
    (quiet_fromDetection conf isBootNtfy isBootNtfy_posts
       (or_intror isBootNtfy_quiet)),
    beforeDetection_eq,
    (quiet_doorSwing isBootNtfy isBootNtfy_posts),
    (quiet_exitFrame conf isBootNtfy isBootNtfy_posts
       (or_intror isBootNtfy_quiet)),
    (quiet_entryFrame conf isBootNtfy isBootNtfy_posts
       (or_intror isBootNtfy_quiet)),
    (quiet_pollDeadlines isBootNtfy).
  exact (bootNotify_bootPosts conf
           (set_locals (stack_facilityCode e) (stack_cardCode e) w)).
Qed.

(** X27.  With notifications switched off in the configuration in
    force, an iteration of the loop posts nothing: the notifications in
    the trace are those that were there before. *)
Theorem X27_no_post_when_notifications_are_off :
  forall conf e w,
    test (cfg_flags conf) CFG_NTFY_ENABLE = false ->
    posts (trace (loop conf e w)) = posts (trace w).
Proof.
  intros conf e w H. apply loop_posts_off.
  now rewrite ntest_NTFY_ENABLE, H.
Qed.

Lemma X27_no_post_when_notifications_are_off_witness :
  posts (trace (loop (st_conf healed) (constEnv 1020 100 0) kitAtEntry))
  = posts (trace kitAtEntry).
Proof.
  apply X27_no_post_when_notifications_are_off. vm_compute. reflexivity.
Defined.

(** ** The boot notification *)

Lemma front_boot conf e w :
  test (state (pollDeadlines e (bootNotify conf
     (set_locals (stack_facilityCode e) (stack_cardCode e) w))))
    STATE_BOOTUP_NTFY
  = test (state w) STATE_BOOTUP_NTFY || test (state w) STATE_GOT_IP_ADDRESS.
Proof.
  unfold pollDeadlines, bootNotify, ntfy. rewrite ntest_BOOTUP_NTFY.
  destruct (test (state w) STATE_BOOTUP_NTFY) eqn:B;
    destruct (test (state w) STATE_GOT_IP_ADDRESS) eqn:G;
    cbn [negb andb orb]; fields; rewrite ?B, ?G; cbn [negb andb];
    break_if; fields; flags; rewrite ?B; reflexivity.
Qed.

Lemma entryFrame_boot conf e w :
  test (state (entryFrame conf e w)) STATE_BOOTUP_NTFY =
    test (state w) STATE_BOOTUP_NTFY.
Proof.
  unfold entryFrame.
  destruct (test (state w) STATE_ENTRY_WEIGAND_DONE); [|reflexivity].
  unfold entryCaptureReset, weigandDecode.
  destruct (entryBitCount w =? 26); fields; cbn [andb]; flags; [|reflexivity].
  destruct (negb _); fields; [|reflexivity].
  rewrite entryDecide_state. fields. destruct (_ =? 1); flags; reflexivity.
Qed.

Lemma exitFrame_boot conf e w :
  test (state (exitFrame conf e w)) STATE_BOOTUP_NTFY =
    test (state w) STATE_BOOTUP_NTFY.
Proof.
  unfold exitFrame.
  destruct (test (state w) STATE_EXIT_WEIGAND_DONE); [|reflexivity].
  unfold exitCaptureReset, weigandDecode.
  destruct (exitBitCount w =? 26); fields; cbn [andb]; flags; [|reflexivity].
  destruct (negb _); fields; [|reflexivity].
  rewrite exitDecide_state. fields. destruct (_ =? 1); flags; reflexivity.
Qed.

Lemma doorSwing_boot e w :
  test (state (doorSwing e w)) STATE_BOOTUP_NTFY =
    test (state w) STATE_BOOTUP_NTFY.
Proof. unfold doorSwing. break_if; fields; flags; reflexivity. Qed.

Lemma fromDetection_boot conf e w :
  test (state (fromDetection conf e w)) STATE_BOOTUP_NTFY =
    test (state w) STATE_BOOTUP_NTFY.
Proof.
  rewrite fromDetection_eq.
  assert (A : forall v, test (state (exitRelock e v)) STATE_BOOTUP_NTFY
                        = test (state v) STATE_BOOTUP_NTFY).
  { intros v. unfold exitRelock, exitLock. break_if; fields; flags;
      reflexivity. }
  assert (B : forall v, test (state (entryRelock e v)) STATE_BOOTUP_NTFY
                        = test (state v) STATE_BOOTUP_NTFY).
  { intros v. unfold entryRelock, entryLock. break_if; fields; flags;
      reflexivity. }
  assert (C : forall v, test (state (lockedOpenDelay v)) STATE_BOOTUP_NTFY
                        = test (state v) STATE_BOOTUP_NTFY).
  { intros v. unfold lockedOpenDelay. now break_if. }
  assert (D : forall v, test (state (exitLockedOpen conf e v))
                          STATE_BOOTUP_NTFY
                        = test (state v) STATE_BOOTUP_NTFY).
  { intros v. unfold exitLockedOpen, exitUnlock, ntfy.
    break_if; fields; flags; reflexivity. }
  assert (E : forall v, test (state (entryLockedOpen conf e v))
                          STATE_BOOTUP_NTFY
                        = test (state v) STATE_BOOTUP_NTFY).
  { intros v. unfold entryLockedOpen, entryUnlock, ntfy.
    break_if; fields; flags; reflexivity. }
  now rewrite A, B, C, D, E.
Qed.

Lemma loop_boot conf e w :
  test (state (loop conf e w)) STATE_BOOTUP_NTFY =
    test (state w) STATE_BOOTUP_NTFY || test (state w) STATE_GOT_IP_ADDRESS.
Proof.
  rewrite loop_eq, fromDetection_boot, beforeDetection_eq, doorSwing_boot,
    exitFrame_boot, entryFrame_boot. apply front_boot.
Qed.

Lemma bootPost_length conf w : (List.length (bootPost conf w) <= 1)%nat.
Proof. unfold bootPost. destruct (_ && _); cbn; lia. Qed.

Lemma reachable_bootPosts w :
  reachable w ->
  (List.length (bootPosts (trace w)) <= 1)%nat
  /\ (test (state w) STATE_BOOTUP_NTFY = false -> bootPosts (trace w) = []).
Proof.
  induction 1 as [|conf e w R [L Z0]|i now w R [L Z0]|c w R [L Z0]].
  - split; [cbn; lia | reflexivity].
  - rewrite loop_bootPosts, loop_boot.
    destruct (test (state w) STATE_BOOTUP_NTFY) eqn:B; cbn [orb].
    + assert (P : bootPost conf w = [])
        by (unfold bootPost; now rewrite B).
      rewrite P, app_nil_r. split; [exact L | discriminate].
    + rewrite (Z0 eq_refl). cbn [app]. split; [apply bootPost_length|].
      intros G. unfold bootPost. now rewrite G, andb_false_r.
  - assert (T : trace (runIsr i now w) = trace w
                /\ test (state (runIsr i now w)) STATE_BOOTUP_NTFY
                   = test (state w) STATE_BOOTUP_NTFY).
    { destruct i; cbn [runIsr];
        unfold ISR_ENTRY_D0, ISR_ENTRY_D1, ISR_EXIT_D0, ISR_EXIT_D1, ISR_DOOR;
        break_if; fields; flags; split; reflexivity. }
    destruct T as [T F]. now rewrite T, F.
  - assert (T : trace (runCallback c w) = trace w
                /\ test (state (runCallback c w)) STATE_BOOTUP_NTFY
                   = test (state w) STATE_BOOTUP_NTFY).
    { destruct c; cbn [runCallback]; fields; flags; split; reflexivity. }
    destruct T as [T F]. now rewrite T, F.
Qed.

(** X28.  One boot notification.  An iteration posts the boot
    notification exactly when the boot flag is clear, the device has an
    IP address and notifications are on, and it sets the boot flag
    whenever the device has an IP address - also when notifications are
    off and nothing was posted.  Hence the trace of a reachable state
    holds at most one boot notification. *)
Theorem X28_one_boot_notification :
  (forall conf e w,
     bootPosts (trace (loop conf e w)) = bootPosts (trace w) ++ bootPost conf w
     /\ test (state (loop conf e w)) STATE_BOOTUP_NTFY
        = test (state w) STATE_BOOTUP_NTFY
          || test (state w) STATE_GOT_IP_ADDRESS)
  /\ (forall w, reachable w ->
        (List.length (bootPosts (trace w)) <= 1)%nat).
Proof.
  split.
  - intros conf e w. split; [apply loop_bootPosts | apply loop_boot].
  - intros w R. now apply reachable_bootPosts.
Qed.

Lemma X28_one_boot_notification_witness :
  (List.length
     (bootPosts
        (trace (loop exampleConf (constEnv 0 1 0) (runCallback GotIP init))))
   <= 1)%nat.
Proof.
  apply (proj2 X28_one_boot_notification).
  apply reach_loop, reach_callback, reach_init.
Defined.

(** ** A locked-open lock released in the iteration that detects it *)

Lemma entryLocked_side w :
  entryLockState w = Locked ->
  entryOpen w = false /\ entryLockedOpenFlag w = false.
Proof. unfold entryLockState. apply lockState_Locked. Qed.

Lemma exitLocked_side w :
  exitLockState w = Locked ->
  exitOpen w = false /\ exitLockedOpenFlag w = false.
Proof. unfold exitLockState. apply lockState_Locked. Qed.

Lemma entryLockedOpenCond_sides e w w' :
  entrySide w' = entrySide w ->
  entryLockedOpenCond e w' = entryLockedOpenCond e w.
Proof.
  intros S. rewrite (entrySide_eq w) in S. apply entrySide_inv in S.
  destruct S as (S1 & S2 & _ & S4 & _). unfold entryLockedOpenCond.
  rewrite !ntest_ENTRY_OPEN, !ntest_ENTRY_LOCKED_OPEN.
  unfold entryOpen, entryLockedOpenFlag in S1, S2. now rewrite S1, S2, S4.
Qed.

Lemma exitLockedOpenCond_sides e w w' :
  exitSide w' = exitSide w ->
  exitLockedOpenCond e w' = exitLockedOpenCond e w.
Proof.
  intros S. rewrite (exitSide_eq w) in S. apply exitSide_inv in S.
  destruct S as (S1 & S2 & _ & S4 & _). unfold exitLockedOpenCond.
  rewrite !ntest_EXIT_OPEN, !ntest_EXIT_LOCKED_OPEN.
  unfold exitOpen, exitLockedOpenFlag in S1, S2. now rewrite S1, S2, S4.
Qed.

Lemma fromDetection_entry_released conf e w :
  entryLockedOpenCond e w = true ->
  digitalRead e 376 = 0 ->
  entryCloseAt w < time_NULL e 376 ->
  entrySide (fromDetection conf e w) =
    (false, false, 0, entryCloseTime w,
     pinEvents PIN_ENTRY_SOLENOID (trace w)
       ++ entryUnlockPins ++ entryLockPins)
  /\ memo (fromDetection conf e w) = (0, 0).
Proof.
  intros C S T. rewrite fromDetection_eq.
  assert (S8 : entrySide (lockedOpenDelay (exitLockedOpen conf e
                            (entryLockedOpen conf e w)))
               = (true, true, entryCloseAt w, entryCloseTime w,
                  pinEvents PIN_ENTRY_SOLENOID (trace w) ++ entryUnlockPins)).
  { rewrite (proj1 (lockedOpenDelay_sides _)),
      (proj1 (exitLockedOpen_entrySide _ _ _)), entryLockedOpen_entrySide.
    now rewrite C. }
  revert S8.
  generalize (lockedOpenDelay (exitLockedOpen conf e
                (entryLockedOpen conf e w))).
  intros w8 S8. apply entrySide_inv in S8.
  destruct S8 as (O & F & A & Ct & P).
  assert (C8 : entryRelockCond e w8 = true)
    by (apply entryRelockCond_true; [exact O | exact S | now rewrite A]).
  destruct (entryRelock_fires e w8 C8) as [Fr M].
  rewrite F, Ct, P, <- app_assoc in Fr.
  revert Fr M. generalize (entryRelock e w8). intros w9 Fr M. split.
  - now rewrite (proj1 (exitRelock_entrySide _ _)).
  - rewrite exitRelock_memo, M. now destruct (exitRelockCond e w9).
Qed.

Lemma fromDetection_exit_released conf e w :
  exitLockedOpenCond e w = true ->
  digitalRead e 386 = 0 ->
  exitCloseAt w < time_NULL e 386 ->
  exitSide (fromDetection conf e w) =
    (false, false, 0, exitCloseTime w,
     pinEvents PIN_EXIT_SOLENOID (trace w)
       ++ exitUnlockPins ++ exitLockPins)
  /\ memo (fromDetection conf e w) = (0, 0).
Proof.
  intros C S T. rewrite fromDetection_eq.
  pose proof (proj1 (entryLockedOpen_exitSide conf e w)) as S6.
  assert (S9 : exitSide (entryRelock e (lockedOpenDelay
                 (exitLockedOpen conf e (entryLockedOpen conf e w))))
               = (true, true, exitCloseAt w, exitCloseTime w,
                  pinEvents PIN_EXIT_SOLENOID (trace w) ++ exitUnlockPins)).
  { rewrite (proj1 (entryRelock_exitSide _ _)),
      (proj1 (proj2 (lockedOpenDelay_sides _))), exitLockedOpen_exitSide.
    rewrite (exitLockedOpenCond_sides e _ _ S6), C.
    rewrite (exitSide_eq w) in S6. apply exitSide_inv in S6.
    destruct S6 as (_ & _ & S3 & S4 & S5). now rewrite S3, S4, S5. }
  revert S9.
  generalize (entryRelock e (lockedOpenDelay
                (exitLockedOpen conf e (entryLockedOpen conf e w)))).
  intros w9 S9. apply exitSide_inv in S9.
  destruct S9 as (O & F & A & Ct & P).
  assert (C9 : exitRelockCond e w9 = true)
    by (apply exitRelockCond_true; [exact O | exact S | now rewrite A]).
  destruct (exitRelock_fires e w9 C9) as [Fr M].
  rewrite F, Ct, P, <- app_assoc in Fr. split; assumption.
Qed.

(** X29.  A lock found locked open is released in the same iteration
    when the door has shut by then.  Take a direction that is Locked
    with no completed frame, re-locked less than 2 s ago, whose stored
    deadline is before the clock read at the re-lock check.  If the
    sensor reads open at the detection (line 362 or 368) and shut at
    the re-lock check 500 ms later (line 376 or 386), the iteration
    pulses the solenoid to unlock and then to lock, ends with the
    direction Locked and the locked-open flag clear, clears the memo,
    and leaves the re-lock time as it was - so the detection is armed
    again in the next iteration. *)
Theorem X29_locked_open_released_at_once :
  forall conf e w,
    (entryLockState w = Locked ->
     entryFrameReady e w = false ->
     digitalRead e 362 <> 0 ->
     time_NULL e 362 - entryCloseTime w < 2 ->
     digitalRead e 376 = 0 ->
     entryCloseAt w < time_NULL e 376 ->
     entrySide (loop conf e w) =
       (false, false, 0, entryCloseTime w,
        pinEvents PIN_ENTRY_SOLENOID (trace w)
          ++ entryUnlockPins ++ entryLockPins)
     /\ memo (loop conf e w) = (0, 0))
    /\ (exitLockState w = Locked ->
        exitFrameReady e w = false ->
        digitalRead e 368 <> 0 ->
        time_NULL e 368 - exitCloseTime w < 2 ->
        digitalRead e 386 = 0 ->
        exitCloseAt w < time_NULL e 386 ->
        exitSide (loop conf e w) =
          (false, false, 0, exitCloseTime w,
           pinEvents PIN_EXIT_SOLENOID (trace w)
             ++ exitUnlockPins ++ exitLockPins)
        /\ memo (loop conf e w) = (0, 0)).
Proof.
  intros conf e w. split; intros L Q S T S' D.
  - destruct (entryLocked_side w L) as [O F].
    assert (B : entrySide (beforeDetection conf e w) = entrySide w)
      by (apply beforeDetection_entry_still;
          [exact Q | now rewrite O, andb_false_r]).
    pose proof (entryLockedOpenCond_sides e _ _ B) as C.
    rewrite (entryLockedOpenCond_true e w L S T) in C.
    rewrite loop_eq. revert B C. generalize (beforeDetection conf e w).
    intros w5 B C.
    rewrite (entrySide_eq w) in B. apply entrySide_inv in B.
    destruct B as (_ & _ & B3 & B4 & B5).
    rewrite <- B4, <- B5.
    apply fromDetection_entry_released; [exact C | exact S' | now rewrite B3].
  - destruct (exitLocked_side w L) as [O F].
    assert (B : exitSide (beforeDetection conf e w) = exitSide w)
      by (apply beforeDetection_exit_still;
          [exact Q | now rewrite O, andb_false_r]).
    pose proof (exitLockedOpenCond_sides e _ _ B) as C.
    rewrite (exitLockedOpenCond_true e w L S T) in C.
    rewrite loop_eq. revert B C. generalize (beforeDetection conf e w).
    intros w5 B C.
    rewrite (exitSide_eq w) in B. apply exitSide_inv in B.
    destruct B as (_ & _ & B3 & B4 & B5).
    rewrite <- B4, <- B5.
    apply fromDetection_exit_released; [exact C | exact S' | now rewrite B3].
Qed.

Lemma X29_locked_open_released_at_once_witness :
  entrySide (loop exampleConf flickerEnv entryRelocked) =
    (false, false, 0, entryCloseTime entryRelocked,
     pinEvents PIN_ENTRY_SOLENOID (trace entryRelocked)
       ++ entryUnlockPins ++ entryLockPins)
  /\ memo (loop exampleConf flickerEnv entryRelocked) = (0, 0).
Proof.
  apply (proj1 (X29_locked_open_released_at_once exampleConf flickerEnv
                  entryRelocked));
    vm_compute; try reflexivity; discriminate.
Defined.
